(* ===== verification/_CoqProject ===== *)
-Q . S2P
Prelude.v
Mmu.v
KString.v
Spinlock.v
Pages.v
Kalloc.v
KallocBst.v
Vm.v
Sched.v
Process.v
Syscall.v
Trap.v
RoundRobin.v
Sleeplock.v
Block.v
Bio.v
Log.v
Fs.v
Pipe.v
File.v
Exec.v
Sysfile.v
Device.v
Ide.v
Console.v
User.v
Grep.v
Umalloc.v
Memtest.v
Tests.v
Shell.v
Lapic.v
Mp.v
Kernel.v
KernelInv.v
Boot.v
Mkfs.v
