(* ===== verification/Prelude.v ===== *)
(** * A verification library for the xv6 kernel with an MLFQ scheduler

    The repository holds the xv6 kernel for x86 twice: src/xv6-public is the original and
    src/xv6-public-modificado the course project's version, whose scheduler is a two-level feedback
    queue and whose page allocator searches its free list for the best fit.  The two trees differ in
    proc.c, proc.h, trap.c, kalloc.c and the Makefile only; this library models the modified tree,
    the original's scheduler and page allocator where the two are compared, and the tree allocator
    kept in "src/Archivos de prueba".  File names below are relative to src/xv6-public-modificado.

    ** How C code is modelled

    A piece of kernel code is a function from a state to an [outcome] (this file): it returns, hands
    the CPU over inside [swtch] ([Switch], with the rest of the thread as a function of the state it
    is resumed in), panics, spins on a lock another CPU holds, runs into undefined behaviour (a null
    or dangling pointer, a page fault in the kernel), or exhausts the model's own loop bound
    ([NoFuel]).  [bind] sequences, [zoom] runs the code of one component inside a larger state
    through a [lens].  Machine integers are [Z] with their wrap-around written out ([u32], [s32]
    and so on).  [wp] says that code returns and what then holds; [preserves] that an invariant
    holds whenever the thread hands the CPU over and when it returns, however it is resumed, which
    is how the theorems speak of every interleaving; [steady] that a component is not touched.

    ** The files of the kernel

    - Prelude.v: this file; integers, outcomes, lenses, the rules and the tactics [preserve],
      [hold] and [straighten], lists, ring buffers.
    - Mmu.v (mmu.h, memlayout.h): addresses, page-table entries, segment and gate descriptors.
    - KString.v (string.c, the memory and string routines of ulib.c, the string instructions of
      x86.h): byte memory, memset, memmove, string copies.
    - Spinlock.v (spinlock.c, mycpu of proc.c): one CPU's view of the machine, interrupt nesting,
      acquire and release; a step relation for any number of CPUs.
    - Pages.v: the interface [PageAllocator] between the page allocator and its clients.
    - Kalloc.v (kalloc.c of both trees): the list allocators, instances of that interface.
    - KallocBst.v ("src/Archivos de prueba/kalloc_bestfit.c"): the search-tree allocator.
    - Vm.v (vm.c): page tables and user memory, over any [PageAllocator].
    - Sched.v (proc.c, proc.h, switchuvm of vm.c): the process table, the scheduler, sched, yield,
      sleep, wakeup, kill.  Process.v (proc.c): creation and end of processes, over the interface
      [ProcFs] of the file system.
    - Syscall.v (syscall.c, sysproc.c): arguments from the user's stack, the dispatch table.
    - Trap.v (trap.c): traps, the tick counter, the demotion rule.
    - RoundRobin.v (src/xv6-public/proc.c): the original's scheduler, and the order of the turns
      under both schedulers.
    - Sleeplock.v (sleeplock.c); Block.v: the interface [BlockCache] of the buffer cache to its
      clients; Bio.v (bio.c, memide.c): the cache and the memory disk, an instance of it;
      Log.v (log.c): transactions and recovery; Fs.v (fs.c): blocks, inodes, directories, paths.
    - Pipe.v (pipe.c), File.v (file.c, pipealloc), Exec.v (exec.c), Sysfile.v (sysfile.c).  The last
      defines the instances [file_sys] of [ProcFs] and [file_calls] of [SysFile], which close the
      interfaces of Process.v and Syscall.v with the functions of File.v, Fs.v, Log.v and
      Sysfile.v.
    - Device.v (uart.c, kbd.c, ioapic.c): the interface [Ports] to the hardware and the simple
      devices over it; Ide.v (ide.c): the disk driver, another implementation of the driver interface
      of Bio.v; Console.v (console.c): the screen, cprintf, line editing, procdump;
      Lapic.v (lapic.c, picirq.c): the interrupt controllers and the clock; Mp.v (mp.c): the
      multiprocessor tables.
    - Kernel.v (main.c): the state of the whole kernel, every interface closed by the component that
      implements it, and main(); KernelInv.v: what every thread of it preserves.
    - Boot.v (bootmain.c): the boot loader.

    ** The files of the programs

    - User.v (printf.c, ulib.c and the small programs): the interface [Usys] of the system calls to a
      program, and cat, echo, wc, ls, ln, mkdir, rm, kill, init, zombie over it.  Grep.v (grep.c),
      Umalloc.v (umalloc.c), Shell.v (sh.c), Memtest.v (memtest.c) and Tests.v (forktest.c,
      stressfs.c, schedtest.c) use the same interface.
    - Mkfs.v (mkfs.c): the builder of the file-system image, which runs on the host.

    A component's state is a record and a class [HasX] gives the lens to it; the operations of a
    component take the classes of the components they call.  Witness kernels ([kernel_w],
    [kern_b], [kern_l], [kern_f], [kernel_s]) are products of component states on which every
    hypothesis of the theorems is discharged.

    ** The theorems

    - Scheduling: what one pass of the scheduler dispatches (scheduler_dispatch), that in the whole
      kernel, in every interleaving, priorities and ticks stay well-formed (kernel_keeps_queues,
      mlfq_invariant for proc.c alone), the effect of a timer tick (timer_tick_effect).  The order of
      the turns: the original gives each RUNNABLE process one turn in every pass
      (original_round_robin); the modified scheduler, against its comments, gives one turn to the
      first process of each queue and none to the others (mlfq_turns, no_round_robin), and runs low
      processes although high ones are runnable (scheduler_low_despite_high).
    - Sleep and wakeup lose no wakeup (sleep_wakeup); kill and its mark (kill_effect,
      fork_keeps_kill_mark); exit hands children to init (exit_reparents).
    - Locks: matched acquire and release (acquire_release_balanced), mutual exclusion for any
      number of CPUs (spinlock_mutual_exclusion).
    - Memory: the best-fit allocator behaves as the original stack of pages (best_fit_is_lifo),
      kinit1 frees every page of a range; the tree allocator's search and insertion refine a
      functional tree (best_fit_minimal, bst_insert_refines), its pool loses pages
      (kinit1_drops_pages); mappages and copyout on page tables; string routines and descriptors.
    - System calls: arguments are accepted exactly when they lie in user memory
      (argptr_in_user_memory, fetchstr_bounded).
    - Disk: the buffer cache shows each block's latest contents (buffer_read_modify_write), never
      caches a block twice in any interleaving (bcache_no_duplicates); ideintr completes the request
      at the head of the queue and starts the next (ideintr_completes); a crash at any write of a
      commit leaves, after recovery, the state before or after the transaction
      (commit_crash_safe), recovery can be interrupted and repeated (recovery_idempotent), the log
      cannot overflow (begin_op_reserves, log_write_absorbs).
    - Files: reads return the file's bytes (readi_reads), inodes survive the disk
      (inode_roundtrip), the inode cache is well-formed in every interleaving
      (icache_well_formed), paths are walked by components (skipelem_components); a pipe is a
      queue (pipewrite_enqueues, piperead_dequeues); references to open files are counted and the
      last one frees the pipe's page (fileclose_pipe); dup takes the lowest descriptor
      (sys_dup_lowest).  mkfs writes an image with the files it was given (mkfs_files), and the
      kernel's readi() on that image returns their bytes (mkfs_readi).
    - Machine: consoleintr edits a line as typed (consoleintr_edits); the clock is never read while it
      changes (cmostime_consistent); mpinit reads the processors of the table (mpinit_reads_table)
      and loops on an unknown entry (mpinit_unknown_entry); the boot loader reads the bytes of the
      disk (readseg_reads).
    - Programs: the shell parses what a command prints as back to the command
      (parsecmd_roundtrip) and its parser ends on every line (parseline_terminates); malloc and
      free keep a sorted ring of disjoint blocks (malloc_allocates, free_gives_back); grep's matcher
      decides the language of the expression (match_language) and grep prints the lines in it
      (grep_prints_matching_lines); printf and atoi are inverse (printf_atoi); forktest succeeds
      (forktest_passes); memtest overwrites its own blocks (alternating_overlaps).

    ** Bounds and fuel

    Loops of the C code over a bounded range recurse on the length of the range.  Where the range is
    data (a file's size, a page table, a free list) the fuel is computed from it: one round per
    page, block or directory entry and one more for the exit test ([rw_fuel], [dir_fuel],
    [scan_fuel], which is the number of pages of physical memory; in grep one round per byte left
    to read).  Loops around sleep() and loops that poll a device take the [fuel] of the section, one
    unit per wakeup or per poll: the theorems hold for every value of it, or say which is enough.
    Theorems stated with [wp] include that the fuel is enough.

    ** Not modelled

    The assembly files: what the C code relies on is in the model ([Switch] for swtch.S, a trap frame
    for trapasm.S, the class [Usys] for usys.S).  The devices themselves are parameters: the classes
    [Ports] and [Hardware], with the protocol of a device as hypotheses of the theorem that needs it
    and a concrete device in its witness.  The machine's memory is a map from addresses to bytes,
    without caches or reordering; the struct bytes of locks, processes, buffers and pipes are records
    instead of memory.  A user program does not share memory with its system calls: a buffer is a
    value.  usertests.c is a list of concrete runs of the system calls.  In mkfs.c, opening the files
    of the host; an argument is what read() returns for it. *)
From stdpp Require Export base tactics numbers list gmap strings.
From Stdlib Require Export ZArith Lia.
#[global] Open Scope Z_scope.

(** ** Machine integers: a w-bit C integer is a [Z] with its wrap-around written out. *)
Definition u8 (z : Z) : Z := z mod 2 ^ 8.
Definition u16 (z : Z) : Z := z mod 2 ^ 16.
Definition u32 (z : Z) : Z := z mod 2 ^ 32.

(** Two's complement reading of a 32-bit (resp. 16-, 8-bit) pattern. *)
Definition s32 (z : Z) : Z := if u32 z <? 2 ^ 31 then u32 z else u32 z - 2 ^ 32.
Definition s16 (z : Z) : Z := if u16 z <? 2 ^ 15 then u16 z else u16 z - 2 ^ 16.
Definition s8 (z : Z) : Z := if u8 z <? 2 ^ 7 then u8 z else u8 z - 2 ^ 8.

(** The C escape at the end of a message. *)
Definition nl : string := String (Ascii.ascii_of_nat 10) EmptyString.

(** ** Kernel threads

    A piece of kernel code is a state transformer whose run ends in an [outcome].  Besides
    returning, kernel code may hand the CPU over inside [swtch]: that is [Switch s k], where [s]
    is the state the thread leaves behind and [k] what it does once somebody switches back to
    it, in whatever state it then finds. *)
Inductive outcome (S A : Type) : Type :=
| Done (a : A) (s : S)                       (* returned [a] *)
| Switch (s : S) (k : S -> outcome S A)      (* is inside [swtch] *)
| Panic (msg : string)                       (* called [panic(msg)] *)
| Spin                                       (* busy-waits for another CPU *)
| Undef                                      (* undefined behaviour in C *)
| NoFuel.                                    (* the model's own loop bound ran out *)
Arguments Done {S A} _ _.
Arguments Switch {S A} _ _.
Arguments Panic {S A} _.
Arguments Spin {S A}.
Arguments Undef {S A}.
Arguments NoFuel {S A}.

Definition M (S A : Type) : Type := S -> outcome S A.

Fixpoint bind_outcome {S A B} (o : outcome S A) (f : A -> M S B) : outcome S B :=
  match o with
  | Done a s => f a s
  | Switch s k => Switch s (fun s' => bind_outcome (k s') f)
  | Panic msg => Panic msg
  | Spin => Spin
  | Undef => Undef
  | NoFuel => NoFuel
  end.

Definition ret {S A} (a : A) : M S A := fun s => Done a s.
Definition bind {S A B} (m : M S A) (f : A -> M S B) : M S B := fun s => bind_outcome (m s) f.
Definition panic {S A} (msg : string) : M S A := fun _ => Panic msg.
Definition undef {S A} : M S A := fun _ => Undef.
Definition spin {S A} : M S A := fun _ => Spin.
Definition nofuel {S A} : M S A := fun _ => NoFuel.
Definition gets {S A} (f : S -> A) : M S A := fun s => Done (f s) s.
Definition modify {S} (f : S -> S) : M S unit := fun s => Done tt (f s).

(** The bare context switch: the thread resumes in whatever state it is switched back to. *)
Definition switch {S} : M S unit := fun s => Switch s (fun s' => Done tt s').

(** Reading a cell of an array or through a pointer: outside the object C is undefined. *)
Definition getopt {S A} (f : S -> option A) : M S A :=
  fun s => match f s with Some a => Done a s | None => Undef end.

Declare Scope kern_scope.
Delimit Scope kern_scope with kern.
Notation "'let*' x ':=' m 'in' k" := (bind m (fun x => k))
  (at level 10, x pattern, m at level 200, k at level 200) : kern_scope.
Notation "m ';;;' k" := (bind m (fun _ => k))
  (at level 100, k at level 200, right associativity) : kern_scope.
#[global] Open Scope kern_scope.

Definition when {S} (b : bool) (m : M S unit) : M S unit := if b then m else ret tt.

(** [for x in l do body x], the C loops over a whole table. *)
Fixpoint for_each {S X} (l : list X) (body : X -> M S unit) : M S unit :=
  match l with
  | [] => ret tt
  | x :: l' => body x;;; for_each l' body
  end.

(** ** Components inside larger states *)
Record lens (S T : Type) := Lens { view : S -> T; put : T -> S -> S }.
Arguments Lens {S T} _ _.
Arguments view {S T} _ _.
Arguments put {S T} _ _ _.

Class LensLaws {S T} (l : lens S T) : Prop := {
  view_put : forall t s, view l (put l t s) = t;
  put_view : forall s, put l (view l s) s = s;
  put_put : forall t t' s, put l t (put l t' s) = put l t s
}.

Definition compose_lens {S T U} (l : lens S T) (k : lens T U) : lens S U :=
  Lens (fun s => view k (view l s)) (fun u s => put l (put k u (view l s)) s).

(** The two sides of a pair. *)
Definition fst_lens {A B} : lens (A * B) A := Lens fst (fun a s => (a, snd s)).
Definition snd_lens {A B} : lens (A * B) B := Lens snd (fun b s => (fst s, b)).

Fixpoint zoom_outcome {S T A} (l : lens S T) (s : S) (o : outcome T A) : outcome S A :=
  match o with
  | Done a t => Done a (put l t s)
  | Switch t k => Switch (put l t s) (fun s' => zoom_outcome l s' (k (view l s')))
  | Panic msg => Panic msg
  | Spin => Spin
  | Undef => Undef
  | NoFuel => NoFuel
  end.

(** Two components that do not overlap. *)
Class LensIndep {S T U} (l : lens S T) (k : lens S U) : Prop := {
  indep_view_l : forall u s, view l (put k u s) = view l s;
  indep_view_r : forall t s, view k (put l t s) = view k s;
  indep_put : forall t u s, put k u (put l t s) = put l t (put k u s)
}.

(** Run a component's operation inside a state that contains the component. *)
Definition zoom {S T A} (l : lens S T) (m : M T A) : M S A :=
  fun s => zoom_outcome l s (m (view l s)).

(** ** Reasoning about runs

    [wp m Q s]: from [s], [m] returns (no panic, no switch, no undefined behaviour) and the
    result and final state satisfy [Q]. *)
Definition wp {S A} (m : M S A) (Q : A -> S -> Prop) (s : S) : Prop :=
  match m s with Done a s' => Q a s' | _ => False end.

(** The same for a run already under way, and: the run hands the CPU over with [Phi] true of the
    state and of the rest of the run. *)
Definition returns {S A} (o : outcome S A) (Q : A -> S -> Prop) : Prop :=
  match o with Done a s => Q a s | _ => False end.
Definition switches {S A} (o : outcome S A) (Phi : S -> (S -> outcome S A) -> Prop) : Prop :=
  match o with Switch s k => Phi s k | _ => False end.

(** [always I o]: at every point where the run hands the CPU over, and at its end, [I] holds,
    provided it held whenever the thread was switched back to. *)
Fixpoint always {S A} (I : S -> Prop) (o : outcome S A) : Prop :=
  match o with
  | Done _ s => I s
  | Switch s k => I s /\ forall s', I s' -> always I (k s')
  | _ => True
  end.

Definition preserves {S A} (I : S -> Prop) (m : M S A) : Prop := forall s, I s -> always I (m s).

(** [ends Q o]: however the thread is resumed, if it returns, [Q] holds at that moment. *)
Fixpoint ends {S A} (Q : A -> S -> Prop) (o : outcome S A) : Prop :=
  match o with
  | Done a s => Q a s
  | Switch _ k => forall s', ends Q (k s')
  | _ => True
  end.

(** [wlp m Q s]: from [s], [m] does not hand the CPU over, and if it returns, [Q] holds.
    [straight m]: it never hands the CPU over. *)
Definition wlp {S A} (m : M S A) (Q : A -> S -> Prop) (s : S) : Prop :=
  match m s with Done a s' => Q a s' | Switch _ _ => False | _ => True end.
Definition straight {S A} (m : M S A) : Prop := forall s, wlp m (fun _ _ => True) s.

(** [leaves l m]: if [m] returns without having handed the CPU over, the component is as it was. *)
Definition leaves {S T A} (l : lens S T) (m : M S A) : Prop :=
  forall s a s', m s = Done a s' -> view l s' = view l s.

(** [steady l m]: what is true of the component when [m] starts, and whenever the thread is
    switched back to, is still true whenever [m] hands the CPU over and when it returns. *)
Definition steady {S T A} (l : lens S T) (m : M S A) : Prop :=
  forall J : T -> Prop, preserves (fun s => J (view l s)) m.

(** ** Lemmas *)
Lemma wp_ret {S A} (a : A) (Q : A -> S -> Prop) s : Q a s -> wp (ret a) Q s.
Proof. done. Qed.

Lemma wp_bind {S A B} (m : M S A) (f : A -> M S B) Q s :
  wp m (fun a => wp (f a) Q) s -> wp (bind m f) Q s.
Proof. unfold wp, bind. destruct (m s); simpl; tauto. Qed.

Lemma wp_gets {S A} (f : S -> A) (Q : A -> S -> Prop) s : Q (f s) s -> wp (gets f) Q s.
Proof. done. Qed.

Lemma wp_modify {S} (f : S -> S) (Q : unit -> S -> Prop) s : Q tt (f s) -> wp (modify f) Q s.
Proof. done. Qed.

Lemma wp_getopt {S A} (f : S -> option A) (Q : A -> S -> Prop) a s :
  f s = Some a -> Q a s -> wp (getopt f) Q s.
Proof. intros Hf HQ. unfold wp, getopt. by rewrite Hf. Qed.

Lemma wp_mono {S A} (m : M S A) (Q Q' : A -> S -> Prop) s :
  (forall a s', Q a s' -> Q' a s') -> wp m Q s -> wp m Q' s.
Proof. unfold wp. destruct (m s); auto. Qed.

Lemma wp_done {S A} (m : M S A) (Q : A -> S -> Prop) s :
  wp m Q s <-> exists a s', m s = Done a s' /\ Q a s'.
Proof.
  unfold wp. split.
  - destruct (m s) as [a s'| | | | |]; [eauto|done..].
  - intros (a & s' & -> & HQ). done.
Qed.

Lemma switches_bind {S A B} (m : M S A) (f : A -> M S B) Phi s :
  switches (m s) (fun s' k => Phi s' (fun s'' => bind_outcome (k s'') f)) ->
  switches (bind m f s) Phi.
Proof. unfold bind. by destruct (m s). Qed.

Lemma switches_wp_bind {S A B} (m : M S A) (f : A -> M S B) Phi s :
  wp m (fun a s' => switches (f a s') Phi) s -> switches (bind m f s) Phi.
Proof. unfold wp, bind. by destruct (m s). Qed.

Lemma switches_mono {S A} (o : outcome S A) (Phi Psi : S -> (S -> outcome S A) -> Prop) :
  (forall s k, Phi s k -> Psi s k) -> switches o Phi -> switches o Psi.
Proof. intros H. destruct o; simpl; auto. Qed.

Lemma returns_bind {S A B} (o : outcome S A) (f : A -> M S B) Q :
  returns o (fun a s => wp (f a) Q s) -> returns (bind_outcome o f) Q.
Proof. by destruct o. Qed.

Lemma returns_mono {S A} (o : outcome S A) (Q Q' : A -> S -> Prop) :
  (forall a s, Q a s -> Q' a s) -> returns o Q -> returns o Q'.
Proof. intros H. destruct o; simpl; auto. Qed.

Lemma switches_outcome_bind {S A B} (o : outcome S A) (f : A -> M S B) Phi :
  returns o (fun a s => switches (f a s) Phi) -> switches (bind_outcome o f) Phi.
Proof. by destruct o. Qed.

Lemma wp_zoom {S T A} (l : lens S T) (m : M T A) (Q : A -> S -> Prop) s :
  wp m (fun a t => Q a (put l t s)) (view l s) -> wp (zoom l m) Q s.
Proof. unfold wp, zoom. destruct (m (view l s)); simpl; tauto. Qed.

Lemma wp_for_each {S X} (l : list X) (body : X -> M S unit) (I : list X -> S -> Prop) s Q :
  (forall x l' s', I (x :: l') s' -> wp (body x) (fun _ => I l') s') ->
  (forall s', I [] s' -> Q tt s') ->
  I l s -> wp (for_each l body) Q s.
Proof.
  intros Hbody HQ. revert s. induction l as [|x l IH]; intros s HI; simpl.
  - by apply wp_ret, HQ.
  - apply wp_bind. eapply wp_mono; [|by apply Hbody]. simpl. auto.
Qed.

Lemma bind_done {S A B} (m : M S A) (f : A -> M S B) s b s' :
  bind m f s = Done b s' -> forall a s1, m s = Done a s1 -> f a s1 = Done b s'.
Proof. unfold bind. intros H a s1 Hm. by rewrite Hm in H. Qed.

Lemma bind_ret {S A B} (a : A) (f : A -> M S B) s : bind (ret a) f s = f a s.
Proof. done. Qed.

Lemma always_bind {S A B} (I : S -> Prop) (o : outcome S A) (f : A -> M S B) :
  always I o -> (forall a, preserves I (f a)) -> always I (bind_outcome o f).
Proof.
  intros Ho Hf. induction o as [a s|s k IH| | | |]; simpl in *; auto.
  - by apply Hf.
  - destruct Ho as [Hs Hk]. split; [done|]. intros s' Hs'. by apply IH, Hk.
Qed.

Lemma preserves_bind {S A B} (I : S -> Prop) (m : M S A) (f : A -> M S B) :
  preserves I m -> (forall a, preserves I (f a)) -> preserves I (bind m f).
Proof. intros Hm Hf s Hs. apply always_bind; auto. Qed.

Lemma preserves_ret {S A} (I : S -> Prop) (a : A) : preserves I (ret a).
Proof. by intros s Hs. Qed.

Lemma preserves_panic {S A} (I : S -> Prop) msg : preserves I (panic (A:=A) msg).
Proof. by intros s Hs. Qed.

Lemma preserves_undef {S A} (I : S -> Prop) : preserves I (undef (A:=A)).
Proof. by intros s Hs. Qed.

Lemma preserves_spin {S A} (I : S -> Prop) : preserves I (spin (A:=A)).
Proof. by intros s Hs. Qed.

Lemma preserves_nofuel {S A} (I : S -> Prop) : preserves I (nofuel (A:=A)).
Proof. by intros s Hs. Qed.

Lemma preserves_switch {S} (I : S -> Prop) : preserves I switch.
Proof. intros s Hs. simpl. auto. Qed.

Lemma preserves_gets {S A} (I : S -> Prop) (f : S -> A) : preserves I (gets f).
Proof. by intros s Hs. Qed.

Lemma preserves_getopt {S A} (I : S -> Prop) (f : S -> option A) : preserves I (getopt f).
Proof. intros s Hs. unfold getopt. by destruct (f s). Qed.

Lemma preserves_modify {S} (I : S -> Prop) (f : S -> S) :
  (forall s, I s -> I (f s)) -> preserves I (modify f).
Proof. intros Hf s Hs. by apply Hf. Qed.

Lemma preserves_if {S A} (I : S -> Prop) (b : bool) (m n : M S A) :
  preserves I m -> preserves I n -> preserves I (if b then m else n).
Proof. by destruct b. Qed.

Lemma preserves_option {S A X} (I : S -> Prop) (o : option X) (m : X -> M S A) (n : M S A) :
  (forall x, preserves I (m x)) -> preserves I n ->
  preserves I (match o with Some x => m x | None => n end).
Proof. destruct o; auto. Qed.

Lemma preserves_when {S} (I : S -> Prop) b (m : M S unit) :
  preserves I m -> preserves I (when b m).
Proof. intros Hm. by destruct b; [|apply preserves_ret]. Qed.

Lemma preserves_for_each {S X} (I : S -> Prop) (l : list X) (body : X -> M S unit) :
  (forall x, preserves I (body x)) -> preserves I (for_each l body).
Proof.
  intros Hb. induction l; simpl; [apply preserves_ret|]. by apply preserves_bind.
Qed.

#[export] Instance fst_laws {A B} : LensLaws (@fst_lens A B).
Proof. split; [done|by intros []|done]. Qed.
#[export] Instance snd_laws {A B} : LensLaws (@snd_lens A B).
Proof. split; [done|by intros []|done]. Qed.

#[export] Instance compose_lens_laws {S T U} (l : lens S T) (k : lens T U) :
  LensLaws l -> LensLaws k -> LensLaws (compose_lens l k).
Proof.
  intros [a b c] [d e f]. split; simpl; intros.
  - by rewrite a, d.
  - by rewrite e, b.
  - by rewrite a, f, c.
Qed.

#[export] Instance lens_indep_sym {S T U} (l : lens S T) (k : lens S U) :
  LensIndep l k -> LensIndep k l | 100.
Proof. intros [a b c]. split; intros; auto. Qed.

#[export] Instance compose_lens_indep {S T U V} (l : lens S T) (k : lens T U) (k' : lens T V) :
  LensLaws l -> LensIndep k k' -> LensIndep (compose_lens l k) (compose_lens l k').
Proof.
  intros [a b c] [d e f]. split; simpl; intros; rewrite ?a, ?c; auto. by rewrite f.
Qed.

#[export] Instance compose_lens_indep_l {S T U V} (l : lens S T) (k : lens T U) (l' : lens S V) :
  LensIndep l l' -> LensIndep (compose_lens l k) l'.
Proof. intros [d e f]. split; simpl; intros; [by rewrite d|by rewrite e|by rewrite d, f]. Qed.

Lemma always_zoom {S T A} (l : lens S T) (I : S -> Prop) (o : outcome T A) s :
  (forall t s', I s' -> I (put l t s')) -> I s -> always I (zoom_outcome l s o).
Proof.
  intros HI. revert s. induction o as [a t|t k IH| | | |]; intros s Hs; simpl; auto.
Qed.

(** A component's operation does not disturb what does not depend on the component. *)
Lemma preserves_zoom {S T A} (l : lens S T) (I : S -> Prop) (m : M T A) :
  (forall t s, I s -> I (put l t s)) -> preserves I (zoom l m).
Proof. intros HI s Hs. by apply always_zoom. Qed.

(** What a component's operation keeps true of the component. *)
Lemma always_zoom_view {S T A} (l : lens S T) `{!LensLaws l} (J : T -> Prop) (o : outcome T A) s :
  always J o -> always (fun s => J (view l s)) (zoom_outcome l s o).
Proof.
  revert s. induction o as [a t|t k IH| | | |]; intros s Ho; simpl in *; auto.
  - by rewrite view_put.
  - destruct Ho as [Ht Hk]. rewrite view_put. split; [done|]. intros s' Hs'. by apply IH, Hk.
Qed.

Lemma preserves_zoom_view {S T A} (l : lens S T) `{!LensLaws l} (J : T -> Prop) (m : M T A) :
  preserves J m -> preserves (fun s => J (view l s)) (zoom l m).
Proof. intros Hm s Hs. by apply always_zoom_view, Hm. Qed.

Lemma wlp_wp {S A} (m : M S A) (Q : A -> S -> Prop) s : wp m Q s -> wlp m Q s.
Proof. unfold wp, wlp. by destruct (m s). Qed.

Lemma wlp_bind {S A B} (m : M S A) (f : A -> M S B) Q s :
  wlp m (fun a => wlp (f a) Q) s -> wlp (bind m f) Q s.
Proof. unfold wlp, bind. by destruct (m s). Qed.

Lemma wlp_mono {S A} (m : M S A) (Q Q' : A -> S -> Prop) s :
  (forall a s', Q a s' -> Q' a s') -> wlp m Q s -> wlp m Q' s.
Proof. unfold wlp. destruct (m s); auto. Qed.

Lemma always_bind_wlp {S A B} (I : S -> Prop) (m : M S A) (f : A -> M S B) s :
  wlp m (fun a s' => always I (f a s')) s -> always I (bind m f s).
Proof. unfold wlp, bind. by destruct (m s). Qed.

Lemma wlp_zoom {S T A} (l : lens S T) (m : M T A) (Q : A -> S -> Prop) s :
  straight m -> (forall a t, Q a (put l t s)) -> wlp (zoom l m) Q s.
Proof. intros Hm HQ. specialize (Hm (view l s)). unfold wlp, zoom in *. destruct (m (view l s)); simpl in *; auto. Qed.

Lemma straight_ret {S A} (a : A) : straight (ret (S := S) a).
Proof. by intros s. Qed.
Lemma straight_panic {S A} msg : straight (panic (S := S) (A := A) msg).
Proof. by intros s. Qed.
Lemma straight_undef {S A} : straight (undef (S := S) (A := A)).
Proof. by intros s. Qed.
Lemma straight_spin {S A} : straight (spin (S := S) (A := A)).
Proof. by intros s. Qed.
Lemma straight_gets {S A} (f : S -> A) : straight (gets f).
Proof. by intros s. Qed.
Lemma straight_modify {S} (f : S -> S) : straight (modify f).
Proof. by intros s. Qed.
Lemma straight_getopt {S A} (f : S -> option A) : straight (getopt f).
Proof. intros s. unfold wlp, getopt. by destruct (f s). Qed.
Lemma straight_bind {S A B} (m : M S A) (f : A -> M S B) :
  straight m -> (forall a, straight (f a)) -> straight (bind m f).
Proof. intros Hm Hf s. apply wlp_bind. eapply wlp_mono; [|apply Hm]. intros a s' _. apply Hf. Qed.
Lemma straight_zoom {S T A} (l : lens S T) (m : M T A) : straight m -> straight (zoom l m).
Proof. intros Hm s. by apply wlp_zoom. Qed.

(** Show that a piece of code never hands the CPU over, along its structure. *)
Ltac straighten :=
  repeat first
    [ progress intros
    | apply straight_ret | apply straight_panic | apply straight_undef | apply straight_spin
    | apply straight_gets | apply straight_modify | apply straight_getopt
    | apply straight_bind | apply straight_zoom
    | match goal with |- straight (when _ _) => unfold when end
    | match goal with |- straight (match ?x with _ => _ end) => destruct x end ].

Create HintDb kern discriminated.

Lemma wp_leaves {S T A} (l : lens S T) (m : M S A) (Q : A -> S -> Prop) s :
  leaves l m -> wp m Q s -> wp m (fun a s' => Q a s' /\ view l s' = view l s) s.
Proof. intros Hm. specialize (Hm s). unfold wp. destruct (m s); [|done..]. intros HQ. split; [done|by eapply Hm]. Qed.

Lemma ends_bind {S A B} (o : outcome S A) (f : A -> M S B) Q :
  ends (fun a s => ends Q (f a s)) o -> ends Q (bind_outcome o f).
Proof. induction o as [a s|s k IH| | | |]; simpl; auto. Qed.
Lemma ends_mono {S A} (o : outcome S A) (Q Q' : A -> S -> Prop) :
  (forall a s, Q a s -> Q' a s) -> ends Q o -> ends Q' o.
Proof. intros HQ. induction o as [a s|s k IH| | | |]; simpl; auto. Qed.
Lemma ends_true {S A} (o : outcome S A) (Q : A -> S -> Prop) : (forall a s, Q a s) -> ends Q o.
Proof. intros HQ. induction o as [a s|s k IH| | | |]; simpl; auto. Qed.
(** An operation on another component ends with this one as it was when the thread last ran. *)
Lemma ends_wlp {S A} (m : M S A) (Q : A -> S -> Prop) s : wlp m Q s -> ends Q (m s).
Proof. unfold wlp. destruct (m s); simpl; tauto. Qed.


#[export] Hint Resolve preserves_ret preserves_panic preserves_undef preserves_spin
  preserves_nofuel preserves_switch preserves_gets preserves_getopt preserves_if
  preserves_option preserves_when preserves_for_each : kern.
#[export] Hint Resolve preserves_bind : kern.

Lemma steady_bind {S T A B} (l : lens S T) (m : M S A) (f : A -> M S B) :
  steady l m -> (forall a, steady l (f a)) -> steady l (bind m f).
Proof. intros Hm Hf J. apply preserves_bind; [apply Hm|]. intros a. apply Hf. Qed.
Lemma steady_ret {S T A} (l : lens S T) (a : A) : steady l (ret a).
Proof. intros J. apply preserves_ret. Qed.
Lemma steady_panic {S T A} (l : lens S T) msg : steady l (panic (A := A) msg).
Proof. intros J. apply preserves_panic. Qed.
Lemma steady_nofuel {S T A} (l : lens S T) : steady l (nofuel (A := A)).
Proof. intros J. apply preserves_nofuel. Qed.
Lemma steady_undef {S T A} (l : lens S T) : steady l (undef (A := A)).
Proof. intros J. apply preserves_undef. Qed.
Lemma steady_gets {S T A} (l : lens S T) (f : S -> A) : steady l (gets f).
Proof. intros J. apply preserves_gets. Qed.
Lemma steady_getopt {S T A} (l : lens S T) (f : S -> option A) : steady l (getopt f).
Proof. intros J. apply preserves_getopt. Qed.
Lemma steady_zoom {S T U A} (l : lens S T) (k : lens S U) (m : M U A) : LensIndep l k -> steady l (zoom k m).
Proof. intros Hk J. apply preserves_zoom. intros t s Hs. by rewrite indep_view_l. Qed.
Lemma steady_put {S T U} (l : lens S T) (k : lens S U) (f : S -> U) :
  LensIndep l k -> steady l (modify (fun s => put k (f s) s)).
Proof. intros Hk J. apply preserves_modify. intros s Hs. by rewrite indep_view_l. Qed.

Lemma steady_for_each {S T X} (l : lens S T) (xs : list X) (body : X -> M S unit) :
  (forall x, steady l (body x)) -> steady l (for_each xs body).
Proof. intros Hb J. apply preserves_for_each. intros x. apply Hb. Qed.
Lemma steady_leaves {S T A} (l : lens S T) (m : M S A) : steady l m -> leaves l m.
Proof. intros Hm s a s' E. specialize (Hm (.= view l s) s eq_refl). by rewrite E in Hm. Qed.

(** Show that a piece of code is [steady], along its structure. *)
Ltac hold :=
  repeat first
    [ progress intros
    | solve [eauto 2 with kern]
    | apply steady_ret | apply steady_panic | apply steady_undef | apply steady_nofuel
    | apply steady_gets | apply steady_getopt
    | apply steady_bind
    | apply steady_for_each
    | solve [apply steady_zoom, _]
    | solve [apply steady_put, _]
    | match goal with |- steady _ (when _ _) => unfold when end
    | match goal with |- steady _ (match ?x with _ => _ end) => destruct x end ].

(** Decompose a [preserves] goal along the code's structure. *)
Ltac preserve :=
  repeat first
    [ progress intros
    | solve [eauto 2 with kern]
    | match goal with
      | |- preserves _ (bind _ _) => apply preserves_bind
      | |- preserves _ (when _ _) => apply preserves_when
      | |- preserves _ (for_each _ _) => apply preserves_for_each
      | |- preserves _ (let '(_, _) := ?p in _) => destruct p
      | |- preserves _ (if _ then _ else _) => apply preserves_if
      | |- preserves _ (match ?x with _ => _ end) => destruct x
      end
    | apply preserves_bind ].

(** Step through straight-line code under [wp]. *)
Ltac wp_step :=
  first
    [ apply wp_bind
    | apply wp_ret
    | apply wp_gets
    | apply wp_modify
    | eapply wp_getopt; [eassumption|]
    | apply wp_zoom ].
Ltac wp_steps := repeat (wp_step; cbn beta).

(** ** Words *)
Lemma u32_range z : 0 <= u32 z < 2 ^ 32.
Proof. apply Z.mod_pos_bound. lia. Qed.

Lemma u32_small z : 0 <= z < 2 ^ 32 -> u32 z = z.
Proof. apply Z.mod_small. Qed.

Lemma u8_range z : 0 <= u8 z < 2 ^ 8.
Proof. apply Z.mod_pos_bound. lia. Qed.

Lemma u8_small z : 0 <= z < 2 ^ 8 -> u8 z = z.
Proof. apply Z.mod_small. Qed.

Lemma u32_idemp z : u32 (u32 z) = u32 z.
Proof. apply Z.mod_mod. lia. Qed.

Lemma u32_add_l a b : u32 (u32 a + b) = u32 (a + b).
Proof. apply Zplus_mod_idemp_l. Qed.

Lemma u32_add_r a b : u32 (a + u32 b) = u32 (a + b).
Proof. apply Zplus_mod_idemp_r. Qed.

Lemma u32_sub_l a b : u32 (u32 a - b) = u32 (a - b).
Proof. apply Zminus_mod_idemp_l. Qed.

Lemma u32_sub_r a b : u32 (a - u32 b) = u32 (a - b).
Proof. apply Zminus_mod_idemp_r. Qed.

Lemma s32_range z : - 2 ^ 31 <= s32 z < 2 ^ 31.
Proof.
  pose proof (u32_range z). unfold s32.
  destruct (Z.ltb_spec (u32 z) (2 ^ 31)); lia.
Qed.

Lemma s32_small z : - 2 ^ 31 <= z < 2 ^ 31 -> s32 z = z.
Proof.
  intros Hz. unfold s32, u32. destruct (Z.leb_spec 0 z).
  - rewrite Z.mod_small by lia. destruct (Z.ltb_spec z (2 ^ 31)); lia.
  - rewrite <- (Z_mod_plus_full z 1 (2 ^ 32)), Z.mod_small by lia.
    destruct (Z.ltb_spec (z + 1 * 2 ^ 32) (2 ^ 31)); lia.
Qed.

Create Rewrite HintDb words.
#[export] Hint Rewrite u32_idemp u32_add_l u32_add_r u32_sub_l u32_sub_r : words.

(** ** Lists *)

(** The index of the first element satisfying a test: the C idiom
    [for(i = 0; i < n; i++) if(test(a[i])) goto found]. *)
Fixpoint find_index {A} (f : A -> bool) (l : list A) : option nat :=
  match l with
  | [] => None
  | x :: l' => if f x then Some 0%nat else S <$> find_index f l'
  end.

Lemma find_index_Some {A} (f : A -> bool) l i :
  find_index f l = Some i <->
  exists x, l !! i = Some x /\ f x = true /\ forall j y, (j < i)%nat -> l !! j = Some y -> f y = false.
Proof.
  revert i. induction l as [|a l IH]; intros i; simpl.
  { split; [done|]. intros (x & Hx & _). by rewrite lookup_nil in Hx. }
  destruct (f a) eqn:Ha.
  - split.
    + intros [= <-]. exists a. repeat split; [done|]. lia.
    + intros (x & Hx & Hfx & Hmin). destruct i as [|i]; [done|].
      specialize (Hmin 0%nat a ltac:(lia) eq_refl). congruence.
  - rewrite fmap_Some. split.
    + intros (k & Hk & ->). apply IH in Hk as (x & Hx & Hfx & Hmin).
      exists x. repeat split; [done..|]. intros [|j] y Hj Hy; simpl in *; [congruence|].
      apply (Hmin j); [lia|done].
    + intros (x & Hx & Hfx & Hmin). destruct i as [|i]; simpl in *; [congruence|].
      exists i. split; [|done]. apply IH. exists x. repeat split; [done..|].
      intros j y Hj Hy. apply (Hmin (S j)); [lia|done].
Qed.

Lemma find_index_None {A} (f : A -> bool) l :
  find_index f l = None <-> forall i x, l !! i = Some x -> f x = false.
Proof.
  induction l as [|a l IH]; simpl; [split; [done|done]|].
  destruct (f a) eqn:Ha.
  - split; [done|]. intros H. specialize (H 0%nat a eq_refl). congruence.
  - rewrite fmap_None, IH. split.
    + intros H [|i] x Hx; simpl in *; [congruence|eauto].
    + intros H i x Hx. apply (H (S i)). done.
Qed.

Lemma find_index_lt {A} (f : A -> bool) l i : find_index f l = Some i -> (i < length l)%nat.
Proof. intros (x & Hx & _)%find_index_Some. by eapply lookup_lt_Some. Qed.

Lemma Forall_insert {A} (P : A -> Prop) (l : list A) i x :
  Forall P l -> P x -> Forall P (<[i:=x]> l).
Proof.
  rewrite !Forall_lookup. intros Hl Hx j y Hy.
  apply list_lookup_insert_Some in Hy as [(-> & -> & _)|[_ Hy]]; [done|eauto].
Qed.

Lemma Forall_alter {A} (P : A -> Prop) (f : A -> A) (l : list A) i :
  Forall P l -> (forall x, P x -> P (f x)) -> Forall P (alter f i l).
Proof.
  rewrite !Forall_lookup. intros Hl Hf j y. rewrite list_lookup_alter.
  case_decide; [|eauto]. rewrite fmap_Some. naive_solver.
Qed.

Lemma find_index_Forall2 {A B} (f : A -> bool) (g : B -> bool) l k :
  Forall2 (fun x y => f x = g y) l k -> find_index f l = find_index g k.
Proof. induction 1 as [|x y l k Hxy _ IH]; simpl; [done|]. by rewrite Hxy, IH. Qed.

Lemma Forall2_alter_l {A} (R : A -> A -> Prop) (f : A -> A) l k i :
  Forall2 R l k -> (forall x y, l !! i = Some x -> k !! i = Some y -> R x y -> R (f x) y) ->
  Forall2 R (alter f i l) k.
Proof.
  intros H. revert i. induction H as [|x y l k Hxy H IH]; [by constructor|].
  intros [|i] Hf; simpl.
  - constructor; [by apply Hf|done].
  - constructor; [done|]. apply IH. intros a b Ha Hb. by apply Hf.
Qed.

Lemma Forall2_alter_r {A} (R : A -> A -> Prop) (f : A -> A) l k i :
  Forall2 R l k -> (forall x y, l !! i = Some x -> k !! i = Some y -> R x y -> R x (f y)) ->
  Forall2 R l (alter f i k).
Proof.
  intros H. revert i. induction H as [|x y l k Hxy H IH]; [by constructor|].
  intros [|i] Hf; simpl.
  - constructor; [by apply Hf|done].
  - constructor; [done|]. apply IH. intros a b Ha Hb. by apply Hf.
Qed.

Lemma Forall2_same {A} (R : A -> A -> Prop) l : (forall x, R x x) -> Forall2 R l l.
Proof. intros H. induction l; constructor; auto. Qed.

(** ** Rings

    A buffer of [N] bytes used as a ring by unsigned counters that are never reduced: position [z]
    is the cell [z mod N].  [N] divides 2^32, so the counters may wrap. *)
Section ring.
Context (N : Z) (HN : 0 < N) (Hdiv : (N | 2 ^ 32)).

(** From the counter [r] on, the ring holds [q]. *)
Definition ring_rep (buf : list Z) (r : Z) (q : list Z) : Prop :=
  length buf = Z.to_nat N /\ 0 <= r < 2 ^ 32 /\ Z.of_nat (length q) <= N /\
  forall k b, q !! k = Some b -> buf !! Z.to_nat ((r + Z.of_nat k) mod N) = Some b.

Lemma u32_mod_ring z : u32 z mod N = z mod N.
Proof using HN Hdiv. unfold u32. by apply Z.mod_mod_divide. Qed.

Lemma ring_index z : (Z.to_nat (z mod N) < Z.to_nat N)%nat.
Proof using HN. pose proof (Z.mod_pos_bound z N HN). lia. Qed.

(** Two places of the ring less than its size apart. *)
Lemma ring_index_ne a b : a < b < a + N -> Z.to_nat (a mod N) <> Z.to_nat (b mod N).
Proof using HN.
  intros Hab E. pose proof (Z.mod_pos_bound a N HN). pose proof (Z.mod_pos_bound b N HN).
  assert (a mod N = b mod N) as E' by lia. clear E.
  pose proof (Z.div_mod a N ltac:(lia)). pose proof (Z.div_mod b N ltac:(lia)).
  set (k := b / N - a / N). assert (b - a = N * k) by (unfold k; rewrite Z.mul_sub_distr_l; lia).
  destruct (Z.le_gt_cases k 0).
  - assert (N * k <= 0) by (apply Z.mul_nonneg_nonpos; lia). lia.
  - assert (N * 1 <= N * k) by (apply Z.mul_le_mono_nonneg_l; lia). lia.
Qed.

Lemma ring_push buf r q c :
  ring_rep buf r q -> Z.of_nat (length q) < N ->
  ring_rep (<[Z.to_nat (u32 (r + Z.of_nat (length q)) mod N) := c]> buf) r (q ++ [c]).
Proof using HN Hdiv.
  intros (Hd & Hr & Hl & Hq) Hroom. unfold ring_rep. rewrite u32_mod_ring.
  split; [by rewrite length_insert|]. split; [done|]. split; [rewrite length_app; simpl; lia|].
  intros k b Hk. destruct (decide (k = length q)) as [->|Hne].
  - rewrite lookup_app_r, Nat.sub_diag in Hk by done. injection Hk as <-.
    apply list_lookup_insert_eq. rewrite Hd. apply ring_index.
  - assert (k < length q)%nat by (apply lookup_lt_Some in Hk; rewrite length_app in Hk; simpl in Hk; lia).
    rewrite lookup_app_l in Hk by done. rewrite list_lookup_insert_ne; [by apply Hq|].
    apply not_eq_sym, ring_index_ne. lia.
Qed.

Lemma ring_pop buf r b q :
  ring_rep buf r (b :: q) -> buf !!! Z.to_nat (r mod N) = b /\ ring_rep buf (u32 (r + 1)) q.
Proof using HN Hdiv.
  intros (Hd & Hr & Hl & Hq). simpl length in *. split.
  - apply list_lookup_total_correct. rewrite <- (Hq 0%nat b) by done. by rewrite Z.add_0_r.
  - split; [done|]. split; [apply u32_range|]. split; [lia|].
    intros k c Hk. rewrite <- (Hq (S k) c) by done. f_equal. f_equal.
    rewrite <- u32_mod_ring, u32_add_l, u32_mod_ring. f_equal. lia.
Qed.

(** Forgetting the youngest bytes. *)
Lemma ring_prefix buf r q q' : ring_rep buf r (q ++ q') -> ring_rep buf r q.
Proof using HN.
  intros (Hd & Hr & Hl & Hq). rewrite length_app in Hl. split; [done|]. split; [done|]. split; [lia|].
  intros k b Hk. apply Hq. by apply lookup_app_l_Some.
Qed.

End ring.

(** The counters tell how many bytes there are. *)
Lemma u32_count r a b : - (2 ^ 32) < a - b < 2 ^ 32 -> u32 (r + a) = u32 (r + b) -> a = b.
Proof.
  unfold u32. intros Hab E. pose proof (Z.div_mod (r + a) (2 ^ 32) ltac:(lia)).
  pose proof (Z.div_mod (r + b) (2 ^ 32) ltac:(lia)). lia.
Qed.
Lemma u32_count_eqb r a b : - (2 ^ 32) < a - b < 2 ^ 32 -> (u32 (r + a) =? u32 (r + b)) = (a =? b).
Proof.
  intros Hab. destruct (Z.eqb_spec a b) as [->|Hne]; [apply Z.eqb_refl|].
  apply Z.eqb_neq. intros E. by apply u32_count in E.
Qed.
