(* ===== verification/Mmu.v ===== *)
(** * x86 memory-management formats (mmu.h, memlayout.h)

    The address arithmetic of paging, page-table entry fields, segment and gate descriptors,
    and the task state segment.  All words are 32-bit values in [Z]. *)
From S2P Require Import Prelude.

(** ** Address layout (memlayout.h) *)
Definition EXTMEM : Z := 0x100000.
Definition PHYSTOP : Z := 0xE000000.
Definition DEVSPACE : Z := 0xFE000000.
Definition KERNBASE : Z := 0x80000000.
Definition KERNLINK : Z := KERNBASE + EXTMEM.
Definition V2P (a : Z) : Z := u32 (a - KERNBASE).
Definition P2V (a : Z) : Z := u32 (a + KERNBASE).

(** ** Pages *)
Definition PGSIZE : Z := 4096.
Definition NPDENTRIES : Z := 1024.
Definition NPTENTRIES : Z := 1024.
Definition PTXSHIFT : Z := 12.
Definition PDXSHIFT : Z := 22.

Definition PDX (va : Z) : Z := Z.land (Z.shiftr (u32 va) PDXSHIFT) 0x3FF.
Definition PTX (va : Z) : Z := Z.land (Z.shiftr (u32 va) PTXSHIFT) 0x3FF.
Definition PGADDR (d t o : Z) : Z :=
  u32 (Z.lor (Z.lor (Z.shiftl d PDXSHIFT) (Z.shiftl t PTXSHIFT)) o).

(** [x & ~(PGSIZE-1)] on 32-bit values. *)
Definition PGROUNDDOWN (a : Z) : Z := Z.land (u32 a) (u32 (Z.lnot (PGSIZE - 1))).
Definition PGROUNDUP (sz : Z) : Z := Z.land (u32 (sz + PGSIZE - 1)) (u32 (Z.lnot (PGSIZE - 1))).

(** ** Page-table entries *)
Definition PTE_P : Z := 0x001.
Definition PTE_W : Z := 0x002.
Definition PTE_U : Z := 0x004.
Definition PTE_PS : Z := 0x080.
Definition PTE_ADDR (pte : Z) : Z := Z.land (u32 pte) (u32 (Z.lnot 0xFFF)).
Definition PTE_FLAGS (pte : Z) : Z := Z.land (u32 pte) 0xFFF.

(** [pte & flag] as a condition. *)
Definition has_flag (pte flag : Z) : bool := negb (Z.land pte flag =? 0).

(** ** Segments *)
Definition SEG_KCODE : Z := 1.
Definition SEG_KDATA : Z := 2.
Definition SEG_UCODE : Z := 3.
Definition SEG_UDATA : Z := 4.
Definition SEG_TSS : Z := 5.
Definition NSEGS : Z := 6.
Definition DPL_USER : Z := 0x3.
Definition STA_X : Z := 0x8.
Definition STA_W : Z := 0x2.
Definition STA_R : Z := 0x2.
Definition STS_T32A : Z := 0x9.
Definition STS_IG32 : Z := 0xE.
Definition STS_TG32 : Z := 0xF.

Record segdesc := MkSeg {
  lim_15_0 : Z; base_15_0 : Z; base_23_16 : Z; sd_type : Z; sd_s : Z; sd_dpl : Z; sd_p : Z;
  lim_19_16 : Z; sd_avl : Z; sd_rsv1 : Z; sd_db : Z; sd_g : Z; base_31_24 : Z
}.

(** Storing into a bit field of width [w] keeps the low [w] bits. *)
Definition bits (w z : Z) : Z := z mod 2 ^ w.

Definition SEG (type base lim dpl : Z) : segdesc :=
  MkSeg (bits 16 (Z.land (Z.shiftr lim 12) 0xffff)) (bits 16 (Z.land (u32 base) 0xffff))
    (bits 8 (Z.land (Z.shiftr (u32 base) 16) 0xff)) (bits 4 type) 1 (bits 2 dpl) 1
    (bits 4 (Z.shiftr (u32 lim) 28)) 0 0 1 1 (bits 8 (Z.shiftr (u32 base) 24)).

Definition SEG16 (type base lim dpl : Z) : segdesc :=
  MkSeg (bits 16 (Z.land lim 0xffff)) (bits 16 (Z.land (u32 base) 0xffff))
    (bits 8 (Z.land (Z.shiftr (u32 base) 16) 0xff)) (bits 4 type) 1 (bits 2 dpl) 1
    (bits 4 (Z.shiftr (u32 lim) 16)) 0 0 1 0 (bits 8 (Z.shiftr (u32 base) 24)).

Definition set_sd_s (b : Z) (d : segdesc) : segdesc :=
  MkSeg (lim_15_0 d) (base_15_0 d) (base_23_16 d) (sd_type d) b (sd_dpl d) (sd_p d)
    (lim_19_16 d) (sd_avl d) (sd_rsv1 d) (sd_db d) (sd_g d) (base_31_24 d).

(** What the processor reads back from a descriptor. *)
Definition seg_base (d : segdesc) : Z :=
  base_15_0 d + base_23_16 d * 2 ^ 16 + base_31_24 d * 2 ^ 24.
Definition seg_limit (d : segdesc) : Z :=
  let l := lim_15_0 d + lim_19_16 d * 2 ^ 16 in if sd_g d =? 1 then l * 2 ^ 12 + 0xfff else l.

(** ** The task state segment: the fields the kernel sets. *)
Record taskstate := MkTs { esp0 : Z; ss0 : Z; iomb : Z }.
Definition sizeof_taskstate : Z := 104.

(** ** Gates *)
Record gatedesc := MkGate {
  off_15_0 : Z; gd_cs : Z; gd_args : Z; gd_rsv1 : Z; gd_type : Z; gd_s : Z; gd_dpl : Z;
  gd_p : Z; off_31_16 : Z
}.

Definition SETGATE (istrap : bool) (sel off d : Z) : gatedesc :=
  MkGate (bits 16 (Z.land (u32 off) 0xffff)) (bits 16 sel) 0 0
    (bits 4 (if istrap then STS_TG32 else STS_IG32)) 0 (bits 2 d) 1
    (bits 16 (Z.shiftr (u32 off) 16)).

Definition gate_offset (g : gatedesc) : Z := off_15_0 g + off_31_16 g * 2 ^ 16.

(** ** Lemmas *)
Lemma land_mask_down a n :
  0 <= n <= 32 -> Z.land (u32 a) (u32 (Z.lnot (2 ^ n - 1))) = u32 a - u32 a mod 2 ^ n.
Proof.
  intros Hn. pose proof (u32_range a) as Ha.
  replace (2 ^ n - 1) with (Z.ones n) by (rewrite Z.ones_equiv; lia).
  replace (u32 a - u32 a mod 2 ^ n) with (Z.ldiff (u32 a) (Z.ones n)).
  2:{ rewrite Z.ldiff_ones_r, Z.shiftl_mul_pow2, Z.shiftr_div_pow2 by lia.
      pose proof (Z.div_mod (u32 a) (2 ^ n)). lia. }
  apply Z.bits_inj'. intros i Hi. rewrite Z.land_spec, Z.ldiff_spec. unfold u32 at 2.
  destruct (Z.ltb_spec i 32).
  - rewrite Z.mod_pow2_bits_low, Z.lnot_spec by lia. done.
  - assert (Z.testbit (u32 a) i = false) as ->; [|done].
    unfold u32. apply Z.mod_pow2_bits_high. lia.
Qed.

Lemma PGROUNDDOWN_eq a : PGROUNDDOWN a = u32 a - u32 a mod PGSIZE.
Proof. apply (land_mask_down a 12). lia. Qed.

Lemma PGROUNDUP_eq sz : PGROUNDUP sz = u32 (sz + 4095) - u32 (sz + 4095) mod PGSIZE.
Proof.
  unfold PGROUNDUP. replace (sz + PGSIZE - 1) with (sz + 4095) by (unfold PGSIZE; lia).
  apply (land_mask_down _ 12). lia.
Qed.

Lemma PTE_ADDR_eq pte : PTE_ADDR pte = u32 pte - u32 pte mod 4096.
Proof. apply (land_mask_down pte 12). lia. Qed.

Lemma PTE_FLAGS_eq pte : PTE_FLAGS pte = u32 pte mod 4096.
Proof. unfold PTE_FLAGS. apply (Z.land_ones _ 12). lia. Qed.

Lemma PDX_eq va : 0 <= va < 2 ^ 32 -> PDX va = va / 2 ^ 22.
Proof.
  intros Hva. unfold PDX. rewrite u32_small, Z.shiftr_div_pow2 by (done || unfold PDXSHIFT; lia).
  change 0x3FF with (Z.ones 10). rewrite Z.land_ones by lia. unfold PDXSHIFT.
  apply Z.mod_small. split; [apply Z.div_pos; lia|apply Z.div_lt_upper_bound; lia].
Qed.

Lemma PTX_eq va : 0 <= va < 2 ^ 32 -> PTX va = va / 4096 mod 1024.
Proof.
  intros Hva. unfold PTX. rewrite u32_small, Z.shiftr_div_pow2 by (done || unfold PTXSHIFT; lia).
  change 0x3FF with (Z.ones 10). by rewrite Z.land_ones by lia.
Qed.

(** Disjoint bit ranges: [or] is addition. *)
Lemma lor_disjoint_add a b n : 0 <= n -> 0 <= b < 2 ^ n -> a mod 2 ^ n = 0 -> Z.lor a b = a + b.
Proof.
  intros Hn Hb Ha. rewrite Z.add_nocarry_lxor; [rewrite Z.lxor_lor; [done|]|];
    (apply Z.bits_inj'; intros i Hi; rewrite Z.land_spec, Z.bits_0;
     destruct (Z.ltb_spec i n);
     [rewrite <- (Z.mod_pow2_bits_low a n i), Ha, Z.bits_0 by lia; done
     |rewrite <- (Z.mod_small b (2 ^ n)) by lia;
      rewrite (Z.mod_pow2_bits_high b n i) by lia; apply andb_false_r]).
Qed.

Lemma PGADDR_eq d t o :
  0 <= d < 1024 -> 0 <= t < 1024 -> 0 <= o < 4096 -> PGADDR d t o = d * 2 ^ 22 + t * 4096 + o.
Proof.
  intros Hd Ht Ho. unfold PGADDR, PDXSHIFT, PTXSHIFT. rewrite !Z.shiftl_mul_pow2 by lia.
  rewrite (lor_disjoint_add (d * 2 ^ 22) _ 22); [|lia|lia|apply Z_mod_mult].
  rewrite (lor_disjoint_add _ o 12); [|lia|lia|].
  - apply u32_small. lia.
  - replace (d * 2 ^ 22 + t * 2 ^ 12) with ((d * 1024 + t) * 2 ^ 12) by lia. apply Z_mod_mult.
Qed.

Create Rewrite HintDb mmu.
#[export] Hint Rewrite PGROUNDDOWN_eq PGROUNDUP_eq PTE_ADDR_eq PTE_FLAGS_eq : mmu.

Lemma PGROUNDUP_bounds sz :
  0 <= sz <= 2 ^ 32 - PGSIZE ->
  PGROUNDUP sz mod PGSIZE = 0 /\ sz <= PGROUNDUP sz < sz + PGSIZE.
Proof.
  intros Hsz. rewrite PGROUNDUP_eq, u32_small by (unfold PGSIZE in *; lia). unfold PGSIZE.
  pose proof (Z.mod_pos_bound (sz + 4095) 4096). pose proof (Z.div_mod (sz + 4095) 4096).
  split; [|lia]. replace (sz + 4095 - (sz + 4095) mod 4096) with ((sz + 4095) / 4096 * 4096) by lia.
  apply Z_mod_mult.
Qed.

(** ** Theorems *)

(** mmu.h: [PDX], [PTX] and the page offset split a 32-bit linear address into three parts
    that [PGADDR] puts together again, and [PGADDR] of in-range parts is taken apart into the
    same parts. *)
Theorem PGADDR_roundtrip va d t o :
  0 <= va < 2 ^ 32 -> 0 <= d < 1024 -> 0 <= t < 1024 -> 0 <= o < 4096 ->
  PGADDR (PDX va) (PTX va) (va mod PGSIZE) = va /\
  PDX (PGADDR d t o) = d /\ PTX (PGADDR d t o) = t /\ PGADDR d t o mod PGSIZE = o.
Proof.
  intros Hva Hd Ht Ho. rewrite (PGADDR_eq d t o) by done. unfold PGSIZE. split_and!.
  - rewrite PDX_eq, PTX_eq by done.
    pose proof (Z.mod_pos_bound va 4096). pose proof (Z.mod_pos_bound (va / 4096) 1024).
    assert (0 <= va / 2 ^ 22 < 1024).
    { split; [apply Z.div_pos; lia|apply Z.div_lt_upper_bound; lia]. }
    rewrite PGADDR_eq by lia. replace (va / 2 ^ 22) with (va / 4096 / 1024)
      by (rewrite Z.div_div by lia; done).
    pose proof (Z.div_mod va 4096). pose proof (Z.div_mod (va / 4096) 1024). lia.
  - rewrite PDX_eq by lia. symmetry. apply (Z.div_unique _ _ _ (t * 4096 + o)); lia.
  - rewrite PTX_eq by lia.
    replace ((d * 2 ^ 22 + t * 4096 + o) / 4096) with (d * 1024 + t)
      by (apply (Z.div_unique _ _ _ o); lia).
    symmetry. apply (Z.mod_unique _ _ d); lia.
  - symmetry. apply (Z.mod_unique _ _ (d * 1024 + t)); lia.
Qed.

Lemma PGADDR_roundtrip_witness :
  PGADDR (PDX 0x80123456) (PTX 0x80123456) (0x80123456 mod PGSIZE) = 0x80123456 /\
  PDX (PGADDR 3 5 7) = 3 /\ PTX (PGADDR 3 5 7) = 5 /\ PGADDR 3 5 7 mod PGSIZE = 7.
Proof. apply (PGADDR_roundtrip 0x80123456 3 5 7); lia. Defined.

Lemma split3 b : 0 <= b < 2 ^ 32 ->
  b mod 65536 + (b / 65536) mod 256 * 2 ^ 16 + (b / 2 ^ 24) mod 256 * 2 ^ 24 = b.
Proof.
  intros Hb. replace (b / 2 ^ 24) with (b / 65536 / 256) by (rewrite Z.div_div by lia; done).
  rewrite (Z.mod_small (b / 65536 / 256)).
  - pose proof (Z.div_mod b 65536). pose proof (Z.div_mod (b / 65536) 256). lia.
  - split; [apply Z.div_pos; [apply Z.div_pos; lia|lia]|].
    rewrite Z.div_div by lia. apply Z.div_lt_upper_bound; lia.
Qed.

(** mmu.h: the processor reads back from a segment descriptor built by [SEG] (page
    granularity) or [SEG16] (byte granularity) the base, limit, type and privilege it was built
    with, and from a gate built by [SETGATE] the handler's address. *)
Theorem descriptor_roundtrip type base lim dpl istrap sel off :
  0 <= base < 2 ^ 32 -> 0 <= off < 2 ^ 32 -> 0 <= lim < 2 ^ 32 -> 0 <= type < 16 -> 0 <= dpl < 4 ->
  seg_base (SEG type base lim dpl) = base /\
  seg_limit (SEG type base lim dpl) = lim / 4096 * 4096 + 4095 /\
  sd_type (SEG type base lim dpl) = type /\ sd_dpl (SEG type base lim dpl) = dpl /\
  seg_base (SEG16 type base lim dpl) = base /\
  (lim < 2 ^ 20 -> seg_limit (SEG16 type base lim dpl) = lim) /\
  gate_offset (SETGATE istrap sel off dpl) = off.
Proof.
  intros Hb Ho Hl Ht Hd. unfold seg_base, seg_limit, gate_offset, SEG, SEG16, SETGATE, bits. simpl.
  rewrite !u32_small by lia. change 65535 with (Z.ones 16). change 255 with (Z.ones 8).
  rewrite !Z.land_ones, !Z.shiftr_div_pow2, !Z.mod_mod by lia.
  change (2 ^ 16) with 65536 at 1. change (2 ^ 8) with 256.
  split_and!; try (by apply Z.mod_small); try (by apply split3).
  - rewrite (Z.mod_small (lim / 2 ^ 28)).
    2:{ split; [apply Z.div_pos; lia|apply Z.div_lt_upper_bound; lia]. }
    replace (lim / 2 ^ 28) with (lim / 4096 / 65536) by (rewrite Z.div_div by lia; done).
    change (2 ^ 12) with 4096. change (2 ^ 16) with 65536.
    pose proof (Z.div_mod (lim / 4096) 65536). lia.
  - intros Hl20. rewrite (Z.mod_small (lim / 2 ^ 16)).
    + change (2 ^ 16) with 65536. pose proof (Z.div_mod lim 65536). lia.
    + split; [apply Z.div_pos; lia|apply Z.div_lt_upper_bound; lia].
  - rewrite (Z.mod_small (off / 2 ^ 16)).
    + change (2 ^ 16) with 65536. pose proof (Z.div_mod off 65536). lia.
    + split; [apply Z.div_pos; lia|apply Z.div_lt_upper_bound; lia].
Qed.

Lemma descriptor_roundtrip_witness :
  seg_base (SEG 10 0x12345678 0xffffffff 3) = 0x12345678 /\
  seg_limit (SEG 10 0x12345678 0xffffffff 3) = 0xffffffff / 4096 * 4096 + 4095 /\
  sd_type (SEG 10 0x12345678 0xffffffff 3) = 10 /\ sd_dpl (SEG 10 0x12345678 0xffffffff 3) = 3 /\
  seg_base (SEG16 10 0x12345678 0xffffffff 3) = 0x12345678 /\
  (0xffffffff < 2 ^ 20 -> seg_limit (SEG16 10 0x12345678 0xffffffff 3) = 0xffffffff) /\
  gate_offset (SETGATE true 8 0x80105678 3) = 0x80105678.
Proof. apply (descriptor_roundtrip 10 0x12345678 0xffffffff 3 true 8 0x80105678); lia. Defined.
