(* ===== verification/KString.v ===== *)
(** * Byte memory and the string routines (string.c, the string part of ulib.c)

    [mem] is memory as C sees it: a byte at every address.  The kernel's routines of string.c
    and the user library's of ulib.c are the loops of the source over it; loops that a C string
    ends carry fuel.  The lemmas give each routine's effect address by address. *)
From S2P Require Import Prelude.

Definition mem : Type := Z -> Z.

(** Byte stores (the byte of [v] at [a]); little-endian 32-bit loads and stores. *)
Definition st8 (a v : Z) (m : mem) : mem := fun x => if x =? a then u8 v else m x.
Definition ld32 (m : mem) (a : Z) : Z :=
  m a + 2 ^ 8 * m (a + 1) + 2 ^ 16 * m (a + 2) + 2 ^ 24 * m (a + 3).
Definition st32 (a v : Z) (m : mem) : mem :=
  st8 (a + 3) (Z.shiftr v 24) (st8 (a + 2) (Z.shiftr v 16) (st8 (a + 1) (Z.shiftr v 8) (st8 a v m))).

(** ** x86.h: [rep stosb] and [rep stosl] *)
Fixpoint stosb (addr data : Z) (cnt : nat) (m : mem) : mem :=
  match cnt with
  | O => m
  | S k => stosb (addr + 1) data k (st8 addr data m)
  end.
Fixpoint stosl (addr data : Z) (cnt : nat) (m : mem) : mem :=
  match cnt with
  | O => m
  | S k => stosl (addr + 4) data k (st32 addr data m)
  end.

(** ** string.c *)
Definition memset (dst c n : Z) (m : mem) : mem :=
  if (dst mod 4 =? 0) && (n mod 4 =? 0) then
    let c := Z.land c 0xFF in
    stosl dst (Z.lor (Z.lor (Z.lor (Z.shiftl c 24) (Z.shiftl c 16)) (Z.shiftl c 8)) c)
      (Z.to_nat (n / 4)) m
  else stosb dst c (Z.to_nat n) m.

Fixpoint memcmp (v1 v2 : Z) (n : nat) (m : mem) : Z :=
  match n with
  | O => 0
  | S k => if m v1 =? m v2 then memcmp (v1 + 1) (v2 + 1) k m else m v1 - m v2
  end.

(** The two loops of [memmove]: forwards from [d], [s], or backwards from their ends. *)
Fixpoint copy_forward (d s : Z) (n : nat) (m : mem) : mem :=
  match n with
  | O => m
  | S k => copy_forward (d + 1) (s + 1) k (st8 d (m s) m)
  end.
Fixpoint copy_backward (d s : Z) (n : nat) (m : mem) : mem :=
  match n with
  | O => m
  | S k => copy_backward (d - 1) (s - 1) k (st8 (d - 1) (m (s - 1)) m)
  end.
Definition memmove (dst src : Z) (n : nat) (m : mem) : mem :=
  if (src <? dst) && (dst <? src + Z.of_nat n)
  then copy_backward (dst + Z.of_nat n) (src + Z.of_nat n) n m
  else copy_forward dst src n m.

Fixpoint strncmp (p q : Z) (n : nat) (m : mem) : Z :=
  match n with
  | O => 0
  | S k => if negb (m p =? 0) && (m p =? m q) then strncmp (p + 1) (q + 1) k m else m p - m q
  end.

(** The second loop of [strncpy] pads with zeros. *)
Fixpoint strncpy (s t : Z) (n : nat) (m : mem) : mem :=
  match n with
  | O => m
  | S k =>
      let m' := st8 s (m t) m in
      if m t =? 0 then stosb (s + 1) 0 k m' else strncpy (s + 1) (t + 1) k m'
  end.

(** The loop of [safestrcpy] with [n] the value of [--n], and the final [*s = 0]. *)
Fixpoint safestrcpy_loop (s t : Z) (n : nat) (m : mem) : mem :=
  match n with
  | O => st8 s 0 m
  | S k =>
      let m' := st8 s (m t) m in
      if m t =? 0 then st8 (s + 1) 0 m' else safestrcpy_loop (s + 1) (t + 1) k m'
  end.
Definition safestrcpy (s t n : Z) (m : mem) : mem :=
  if n <=? 0 then m else safestrcpy_loop s t (Z.to_nat (n - 1)) m.

(** [strlen] with [n] bytes seen; [None] when the fuel ends before the string does. *)
Fixpoint strlen_from (fuel : nat) (s n : Z) (m : mem) : option Z :=
  match fuel with
  | O => None
  | S k => if m (s + n) =? 0 then Some n else strlen_from k s (n + 1) m
  end.
Definition strlen (fuel : nat) (s : Z) (m : mem) : option Z := strlen_from fuel s 0 m.

(** ** ulib.c *)
Module Ulib.
Fixpoint strcpy (fuel : nat) (s t : Z) (m : mem) : option mem :=
  match fuel with
  | O => None
  | S k => let m' := st8 s (m t) m in if m t =? 0 then Some m' else strcpy k (s + 1) (t + 1) m'
  end.

Fixpoint strcmp (fuel : nat) (p q : Z) (m : mem) : option Z :=
  match fuel with
  | O => None
  | S k => if negb (m p =? 0) && (m p =? m q) then strcmp k (p + 1) (q + 1) m else Some (m p - m q)
  end.

Definition memset (dst c n : Z) (m : mem) : mem := stosb dst c (Z.to_nat n) m.

Fixpoint strchr (fuel : nat) (s c : Z) (m : mem) : option Z :=
  match fuel with
  | O => None
  | S k => if m s =? 0 then Some 0 else if m s =? c then Some s else strchr k (s + 1) c m
  end.

(** [gets(buf, max)] reads bytes one at a time: [inp] is what the successive [read(0, &c, 1)]
    give, [None] for a result below 1.  Result: the memory, and the input left. *)
Fixpoint gets_loop (buf i : Z) (left : nat) (inp : list (option Z)) (m : mem)
  : Z * list (option Z) * mem :=
  match left, inp with
  | S k, Some c :: inp' =>
      let m' := st8 (buf + i) c m in
      if (c =? 10) || (c =? 13) then (i + 1, inp', m') else gets_loop buf (i + 1) k inp' m'
  | S k, None :: inp' => (i, inp', m)
  | _, _ => (i, inp, m)
  end.
Definition gets (buf max : Z) (inp : list (option Z)) (m : mem) : mem * list (option Z) :=
  let '(i, inp', m') := gets_loop buf 0 (Z.to_nat (max - 1)) inp m in (st8 (buf + i) 0 m', inp').

(** [atoi]: the digits at [s]; signed overflow wraps. *)
Fixpoint atoi_loop (fuel : nat) (s n : Z) (m : mem) : option Z :=
  match fuel with
  | O => None
  | S k => if (48 <=? m s) && (m s <=? 57) then atoi_loop k (s + 1) (s32 (n * 10 + m s - 48)) m
           else Some n
  end.
Definition atoi (fuel : nat) (s : Z) (m : mem) : option Z := atoi_loop fuel s 0 m.

(** ulib's [memmove] has only the forward loop. *)
Definition memmove (dst src n : Z) (m : mem) : mem := copy_forward dst src (Z.to_nat n) m.
End Ulib.

(** ** Vocabulary *)

(** Every cell holds a byte. *)
Definition mem_ok (m : mem) : Prop := forall a, 0 <= m a < 2 ^ 8.

(** A C string with contents [l] at [a]. *)
Fixpoint cstr (m : mem) (a : Z) (l : list Z) : Prop :=
  match l with
  | [] => m a = 0
  | c :: l' => m a = c /\ c <> 0 /\ cstr m (a + 1) l'
  end.

Definition within (a n x : Z) : bool := (a <=? x) && (x <? a + n).

(** ** Lemmas *)
Lemma within_spec a n x : BoolSpec (a <= x < a + n) (~ (a <= x < a + n)) (within a n x).
Proof.
  unfold within. destruct (Z.leb_spec a x), (Z.ltb_spec x (a + n)); simpl; constructor; lia.
Qed.

(** Split on the range tests of the goal. *)
Ltac case_within :=
  repeat match goal with |- context [within ?a ?n ?x] => destruct (within_spec a n x) end;
  try done; try lia.

Lemma st8_eq a v m : st8 a v m a = u8 v.
Proof. unfold st8. by rewrite Z.eqb_refl. Qed.

Lemma st8_ne a v m x : x <> a -> st8 a v m x = m x.
Proof. intros. unfold st8. by destruct (Z.eqb_spec x a). Qed.

Lemma st8_ok a v m : mem_ok m -> mem_ok (st8 a v m).
Proof.
  intros Hm x. unfold st8. destruct (x =? a); [|apply Hm]. apply u8_range.
Qed.

Lemma st32_ok a v m : mem_ok m -> mem_ok (st32 a v m).
Proof. intros Hm. unfold st32. by repeat apply st8_ok. Qed.

Lemma st32_ne a v m x : ~ (a <= x < a + 4) -> st32 a v m x = m x.
Proof. intros Hx. unfold st32. by rewrite !st8_ne by lia. Qed.

Lemma ld32_ext m m' a : (forall x, a <= x < a + 4 -> m' x = m x) -> ld32 m' a = ld32 m a.
Proof. intros H. unfold ld32. by rewrite !H by lia. Qed.

Lemma u8_shiftr v k : 0 <= k -> u8 (Z.shiftr v k) = (v / 2 ^ k) mod 2 ^ 8.
Proof. intros. unfold u8. by rewrite Z.shiftr_div_pow2. Qed.

(** A word read back. *)
Lemma ld32_st32 a v m : 0 <= v < 2 ^ 32 -> ld32 (st32 a v m) a = v.
Proof.
  intros Hv. unfold ld32, st32. repeat first [rewrite st8_eq | rewrite st8_ne by lia].
  rewrite !u8_shiftr by lia. unfold u8.
  pose proof (Z.div_mod v (2 ^ 8)). pose proof (Z.div_mod (v / 2 ^ 8) (2 ^ 8)).
  pose proof (Z.div_mod (v / 2 ^ 16) (2 ^ 8)).
  assert (v / 2 ^ 8 / 2 ^ 8 = v / 2 ^ 16) by (rewrite Z.div_div by lia; done).
  assert (v / 2 ^ 16 / 2 ^ 8 = v / 2 ^ 24) by (rewrite Z.div_div by lia; done).
  assert (v / 2 ^ 24 < 2 ^ 8) by (apply Z.div_lt_upper_bound; lia).
  assert (0 <= v / 2 ^ 24) by (apply Z.div_pos; lia).
  rewrite (Z.mod_small (v / 2 ^ 24)) by lia. lia.
Qed.

Lemma ld32_st32_ne a b v m : a + 4 <= b \/ b + 4 <= a -> ld32 (st32 a v m) b = ld32 m b.
Proof. intros H. apply ld32_ext. intros x Hx. apply st32_ne. lia. Qed.

Lemma ld32_range m a : mem_ok m -> 0 <= ld32 m a < 2 ^ 32.
Proof.
  intros H. unfold ld32. pose proof (H a). pose proof (H (a + 1)). pose proof (H (a + 2)).
  pose proof (H (a + 3)). lia.
Qed.

(** *** Fills *)
Lemma stosb_spec d c n m x : stosb d c n m x = if within d (Z.of_nat n) x then u8 c else m x.
Proof.
  revert d m. induction n as [|n IH]; intros d m; simpl.
  - case_within.
  - rewrite IH. unfold st8. destruct (within_spec (d + 1) (Z.of_nat n) x),
      (within_spec d (Z.of_nat (S n)) x), (Z.eqb_spec x d); try done; lia.
Qed.

Lemma stosl_bytes b n d m x :
  0 <= b < 2 ^ 8 -> let w := b * 16843009 in
  stosl d w n m x = if within d (4 * Z.of_nat n) x then b else m x.
Proof.
  intros Hb w. assert (forall a m0 y, st32 a w m0 y = if within a 4 y then b else m0 y) as Hst.
  { intros a m0 y. unfold st32. rewrite <- (u8_small b) by done.
    assert (u8 (Z.shiftr w 24) = b /\ u8 (Z.shiftr w 16) = b /\ u8 (Z.shiftr w 8) = b /\ u8 w = b)
      as (E1 & E2 & E3 & E4).
    { rewrite !u8_shiftr by lia. unfold u8, w.
      split_and!; (Z.to_euclidean_division_equations; lia). }
    unfold st8. rewrite E1, E2, E3, E4, (u8_small b) by done.
    destruct (Z.eqb_spec y (a + 3)), (Z.eqb_spec y (a + 2)), (Z.eqb_spec y (a + 1)), (Z.eqb_spec y a),
      (within_spec a 4 y); try done; lia. }
  revert d m. induction n as [|n IH]; intros d m; simpl.
  - case_within.
  - rewrite IH, Hst. destruct (within_spec (d + 4) (4 * Z.of_nat n) x),
      (within_spec d (4 * Z.of_nat (S n)) x), (within_spec d 4 x); try done; lia.
Qed.

Lemma fill_word b : 0 <= b < 2 ^ 8 ->
  Z.lor (Z.lor (Z.lor (Z.shiftl b 24) (Z.shiftl b 16)) (Z.shiftl b 8)) b = b * 16843009.
Proof.
  intros Hb. assert (exists k, (k < 256)%nat /\ b = Z.of_nat k) as (k & Hk & ->).
  { exists (Z.to_nat b). lia. }
  clear Hb. do 256 (destruct k as [|k]; [reflexivity|]). lia.
Qed.

(** Both branches of [memset] fill the range with the low byte of [c]. *)
Lemma memset_spec d c n m x :
  0 <= n -> memset d c n m x = if within d n x then u8 c else m x.
Proof.
  intros Hn. unfold memset. destruct (_ && _) eqn:E.
  - apply andb_true_iff in E as [_ Hn4%Z.eqb_eq].
    replace (Z.land c 0xFF) with (u8 c) by (change 0xFF with (Z.ones 8); by rewrite Z.land_ones).
    rewrite fill_word, stosl_bytes by apply u8_range.
    replace (4 * Z.of_nat (Z.to_nat (n / 4))) with n; [done|].
    rewrite Z2Nat.id by (apply Z.div_pos; lia). Z.to_euclidean_division_equations; lia.
  - rewrite stosb_spec. by rewrite Z2Nat.id.
Qed.

Lemma memset_ok d c n m : 0 <= n -> mem_ok m -> mem_ok (memset d c n m).
Proof.
  intros Hn Hm x. rewrite memset_spec by done. destruct (within d n x); [apply u8_range|apply Hm].
Qed.

(** *** Copies *)
Lemma copy_forward_spec d s n m x :
  mem_ok m -> d <= s \/ s + Z.of_nat n <= d ->
  copy_forward d s n m x = if within d (Z.of_nat n) x then m (s + (x - d)) else m x.
Proof.
  revert d s m. induction n as [|n IH]; intros d s m Hm Hds; simpl.
  - case_within.
  - rewrite IH by (try apply st8_ok; auto; lia). unfold st8.
    destruct (within_spec (d + 1) (Z.of_nat n) x), (within_spec d (Z.of_nat (S n)) x); try lia.
    + destruct (Z.eqb_spec (s + 1 + (x - (d + 1))) d); [lia|]. f_equal. lia.
    + destruct (Z.eqb_spec x d); [|lia]. subst. rewrite Z.sub_diag, Z.add_0_r. apply u8_small, Hm.
    + destruct (Z.eqb_spec x d); [lia|done].
Qed.

Lemma copy_backward_spec d s n m x :
  mem_ok m -> s <= d ->
  copy_backward d s n m x =
    if within (d - Z.of_nat n) (Z.of_nat n) x then m (s - Z.of_nat n + (x - (d - Z.of_nat n))) else m x.
Proof.
  revert d s m. induction n as [|n IH]; intros d s m Hm Hds; simpl.
  - case_within.
  - rewrite IH by (try apply st8_ok; auto; lia). unfold st8.
    destruct (within_spec (d - 1 - Z.of_nat n) (Z.of_nat n) x),
      (within_spec (d - Z.of_nat (S n)) (Z.of_nat (S n)) x); try lia.
    + destruct (Z.eqb_spec (s - 1 - Z.of_nat n + (x - (d - 1 - Z.of_nat n))) (d - 1)); [lia|].
      f_equal. lia.
    + destruct (Z.eqb_spec x (d - 1)); [|lia]. subst. rewrite u8_small by apply Hm. f_equal. lia.
    + destruct (Z.eqb_spec x (d - 1)); [lia|done].
Qed.

Lemma memmove_at d s n m x :
  mem_ok m -> memmove d s n m x = if within d (Z.of_nat n) x then m (s + (x - d)) else m x.
Proof.
  intros Hm. unfold memmove. destruct (Z.ltb_spec s d), (Z.ltb_spec d (s + Z.of_nat n)); simpl;
    try (rewrite copy_forward_spec by (done || lia); done).
  rewrite copy_backward_spec by (done || lia). replace (d + Z.of_nat n - Z.of_nat n) with d by lia.
  destruct (within d (Z.of_nat n) x); [|done]. f_equal. lia.
Qed.

Lemma memmove_ok d s n m : mem_ok m -> mem_ok (memmove d s n m).
Proof. intros Hm x. rewrite memmove_at by done. destruct (within _ _ _); apply Hm. Qed.

(** *** C strings *)
Lemma cstr_ext m m' a l :
  (forall x, a <= x <= a + Z.of_nat (length l) -> m' x = m x) -> cstr m a l -> cstr m' a l.
Proof.
  revert a. induction l as [|c l IH]; intros a Hx; simpl.
  - by rewrite Hx by (simpl; lia).
  - intros (Ha & Hc & Hl). simpl in Hx. rewrite Hx by lia. split_and!; [done..|].
    apply IH; [|done]. intros x Hx'. apply Hx. lia.
Qed.

Lemma strlen_from_spec fuel s n l m :
  cstr m (s + n) l -> (length l < fuel)%nat -> strlen_from fuel s n m = Some (n + Z.of_nat (length l)).
Proof.
  revert n l. induction fuel as [|fuel IH]; intros n l Hl Hf; [lia|]. simpl.
  destruct l as [|c l]; simpl in *.
  - rewrite Hl. simpl. f_equal. lia.
  - destruct Hl as (Ha & Hc & Hl). destruct (Z.eqb_spec (m (s + n)) 0); [congruence|].
    rewrite (IH (n + 1) l); [f_equal; lia| |lia]. by replace (s + (n + 1)) with (s + n + 1) by lia.
Qed.

(** What [safestrcpy]'s loop does when source and destination do not meet. *)
Lemma safestrcpy_loop_spec s t n l m :
  mem_ok m -> cstr m t l -> s + Z.of_nat n < t \/ t + Z.of_nat (length l) < s ->
  cstr (safestrcpy_loop s t n m) s (take n l) /\
  (forall x, ~ (s <= x <= s + Z.of_nat n) -> safestrcpy_loop s t n m x = m x).
Proof.
  revert s t l m. induction n as [|n IH]; intros s t l m Hm Hl Hd; simpl.
  - split; [apply st8_eq|]. intros x Hx. apply st8_ne. lia.
  - destruct l as [|c l]; simpl in *.
    + rewrite Hl. simpl. split.
      * rewrite st8_ne by lia. apply st8_eq.
      * intros x Hx. rewrite !st8_ne by lia. done.
    + destruct Hl as (<- & Hc & Hl). destruct (Z.eqb_spec (m t) 0); [done|].
      destruct (IH (s + 1) (t + 1) l (st8 s (m t) m)) as [IH1 IH2].
      * by apply st8_ok.
      * eapply cstr_ext; [|done]. intros x Hx. apply st8_ne. lia.
      * lia.
      * split.
        -- rewrite IH2 by lia. rewrite st8_eq, u8_small by apply Hm. done.
        -- intros x Hx. rewrite IH2 by lia. apply st8_ne. lia.
Qed.

Lemma copy_forward_smear n s m x :
  mem_ok m -> copy_forward (s + 1) s n m x = if within (s + 1) (Z.of_nat n) x then m s else m x.
Proof.
  revert s m. induction n as [|n IH]; intros s m Hm; simpl; [case_within|].
  rewrite IH by (by apply st8_ok). rewrite st8_eq, u8_small by apply Hm. unfold st8.
  destruct (Z.eqb_spec x (s + 1)); case_within. apply u8_small, Hm.
Qed.

(** ** Theorems *)

(** string.c, memmove(): after the call the destination holds what the source held before,
    however the two ranges overlap, and nothing else changed.  ulib.c's [memmove] has only the
    forward loop: moving a range up by one byte fills it with the first byte instead. *)
Theorem memmove_overlap d s n m :
  mem_ok m ->
  (forall i, 0 <= i < Z.of_nat n -> memmove d s n m (d + i) = m (s + i)) /\
  (forall x, ~ (d <= x < d + Z.of_nat n) -> memmove d s n m x = m x) /\
  (forall i, 0 <= i < Z.of_nat n -> Ulib.memmove (s + 1) s (Z.of_nat n) m (s + 1 + i) = m s).
Proof.
  intros Hm. split_and!.
  - intros i Hi. rewrite memmove_at by done. case_within. f_equal. lia.
  - intros x Hx. rewrite memmove_at by done. case_within.
  - intros i Hi. unfold Ulib.memmove. rewrite Nat2Z.id, copy_forward_smear by done. case_within.
Qed.

(** Memory whose byte at address [i] is [i mod 256]. *)
Definition mem_count : mem := fun x => x mod 256.

Lemma memmove_overlap_witness :
  memmove 101 100 3 mem_count 103 = 102 /\ Ulib.memmove 101 100 3 mem_count 103 = 100.
Proof.
  assert (mem_ok mem_count) as Hm by (intros x; apply (Z.mod_pos_bound x 256); lia).
  destruct (memmove_overlap 101 100 3 mem_count Hm) as (H1 & _ & H3). split.
  - exact (H1 2 ltac:(simpl; lia)).
  - exact (H3 2 ltac:(simpl; lia)).
Defined.

(** string.c, safestrcpy() and strlen(): with a buffer of [n > 0] bytes clear of the source
    string, the copy is a NUL-terminated string, the longest prefix of the source that fits,
    [strlen] measures it, and nothing outside the [n] bytes is written. *)
Theorem safestrcpy_terminates s t n l m :
  mem_ok m -> 0 < n -> cstr m t l -> s + n <= t \/ t + Z.of_nat (length l) < s ->
  let m' := safestrcpy s t n m in
  let l' := take (Z.to_nat (n - 1)) l in
  cstr m' s l' /\ Z.of_nat (length l') < n /\
  strlen (S (length l)) s m' = Some (Z.of_nat (length l')) /\
  (forall x, ~ (s <= x < s + n) -> m' x = m x).
Proof.
  intros Hm Hn Hl Hd m' l'. unfold m', safestrcpy. destruct (Z.leb_spec n 0); [lia|].
  destruct (safestrcpy_loop_spec s t (Z.to_nat (n - 1)) l m) as [H1 H2]; [done|done|lia|].
  fold l' in H1. split_and!; [done| | |].
  - unfold l'. rewrite length_take. lia.
  - apply (strlen_from_spec _ s 0 l'); [by rewrite Z.add_0_r|]. unfold l'. rewrite length_take. lia.
  - intros x Hx. apply H2. lia.
Qed.

(** "sh" at address 100, copied into a three-byte and a two-byte buffer. *)
Definition mem_sh : mem := st8 100 115 (st8 101 104 (fun _ => 0)).

Lemma safestrcpy_terminates_witness :
  cstr (safestrcpy 200 100 3 mem_sh) 200 [115; 104] /\ cstr (safestrcpy 200 100 2 mem_sh) 200 [115].
Proof.
  assert (mem_ok mem_sh) as Hm by (repeat apply st8_ok; intros x; lia).
  assert (cstr mem_sh 100 [115; 104]) as Hc by (vm_compute; repeat split; discriminate).
  split.
  - exact (proj1 (safestrcpy_terminates 200 100 3 [115; 104] mem_sh Hm ltac:(lia) Hc ltac:(simpl; lia))).
  - exact (proj1 (safestrcpy_terminates 200 100 2 [115; 104] mem_sh Hm ltac:(lia) Hc ltac:(simpl; lia))).
Defined.
