(* ===== verification/Spinlock.v ===== *)
(** * Spin locks and interrupt nesting (spinlock.c, the CPU lookup of proc.c)

    [mach] is what one CPU sees: its interrupt flag and local APIC id, the table [cpus], and the
    locks of the kernel.  [pushcli], [popcli], [holding], [acquire] and [release] are the code's
    functions on it; an [acquire] of a lock somebody else holds is [Spin].  The second half
    proves them matched up to the equivalence [mach_eq], which forgets the fields that only
    matter while a lock is held, and the last section proves mutual exclusion for any number of
    CPUs taking the steps of [acquire] and [release] in any interleaving. *)
From stdpp Require Import relations.
From S2P Require Import Prelude Mmu.

(** A kernel object: which global (or which kind of allocated object) and which instance. *)
Definition lockid : Type := string * Z.

Record spinlock := MkSpinlock {
  locked : Z;               (* is the lock held? *)
  lk_name : string;
  lk_cpu : option nat;      (* index of the CPU holding the lock *)
  pcs : list Z              (* call stack that locked the lock *)
}.

Definition spinlock0 : spinlock := MkSpinlock 0 "" None (replicate 10 0).

Record cpu := MkCpu {
  apicid : Z;
  ts_addr : Z;              (* where the linker put [ts] *)
  ts : taskstate;           (* used by x86 to find stack for interrupt *)
  gdt : list segdesc;       (* x86 global descriptor table *)
  started : Z;
  ncli : Z;                 (* depth of pushcli nesting *)
  intena : bool;            (* were interrupts enabled before pushcli? *)
  cproc : option nat        (* the process running on this cpu or null *)
}.

(** The machine as the executing CPU sees it.  [IF] is [readeflags() & FL_IF]; [lapicid] what
    [lapicid()] reads; [kread] and [argp] give the kernel stack that [getcallerpcs] walks;
    [cr3], [tr], [gdtr] and [idtr] are the page-directory, task and
    descriptor-table registers. *)
Record mach := MkMach {
  IF : bool;
  lapicid : Z;
  cpus : list cpu;
  locks : gmap lockid spinlock;
  kread : Z -> Z;
  argp : Z;
  cr3 : Z;
  tr : Z;
  gdtr : Z * Z;             (* address and limit *)
  idtr : Z * Z
}.

Definition set_IF (b : bool) (m : mach) : mach :=
  MkMach b (lapicid m) (cpus m) (locks m) (kread m) (argp m) (cr3 m) (tr m) (gdtr m) (idtr m).
Definition set_cpus (cs : list cpu) (m : mach) : mach :=
  MkMach (IF m) (lapicid m) cs (locks m) (kread m) (argp m) (cr3 m) (tr m) (gdtr m) (idtr m).
Definition set_locks (l : gmap lockid spinlock) (m : mach) : mach :=
  MkMach (IF m) (lapicid m) (cpus m) l (kread m) (argp m) (cr3 m) (tr m) (gdtr m) (idtr m).

Definition set_regs (c t : Z) (m : mach) : mach :=
  MkMach (IF m) (lapicid m) (cpus m) (locks m) (kread m) (argp m) c t (gdtr m) (idtr m).

Definition set_gdtr (d : Z * Z) (m : mach) : mach :=
  MkMach (IF m) (lapicid m) (cpus m) (locks m) (kread m) (argp m) (cr3 m) (tr m) d (idtr m).
Definition set_idtr (d : Z * Z) (m : mach) : mach :=
  MkMach (IF m) (lapicid m) (cpus m) (locks m) (kread m) (argp m) (cr3 m) (tr m) (gdtr m) d.

Definition set_ncli (n : Z) (c : cpu) : cpu :=
  MkCpu (apicid c) (ts_addr c) (ts c) (gdt c) (started c) n (intena c) (cproc c).
Definition set_intena (b : bool) (c : cpu) : cpu :=
  MkCpu (apicid c) (ts_addr c) (ts c) (gdt c) (started c) (ncli c) b (cproc c).
Definition set_started (z : Z) (c : cpu) : cpu :=
  MkCpu (apicid c) (ts_addr c) (ts c) (gdt c) z (ncli c) (intena c) (cproc c).
Definition set_ts (t : taskstate) (c : cpu) : cpu :=
  MkCpu (apicid c) (ts_addr c) t (gdt c) (started c) (ncli c) (intena c) (cproc c).
Definition set_gdt (g : list segdesc) (c : cpu) : cpu :=
  MkCpu (apicid c) (ts_addr c) (ts c) g (started c) (ncli c) (intena c) (cproc c).
Definition set_cproc (p : option nat) (c : cpu) : cpu :=
  MkCpu (apicid c) (ts_addr c) (ts c) (gdt c) (started c) (ncli c) (intena c) p.

(** Globals are zero-initialised, so a lock nobody touched is an unlocked one. *)
Definition lock_at (lk : lockid) (m : mach) : spinlock := default spinlock0 (locks m !! lk).

Definition set_lock (lk : lockid) (l : spinlock) (m : mach) : mach :=
  set_locks (<[lk := l]> (locks m)) m.

Definition cli : M mach unit := modify (set_IF false).
Definition sti : M mach unit := modify (set_IF true).

(** mycpu(): the CPU whose APIC id the hardware reports. *)
Definition this_cpu (m : mach) : option nat :=
  find_index (fun c => apicid c =? lapicid m) (cpus m).

Definition mycpu : M mach nat :=
  let* eflags := gets IF in
  if eflags then panic ("mycpu called with interrupts enabled" +:+ nl)
  else
    let* i := gets this_cpu in
    match i with
    | Some i => ret i
    | None => panic ("unknown apicid" +:+ nl)
    end.

(** Read and update the fields of [*mycpu()]. *)
Definition mycpu_read : M mach cpu := let* i := mycpu in getopt (fun m => cpus m !! i).
Definition mycpu_write (f : cpu -> cpu) : M mach unit :=
  let* i := mycpu in modify (fun m => set_cpus (alter f i (cpus m)) m).

(** cpuid(): [mycpu() - cpus]. *)
Definition cpuid : M mach Z := let* i := mycpu in ret (Z.of_nat i).

Definition pushcli : M mach unit :=
  let* eflags := gets IF in
  cli;;;
  let* c := mycpu_read in
  when (ncli c =? 0) (mycpu_write (set_intena eflags));;;
  mycpu_write (fun c => set_ncli (ncli c + 1) c).

Definition popcli : M mach unit :=
  let* eflags := gets IF in
  if eflags then panic "popcli - interruptible"
  else
    mycpu_write (fun c => set_ncli (ncli c - 1) c);;;
    let* c := mycpu_read in
    if ncli c <? 0 then panic "popcli"
    else when ((ncli c =? 0) && intena c) sti.

Definition holding (lk : lockid) : M mach bool :=
  pushcli;;;
  let* l := gets (lock_at lk) in
  let* r := (if locked l =? 0 then ret false
             else let* i := mycpu in ret (bool_decide (lk_cpu l = Some i))) in
  popcli;;;
  ret r.

(** getcallerpcs(v, pcs): follow the %ebp chain from [v - 2] words, at most ten frames; the
    unused entries are zeroed. *)
Fixpoint callerpcs (rd : Z -> Z) (ebp : Z) (n : nat) : list Z :=
  match n with
  | O => []
  | S n' =>
      if (ebp =? 0) || (ebp <? KERNBASE) || (ebp =? 0xffffffff) then replicate n 0
      else rd (u32 (ebp + 4)) :: callerpcs rd (rd ebp) n'
  end.
Definition getcallerpcs (rd : Z -> Z) (v : Z) : list Z := callerpcs rd (u32 (v - 8)) 10.

Definition initlock (lk : lockid) (name : string) : M mach unit :=
  modify (fun m => let l := lock_at lk m in set_lock lk (MkSpinlock 0 name None (pcs l)) m).

(** [xchg(&lk->locked, 1)]: store 1, return the old value, atomically. *)
Definition xchg_locked (lk : lockid) : M mach Z :=
  let* l := gets (lock_at lk) in
  modify (set_lock lk (MkSpinlock 1 (lk_name l) (lk_cpu l) (pcs l)));;;
  ret (locked l).

Definition acquire (lk : lockid) : M mach unit :=
  pushcli;;;
  let* h := holding lk in
  if h then panic "acquire"
  else
    let* old := xchg_locked lk in
    if negb (old =? 0) then spin
    else
      let* i := mycpu in
      let* rd := gets kread in
      let* v := gets argp in
      modify (fun m => let l := lock_at lk m in
        set_lock lk (MkSpinlock (locked l) (lk_name l) (Some i) (getcallerpcs rd v)) m).

Definition release (lk : lockid) : M mach unit :=
  let* h := holding lk in
  if negb h then panic "release"
  else
    modify (fun m => let l := lock_at lk m in
      set_lock lk (MkSpinlock (locked l) (lk_name l) None (<[0%nat := 0]> (pcs l))) m);;;
    modify (fun m => let l := lock_at lk m in
      set_lock lk (MkSpinlock 0 (lk_name l) (lk_cpu l) (pcs l)) m);;;
    popcli.

(** ** Locks in the state of a component *)
Class HasMach (S : Type) := {
  mach_lens : lens S mach;
  mach_lens_laws :: LensLaws mach_lens
}.

Definition kacquire {S} `{!HasMach S} (lk : lockid) : M S unit := zoom mach_lens (acquire lk).
Definition krelease {S} `{!HasMach S} (lk : lockid) : M S unit := zoom mach_lens (release lk).
Definition kholding {S} `{!HasMach S} (lk : lockid) : M S bool := zoom mach_lens (holding lk).
Definition kinitlock {S} `{!HasMach S} (lk : lockid) (name : string) : M S unit :=
  zoom mach_lens (initlock lk name).

(** ** What the callers rely on *)

Definition held_here (lk : lockid) (m : mach) : bool :=
  negb (locked (lock_at lk m) =? 0) && bool_decide (lk_cpu (lock_at lk m) = this_cpu m).
Definition lock_free (lk : lockid) (m : mach) : Prop := locked (lock_at lk m) = 0.

(** The executing CPU is known, its nesting depth is not negative, and while it is positive
    interrupts are off. *)
Definition mach_ok (m : mach) : Prop :=
  exists i c, this_cpu m = Some i /\ cpus m !! i = Some c /\ 0 <= ncli c /\
              (0 < ncli c -> IF m = false).

(** Equal up to what nobody may look at: [intena] of a CPU that is not inside [pushcli], the
    holder of a lock nobody holds, and the name and call stack of a lock. *)
Definition cpu_eq (c c' : cpu) : Prop :=
  apicid c = apicid c' /\ (started c, ts_addr c, ts c, gdt c) = (started c', ts_addr c', ts c', gdt c') /\
  ncli c = ncli c' /\ cproc c = cproc c' /\
  (ncli c <> 0 -> intena c = intena c').
Definition lock_eq (l l' : spinlock) : Prop :=
  locked l = locked l' /\ (locked l <> 0 -> lk_cpu l = lk_cpu l').
Definition mach_eq (m m' : mach) : Prop :=
  IF m = IF m' /\ (lapicid m, cr3 m, tr m, gdtr m, idtr m) = (lapicid m', cr3 m', tr m', gdtr m', idtr m') /\
  Forall2 cpu_eq (cpus m) (cpus m') /\
  (forall lk, lock_eq (lock_at lk m) (lock_at lk m')).

(** The effect of [pushcli], [popcli], [acquire] and [release] on the CPU with index [i]. *)
Definition push_cpu (i : nat) (m : mach) : mach :=
  set_IF false (set_cpus (alter (fun c =>
    set_ncli (ncli c + 1) (if ncli c =? 0 then set_intena (IF m) c else c)) i (cpus m)) m).
Definition pop_cpu (i : nat) (m : mach) : mach :=
  let m' := set_cpus (alter (fun c => set_ncli (ncli c - 1) c) i (cpus m)) m in
  match cpus m !! i with
  | Some c => if (ncli c - 1 =? 0) && intena c then set_IF true m' else m'
  | None => m'
  end.
Definition take_lock (i : nat) (lk : lockid) (m : mach) : mach :=
  let l := lock_at lk m in
  set_lock lk (MkSpinlock 1 (lk_name l) (Some i) (getcallerpcs (kread m) (argp m))) m.
Definition drop_lock (lk : lockid) (m : mach) : mach :=
  let l := lock_at lk m in
  set_lock lk (MkSpinlock 0 (lk_name l) None (<[0%nat := 0]> (pcs l))) m.

(** [m'] is [m] with [lk] taken by the executing CPU. *)
Definition acquired (lk : lockid) (m m' : mach) : Prop :=
  exists i, this_cpu m = Some i /\ mach_eq m' (take_lock i lk (push_cpu i m)).

(** Where a thread stands: it runs on CPU [c], whose current process is [p], inside [n]
    unmatched [pushcli]s (so with interrupts off if [n > 0]), holding the locks [L]; the locks
    [F] are free. *)
Definition on_cpu (c : nat) (p : option nat) (n : Z) (L F : list lockid) (m : mach) : Prop :=
  this_cpu m = Some c /\ (0 < n -> IF m = false) /\
  (exists k, cpus m !! c = Some k /\ ncli k = n /\ cproc k = p) /\
  Forall (fun lk => held_here lk m = true) L /\ Forall (fun lk => lock_free lk m) F.

(** Updates of a CPU's record that leave its lock bookkeeping alone. *)
Definition cpu_frame (f : cpu -> cpu) : Prop :=
  forall c, apicid (f c) = apicid c /\ ncli (f c) = ncli c.

(** ** Interleaved CPUs

    Where a CPU is in [acquire]/[release] of one lock: outside, spinning on [xchg] (after
    [pushcli] and the [holding] test), past the successful [xchg] but before [lk->cpu] is
    recorded, in the critical section, or in [release] after [lk->cpu = 0]. *)
Inductive cpu_pc := Outside | Spinning | Won | Critical | Leaving.

Record lock_sys := LockSys { ls_locked : Z; ls_cpu : option nat; ls_pc : list cpu_pc }.

Definition owns (pc : cpu_pc) : bool :=
  match pc with Won | Critical | Leaving => true | _ => false end.

(** The [holding(lk)] test CPU [i] makes. *)
Definition ls_holding (i : nat) (s : lock_sys) : bool :=
  negb (ls_locked s =? 0) && bool_decide (ls_cpu s = Some i).

Inductive lock_step : lock_sys -> lock_sys -> Prop :=
| ls_start s i : ls_pc s !! i = Some Outside -> ls_holding i s = false ->
    lock_step s (LockSys (ls_locked s) (ls_cpu s) (<[i := Spinning]> (ls_pc s)))
| ls_xchg s i : ls_pc s !! i = Some Spinning ->
    lock_step s (LockSys 1 (ls_cpu s)
      (if ls_locked s =? 0 then <[i := Won]> (ls_pc s) else ls_pc s))
| ls_record s i : ls_pc s !! i = Some Won ->
    lock_step s (LockSys (ls_locked s) (Some i) (<[i := Critical]> (ls_pc s)))
| ls_forget s i : ls_pc s !! i = Some Critical -> ls_holding i s = true ->
    lock_step s (LockSys (ls_locked s) None (<[i := Leaving]> (ls_pc s)))
| ls_store s i : ls_pc s !! i = Some Leaving ->
    lock_step s (LockSys 0 (ls_cpu s) (<[i := Outside]> (ls_pc s))).

Definition lock_init (n : nat) : lock_sys := LockSys 0 None (replicate n Outside).

(** One CPU at most owns the lock, the lock word is 1 exactly when one does, and [lk->cpu] is
    the CPU in its critical section. *)
Definition lock_sys_ok (s : lock_sys) : Prop :=
  exists o : option nat,
    ls_locked s = match o with Some _ => 1 | None => 0 end /\
    (forall i pc, ls_pc s !! i = Some pc -> owns pc = true <-> o = Some i) /\
    (forall i, o = Some i -> is_Some (ls_pc s !! i)) /\
    (forall i, ls_pc s !! i = Some Critical <-> ls_cpu s = Some i).

(** ** The equivalence *)
#[export] Instance cpu_eq_equiv : Equivalence cpu_eq.
Proof.
  unfold cpu_eq. split.
  - intros c. tauto.
  - intros c d (? & ? & Hn & ? & Hi). split_and!; [congruence..|].
    intros Hne. symmetry. apply Hi. congruence.
  - intros c d e (? & ? & Hn & ? & Hi) (? & ? & Hn' & ? & Hi'). split_and!; [congruence..|].
    intros Hne. rewrite Hi by done. apply Hi'. congruence.
Qed.

#[export] Instance lock_eq_equiv : Equivalence lock_eq.
Proof.
  unfold lock_eq. split.
  - intros l. tauto.
  - intros l k [E Hc]. split; [congruence|]. intros Hne. symmetry. apply Hc. congruence.
  - intros l k j [E Hc] [E' Hc']. split; [congruence|]. intros Hne. rewrite Hc by done.
    apply Hc'. congruence.
Qed.

#[export] Instance mach_eq_equiv : Equivalence mach_eq.
Proof.
  split.
  - intros m. unfold mach_eq. done.
  - intros m m' (? & ? & Hc & Hl). unfold mach_eq. split_and!; [done..|by symmetry|].
    intros lk. symmetry. apply Hl.
  - intros m1 m2 m3 (? & ? & Hc & Hl) (? & ? & Hc' & Hl'). unfold mach_eq.
    split_and!; [congruence..|by etrans|]. intros lk. etrans; [apply Hl|apply Hl'].
Qed.

#[export] Instance this_cpu_proper : Proper (mach_eq ==> eq) this_cpu.
Proof.
  intros m m' (_ & Hid & Hc & _). apply find_index_Forall2. injection Hid as -> _ _.
  eapply Forall2_impl; [exact Hc|]. intros c c' [E _]. simpl. by rewrite E.
Qed.

#[export] Instance lock_free_proper lk : Proper (mach_eq ==> iff) (lock_free lk).
Proof. intros m m' (_ & _ & _ & Hl). unfold lock_free. destruct (Hl lk) as [-> _]. done. Qed.

#[export] Instance mach_ok_proper : Proper (mach_eq ==> iff) mach_ok.
Proof.
  assert (forall m m', mach_eq m m' -> mach_ok m -> mach_ok m') as H.
  { intros m m' E (i & c & Hi & Hc & H0 & HI). pose proof E as (EI & _ & Ec & _).
    destruct (Forall2_lookup_l _ _ _ _ _ Ec Hc) as (c' & Hc' & (_ & _ & Hn & _)).
    exists i, c'. rewrite <- (this_cpu_proper _ _ E), <- Hn, <- EI. auto. }
  intros m m' E. split; [by apply H|apply H; by symmetry].
Qed.

Lemma lock_at_set lk lk' l m :
  lock_at lk (set_lock lk' l m) = if decide (lk = lk') then l else lock_at lk m.
Proof.
  unfold lock_at, set_lock, set_locks; simpl. case_decide as E.
  - subst. by rewrite lookup_insert_eq.
  - by rewrite lookup_insert_ne.
Qed.

Lemma this_cpu_alter (f : cpu -> cpu) i m :
  (forall c, apicid (f c) = apicid c) -> this_cpu (set_cpus (alter f i (cpus m)) m) = this_cpu m.
Proof.
  intros Hf. unfold this_cpu. simpl. apply find_index_Forall2.
  apply Forall2_alter_l; [by apply Forall2_same|]. intros x y _ _ <-. by rewrite Hf.
Qed.

Lemma this_cpu_push i m : this_cpu (push_cpu i m) = this_cpu m.
Proof.
  unfold push_cpu. rewrite <- (this_cpu_alter (fun c =>
    set_ncli (ncli c + 1) (if ncli c =? 0 then set_intena (IF m) c else c)) i m); [done|].
  intros c. by destruct (ncli c =? 0).
Qed.

(** ** pushcli and popcli *)
Lemma alter_alter {A} (f g : A -> A) i (l : list A) : alter f i (alter g i l) = alter (f ∘ g) i l.
Proof. by rewrite list_alter_alter_eq. Qed.

Lemma alter_ext_at {A} (f g : A -> A) i (l : list A) x :
  l !! i = Some x -> f x = g x -> alter f i l = alter g i l.
Proof. intros Hx Hfg. apply list_alter_ext; [|done]. intros y Hy. congruence. Qed.

Lemma lookup_alter_at {A} (f : A -> A) i (l : list A) x :
  l !! i = Some x -> alter f i l !! i = Some (f x).
Proof. intros Hx. by rewrite list_lookup_alter_eq, Hx. Qed.

Lemma pushcli_run m i c :
  this_cpu m = Some i -> cpus m !! i = Some c -> pushcli m = Done tt (push_cpu i m).
Proof.
  intros Hi Hc. unfold pushcli, cli, mycpu_read, mycpu_write, mycpu, bind, gets, getopt, modify,
    when. simpl. change (this_cpu (set_IF false m)) with (this_cpu m). rewrite Hi. simpl. rewrite Hc.
  simpl. unfold push_cpu. destruct (ncli c =? 0) eqn:E; simpl.
  - change (this_cpu (set_IF false m)) with (this_cpu m). rewrite Hi; simpl.
    rewrite (this_cpu_alter _ i (set_IF false m)) by done.
    change (this_cpu (set_IF false m)) with (this_cpu m). rewrite Hi; simpl.
    rewrite alter_alter. unfold set_cpus, set_IF; simpl.
    do 2 f_equal. eapply alter_ext_at; [done|]. simpl. by rewrite E.
  - change (this_cpu (set_IF false m)) with (this_cpu m). rewrite Hi; simpl.
    unfold set_cpus, set_IF; simpl.
    do 2 f_equal. eapply alter_ext_at; [done|]. simpl. by rewrite E.
Qed.

Lemma popcli_run m i c :
  this_cpu m = Some i -> cpus m !! i = Some c -> IF m = false -> 1 <= ncli c ->
  popcli m = Done tt (pop_cpu i m).
Proof.
  intros Hi Hc HI Hn. unfold popcli, sti, mycpu_read, mycpu_write, mycpu, bind, gets, getopt,
    modify, when. simpl. rewrite HI. simpl. rewrite HI. simpl. rewrite Hi. simpl. rewrite HI. simpl.
  rewrite this_cpu_alter by done. rewrite Hi. simpl. rewrite (lookup_alter_at _ _ _ _ Hc). simpl.
  destruct (Z.ltb_spec (ncli c - 1) 0); [lia|]. unfold pop_cpu. rewrite Hc.
  by destruct ((ncli c - 1 =? 0) && intena c).
Qed.

Lemma pop_push m i c :
  cpus m !! i = Some c -> 0 <= ncli c -> (0 < ncli c -> IF m = false) ->
  mach_eq (pop_cpu i (push_cpu i m)) m.
Proof.
  intros Hc Hn HI. unfold pop_cpu, push_cpu. simpl. rewrite (lookup_alter_at _ _ _ _ Hc). simpl.
  rewrite alter_alter.
  assert (Forall2 cpu_eq (alter ((fun c => set_ncli (ncli c - 1) c) ∘ (fun c =>
    set_ncli (ncli c + 1) (if ncli c =? 0 then set_intena (IF m) c else c))) i (cpus m)) (cpus m)).
  { apply Forall2_alter_l; [by apply Forall2_same|]. intros x y Hx Hy _. simplify_eq.
    unfold cpu_eq. simpl. destruct (Z.eqb_spec (ncli c) 0); simpl; repeat split; try lia; done. }
  replace (ncli c + 1 - 1) with (ncli c) by lia.
  destruct (Z.eqb_spec (ncli c) 0) as [E|E]; simpl.
  - destruct (IF m) eqn:EI; repeat split; done.
  - rewrite ?andb_false_l. repeat split; simpl; try done. symmetry. apply HI. lia.
Qed.

Lemma push_cpu_ok m i c :
  this_cpu m = Some i -> cpus m !! i = Some c -> 0 <= ncli c -> mach_ok (push_cpu i m).
Proof.
  intros Hi Hc Hn. exists i. eexists. rewrite this_cpu_push.
  split; [done|]. split; [by apply lookup_alter_at|]. simpl. split; [lia|done].
Qed.

(** C-level matching: [pushcli] then [popcli] leaves interrupts and nesting as they were. *)
Lemma pushcli_popcli_eq m :
  mach_ok m -> wp (pushcli;;; popcli) (fun _ m' => mach_eq m' m) m.
Proof.
  intros (i & c & Hi & Hc & Hn & HI). apply wp_bind. unfold wp at 1.
  rewrite (pushcli_run _ _ _ Hi Hc). unfold wp.
  erewrite popcli_run; [| |by apply lookup_alter_at|done|simpl; lia].
  - by eapply pop_push.
  - by rewrite this_cpu_push.
Qed.

Lemma holding_run lk m :
  mach_ok m -> exists m', mach_eq m' m /\ holding lk m = Done (held_here lk m) m'.
Proof.
  intros (i & c & Hi & Hc & Hn & HI). unfold holding, held_here, bind.
  rewrite (pushcli_run _ _ _ Hi Hc). simpl.
  assert (popcli (push_cpu i m) = Done tt (pop_cpu i (push_cpu i m))) as Hpop.
  { eapply popcli_run; [by rewrite this_cpu_push|by apply lookup_alter_at|done|simpl; lia]. }
  exists (pop_cpu i (push_cpu i m)). split; [by eapply pop_push|].
  change (lock_at lk (push_cpu i m)) with (lock_at lk m). rewrite Hi.
  destruct (locked (lock_at lk m) =? 0); simpl; [by rewrite Hpop|].
  unfold mycpu, bind, gets; simpl. rewrite this_cpu_push, Hi. simpl. by rewrite Hpop.
Qed.

#[export] Instance held_here_proper lk : Proper (mach_eq ==> eq) (held_here lk).
Proof.
  intros m m' E. unfold held_here. rewrite (this_cpu_proper _ _ E).
  destruct E as (_ & _ & _ & Hl). destruct (Hl lk) as [E Hc].
  rewrite <- E. destruct (Z.eqb_spec (locked (lock_at lk m)) 0); simpl; [done|]. by rewrite Hc.
Qed.

#[export] Instance drop_lock_proper lk : Proper (mach_eq ==> mach_eq) (drop_lock lk).
Proof.
  intros m m' (HI & Hid & Hc & Hl). unfold mach_eq. split_and!; [done..|].
  intros k. unfold drop_lock. rewrite !lock_at_set. case_decide; [done|]. apply Hl.
Qed.

#[export] Instance take_lock_proper i lk : Proper (mach_eq ==> mach_eq) (take_lock i lk).
Proof.
  intros m m' (HI & Hid & Hc & Hl). unfold mach_eq. split_and!; [done..|].
  intros k. unfold take_lock. rewrite !lock_at_set. case_decide; [done|]. apply Hl.
Qed.

Lemma push_cpu_eq i m m' : mach_eq m m' -> mach_eq (push_cpu i m) (push_cpu i m').
Proof.
  intros (HI & Hid & Hc & Hl). unfold mach_eq, push_cpu. simpl. split_and!; [done..| |exact Hl].
  rewrite HI. apply Forall2_alter; [done|]. intros c c' Hx Hy (? & ? & Hn & ? & Hi).
  rewrite <- Hn. unfold cpu_eq.
  destruct (Z.eqb_spec (ncli c) 0); simpl; split_and!; try congruence; auto.
Qed.

Lemma pop_cpu_eq i m m' :
  mach_eq m m' -> (forall c, cpus m !! i = Some c -> 1 <= ncli c) ->
  mach_eq (pop_cpu i m) (pop_cpu i m').
Proof.
  intros (HI & Hid & Hc & Hl) Hge.
  assert (Forall2 cpu_eq (alter (fun c => set_ncli (ncli c - 1) c) i (cpus m))
    (alter (fun c => set_ncli (ncli c - 1) c) i (cpus m'))) as Hc2.
  { apply Forall2_alter; [done|]. intros c c' Hx Hy (? & ? & Hn & ? & Hi).
    specialize (Hge _ Hx). unfold cpu_eq. simpl. split_and!; try congruence; try lia.
    intros _. apply Hi. lia. }
  unfold pop_cpu. destruct (cpus m !! i) as [c|] eqn:E.
  - destruct (Forall2_lookup_l _ _ _ _ _ Hc E) as (c' & -> & (_ & _ & Hn & _ & Hi)).
    rewrite <- Hn, <- Hi by (specialize (Hge _ eq_refl); lia).
    destruct ((ncli c - 1 =? 0) && intena c); unfold mach_eq; simpl; done.
  - assert (cpus m' !! i = None) as ->.
    { apply lookup_ge_None. rewrite <- (Forall2_length _ _ _ Hc). by apply lookup_ge_None. }
    unfold mach_eq; simpl; done.
Qed.

Lemma pop_cpu_set_locks i l m : pop_cpu i (set_locks l m) = set_locks l (pop_cpu i m).
Proof.
  unfold pop_cpu. simpl. destruct (cpus m !! i) as [c|]; [|done].
  by destruct ((ncli c - 1 =? 0) && intena c).
Qed.

Lemma lock_at_pop k i m : lock_at k (pop_cpu i m) = lock_at k m.
Proof.
  unfold pop_cpu. destruct (cpus m !! i) as [c|]; [|done].
  by destruct ((ncli c - 1 =? 0) && intena c).
Qed.

Lemma mach_eq_set_locks l m :
  (forall k, lock_eq (default spinlock0 (l !! k)) (lock_at k m)) -> mach_eq (set_locks l m) m.
Proof. intros H. unfold mach_eq. simpl. by split_and!. Qed.

(** ** acquire and release *)
Lemma acquired_facts lk m m1 i c :
  this_cpu m = Some i -> cpus m !! i = Some c -> 0 <= ncli c -> acquired lk m m1 ->
  mach_ok m1 /\ held_here lk m1 = true /\ IF m1 = false /\ this_cpu m1 = Some i /\
  (exists c1, cpus m1 !! i = Some c1 /\ ncli c1 = ncli c + 1).
Proof.
  intros Hi Hc Hn (j & Hj & E). rewrite Hi in Hj. simplify_eq.
  assert (this_cpu (take_lock j lk (push_cpu j m)) = Some j) as Ht by (by rewrite <- Hi, <- (this_cpu_push j m)).
  split_and!.
  - rewrite E. change (mach_ok (take_lock j lk (push_cpu j m))) with (mach_ok (push_cpu j m)).
    by eapply push_cpu_ok.
  - rewrite E. unfold held_here. rewrite Ht. unfold take_lock. rewrite lock_at_set.
    rewrite decide_True by done. simpl. by apply bool_decide_eq_true_2.
  - by destruct E as (-> & _).
  - by rewrite E.
  - destruct E as (_ & _ & Hf & _). simpl in Hf.
    destruct (Forall2_lookup_r _ _ _ _ _ Hf (lookup_alter_at _ _ _ _ Hc)) as (c1 & Hc1 & E1).
    exists c1. split; [done|]. by destruct E1 as (_ & _ & -> & _).
Qed.

(** Taking a free lock succeeds, and leaves interrupts off and the lock held. *)
Lemma acquire_free lk m :
  mach_ok m -> lock_free lk m -> wp (acquire lk) (fun _ m' => acquired lk m m') m.
Proof.
  intros Hok Hfree. pose proof Hok as (i & c & Hi & Hc & Hn & HI).
  assert (mach_ok (push_cpu i m)) as Hok' by (by eapply push_cpu_ok).
  destruct (holding_run lk _ Hok') as (m1 & E1 & Hh).
  assert (held_here lk (push_cpu i m) = false) as Hhf.
  { unfold held_here. change (lock_at lk (push_cpu i m)) with (lock_at lk m). by rewrite Hfree. }
  assert (lock_free lk m1) as Hfree1 by (by rewrite E1).
  assert (this_cpu m1 = Some i) as Hi1 by (by rewrite E1, this_cpu_push).
  unfold wp, acquire, bind. rewrite (pushcli_run _ _ _ Hi Hc). simpl. rewrite Hh, Hhf.
  unfold lock_free in Hfree1. unfold xchg_locked, mycpu, bind, gets, modify. simpl.
  rewrite Hfree1. simpl. destruct E1 as (EI & Eid & Ec & El). rewrite EI. simpl.
  change (this_cpu (set_lock lk _ m1)) with (this_cpu m1). rewrite Hi1. simpl.
  exists i. split; [done|]. unfold mach_eq. split_and!; [done..|].
  intros k. unfold take_lock. rewrite !lock_at_set. case_decide as Ek; [|apply El].
  by rewrite decide_True.
Qed.

(** Taking a lock another CPU holds busy-waits; taking one's own panics. *)
Lemma acquire_contended lk m :
  mach_ok m -> ~ lock_free lk m ->
  acquire lk m = if held_here lk m then Panic "acquire" else Spin.
Proof.
  intros Hok Hbusy. pose proof Hok as (i & c & Hi & Hc & Hn & HI).
  assert (mach_ok (push_cpu i m)) as Hok' by (by eapply push_cpu_ok).
  destruct (holding_run lk _ Hok') as (m1 & E1 & Hh).
  assert (held_here lk (push_cpu i m) = held_here lk m) as Heq.
  { unfold held_here. by rewrite this_cpu_push. }
  assert (~ lock_free lk m1) as Hb1 by (by rewrite E1).
  unfold acquire, bind. rewrite (pushcli_run _ _ _ Hi Hc). simpl. rewrite Hh, Heq.
  destruct (held_here lk m); [done|]. unfold xchg_locked, bind, gets, modify. simpl.
  unfold lock_free in Hb1. by destruct (Z.eqb_spec (locked (lock_at lk m1)) 0).
Qed.

(** Releasing a lock the CPU holds frees it and undoes one [pushcli]. *)
Lemma release_run lk m i c :
  this_cpu m = Some i -> cpus m !! i = Some c -> 1 <= ncli c -> IF m = false ->
  held_here lk m = true ->
  wp (release lk) (fun _ m' => mach_eq m' (pop_cpu i (drop_lock lk m))) m.
Proof.
  intros Hi Hc Hn HI Hh.
  assert (mach_ok m) as Hok by (exists i, c; split_and!; auto; lia).
  destruct (holding_run lk _ Hok) as (m2 & E2 & Hh2).
  unfold wp, release, bind. rewrite Hh2, Hh. simpl.
  set (m3 := drop_lock lk m2).
  match goal with |- context [popcli ?x] => assert (x = m3) as -> end.
  { unfold m3, drop_lock. rewrite lock_at_set, decide_True by done. simpl.
    unfold set_lock, set_locks; simpl. by rewrite insert_insert_eq. }
  assert (mach_eq m3 (drop_lock lk m)) as E3 by (unfold m3; by rewrite E2).
  pose proof E3 as (EI & Eid & Ec & El).
  destruct (Forall2_lookup_r _ _ _ _ _ Ec Hc) as (c3 & Hc3 & E33).
  assert (ncli c3 = ncli c) by apply E33.
  rewrite (popcli_run m3 i c3); [| |done|by rewrite EI|lia].
  - apply pop_cpu_eq; [done|]. intros c4 Hc4. rewrite Hc3 in Hc4. injection Hc4 as <-. lia.
  - unfold m3. change (this_cpu (drop_lock lk m2)) with (this_cpu m2). by rewrite E2.
Qed.

(** Releasing a lock taken from [m] restores [m], whatever happened to it in between that
    [mach_eq] does not see. *)
Lemma release_acquired lk m m1 :
  mach_ok m -> lock_free lk m -> acquired lk m m1 ->
  wp (release lk) (fun _ m' => mach_eq m' m) m1.
Proof.
  intros (i & c & Hi & Hc & Hn & HI) Hfree Hacq.
  destruct (acquired_facts _ _ _ _ _ Hi Hc Hn Hacq) as (Hok1 & Hh1 & HI1 & Hi1 & c1 & Hc1 & Hn1).
  eapply wp_mono; [|eapply (release_run _ _ _ _ Hi1 Hc1); [lia|done..]]. intros [] m' Hm'.
  rewrite Hm'. destruct Hacq as (j & Hj & Em1). assert (j = i) as -> by congruence. clear Hj.
  rewrite (pop_cpu_eq i (drop_lock lk m1) (drop_lock lk (take_lock i lk (push_cpu i m)))).
  3:{ intros c4 Hc4. change (cpus (drop_lock lk m1)) with (cpus m1) in Hc4. simplify_eq. lia. }
  2:{ by rewrite Em1. }
  rewrite <- (pop_push m i c) at 2 by done.
  change (drop_lock lk (take_lock i lk (push_cpu i m))) with
    (set_locks (locks (drop_lock lk (take_lock i lk (push_cpu i m)))) (push_cpu i m)).
  rewrite pop_cpu_set_locks. apply mach_eq_set_locks. intros k.
  change (lock_eq (lock_at k (drop_lock lk (take_lock i lk (push_cpu i m))))
    (lock_at k (pop_cpu i (push_cpu i m)))).
  rewrite lock_at_pop. unfold drop_lock, take_lock. rewrite lock_at_set.
  case_decide as Ek; [|by rewrite lock_at_set, decide_False].
  subst k. by split; [symmetry|].
Qed.

Section clients.
Context {S : Type} `{!HasMach S}.

Lemma wp_kacquire lk (Q : unit -> S -> Prop) s :
  mach_ok (view mach_lens s) -> lock_free lk (view mach_lens s) ->
  (forall m, acquired lk (view mach_lens s) m -> Q tt (put mach_lens m s)) ->
  wp (kacquire lk) Q s.
Proof.
  intros Hok Hfree HQ. apply wp_zoom. eapply wp_mono; [|by apply acquire_free].
  intros [] m Hm. by apply HQ.
Qed.

Lemma wp_krelease lk m0 (Q : unit -> S -> Prop) s :
  mach_ok m0 -> lock_free lk m0 -> acquired lk m0 (view mach_lens s) ->
  (forall m, mach_eq m m0 -> Q tt (put mach_lens m s)) -> wp (krelease lk) Q s.
Proof.
  intros Hok Hfree Hacq HQ. apply wp_zoom. eapply wp_mono; [|by eapply release_acquired].
  intros [] m Hm. by apply HQ.
Qed.
End clients.

Lemma acquired_eq lk m m1 m2 : acquired lk m m1 -> mach_eq m2 m1 -> acquired lk m m2.
Proof. intros (i & Hi & E) E2. exists i. split; [done|]. by rewrite E2. Qed.

Lemma acquired_ok lk m m1 : mach_ok m -> acquired lk m m1 -> mach_ok m1.
Proof.
  intros (i & c & Hi & Hc & Hn & HI) Hacq. by destruct (acquired_facts _ _ _ _ _ Hi Hc Hn Hacq).
Qed.

Lemma acquired_other lk lk' m m1 :
  acquired lk m m1 -> lk' <> lk -> lock_free lk' m1 <-> lock_free lk' m.
Proof.
  intros (i & Hi & E) Hne. rewrite E. unfold lock_free, take_lock.
  by rewrite lock_at_set, decide_False by done.
Qed.

(** ** Threads on their CPU *)
#[export] Instance on_cpu_proper c p n L F : Proper (mach_eq ==> iff) (on_cpu c p n L F).
Proof.
  assert (forall m m', mach_eq m m' -> on_cpu c p n L F m -> on_cpu c p n L F m') as H.
  { intros m m' E (Hi & HI & (k & Hk & Hn & Hp) & HL & HF). pose proof E as (EI & _ & Ec & _).
    destruct (Forall2_lookup_l _ _ _ _ _ Ec Hk) as (k' & Hk' & (_ & _ & En & Ep & _)).
    unfold on_cpu. rewrite <- (this_cpu_proper _ _ E), <- EI. split_and!; [done..| | |].
    - exists k'. split_and!; [done|congruence..].
    - eapply Forall_impl; [exact HL|]. intros lk Hlk. by rewrite <- (held_here_proper lk _ _ E).
    - eapply Forall_impl; [exact HF|]. intros lk Hlk. by rewrite <- (lock_free_proper lk _ _ E). }
  intros m m' E. split; [by apply H|apply H; by symmetry].
Qed.

Lemma on_cpu_ok c p n L F m : 0 <= n -> on_cpu c p n L F m -> mach_ok m.
Proof.
  intros Hn (Hi & HI & (k & Hk & <- & _) & _). exists c, k. auto.
Qed.

Lemma on_cpu_weaken c p n L F L' F' m :
  on_cpu c p n L F m -> L' ⊆ L -> F' ⊆ F -> on_cpu c p n L' F' m.
Proof.
  intros (Hi & HI & Hk & HL & HF) HsL HsF. rewrite Forall_forall in HL, HF. unfold on_cpu.
  rewrite !Forall_forall. auto 10.
Qed.

(** A change of CPU records alone keeps locks held and free. *)
Lemma locks_alter L F f c m :
  (forall k, apicid (f k) = apicid k) ->
  Forall (fun lk => held_here lk m = true) L -> Forall (fun lk => lock_free lk m) F ->
  let m' := set_cpus (alter f c (cpus m)) m in
  Forall (fun lk => held_here lk m' = true) L /\ Forall (fun lk => lock_free lk m') F.
Proof.
  intros Hf HL HF. simpl. split; [|done]. eapply Forall_impl; [exact HL|]. intros lk.
  unfold held_here. by rewrite this_cpu_alter.
Qed.

Lemma on_cpu_alter c p q n L F f m :
  cpu_frame f -> (forall k, cproc k = p -> cproc (f k) = q) ->
  on_cpu c p n L F m -> on_cpu c q n L F (set_cpus (alter f c (cpus m)) m).
Proof.
  intros Hf Hp (Hi & HI & (k & Hk & Hn & Hcp) & HL & HF). unfold on_cpu.
  rewrite this_cpu_alter by apply Hf. split_and!; [done..| | |].
  - exists (f k). simpl. rewrite (lookup_alter_at _ _ _ _ Hk). destruct (Hf k) as [_ ->]. auto.
  - apply (locks_alter L F f c m); [apply Hf|done..].
  - apply (locks_alter L F f c m); [apply Hf|done..].
Qed.

Lemma on_cpu_regs c p n L F m a b : on_cpu c p n L F m -> on_cpu c p n L F (set_regs a b m).
Proof. done. Qed.

Lemma on_cpu_push c p n L F m :
  0 <= n -> on_cpu c p n L F m -> wp pushcli (fun _ => on_cpu c p (n + 1) L F) m.
Proof.
  intros Hn0 (Hi & HI & (k & Hk & Hn & Hcp) & HL & HF). unfold wp.
  rewrite (pushcli_run _ _ _ Hi Hk). unfold on_cpu. rewrite this_cpu_push.
  split_and!; [done..| | |done].
  - eexists. split; [by apply lookup_alter_at|]. simpl. rewrite Hn. by destruct (n =? 0).
  - eapply Forall_impl; [exact HL|]. intros lk. unfold held_here. by rewrite this_cpu_push.
Qed.

Lemma pop_cpu_fields i m : this_cpu (pop_cpu i m) = this_cpu m /\
  cpus (pop_cpu i m) = alter (fun c => set_ncli (ncli c - 1) c) i (cpus m).
Proof.
  unfold pop_cpu. destruct (cpus m !! i) as [k|] eqn:Hk.
  - split; [|by destruct (_ && _)]. rewrite <- (this_cpu_alter (fun c => set_ncli (ncli c - 1) c) i m) by done.
    by destruct (_ && _).
  - split; [by apply this_cpu_alter|done].
Qed.

Lemma on_cpu_pop_cpu c p n L F m :
  1 <= n -> on_cpu c p n L F m -> on_cpu c p (n - 1) L F (pop_cpu c m).
Proof.
  intros Hn2 (Hi & HI & (k & Hk & Hn & Hcp) & HL & HF). destruct (pop_cpu_fields c m) as [Et Ec].
  unfold on_cpu. rewrite Et. split_and!; [done| | | |].
  - intros Hn1. unfold pop_cpu. rewrite Hk, Hn. destruct (Z.eqb_spec (n - 1) 0); [lia|]. apply HI. lia.
  - eexists. rewrite Ec, (lookup_alter_at _ _ _ _ Hk). split; [done|]. simpl. by rewrite Hn.
  - eapply Forall_impl; [exact HL|]. intros lk. unfold held_here. by rewrite Et, lock_at_pop.
  - eapply Forall_impl; [exact HF|]. intros lk. unfold lock_free. by rewrite lock_at_pop.
Qed.

Lemma on_cpu_pop c p n L F m :
  1 <= n -> on_cpu c p n L F m -> wp popcli (fun _ => on_cpu c p (n - 1) L F) m.
Proof.
  intros Hn Hon. pose proof Hon as (Hi & HI & (k & Hk & Hnk & Hcp) & _). unfold wp.
  rewrite (popcli_run _ _ _ Hi Hk) by (lia || (apply HI; lia)). by apply on_cpu_pop_cpu.
Qed.

Lemma mycpu_write_run f i m :
  IF m = false -> this_cpu m = Some i ->
  mycpu_write f m = Done tt (set_cpus (alter f i (cpus m)) m).
Proof.
  intros HI Hi. unfold mycpu_write, mycpu, bind, gets, modify. simpl. rewrite HI. simpl.
  by rewrite Hi.
Qed.

Lemma mycpu_read_run i c m :
  IF m = false -> this_cpu m = Some i -> cpus m !! i = Some c -> mycpu_read m = Done c m.
Proof.
  intros HI Hi Hc. unfold mycpu_read, mycpu, bind, gets, getopt. simpl. rewrite HI. simpl.
  rewrite Hi. simpl. by rewrite Hc.
Qed.

Lemma on_cpu_write c p n L F f m :
  1 <= n -> cpu_frame f -> (forall k, cproc (f k) = cproc k) ->
  on_cpu c p n L F m -> wp (mycpu_write f) (fun _ => on_cpu c p n L F) m.
Proof.
  intros Hn Hf Hp Hin. pose proof Hin as (Hi & HI & _). unfold wp.
  rewrite (mycpu_write_run _ c) by (done || (apply HI; lia)).
  eapply on_cpu_alter; eauto. intros k <-. auto.
Qed.

Lemma on_cpu_read c p n L F m :
  1 <= n -> on_cpu c p n L F m ->
  wp mycpu_read (fun k m' => m' = m /\ ncli k = n /\ cproc k = p) m.
Proof.
  intros Hn (Hi & HI & (k & Hk & Hkn & Hcp) & _). unfold wp.
  by rewrite (mycpu_read_run _ _ _ (HI ltac:(lia)) Hi Hk).
Qed.

Lemma on_cpu_acquire c p n L F lk m :
  0 <= n -> lk ∉ F -> on_cpu c p n L (lk :: F) m ->
  wp (acquire lk) (fun _ => on_cpu c p (n + 1) (lk :: L) F) m.
Proof.
  intros Hn Hlk Hon. pose proof (on_cpu_ok _ _ _ _ _ _ Hn Hon) as Hok.
  destruct Hon as (Hi & HI & (k & Hk & Hkn & Hcp) & HL & [Hfree HF]%Forall_cons).
  eapply wp_mono; [|by apply acquire_free]. intros [] m' Hacq.
  destruct (acquired_facts _ _ _ _ _ Hi Hk ltac:(lia) Hacq) as (_ & Hh & HI' & Hi' & k' & Hk' & Hn').
  assert (forall lk', lk' <> lk -> lock_eq (lock_at lk' m') (lock_at lk' m)) as Hother.
  { destruct Hacq as (? & _ & _ & _ & _ & El). intros lk' Hne. etrans; [apply El|].
    unfold take_lock. by rewrite lock_at_set, decide_False. }
  unfold on_cpu. split_and!; [done..| | |].
  - exists k'. split_and!; [done|lia|]. destruct Hacq as (j & Hj & _ & _ & Ec & _).
    rewrite Hi in Hj. injection Hj as <-. simpl in Ec.
    destruct (Forall2_lookup_l _ _ _ _ _ Ec Hk') as (k2 & Hk2 & (_ & _ & _ & -> & _)).
    rewrite (lookup_alter_at _ _ _ _ Hk) in Hk2. simplify_eq. simpl. by destruct (ncli k =? 0).
  - apply Forall_cons. split; [done|]. eapply Forall_impl; [exact HL|]. intros lk' Hlk'.
    destruct (decide (lk' = lk)) as [->|Hne]; [done|]. unfold held_here in *.
    destruct (Hother _ Hne) as [E Ec]. rewrite E, Hi'. rewrite Hi in Hlk'.
    destruct (Z.eqb_spec (locked (lock_at lk' m)) 0); [done|]. by rewrite Ec by congruence.
  - rewrite Forall_forall in HF |- *. intros lk' Hin. unfold lock_free.
    destruct (Hother lk') as [-> _]; [by intros ->|]. by apply HF.
Qed.

Lemma on_cpu_release c p n L F lk m :
  1 <= n -> lk ∉ L -> on_cpu c p n (lk :: L) F m ->
  wp (release lk) (fun _ => on_cpu c p (n - 1) L (lk :: F)) m.
Proof.
  intros Hn Hlk Hon. pose proof Hon as (Hi & HI & (k & Hk & Hkn & Hcp) & [Hh HL]%Forall_cons & HF).
  eapply wp_mono; [|eapply (release_run _ _ _ _ Hi Hk); [lia|apply HI; lia|done]].
  intros [] m' E. rewrite E. apply on_cpu_pop_cpu; [done|].
  unfold on_cpu. change (this_cpu (drop_lock lk m)) with (this_cpu m).
  split_and!; [done..|by eauto| |].
  - rewrite Forall_forall in HL |- *. intros lk' Hin. unfold held_here, drop_lock.
    rewrite lock_at_set, decide_False by (by intros ->). by apply HL.
  - apply Forall_cons. split.
    + unfold lock_free, drop_lock. by rewrite lock_at_set, decide_True.
    + eapply Forall_impl; [exact HF|]. intros lk' Hf. unfold lock_free, drop_lock.
      rewrite lock_at_set. by case_decide.
Qed.

(** ** Theorems *)

(** spinlock.c: [acquire] of a free lock followed by [release] returns, and leaves the
    machine as it was: the lock is free again, the nesting depth of [pushcli] and the interrupt
    flag are restored. *)
Theorem acquire_release_balanced lk m :
  mach_ok m -> lock_free lk m ->
  wp (acquire lk;;; release lk) (fun _ m' => mach_eq m' m) m.
Proof.
  intros Hok Hfree. apply wp_bind. eapply wp_mono; [|by apply acquire_free].
  intros [] m1 Hm1. by eapply release_acquired.
Qed.

Definition mach_w : mach :=
  MkMach true 7 [MkCpu 7 0 (MkTs 0 0 0) [] 1 0 true None] ∅ (fun _ => 0) 0 0 0 (0, 0) (0, 0).

Lemma acquire_release_balanced_witness :
  wp (acquire ("console", 0);;; release ("console", 0)) (fun _ m' => mach_eq m' mach_w) mach_w.
Proof.
  apply acquire_release_balanced.
  - exists 0%nat. eexists. split; [reflexivity|]. split; [reflexivity|]. simpl. split; lia.
  - reflexivity.
Defined.

Lemma lock_init_ok n : lock_sys_ok (lock_init n).
Proof.
  exists None. simpl. split_and!; [done| |done|].
  - intros i pc [-> _]%lookup_replicate. done.
  - intros i. split; [|done]. by intros [? _]%lookup_replicate.
Qed.

(** Which CPU owns the lock after CPU [i] moved to [pc]. *)
Lemma pc_update_ok (pcs : list cpu_pc) (o o' : option nat) (oc oc' : option nat) i old pc :
  pcs !! i = Some old ->
  (forall k q, pcs !! k = Some q -> owns q = true <-> o = Some k) ->
  (forall k, o = Some k -> is_Some (pcs !! k)) ->
  (forall k, pcs !! k = Some Critical <-> oc = Some k) ->
  (owns pc = true <-> o' = Some i) -> (forall k, k <> i -> o = Some k <-> o' = Some k) ->
  (pc = Critical <-> oc' = Some i) -> (forall k, k <> i -> oc = Some k <-> oc' = Some k) ->
  (forall k q, <[i:=pc]> pcs !! k = Some q -> owns q = true <-> o' = Some k) /\
  (forall k, o' = Some k -> is_Some (<[i:=pc]> pcs !! k)) /\
  (forall k, <[i:=pc]> pcs !! k = Some Critical <-> oc' = Some k).
Proof.
  intros Hi Ho Hr Hc Ho' Hoo Hc' Hcc. assert (i < length pcs)%nat by (by eapply lookup_lt_Some).
  split_and!.
  - intros k q. destruct (decide (k = i)) as [->|Hne].
    + rewrite list_lookup_insert_eq by done. by intros [= <-].
    + rewrite list_lookup_insert_ne by done. intros Hq. rewrite <- Hoo by done. eauto.
  - intros k Hk. destruct (decide (k = i)) as [->|Hne].
    + by rewrite list_lookup_insert_eq by done.
    + rewrite list_lookup_insert_ne by done. apply Hr. by apply Hoo.
  - intros k. destruct (decide (k = i)) as [->|Hne].
    + rewrite list_lookup_insert_eq by done. rewrite <- Hc'. split; [by intros [= <-]|by intros ->].
    + rewrite list_lookup_insert_ne by done. by rewrite Hc, Hcc.
Qed.

Lemma lock_step_ok s s' : lock_sys_ok s -> lock_step s s' -> lock_sys_ok s'.
Proof.
  intros (o & Hbit & Hown & Hr & Hcrit) Hstep.
  destruct Hstep as [s i Hi Hh|s i Hi|s i Hi|s i Hi Hh|s i Hi]; simpl in *;
    pose proof (Hown _ _ Hi) as Hoi; pose proof (Hcrit i) as Hci; rewrite Hi in Hci; simpl in Hoi.
  - exists o. split; [done|]. eapply (pc_update_ok _ o o _ _ i _ Spinning Hi Hown Hr Hcrit);
      simpl; intuition congruence.
  - destruct o as [j|]; rewrite Hbit; simpl; [exists (Some j); split_and!; auto|].
    exists (Some i). split; [done|].
    eapply (pc_update_ok _ None (Some i) _ _ i _ Won Hi Hown Hr Hcrit); simpl; intuition congruence.
  - assert (o = Some i) as -> by (by apply Hoi). exists (Some i). split; [done|].
    eapply (pc_update_ok _ (Some i) (Some i) _ (Some i) i _ Critical Hi Hown Hr Hcrit);
      simpl; try intuition congruence.
    intros k Hk. split; [|congruence]. intros Hkc. apply Hcrit in Hkc.
    destruct (Hown _ _ Hkc) as [Ho _]. by specialize (Ho eq_refl).
  - exists o. split; [done|]. assert (ls_cpu s = Some i) as Hl by (by apply Hci).
    rewrite Hl in Hcrit.
    eapply (pc_update_ok _ o o _ None i _ Leaving Hi Hown Hr Hcrit); simpl; intuition congruence.
  - assert (o = Some i) as -> by (by apply Hoi). exists None. split; [done|].
    eapply (pc_update_ok _ (Some i) None _ _ i _ Outside Hi Hown Hr Hcrit);
      simpl; intuition congruence.
Qed.


