(* ===== verification/Pages.v ===== *)
(** * The interface of the physical page allocator

    What the rest of the kernel uses of kalloc.c: [PageOps] are the operations, [PageAllocator]
    the promises.  Virtual memory (Vm.v) is verified against this interface; Kalloc.v gives the
    instances for the repository's allocators. *)
From S2P Require Import Prelude Mmu KString.

Class PageOps (S : Type) := {
  kalloc : M S Z;                       (* kalloc(): a page, or 0 *)
  kfree : Z -> M S unit;
  kmem_lens : lens S mem                (* the kernel's memory *)
}.

(** [x] is an address of the page [p], or of one of the pages [l]. *)
Definition in_page (p x : Z) : Prop := p <= x < p + PGSIZE.
Definition in_pages (l : list Z) (x : Z) : Prop := exists p, p ∈ l /\ in_page p x.

(** A page the allocator manages: page-aligned, above the kernel image, below PHYSTOP. *)
Definition page_ok (kend v : Z) : Prop :=
  v mod PGSIZE = 0 /\ KERNBASE < kend <= v /\ v + PGSIZE <= KERNBASE + PHYSTOP.

Definition memory {S} `{PageOps S} (s : S) : mem := view kmem_lens s.

Class PageAllocator (S : Type) `{PageOps S} := {
  pa_end : Z;
  (* [pa_rep s l]: the allocator is ready to be called and its free pages are [l] *)
  pa_rep : S -> list Z -> Prop;
  pa_lens_laws :: LensLaws kmem_lens;
  pa_pages : forall s l, pa_rep s l -> NoDup l /\ Forall (page_ok pa_end) l;
  pa_bytes : forall s l, pa_rep s l -> mem_ok (memory s);
  pa_frame : forall s l m, pa_rep s l -> mem_ok m ->
    (forall x, in_pages l x -> m x = memory s x) -> pa_rep (put kmem_lens m s) l;
  pa_kalloc : forall s l, pa_rep s l ->
    wp kalloc (fun r s' =>
      (forall x, ~ in_pages l x -> memory s' x = memory s x) /\
      match l with
      | [] => r = 0 /\ pa_rep s' []
      | _ => exists l', l ≡ₚ r :: l' /\ pa_rep s' l'
      end) s;
  pa_kfree : forall s l v, pa_rep s l -> page_ok pa_end v -> v ∉ l ->
    wp (kfree v) (fun _ s' =>
      (forall x, ~ in_pages (v :: l) x -> memory s' x = memory s x) /\ pa_rep s' (v :: l)) s
}.

(** [cprintf] (console.c), as its callers see it: a format and the words or strings it prints. *)
Inductive karg := KNum (z : Z) | KStr (bytes : list Z).
Class ConsoleOps (S : Type) := { cprintf : string -> list karg -> M S unit }.
Class ConsoleQuiet (S : Type) `{PageAllocator S} `{ConsoleOps S} :=
  cprintf_quiet : forall s l fmt args, pa_rep s l ->
    wp (cprintf fmt args) (fun _ s' => (forall x, memory s' x = memory s x) /\ pa_rep s' l) s.

(** ** Lemmas *)
Lemma in_pages_cons p l x : in_pages (p :: l) x <-> in_page p x \/ in_pages l x.
Proof.
  unfold in_pages. split.
  - intros (q & [->|Hq]%elem_of_cons & Hx); eauto.
  - intros [Hx|(q & Hq & Hx)]; [exists p|exists q]; (split; [|done]); apply elem_of_cons; auto.
Qed.

Lemma in_pages_perm l l' x : l ≡ₚ l' -> in_pages l x <-> in_pages l' x.
Proof. intros Hl. unfold in_pages. by setoid_rewrite Hl. Qed.

Lemma page_ok_pos kend v : page_ok kend v -> 0 < v /\ v + PGSIZE < 2 ^ 32.
Proof. unfold page_ok, KERNBASE, PHYSTOP, PGSIZE. lia. Qed.

(** Two pages share an address only if they are the same. *)
Lemma in_page_inj p q x :
  p mod PGSIZE = 0 -> q mod PGSIZE = 0 -> in_page p x -> in_page q x -> p = q.
Proof. unfold in_page, PGSIZE. intros Hp Hq. Z.to_euclidean_division_equations. lia. Qed.

Lemma in_pages_in_page kend l p x :
  Forall (page_ok kend) l -> p mod PGSIZE = 0 -> in_page p x -> in_pages l x -> p ∈ l.
Proof.
  intros Hl Hp Hx (q & Hq & Hqx). rewrite Forall_forall in Hl. destruct (Hl _ Hq) as (Hqm & _).
  by rewrite (in_page_inj p q x).
Qed.

(** *** An allocator inside a larger state *)
Section zoomed.
Context {S T : Type} (L : lens S T) `{!LensLaws L} `{PageAllocator T}.

Definition zoom_pages : PageOps S := {|
  kalloc := zoom L kalloc; kfree v := zoom L (kfree v); kmem_lens := compose_lens L kmem_lens |}.

#[local] Existing Instance zoom_pages.
Lemma memory_zoom s : memory s = memory (view L s).
Proof. done. Qed.

Program Definition zoom_allocator : PageAllocator S := {| pa_end := pa_end; pa_rep s l := pa_rep (view L s) l |}.
Next Obligation. intros s l Hr. by apply (pa_pages (view L s)). Qed.
Next Obligation. intros s l Hr. by apply (pa_bytes (view L s) l). Qed.
Next Obligation. intros s l m Hr Hm Hsame. simpl. rewrite view_put. by apply pa_frame. Qed.
Next Obligation.
  intros s l Hr. apply wp_zoom. eapply wp_mono; [|exact (pa_kalloc _ _ Hr)].
  intros r t [Hm Hl]. rewrite !memory_zoom, view_put. done.
Qed.
Next Obligation.
  intros s l v Hr Hv Hvl. apply wp_zoom. eapply wp_mono; [|exact (pa_kfree _ _ _ Hr Hv Hvl)].
  intros [] t [Hm Hl]. rewrite !memory_zoom, view_put. done.
Qed.
End zoomed.
