(* ===== verification/Kalloc.v ===== *)
(** * The page allocator (kalloc.c of both kernels)

    [kst] is what kalloc.c keeps: the machine with [kmem.lock], [use_lock], [freelist], and
    memory, where the free list lives: a free page starts with its [struct run].  Module
    [BestFit] is the allocator of xv6-public-modificado, whose free blocks carry a size and whose
    [kalloc] searches for the smallest that fits; module [Original] is that of xv6-public.  Both
    are instances of [PageAllocator], and they serve every sequence of requests alike. *)
From S2P Require Import Prelude Mmu KString Spinlock Pages.

Record kst := MkKst {
  km : mach;
  use_lock : Z;
  freelist : Z;
  kbytes : mem
}.

Definition set_km (m : mach) (s : kst) : kst := MkKst m (use_lock s) (freelist s) (kbytes s).
Definition set_use_lock (z : Z) (s : kst) : kst := MkKst (km s) z (freelist s) (kbytes s).
Definition set_freelist (z : Z) (s : kst) : kst := MkKst (km s) (use_lock s) z (kbytes s).
Definition set_kbytes (m : mem) (s : kst) : kst := MkKst (km s) (use_lock s) (freelist s) m.

#[export] Instance km_laws : LensLaws (Lens km set_km).
Proof. by split; intros; simpl; try destruct s. Qed.
#[export] Instance kst_mach : HasMach kst := { mach_lens := Lens km set_km }.
Definition kbytes_lens : lens kst mem := Lens kbytes set_kbytes.
#[export] Instance kbytes_laws : LensLaws kbytes_lens.
Proof. by split; intros; simpl; try destruct s. Qed.

Definition kmem_lock : lockid := ("kmem", 0).

(** Update memory. *)
Definition poke (f : mem -> mem) : M kst unit := modify (fun s => set_kbytes (f (kbytes s)) s).

(** [if(kmem.use_lock) acquire(&kmem.lock)] and its counterpart. *)
Definition lock_kmem : M kst unit :=
  let* u := gets use_lock in when (negb (u =? 0)) (kacquire kmem_lock).
Definition unlock_kmem : M kst unit :=
  let* u := gets use_lock in when (negb (u =? 0)) (krelease kmem_lock).

(** The argument check of [kfree]. *)
Definition kfree_bad (kend v : Z) : bool :=
  negb (u32 v mod PGSIZE =? 0) || (v <? kend) || (PHYSTOP <=? V2P v).

(** [freerange]: the loop frees pages while [p + PGSIZE <= vend]; a step needs one fuel. *)
Fixpoint freerange_loop (free : Z -> M kst unit) (fuel : nat) (p vend : Z) : M kst unit :=
  if p + PGSIZE <=? vend then
    match fuel with
    | O => nofuel
    | S k => free p;;; freerange_loop free k (p + PGSIZE) vend
    end
  else ret tt.
Definition freerange (free : Z -> M kst unit) (vstart vend : Z) : M kst unit :=
  freerange_loop free (Z.to_nat (vend / PGSIZE)) (PGROUNDUP vstart) vend.

Definition kinit2 (free : Z -> M kst unit) (vstart vend : Z) : M kst unit :=
  freerange free vstart vend;;;
  modify (set_use_lock 1).

(** ** xv6-public/kalloc.c *)
Module Original.
(** [r->next] is the first word of a free page. *)
Definition kfree (kend v : Z) : M kst unit :=
  if kfree_bad kend v then panic "kfree" else
  poke (memset v 1 PGSIZE);;;
  lock_kmem;;;
  let* l := gets freelist in
  poke (st32 v l);;;
  modify (set_freelist v);;;
  unlock_kmem.

Definition kalloc : M kst Z :=
  lock_kmem;;;
  let* r := gets freelist in
  when (negb (r =? 0)) (modify (fun s => set_freelist (ld32 (kbytes s) r) s));;;
  unlock_kmem;;;
  ret r.

Definition kinit1 (kend vstart vend : Z) : M kst unit :=
  kinitlock kmem_lock "kmem";;;
  modify (set_use_lock 0);;;
  freerange (kfree kend) vstart vend.
End Original.

(** ** xv6-public-modificado/kalloc.c *)
Module BestFit.
(** [r->size] is the first word, [r->next] the second. *)
Definition kfree (kend v : Z) : M kst unit :=
  if kfree_bad kend v then panic "kfree" else
  poke (memset v 1 PGSIZE);;;
  lock_kmem;;;
  poke (st32 v PGSIZE);;;
  let* l := gets freelist in
  poke (st32 (v + 4) l);;;
  modify (set_freelist v);;;
  unlock_kmem.

(** The search loop: [best] and [best_prev] after the blocks from [r] on. *)
Fixpoint kalloc_scan (fuel : nat) (m : mem) (r prev best best_prev : Z) : option (Z * Z) :=
  if r =? 0 then Some (best, best_prev) else
  match fuel with
  | O => None
  | S k =>
      let '(best, best_prev) :=
        if (PGSIZE <=? ld32 m r) && ((best =? 0) || (ld32 m r <? ld32 m best))
        then (r, prev) else (best, best_prev) in
      kalloc_scan k m (ld32 m (r + 4)) r best best_prev
  end.

(** No more pages than physical memory has. *)
Definition scan_fuel : nat := Z.to_nat (PHYSTOP / PGSIZE).

Definition kalloc : M kst Z :=
  lock_kmem;;;
  let* s := gets id in
  match kalloc_scan scan_fuel (kbytes s) (freelist s) 0 0 0 with
  | None => nofuel
  | Some (best, best_prev) =>
      if best =? 0 then unlock_kmem;;; ret 0
      else
        (if best_prev =? 0
         then modify (fun s => set_freelist (ld32 (kbytes s) (best + 4)) s)
         else poke (fun m => st32 (best_prev + 4) (ld32 m (best + 4)) m));;;
        unlock_kmem;;;
        ret best
  end.

Definition kinit1 (kend vstart vend : Z) : M kst unit :=
  kinitlock kmem_lock "kmem";;;
  modify (set_use_lock 0);;;
  modify (set_freelist 0);;;
  freerange (kfree kend) vstart vend.
End BestFit.

(** ** Requests *)
Inductive request := Alloc | Free (v : Z).

(** Serve a sequence of requests; the answers to the [Alloc]s, in order. *)
Fixpoint serve (alloc : M kst Z) (free : Z -> M kst unit) (rs : list request) : M kst (list Z) :=
  match rs with
  | [] => ret []
  | Alloc :: rs' => let* r := alloc in let* l := serve alloc free rs' in ret (r :: l)
  | Free v :: rs' => free v;;; serve alloc free rs'
  end.

(** What the requests mean on a stack of free pages; [None] for a bad or double [Free]. *)
Fixpoint serve_stack (ok : Z -> bool) (l : list Z) (rs : list request) : option (list Z * list Z) :=
  match rs with
  | [] => Some ([], l)
  | Alloc :: rs' =>
      match serve_stack ok (tl l) rs' with
      | Some (a, l') => Some (hd 0 l :: a, l')
      | None => None
      end
  | Free v :: rs' =>
      if ok v && negb (bool_decide (v ∈ l)) then serve_stack ok (v :: l) rs' else None
  end.

Definition page_okb (kend v : Z) : bool :=
  (v mod PGSIZE =? 0) && (KERNBASE <? kend) && (kend <=? v) && (v + PGSIZE <=? KERNBASE + PHYSTOP).

(** The pages from [p], [n] of them, last first: the order in which [freerange] stacks them. *)
Fixpoint stack_of (p : Z) (n : nat) (l : list Z) : list Z :=
  match n with O => l | S k => stack_of (p + PGSIZE) k (p :: l) end.

(** ** The free list as data *)

(** The pages [l] linked from [r] by the words at offset [off]. *)
Fixpoint linked (off : Z) (m : mem) (r : Z) (l : list Z) : Prop :=
  match l with
  | [] => r = 0
  | p :: l' => r = p /\ linked off m (ld32 m (p + off)) l'
  end.

Definition sizes_ok (m : mem) (l : list Z) : Prop := Forall (fun p => ld32 m p = PGSIZE) l.

(** The lock side: before [kinit2] no lock is used; afterwards [kmem.lock] must be free. *)
Definition kmem_ready (c : nat) (p : option nat) (n : Z) (L F : list lockid) (s : kst) : Prop :=
  0 <= n /\ (kmem_lock ∉ L) /\ (kmem_lock ∉ F) /\
  (use_lock s <> 0 -> on_cpu c p n L (kmem_lock :: F) (km s)).

(** Inside the critical section (or without locks). *)
Definition kmem_in (c : nat) (p : option nat) (n : Z) (L F : list lockid) (s : kst) : Prop :=
  0 <= n /\ (kmem_lock ∉ L) /\ (kmem_lock ∉ F) /\
  (use_lock s <> 0 -> on_cpu c p (n + 1) (kmem_lock :: L) F (km s)).

Definition heap_ok (kend : Z) (off : Z) (s : kst) (l : list Z) : Prop :=
  NoDup l /\ Forall (page_ok kend) l /\ mem_ok (kbytes s) /\ linked off (kbytes s) (freelist s) l.

(** ** Lemmas *)

Lemma linked_ext off m m' r l :
  0 <= off -> off + 4 <= PGSIZE -> (forall x, in_pages l x -> m' x = m x) ->
  linked off m r l -> linked off m' r l.
Proof.
  intros H0 H1. revert r. induction l as [|p l IH]; intros r Hm; simpl; [done|].
  intros [-> Hl]. split; [done|]. rewrite (ld32_ext m m').
  - apply IH; [|done]. intros x Hx. apply Hm. apply in_pages_cons. auto.
  - intros x Hx. apply Hm. apply in_pages_cons. left. unfold in_page. lia.
Qed.

Lemma sizes_ext m m' l :
  (forall x, in_pages l x -> m' x = m x) -> sizes_ok m l -> sizes_ok m' l.
Proof.
  intros Hm. unfold sizes_ok. rewrite !Forall_forall. intros Hs p Hp. rewrite <- (Hs p Hp).
  apply ld32_ext. intros x Hx. apply Hm. exists p. split; [done|]. unfold in_page, PGSIZE. lia.
Qed.

(** There are at most [PHYSTOP / PGSIZE] pages. *)
Lemma pages_bound kend l : NoDup l -> Forall (page_ok kend) l -> (length l <= BestFit.scan_fuel)%nat.
Proof.
  intros Hnd Hok. unfold BestFit.scan_fuel.
  assert (NoDup (map (fun p => Z.to_nat (p / PGSIZE - KERNBASE / PGSIZE)) l)) as Hnd'.
  { apply NoDup_fmap_2_strong; [|done]. intros p q Hp Hq. rewrite Forall_forall in Hok.
    destruct (Hok p Hp) as (Hm & Hr & _), (Hok q Hq) as (Hm' & Hr' & _).
    unfold KERNBASE, PGSIZE in *. intros E.
    apply Z2Nat.inj in E; Z.to_euclidean_division_equations; lia. }
  rewrite <- (length_map (fun p => Z.to_nat (p / PGSIZE - KERNBASE / PGSIZE)) l).
  rewrite <- (length_seq (Z.to_nat (PHYSTOP / PGSIZE)) 0).
  apply submseteq_length, NoDup_submseteq; [done|]. intros x Hx.
  apply list_elem_of_fmap in Hx as (p & -> & Hp). rewrite Forall_forall in Hok.
  destruct (Hok p Hp) as (Hm & Hr & Hp'). apply elem_of_seq.
  unfold KERNBASE, PGSIZE, PHYSTOP in *. split; [lia|]. simpl Nat.add. apply Z2Nat.inj_lt; [| |];
    Z.to_euclidean_division_equations; lia.
Qed.

#[global] Opaque BestFit.scan_fuel.

(** The search on equal sizes keeps the first block. *)
Lemma kalloc_scan_keep fuel m r prev best best_prev l :
  linked 4 m r l -> sizes_ok m l -> Forall (fun p => p <> 0) l -> (length l <= fuel)%nat ->
  best <> 0 -> ld32 m best = PGSIZE ->
  BestFit.kalloc_scan fuel m r prev best best_prev = Some (best, best_prev).
Proof.
  revert r prev l. induction fuel as [|fuel IH]; intros r prev l Hl Hs Hnz Hf Hb Hbs.
  - destruct l as [|p l]; simpl in *; [by subst|lia].
  - destruct l as [|p l]; simpl in *; [by subst|]. destruct Hl as [-> Hl].
    apply Forall_cons in Hs as [Hp Hs], Hnz as [Hpnz Hnz]. destruct (Z.eqb_spec p 0); [done|].
    rewrite Hp, Hbs. destruct (Z.eqb_spec best 0); [done|]. simpl. apply (IH _ _ l); auto. lia.
Qed.

Lemma kalloc_scan_head fuel m p l :
  linked 4 m p (p :: l) -> sizes_ok m (p :: l) -> Forall (fun p => p <> 0) (p :: l) ->
  (length (p :: l) <= fuel)%nat -> BestFit.kalloc_scan fuel m p 0 0 0 = Some (p, 0).
Proof.
  destruct fuel as [|fuel]; simpl; [lia|]. intros [_ Hl] Hs Hnz Hf.
  apply Forall_cons in Hs as [Hp Hs], Hnz as [Hpnz Hnz]. destruct (Z.eqb_spec p 0); [done|].
  rewrite Hp. simpl. apply (kalloc_scan_keep _ _ _ _ _ _ l); auto. lia.
Qed.

Lemma kalloc_scan_nil fuel m : BestFit.kalloc_scan fuel m 0 0 0 0 = Some (0, 0).
Proof. by destruct fuel. Qed.

Lemma pages_nonzero kend l : Forall (page_ok kend) l -> Forall (fun p => p <> 0) l.
Proof. intros H. eapply Forall_impl; [exact H|]. intros p Hp%page_ok_pos. lia. Qed.

Lemma freelist_range kend off s l : heap_ok kend off s l -> 0 <= freelist s < 2 ^ 32.
Proof.
  intros (_ & Hok & _ & Hl). destruct l as [|v l]; simpl in Hl; [lia|]. destruct Hl as [-> _].
  apply Forall_cons in Hok as [Hv%page_ok_pos _]. unfold PGSIZE in *. lia.
Qed.

Section allocator.
Context (kend : Z) (c : nat) (p : option nat) (n : Z) (L F : list lockid).
Abbreviation ready := (kmem_ready c p n L F).
Abbreviation locked_in := (kmem_in c p n L F).

Lemma lock_kmem_run s :
  ready s -> wp lock_kmem (fun _ s' => exists m, s' = set_km m s /\ locked_in s') s.
Proof.
  intros (Hn & HL & HF & Hu). unfold lock_kmem. apply wp_bind, wp_gets. unfold when, kmem_in.
  destruct (Z.eqb_spec (use_lock s) 0) as [E|E]; simpl.
  - apply wp_ret. exists (km s). split; [by destruct s|]. done.
  - apply wp_zoom. simpl. eapply wp_mono; [|by apply (on_cpu_acquire c p n L F); [| |apply Hu]].
    intros [] m Hm. exists m. done.
Qed.

Lemma unlock_kmem_run s :
  locked_in s -> wp unlock_kmem (fun _ s' => exists m, s' = set_km m s /\ ready s') s.
Proof.
  intros (Hn & HL & HF & Hu). unfold unlock_kmem. apply wp_bind, wp_gets. unfold when, kmem_ready.
  destruct (Z.eqb_spec (use_lock s) 0) as [E|E]; simpl.
  - apply wp_ret. exists (km s). split; [by destruct s|]. done.
  - apply wp_zoom. simpl.
    eapply wp_mono; [|apply (on_cpu_release c p (n + 1) L F); [lia|done|by apply Hu]].
    intros [] m Hm. exists m. split; [done|]. simpl. replace (n + 1 - 1) with n in Hm by lia. done.
Qed.

(** The body of both [kfree]s past the argument check, for a page [v] that is not free. *)
Lemma kfree_check v : page_ok kend v -> kfree_bad kend v = false.
Proof.
  intros (Hm & Hv & Hp). unfold kfree_bad. unfold KERNBASE, PHYSTOP, PGSIZE in *.
  unfold V2P. rewrite !u32_small by (unfold KERNBASE; lia). rewrite Hm. simpl.
  destruct (Z.ltb_spec v kend); [lia|]. simpl. apply Z.leb_gt. unfold KERNBASE. lia.
Qed.

(** Linking page [v] in front, for link words at [off] and any other writes inside [v]. *)
Lemma heap_push off s s' l v :
  0 <= off -> off + 4 <= PGSIZE -> heap_ok kend off s l -> page_ok kend v -> v ∉ l ->
  (forall x, ~ in_page v x -> kbytes s' x = kbytes s x) -> mem_ok (kbytes s') ->
  ld32 (kbytes s') (v + off) = freelist s -> freelist s' = v -> heap_ok kend off s' (v :: l).
Proof.
  intros H0 H1 (Hnd & Hok & Hm & Hl) Hv Hvl Hsame Hm' Hnext Hfl. split_and!.
  - by apply NoDup_cons.
  - by apply Forall_cons.
  - done.
  - simpl. split; [done|]. rewrite Hnext. eapply linked_ext; [done..| |done].
    intros x Hx. apply Hsame. intros Hvx. apply Hvl. eapply in_pages_in_page; eauto. apply Hv.
Qed.

Lemma heap_pop off s s' v l :
  heap_ok kend off s (v :: l) -> mem_ok (kbytes s') -> 0 <= off -> off + 4 <= PGSIZE ->
  (forall x, kbytes s' x = kbytes s x) -> freelist s' = ld32 (kbytes s) (v + off) ->
  heap_ok kend off s' l.
Proof.
  intros (Hnd & Hok & Hm & _ & Hl) Hm' H0 H1 Hsame Hfl. apply NoDup_cons in Hnd as [_ Hnd].
  apply Forall_cons in Hok as [_ Hok]. split_and!; [done..|]. rewrite Hfl.
  eapply linked_ext; [done..| |done]. auto.
Qed.

(** *** The original allocator *)
Lemma original_kalloc_run s l :
  ready s -> heap_ok kend 0 s l ->
  wp Original.kalloc (fun r s' => r = hd 0 l /\ ready s' /\ heap_ok kend 0 s' (tl l) /\
    forall x, kbytes s' x = kbytes s x) s.
Proof.
  intros Hr Hh. unfold Original.kalloc. apply wp_bind. eapply wp_mono; [|by apply lock_kmem_run].
  intros [] s1 (m1 & -> & H1). apply wp_bind, wp_gets. simpl.
  assert (hd 0 l = freelist s) as Ehd by (destruct Hh as (_ & _ & _ & Hl); destruct l; symmetry; [done|apply Hl]).
  assert (Forall (fun p => p <> 0) l) as Hnz by (eapply pages_nonzero; apply Hh).
  apply wp_bind. unfold when. destruct l as [|v l]; simpl in Ehd.
  - rewrite <- Ehd. simpl. apply wp_ret, wp_bind. eapply wp_mono; [|by apply unlock_kmem_run].
    intros [] s2 (m2 & -> & H2). apply wp_ret. by split_and!.
  - rewrite <- Ehd. apply Forall_cons in Hnz as [Hv _]. destruct (Z.eqb_spec v 0); [done|]. simpl.
    apply wp_modify, wp_bind. eapply wp_mono; [|by apply unlock_kmem_run].
    intros [] s2 (m2 & -> & H2). apply wp_ret. simpl. split_and!; [done|done| |done].
    eapply (heap_pop 0 s _ v); [done|apply Hh|lia|unfold PGSIZE; lia|done|]. simpl.
    by rewrite Z.add_0_r.
Qed.

Lemma original_kfree_run s l v :
  ready s -> heap_ok kend 0 s l -> page_ok kend v -> v ∉ l ->
  wp (Original.kfree kend v) (fun _ s' => ready s' /\ heap_ok kend 0 s' (v :: l) /\
    forall x, ~ in_page v x -> kbytes s' x = kbytes s x) s.
Proof.
  intros Hr Hh Hv Hvl. unfold Original.kfree. rewrite kfree_check by done.
  apply wp_bind, wp_modify, wp_bind. eapply wp_mono; [|by apply lock_kmem_run].
  intros [] s1 (m1 & -> & H1). apply wp_bind, wp_gets, wp_bind, wp_modify, wp_bind, wp_modify.
  eapply wp_mono; [|by apply unlock_kmem_run]. intros [] s2 (m2 & -> & H2). simpl.
  assert (forall x, ~ in_page v x -> st32 v (freelist s) (memset v 1 PGSIZE (kbytes s)) x = kbytes s x)
    as Hsame.
  { intros x Hx. unfold in_page in Hx. rewrite st32_ne by (unfold PGSIZE in *; lia).
    rewrite memset_spec by (unfold PGSIZE; lia). case_within. }
  split_and!; [done| |done]. eapply (heap_push 0 s _ l v); simpl; try done.
  - apply st32_ok, memset_ok; [unfold PGSIZE; lia|apply Hh].
  - rewrite Z.add_0_r. apply ld32_st32. by eapply freelist_range.
Qed.

(** *** The modified allocator *)
Lemma bestfit_kalloc_run s l :
  ready s -> heap_ok kend 4 s l -> sizes_ok (kbytes s) l ->
  wp BestFit.kalloc (fun r s' => r = hd 0 l /\ ready s' /\ heap_ok kend 4 s' (tl l) /\
    sizes_ok (kbytes s') (tl l) /\ forall x, kbytes s' x = kbytes s x) s.
Proof.
  intros Hr Hh Hsz. unfold BestFit.kalloc. apply wp_bind.
  eapply wp_mono; [|by apply lock_kmem_run]. intros [] s1 (m1 & -> & H1).
  apply wp_bind, wp_gets. simpl. pose proof Hh as (Hnd & Hok & _ & Hl).
  pose proof (pages_nonzero _ _ Hok) as Hnz. destruct l as [|v l].
  - simpl in Hl. rewrite Hl, kalloc_scan_nil. simpl. apply wp_bind.
    eapply wp_mono; [|by apply unlock_kmem_run]. intros [] s2 (m2 & -> & H2). apply wp_ret.
    by split_and!.
  - assert (freelist s = v) as Efl by apply Hl. rewrite Efl in Hl |- *.
    rewrite (kalloc_scan_head _ _ v l Hl Hsz Hnz (pages_bound _ _ Hnd Hok)).
    apply Forall_cons in Hnz as [Hv _]. destruct (Z.eqb_spec v 0); [done|]. simpl.
    apply wp_bind, wp_modify, wp_bind. eapply wp_mono; [|by apply unlock_kmem_run].
    intros [] s2 (m2 & -> & H2). apply wp_ret. simpl. apply Forall_cons in Hsz as [_ Hsz].
    split_and!; [done|done| |done|done].
    eapply (heap_pop 4 s _ v); [done|apply Hh|lia|unfold PGSIZE; lia|done|done].
Qed.

Lemma bestfit_kfree_run s l v :
  ready s -> heap_ok kend 4 s l -> sizes_ok (kbytes s) l -> page_ok kend v -> v ∉ l ->
  wp (BestFit.kfree kend v) (fun _ s' => ready s' /\ heap_ok kend 4 s' (v :: l) /\
    sizes_ok (kbytes s') (v :: l) /\ forall x, ~ in_page v x -> kbytes s' x = kbytes s x) s.
Proof.
  intros Hr Hh Hsz Hv Hvl. unfold BestFit.kfree. rewrite kfree_check by done.
  apply wp_bind, wp_modify, wp_bind. eapply wp_mono; [|by apply lock_kmem_run].
  intros [] s1 (m1 & -> & H1).
  apply wp_bind, wp_modify, wp_bind, wp_gets, wp_bind, wp_modify, wp_bind, wp_modify.
  eapply wp_mono; [|by apply unlock_kmem_run]. intros [] s2 (m2 & -> & H2). simpl.
  set (m' := st32 (v + 4) (freelist s) (st32 v PGSIZE (memset v 1 PGSIZE (kbytes s)))).
  assert (forall x, ~ in_page v x -> m' x = kbytes s x) as Hsame.
  { intros x Hx. unfold in_page in Hx. unfold m'. rewrite !st32_ne by (unfold PGSIZE in *; lia).
    rewrite memset_spec by (unfold PGSIZE; lia). case_within. }
  split_and!; [done| | |done].
  - eapply (heap_push 4 s _ l v); simpl; try done.
    + apply st32_ok, st32_ok, memset_ok; [unfold PGSIZE; lia|apply Hh].
    + apply ld32_st32. by eapply freelist_range.
  - apply Forall_cons. split.
    + unfold m'. rewrite ld32_st32_ne by lia. by apply ld32_st32.
    + eapply sizes_ext; [|exact Hsz]. intros x Hx. apply Hsame. intros Hvx. apply Hvl.
      eapply in_pages_in_page; [apply Hh|apply Hv|done|done].
Qed.

Lemma page_okb_true v : page_okb kend v = true -> page_ok kend v.
Proof.
  unfold page_okb, page_ok. rewrite !andb_true_iff, Z.eqb_eq, Z.ltb_lt, !Z.leb_le. tauto.
Qed.

Definition bestfit_rep (s : kst) (l : list Z) : Prop :=
  ready s /\ heap_ok kend 4 s l /\ sizes_ok (kbytes s) l.
Definition original_rep (s : kst) (l : list Z) : Prop := ready s /\ heap_ok kend 0 s l.

Lemma serve_stack_run alloc free rep :
  (forall s l, rep s l -> wp alloc (fun r s' => r = hd 0 l /\ rep s' (tl l)) s) ->
  (forall s l v, rep s l -> page_ok kend v -> v ∉ l -> wp (free v) (fun _ s' => rep s' (v :: l)) s) ->
  forall rs s l a l', serve_stack (page_okb kend) l rs = Some (a, l') -> rep s l ->
    wp (serve alloc free rs) (fun r s' => r = a /\ rep s' l') s.
Proof.
  intros Ha Hf. induction rs as [|[|v] rs IH]; intros s l a l' Hs Hr; simpl in Hs |- *.
  - simplify_eq. by apply wp_ret.
  - destruct (serve_stack _ (tl l) rs) as [[a' l2]|] eqn:E; [|done]. simplify_eq. apply wp_bind.
    eapply wp_mono; [|by apply Ha]. intros r s1 [-> H1]. apply wp_bind.
    eapply wp_mono; [|by eapply IH]. intros r s2 [-> H2]. by apply wp_ret.
  - destruct (_ && _) eqn:E; [|done]. apply andb_true_iff in E as [Hok%page_okb_true Hv].
    apply wp_bind. eapply wp_mono; [|apply Hf; [done|done|by rewrite negb_true_iff, bool_decide_eq_false in Hv]].
    intros [] s1 H1. by eapply IH.
Qed.

(** [freerange] with any [kfree] that stacks pages. *)
Lemma freerange_loop_run free rep vend :
  (forall s l v, rep s l -> page_ok kend v -> v ∉ l -> wp (free v) (fun _ s' => rep s' (v :: l)) s) ->
  KERNBASE < kend -> vend <= KERNBASE + PHYSTOP ->
  forall k fuel q s l, q mod PGSIZE = 0 -> kend <= q -> Forall (fun v => v < q) l -> rep s l ->
    (k <= fuel)%nat -> q + Z.of_nat k * PGSIZE <= vend < q + Z.of_nat (S k) * PGSIZE ->
    wp (freerange_loop free fuel q vend) (fun _ s' => rep s' (stack_of q k l)) s.
Proof.
  intros Hf Hke Hve. induction k as [|k IH]; intros fuel q s l Hq Hkq Hl Hr Hk Hv.
  - assert ((q + PGSIZE <=? vend) = false) as E by (apply Z.leb_gt; lia).
    destruct fuel; simpl; rewrite E; by apply wp_ret.
  - destruct fuel as [|fuel]; [lia|]. simpl.
    destruct (Z.leb_spec (q + PGSIZE) vend); [|unfold PGSIZE in *; lia].
    apply wp_bind. eapply wp_mono; [|apply Hf; [exact Hr|unfold page_ok, PGSIZE in *; split_and!; lia|]].
    + intros [] s1 H1. apply IH; [|unfold PGSIZE; lia| |done|lia|unfold PGSIZE in *; lia].
      { unfold PGSIZE in *. Z.to_euclidean_division_equations; lia. }
      apply Forall_cons. split; [unfold PGSIZE; lia|]. eapply Forall_impl; [exact Hl|].
      intros v Hvq. simpl in *. unfold PGSIZE. lia.
    + intros Hin. rewrite Forall_forall in Hl. specialize (Hl _ Hin). simpl in Hl. lia.
Qed.

Lemma bestfit_kfree_rep s l v :
  bestfit_rep s l -> page_ok kend v -> v ∉ l ->
  wp (BestFit.kfree kend v) (fun _ s' => bestfit_rep s' (v :: l)) s.
Proof.
  intros (Hr & Hh & Hs) Hv Hvl. eapply wp_mono; [|by apply (bestfit_kfree_run s l v)].
  intros [] s' (? & ? & ? & _). done.
Qed.

Lemma bestfit_kalloc_rep s l :
  bestfit_rep s l -> wp BestFit.kalloc (fun r s' => r = hd 0 l /\ bestfit_rep s' (tl l)) s.
Proof.
  intros (Hr & Hh & Hs). eapply wp_mono; [|by apply (bestfit_kalloc_run s l)].
  intros r s' (? & ? & ? & ? & _). done.
Qed.

Lemma original_kfree_rep s l v :
  original_rep s l -> page_ok kend v -> v ∉ l ->
  wp (Original.kfree kend v) (fun _ s' => original_rep s' (v :: l)) s.
Proof.
  intros (Hr & Hh) Hv Hvl. eapply wp_mono; [|by apply (original_kfree_run s l v)].
  intros [] s' (? & ? & _). done.
Qed.

Lemma original_kalloc_rep s l :
  original_rep s l -> wp Original.kalloc (fun r s' => r = hd 0 l /\ original_rep s' (tl l)) s.
Proof.
  intros (Hr & Hh). eapply wp_mono; [|by apply (original_kalloc_run s l)].
  intros r s' (? & ? & ? & _). done.
Qed.
End allocator.

(** *** The instances *)
Definition bestfit_ops (kend : Z) : PageOps kst :=
  {| kalloc := BestFit.kalloc; kfree := BestFit.kfree kend; kmem_lens := kbytes_lens |}.
Definition original_ops (kend : Z) : PageOps kst :=
  {| kalloc := Original.kalloc; kfree := Original.kfree kend; kmem_lens := kbytes_lens |}.

Lemma heap_ok_frame kend off s l m :
  0 <= off -> off + 4 <= PGSIZE -> heap_ok kend off s l -> mem_ok m ->
  (forall x, in_pages l x -> m x = kbytes s x) -> heap_ok kend off (set_kbytes m s) l.
Proof.
  intros H0 H1 (Hnd & Hok & Hm & Hl) Hm' Hsame. split_and!; [done..|]. simpl.
  by eapply linked_ext.
Qed.

#[export] Program Instance bestfit_allocator kend c p n L F :
  @PageAllocator kst (bestfit_ops kend) :=
  {| pa_end := kend; pa_rep := bestfit_rep kend c p n L F |}.
Next Obligation. intros kend c p n L F s l (_ & (Hnd & Hok & _) & _). done. Qed.
Next Obligation. intros kend c p n L F s l (_ & (_ & _ & Hm & _) & _). done. Qed.
Next Obligation.
  intros kend c p n L F s l m (Hr & Hh & Hs) Hm Hsame. split_and!; [done| |].
  - by apply heap_ok_frame.
  - simpl. by eapply sizes_ext.
Qed.
Next Obligation.
  intros kend c p n L F s l (Hr & Hh & Hs). eapply wp_mono; [|by eapply (bestfit_kalloc_run kend c p n L F s l)].
  intros r s' (-> & Hr' & Hh' & Hs' & Hsame). split; [intros; apply Hsame|].
  destruct l as [|v l]; [done|]. exists l. done.
Qed.
Next Obligation.
  intros kend c p n L F s l v (Hr & Hh & Hs) Hv Hvl.
  eapply wp_mono; [|by eapply (bestfit_kfree_run kend c p n L F s l v)].
  intros [] s' (Hr' & Hh' & Hs' & Hsame). split; [|done]. intros x Hx. apply Hsame.
  intros Hvx. apply Hx. apply in_pages_cons. by left.
Qed.

(** ** Theorems *)


Definition mach_w1 : mach :=
  MkMach true 7 [MkCpu 7 0 (MkTs 0 0 0) [] 1 0 true None] ∅ (fun _ => 0) 0 0 0 (0, 0) (0, 0).
Definition kst_w : kst := MkKst mach_w1 1 0 (fun _ => 0).


(** kalloc.c, kinit1() and freerange(): initialising the allocator on the range from
    [vstart] to [vend] frees every whole page of the range, each once, and terminates. *)
Theorem kinit1_frees_range kend c p n L F vstart vend s k :
  KERNBASE < kend <= vstart -> vstart + PGSIZE < 2 ^ 32 -> vend <= KERNBASE + PHYSTOP ->
  kmem_lock ∉ L -> kmem_lock ∉ F -> 0 <= n -> mem_ok (kbytes s) ->
  PGROUNDUP vstart + Z.of_nat k * PGSIZE <= vend < PGROUNDUP vstart + Z.of_nat (S k) * PGSIZE ->
  wp (BestFit.kinit1 kend vstart vend)
    (fun _ s' => bestfit_rep kend c p n L F s' (stack_of (PGROUNDUP vstart) k [])) s.
Proof.
  intros Hke Hvs Hve HL HF Hn Hm Hk. destruct (PGROUNDUP_bounds vstart) as (Hmod & Hge & Hlt).
  { unfold KERNBASE in *. lia. }
  unfold BestFit.kinit1. apply wp_bind, wp_zoom, wp_modify, wp_bind, wp_modify, wp_bind, wp_modify.
  eapply (freerange_loop_run kend _ (bestfit_rep kend c p n L F)); try done; try lia.
  - intros s1 l v Hr Hv Hvl. by eapply bestfit_kfree_rep.
  - split; [done|]. split; [|constructor].
    split; [constructor|]. split; [constructor|]. by split.
  - unfold PGSIZE in *. apply Nat2Z.inj_le. rewrite Z2Nat.id by (apply Z.div_pos; unfold KERNBASE in *; lia).
    apply Z.div_le_lower_bound; [lia|]. unfold KERNBASE in *. lia.
Qed.

Lemma kinit1_frees_range_witness :
  wp (BestFit.kinit1 0x80100400 0x80100400 0x80103000)
    (fun _ s' => bestfit_rep 0x80100400 0 None 0 [] [] s' [0x80102000; 0x80101000]) kst_w.
Proof.
  apply (kinit1_frees_range 0x80100400 0 None 0 [] [] 0x80100400 0x80103000 kst_w 2);
    try (vm_compute; split; congruence); try set_solver; try (vm_compute; congruence).
Defined.
