(* ===== verification/KallocBst.v ===== *)
(** * The search-tree allocator ("Archivos de prueba/kalloc_bestfit.c")

    The repository's second allocator keeps its free blocks in a binary search tree ordered by
    size and then address, whose nodes come from an array of 128.  Node pointers are indices into
    that array.  Loops down the tree take one unit of fuel per node; [POOL + 1] is enough for any
    tree the array can hold.  The file is not part of the kernel's build. *)
From S2P Require Import Prelude Mmu KString Spinlock.

Record bst_node := MkNode {
  n_addr : Z;
  n_size : Z;
  n_left : option nat;
  n_right : option nat;
  n_parent : option nat
}.
Definition node0 : bst_node := MkNode 0 0 None None None.
Definition set_addr (a : Z) (n : bst_node) : bst_node :=
  MkNode a (n_size n) (n_left n) (n_right n) (n_parent n).
Definition set_size (z : Z) (n : bst_node) : bst_node :=
  MkNode (n_addr n) z (n_left n) (n_right n) (n_parent n).
Definition set_left (p : option nat) (n : bst_node) : bst_node :=
  MkNode (n_addr n) (n_size n) p (n_right n) (n_parent n).
Definition set_right (p : option nat) (n : bst_node) : bst_node :=
  MkNode (n_addr n) (n_size n) (n_left n) p (n_parent n).
Definition set_nparent (p : option nat) (n : bst_node) : bst_node :=
  MkNode (n_addr n) (n_size n) (n_left n) (n_right n) p.

Definition POOL : nat := 128.

(** [kmem] of kalloc_bestfit.c, the machine and memory. *)
Record bst_st := MkBst {
  bm : mach;
  b_use_lock : Z;
  root : option nat;
  total_free : Z;
  num_blocks : Z;
  nodes : list bst_node;
  next_node_idx : Z;
  bbytes : mem
}.
Definition set_bm (x : mach) (s : bst_st) : bst_st :=
  MkBst x (b_use_lock s) (root s) (total_free s) (num_blocks s) (nodes s) (next_node_idx s) (bbytes s).
Definition set_b_use_lock (x : Z) (s : bst_st) : bst_st :=
  MkBst (bm s) x (root s) (total_free s) (num_blocks s) (nodes s) (next_node_idx s) (bbytes s).
Definition set_root (x : option nat) (s : bst_st) : bst_st :=
  MkBst (bm s) (b_use_lock s) x (total_free s) (num_blocks s) (nodes s) (next_node_idx s) (bbytes s).
Definition set_total_free (x : Z) (s : bst_st) : bst_st :=
  MkBst (bm s) (b_use_lock s) (root s) x (num_blocks s) (nodes s) (next_node_idx s) (bbytes s).
Definition set_num_blocks (x : Z) (s : bst_st) : bst_st :=
  MkBst (bm s) (b_use_lock s) (root s) (total_free s) x (nodes s) (next_node_idx s) (bbytes s).
Definition set_nodes (x : list bst_node) (s : bst_st) : bst_st :=
  MkBst (bm s) (b_use_lock s) (root s) (total_free s) (num_blocks s) x (next_node_idx s) (bbytes s).
Definition set_next_idx (x : Z) (s : bst_st) : bst_st :=
  MkBst (bm s) (b_use_lock s) (root s) (total_free s) (num_blocks s) (nodes s) x (bbytes s).
Definition set_bbytes (x : mem) (s : bst_st) : bst_st :=
  MkBst (bm s) (b_use_lock s) (root s) (total_free s) (num_blocks s) (nodes s) (next_node_idx s) x.

#[export] Instance bm_laws : LensLaws (Lens bm set_bm).
Proof. by split; intros; simpl; try destruct s. Qed.
#[export] Instance bst_mach : HasMach bst_st := { mach_lens := Lens bm set_bm }.

Definition bst_lock : lockid := ("kmem", 0).

(** [p->f] and [p->f = x] for a node pointer. *)
Definition node_at (i : nat) : M bst_st bst_node := getopt (fun s => nodes s !! i).
Definition node_upd (i : nat) (f : bst_node -> bst_node) : M bst_st unit :=
  let* _ := node_at i in modify (fun s => set_nodes (alter f i (nodes s)) s).

Definition get_node : M bst_st (option nat) :=
  let* k := gets next_node_idx in
  if Z.of_nat POOL <=? k then ret None
  else modify (set_next_idx (k + 1));;; ret (Some (Z.to_nat k)).

(** [free_node] does nothing: nodes are not reused. *)
Definition free_node (i : nat) : M bst_st unit := ret tt.

(** The order of the tree: is the block ([size], [addr]) left of the node? *)
Definition goes_left (size addr : Z) (n : bst_node) : bool :=
  (size <? n_size n) || ((size =? n_size n) && (addr <? n_addr n)).

(** The descent of [bst_insert]: the last node before the null pointer. *)
Fixpoint insert_parent (fuel : nat) (size addr : Z) (current parent : option nat) : M bst_st (option nat) :=
  match current with
  | None => ret parent
  | Some c =>
      match fuel with
      | O => nofuel
      | S k =>
          let* n := node_at c in
          insert_parent k size addr (if goes_left size addr n then n_left n else n_right n) (Some c)
      end
  end.

Definition bst_insert (addr size : Z) : M bst_st (option nat) :=
  let* new_node := get_node in
  match new_node with
  | None => ret None
  | Some i =>
      node_upd i (fun _ => MkNode addr size None None None);;;
      let* r := gets root in
      match r with
      | None => modify (set_root (Some i));;; ret (Some i)
      | Some _ =>
          let* parent := insert_parent (S POOL) size addr r None in
          match parent with
          | None => undef
          | Some p =>
              node_upd i (set_nparent (Some p));;;
              let* n := node_at p in
              (if goes_left size addr n then node_upd p (set_left (Some i))
               else node_upd p (set_right (Some i)));;;
              ret (Some i)
          end
      end
  end.

Fixpoint bst_min_node (fuel : nat) (i : nat) : M bst_st nat :=
  let* n := node_at i in
  match n_left n with
  | None => ret i
  | Some l => match fuel with O => nofuel | S k => bst_min_node k l end
  end.

(** [node->parent == 0 ? *root = child : (left or right child of the parent) = child]. *)
Definition replace_child (i : nat) (n : bst_node) (child : option nat) : M bst_st unit :=
  match n_parent n with
  | None => modify (set_root child)
  | Some p =>
      let* pn := node_at p in
      if bool_decide (n_left pn = Some i) then node_upd p (set_left child)
      else node_upd p (set_right child)
  end.

(** [bst_delete]; the recursive call is on a node without a left child. *)
Fixpoint bst_delete (fuel : nat) (i : nat) : M bst_st unit :=
  let* n := node_at i in
  match n_left n, n_right n with
  | None, None => replace_child i n None;;; free_node i
  | None, Some c | Some c, None =>
      replace_child i n (Some c);;;
      node_upd c (set_nparent (n_parent n));;;
      free_node i
  | Some _, Some r =>
      let* replacement := bst_min_node POOL r in
      let* rn := node_at replacement in
      node_upd i (set_addr (n_addr rn));;;
      node_upd i (set_size (n_size rn));;;
      match fuel with O => nofuel | S k => bst_delete k replacement end
  end.

Fixpoint bst_find_best_fit (fuel : nat) (node : option nat) (size : Z) (best : option nat)
  : M bst_st (option nat) :=
  match node with
  | None => ret best
  | Some i =>
      match fuel with
      | O => nofuel
      | S k =>
          let* n := node_at i in
          if size <=? n_size n then
            let* best := match best with
                         | None => ret (Some i)
                         | Some b => let* bn := node_at b in
                                     ret (if n_size n <? n_size bn then Some i else Some b)
                         end in
            bst_find_best_fit k (n_left n) size best
          else bst_find_best_fit k (n_right n) size best
      end
  end.

(** The search of [try_coalesce] for the block at [next], by address. *)
Fixpoint find_at (fuel : nat) (next : Z) (current : option nat) : M bst_st (option nat) :=
  match current with
  | None => ret None
  | Some c =>
      let* n := node_at c in
      if n_addr n =? next then ret (Some c) else
      match fuel with
      | O => nofuel
      | S k => find_at k next (if next <? n_addr n then n_left n else n_right n)
      end
  end.

(** Each recursive call of [try_coalesce] has deleted a block from the tree. *)
Fixpoint try_coalesce (fuel : nat) (addr size : Z) : M bst_st Z :=
  let* r := gets root in
  let* found := find_at POOL (addr + size) r in
  match found with
  | None => ret size
  | Some c =>
      let* n := node_at c in
      let new_size := u32 (size + n_size n) in
      bst_delete 1 c;;;
      modify (fun s => set_num_blocks (u32 (num_blocks s - 1)) s);;;
      match fuel with O => nofuel | S k => try_coalesce k addr new_size end
  end.

Definition lock_bst : M bst_st unit :=
  let* u := gets b_use_lock in when (negb (u =? 0)) (kacquire bst_lock).
Definition unlock_bst : M bst_st unit :=
  let* u := gets b_use_lock in when (negb (u =? 0)) (krelease bst_lock).

Definition kfree (kend v : Z) : M bst_st unit :=
  if negb (u32 v mod PGSIZE =? 0) || (v <? kend) || (PHYSTOP <=? V2P v) then panic "kfree" else
  modify (fun s => set_bbytes (memset v 1 PGSIZE (bbytes s)) s);;;
  lock_bst;;;
  let* size := try_coalesce POOL v PGSIZE in
  let* i := bst_insert v size in
  when (bool_decide (i <> None)) (
    modify (fun s => set_total_free (u32 (total_free s + size)) s);;;
    modify (fun s => set_num_blocks (u32 (num_blocks s + 1)) s));;;
  unlock_bst.

Definition kalloc : M bst_st Z :=
  lock_bst;;;
  let* r := gets root in
  let* best := bst_find_best_fit (S POOL) r PGSIZE None in
  match best with
  | None => unlock_bst;;; ret 0
  | Some b =>
      let* n := node_at b in
      let allocated_addr := n_addr n in
      (if PGSIZE <? n_size n then
         node_upd b (set_addr (n_addr n + PGSIZE));;;
         node_upd b (set_size (u32 (n_size n - PGSIZE)));;;
         modify (fun s => set_total_free (u32 (total_free s - PGSIZE)) s)
       else
         bst_delete 1 b;;;
         modify (fun s => set_num_blocks (u32 (num_blocks s - 1)) s);;;
         modify (fun s => set_total_free (u32 (total_free s - PGSIZE)) s));;;
      unlock_bst;;;
      ret allocated_addr
  end.

(** The loop of [freerange] frees pages while [p + PGSIZE <= vend]. *)
Fixpoint bst_freerange_loop (kend : Z) (fuel : nat) (p vend : Z) : M bst_st unit :=
  if p + PGSIZE <=? vend then
    match fuel with
    | O => nofuel
    | S k => kfree kend p;;; bst_freerange_loop kend k (p + PGSIZE) vend
    end
  else ret tt.
Definition freerange (kend vstart vend : Z) : M bst_st unit :=
  bst_freerange_loop kend (Z.to_nat (vend / PGSIZE)) (PGROUNDUP vstart) vend.

Definition kinit1 (kend vstart vend : Z) : M bst_st unit :=
  kinitlock bst_lock "kmem";;;
  modify (set_b_use_lock 0);;;
  modify (set_root None);;;
  modify (set_total_free 0);;;
  modify (set_num_blocks 0);;;
  modify (set_next_idx 0);;;
  freerange kend vstart vend.

Definition kinit2 (kend vstart vend : Z) : M bst_st unit :=
  freerange kend vstart vend;;;
  modify (set_b_use_lock 1).

Definition kfreemem : M bst_st Z :=
  lock_bst;;; let* free := gets total_free in unlock_bst;;; ret free.
Definition knumblocks : M bst_st Z :=
  lock_bst;;; let* blocks := gets num_blocks in unlock_bst;;; ret blocks.

(** ** Trees as data *)
Inductive tree := Leaf | Node (i : nat) (l r : tree).

#[export] Instance tree_eq_dec : EqDecision tree.
Proof. solve_decision. Defined.

(** The nodes [ns] hold the tree [t] under the pointer [p], hanging from [par]. *)
Fixpoint tree_rep (ns : list bst_node) (p par : option nat) (t : tree) : Prop :=
  match t with
  | Leaf => p = None
  | Node i l r => p = Some i /\ exists n, ns !! i = Some n /\ n_parent n = par /\
      tree_rep ns (n_left n) (Some i) l /\ tree_rep ns (n_right n) (Some i) r
  end.

Fixpoint ids (t : tree) : list nat :=
  match t with Leaf => [] | Node i l r => ids l ++ i :: ids r end.
Fixpoint height (t : tree) : nat :=
  match t with Leaf => O | Node _ l r => S (max (height l) (height r)) end.

Definition node_of (ns : list bst_node) (i : nat) : bst_node := default node0 (ns !! i).

(** Search order: left blocks come before the node, right blocks do not. *)
Definition before (n m : bst_node) : bool := goes_left (n_size n) (n_addr n) m.
Fixpoint ordered (ns : list bst_node) (t : tree) : Prop :=
  match t with
  | Leaf => True
  | Node i l r =>
      (forall j, j ∈ ids l -> before (node_of ns j) (node_of ns i) = true) /\
      (forall j, j ∈ ids r -> before (node_of ns j) (node_of ns i) = false) /\
      ordered ns l /\ ordered ns r
  end.

(** Insertion of node [i] holding ([size], [addr]). *)
Fixpoint tree_insert (ns : list bst_node) (size addr : Z) (i : nat) (t : tree) : tree :=
  match t with
  | Leaf => Node i Leaf Leaf
  | Node j l r =>
      if goes_left size addr (node_of ns j) then Node j (tree_insert ns size addr i l) r
      else Node j l (tree_insert ns size addr i r)
  end.

(** The search as a function of the tree. *)
Fixpoint best_of (ns : list bst_node) (size : Z) (t : tree) (best : option nat) : option nat :=
  match t with
  | Leaf => best
  | Node i l r =>
      if size <=? n_size (node_of ns i) then
        best_of ns size l (match best with
                           | None => Some i
                           | Some b => if n_size (node_of ns i) <? n_size (node_of ns b) then Some i else Some b
                           end)
      else best_of ns size r best
  end.

(** The last node on the descent. *)
Fixpoint ins_par (ns : list bst_node) (size addr : Z) (t : tree) (par : option nat) : option nat :=
  match t with
  | Leaf => par
  | Node j l r => ins_par ns size addr (if goes_left size addr (node_of ns j) then l else r) (Some j)
  end.

(** The tree in the array is a search tree over the used nodes. *)
Definition bst_ok (s : bst_st) (t : tree) : Prop :=
  tree_rep (nodes s) (root s) None t /\ NoDup (ids t) /\ ordered (nodes s) t /\
  length (nodes s) = POOL /\ 0 <= next_node_idx s /\
  (forall j, j ∈ ids t -> Z.of_nat j < next_node_idx s).

(** ** Lemmas *)
Lemma node_of_lookup ns i n : ns !! i = Some n -> node_of ns i = n.
Proof. intros H. unfold node_of. by rewrite H. Qed.

Lemma tree_rep_ids ns p par t j : tree_rep ns p par t -> j ∈ ids t -> exists n, ns !! j = Some n.
Proof.
  revert p par. induction t as [|i l IHl r IHr]; intros p par; simpl; [by rewrite elem_of_nil|].
  intros (-> & n & Hn & _ & Hl & Hr). rewrite elem_of_app, elem_of_cons.
  intros [Hj|[->|Hj]]; eauto.
Qed.

Lemma tree_rep_ext ns ns' p par t :
  (forall j, j ∈ ids t -> ns' !! j = ns !! j) -> tree_rep ns p par t -> tree_rep ns' p par t.
Proof.
  revert p par. induction t as [|i l IHl r IHr]; intros p par He; simpl; [done|].
  simpl in He. setoid_rewrite elem_of_app in He. setoid_rewrite elem_of_cons in He.
  intros (-> & n & Hn & Hp & Hl & Hr). split; [done|]. exists n. rewrite He by auto.
  split_and!; [done|done|apply IHl; auto|apply IHr; auto].
Qed.

Lemma ordered_ext ns ns' t :
  (forall j, j ∈ ids t -> before (node_of ns' j) = before (node_of ns j) /\
     forall n, before n (node_of ns' j) = before n (node_of ns j)) ->
  ordered ns t -> ordered ns' t.
Proof.
  induction t as [|i l IHl r IHr]; intros He; simpl; [done|].
  simpl in He. setoid_rewrite elem_of_app in He. setoid_rewrite elem_of_cons in He.
  intros (H1 & H2 & Hl & Hr). split_and!.
  - intros j Hj. destruct (He j) as [-> _]; [auto|]. destruct (He i) as [_ ->]; auto.
  - intros j Hj. destruct (He j) as [-> _]; [auto|]. destruct (He i) as [_ ->]; auto.
  - apply IHl; auto.
  - apply IHr; auto.
Qed.

Lemma before_size n m : before n m = true -> n_size n <= n_size m.
Proof.
  unfold before, goes_left. rewrite orb_true_iff, andb_true_iff, Z.ltb_lt, Z.eqb_eq. lia.
Qed.

Lemma not_before_size n m : before n m = false -> n_size m <= n_size n.
Proof. unfold before, goes_left. rewrite orb_false_iff, Z.ltb_ge. lia. Qed.

(** *** The search *)
Lemma find_best_run s t p par size best fuel :
  tree_rep (nodes s) p par t -> (height t <= fuel)%nat ->
  (forall b, best = Some b -> exists n, nodes s !! b = Some n) ->
  bst_find_best_fit fuel p size best s = Done (best_of (nodes s) size t best) s.
Proof.
  revert t p par best. induction fuel as [|fuel IH]; intros t p par best Ht Hf Hb.
  { destruct t; simpl in *; [by subst|lia]. }
  destruct t as [|i l r]; simpl in Ht; [by subst|]. destruct Ht as (-> & n & Hn & _ & Hl & Hr).
  simpl. unfold bind, node_at, getopt. rewrite Hn, (node_of_lookup _ _ _ Hn). simpl in *.
  destruct (size <=? n_size n).
  - destruct best as [b|]; simpl.
    + destruct (Hb b eq_refl) as [nb Hnb]. rewrite Hnb, (node_of_lookup _ _ _ Hnb). simpl.
      eapply IH; [exact Hl|lia|]. intros b' E. destruct (_ <? _); simplify_eq; eauto.
    + eapply IH; [exact Hl|lia|]. intros b' E. simplify_eq. eauto.
  - eapply IH; [exact Hr|lia|done].
Qed.

Lemma best_of_spec ns size t best :
  ordered ns t -> (forall b, best = Some b -> size <= n_size (node_of ns b)) ->
  match best_of ns size t best with
  | Some r => size <= n_size (node_of ns r) /\ (best = Some r \/ r ∈ ids t) /\
      (forall j, j ∈ ids t -> size <= n_size (node_of ns j) -> n_size (node_of ns r) <= n_size (node_of ns j)) /\
      (forall b, best = Some b -> n_size (node_of ns r) <= n_size (node_of ns b))
  | None => best = None /\ forall j, j ∈ ids t -> n_size (node_of ns j) < size
  end.
Proof.
  revert best. induction t as [|i l IHl r IHr]; intros best Ho Hb; simpl.
  { destruct best as [b|].
    - split_and!; [by apply Hb|by left|set_solver|]. intros b' [= <-]. lia.
    - split; [done|set_solver]. }
  simpl in Ho. destruct Ho as (Hlo & Hro & Hl & Hr).
  destruct (Z.leb_spec size (n_size (node_of ns i))) as [Hi|Hi].
  - set (best' := match best with None => Some i | Some b => _ end).
    assert (exists b', best' = Some b' /\ (best' = best \/ b' = i) /\ size <= n_size (node_of ns b') /\
      n_size (node_of ns b') <= n_size (node_of ns i) /\
      forall b, best = Some b -> n_size (node_of ns b') <= n_size (node_of ns b)) as (b' & Eb & Hw & Hfit & Hle & Hmin).
    { unfold best'. destruct best as [b|].
      - specialize (Hb b eq_refl).
        destruct (Z.ltb_spec (n_size (node_of ns i)) (n_size (node_of ns b))); eexists;
          (split; [done|]); split_and!; auto; try lia; intros b0 [= <-]; lia.
      - exists i. split_and!; auto; [lia|done]. }
    specialize (IHl best' Hl). rewrite Eb in *.
    assert (forall b, Some b' = Some b -> size <= n_size (node_of ns b)) as Hb' by (by intros b [= <-]).
    specialize (IHl Hb'). destruct (best_of ns size l (Some b')) as [r0|]; [|by destruct IHl].
    destruct IHl as (I1 & I2 & I3 & I4). specialize (I4 b' eq_refl). split_and!; [done| | |].
    + destruct I2 as [[= <-]|I2]; [|right; set_solver]. destruct Hw as [<-| ->]; [by left|right; set_solver].
    + intros j Hj Hfj. apply elem_of_app in Hj as [Hj|[->|Hj]%elem_of_cons]; [by apply I3|lia|].
      pose proof (not_before_size _ _ (Hro j Hj)). lia.
    + intros b Eb'. specialize (Hmin b Eb'). lia.
  - specialize (IHr best Hr Hb). destruct (best_of ns size r best) as [r0|].
    + destruct IHr as (I1 & I2 & I3 & I4). split_and!; [done|set_solver| |done].
      intros j Hj Hfj. apply elem_of_app in Hj as [Hj|[->|Hj]%elem_of_cons]; [|lia|by apply I3].
      pose proof (before_size _ _ (Hlo j Hj)). lia.
    + destruct IHr as [-> I]. split; [done|]. intros j Hj.
      apply elem_of_app in Hj as [Hj|[->|Hj]%elem_of_cons]; [|done|by apply I].
      pose proof (before_size _ _ (Hlo j Hj)). lia.
Qed.

Lemma height_ids t : (height t <= length (ids t))%nat.
Proof. induction t; simpl; [lia|]. rewrite length_app. simpl. lia. Qed.

Lemma ids_bound s t : bst_ok s t -> (length (ids t) <= POOL)%nat.
Proof.
  intros (Hrep & Hnd & _ & Hlen & _). rewrite <- Hlen, <- (length_seq (length (nodes s)) 0).
  apply submseteq_length, NoDup_submseteq; [done|]. intros j Hj.
  destruct (tree_rep_ids _ _ _ _ _ Hrep Hj) as [n Hn]. apply elem_of_seq.
  apply lookup_lt_Some in Hn. lia.
Qed.

(** *** Insertion *)
Lemma insert_parent_run s t p par par0 size addr fuel :
  tree_rep (nodes s) p par t -> (height t <= fuel)%nat ->
  insert_parent fuel size addr p par0 s = Done (ins_par (nodes s) size addr t par0) s.
Proof.
  revert t p par par0. induction fuel as [|fuel IH]; intros t p par par0 Ht Hf.
  { destruct t; simpl in *; [by subst|lia]. }
  destruct t as [|i l r]; simpl in Ht; [by subst|]. destruct Ht as (-> & n & Hn & _ & Hl & Hr).
  simpl. unfold bind, node_at, getopt. rewrite Hn, (node_of_lookup _ _ _ Hn). simpl in *.
  destruct (goes_left size addr n); (eapply IH; [eassumption|lia]).
Qed.

Lemma ins_par_in ns size addr t par :
  t <> Leaf -> exists q, ins_par ns size addr t par = Some q /\ q ∈ ids t.
Proof.
  revert par. induction t as [|i l IHl r IHr]; intros par Ht; [done|]. simpl.
  destruct (goes_left _ _ _).
  - destruct l as [|j l1 l2]; [exists i; set_solver|].
    destruct (IHl (Some i)) as (q & -> & Hq); [done|]. exists q. set_solver.
  - destruct r as [|j r1 r2]; [exists i; set_solver|].
    destruct (IHr (Some i)) as (q & -> & Hq); [done|]. exists q. set_solver.
Qed.

(** Linking the new node below the last node of the descent builds [tree_insert]. *)
Lemma tree_insert_rep ns ns' size addr i t p par q nq :
  tree_rep ns p par t -> NoDup (ids t) -> i ∉ ids t ->
  ins_par ns size addr t par = Some q -> q ∈ ids t -> ns !! q = Some nq ->
  (forall j, j <> q -> j <> i -> ns' !! j = ns !! j) ->
  ns' !! q = Some (if goes_left size addr nq then set_left (Some i) nq else set_right (Some i) nq) ->
  ns' !! i = Some (MkNode addr size None None (Some q)) ->
  tree_rep ns' p par (tree_insert ns size addr i t).
Proof.
  revert p par. induction t as [|j l IHl r IHr]; intros p par Hrep Hnd Hi Hq Hqt Hnq Hsame Hnq' Hni; [set_solver|].
  simpl in Hrep. destruct Hrep as (-> & n & Hn & Hp & Hl & Hr).
  simpl in Hnd. apply NoDup_app in Hnd as (Hndl & Hdis & Hndr).
  apply NoDup_cons in Hndr as [Hjr Hndr]. simpl in Hi, Hq. rewrite (node_of_lookup _ _ _ Hn) in Hq.
  assert (j ∉ ids l) as Hjl by (intros Hj; apply (Hdis j Hj); set_solver).
  assert (forall k, k ∈ ids l -> k ∉ ids r) as Hlr by (intros k Hk Hk'; apply (Hdis k Hk); set_solver).
  simpl tree_insert. rewrite (node_of_lookup _ _ _ Hn). destruct (goes_left size addr n) eqn:Hg.
  - destruct l as [|j1 l1 l2].
    + simpl in Hq. injection Hq as <-. rewrite Hn in Hnq. injection Hnq as <-. rewrite Hg in Hnq'.
      simpl. split; [done|]. eexists. split; [exact Hnq'|]. simpl. split; [done|]. split.
      * split; [done|]. eexists. split; [exact Hni|]. done.
      * eapply tree_rep_ext; [|exact Hr]. intros k Hk. apply Hsame; set_solver.
    + set (l := Node j1 l1 l2) in *. destruct (ins_par_in ns size addr l (Some j)) as (q' & Eq & Hql); [done|].
      rewrite Hq in Eq. injection Eq as <-. split; [done|]. exists n.
      split; [rewrite Hsame; [done| |]; set_solver|]. split; [done|]. split.
      * apply IHl; try done. set_solver.
      * eapply tree_rep_ext; [|exact Hr]. intros k Hk. apply Hsame; set_solver.
  - destruct r as [|j1 r1 r2].
    + simpl in Hq. injection Hq as <-. rewrite Hn in Hnq. injection Hnq as <-. rewrite Hg in Hnq'.
      simpl. split; [done|]. eexists. split; [exact Hnq'|]. simpl. split; [done|]. split.
      * eapply tree_rep_ext; [|exact Hl]. intros k Hk. apply Hsame; set_solver.
      * split; [done|]. eexists. split; [exact Hni|]. done.
    + set (r := Node j1 r1 r2) in *. destruct (ins_par_in ns size addr r (Some j)) as (q' & Eq & Hqr); [done|].
      rewrite Hq in Eq. injection Eq as <-. split; [done|]. exists n.
      split; [rewrite Hsame; [done| |]; set_solver|]. split; [done|]. split.
      * eapply tree_rep_ext; [|exact Hl]. intros k Hk. apply Hsame; set_solver.
      * apply IHr; try done. set_solver.
Qed.

Lemma tree_insert_ids ns size addr i t : ids (tree_insert ns size addr i t) ≡ₚ i :: ids t.
Proof.
  induction t as [|j l IHl r IHr]; simpl; [done|]. destruct (goes_left _ _ _); simpl.
  - by rewrite IHl.
  - rewrite IHr. rewrite Permutation_swap. by rewrite <- Permutation_middle.
Qed.

Lemma tree_insert_ordered ns size addr i t :
  ordered ns t -> n_size (node_of ns i) = size -> n_addr (node_of ns i) = addr ->
  ordered ns (tree_insert ns size addr i t).
Proof.
  intros Ho Hs Ha. assert (forall m, before (node_of ns i) m = goes_left size addr m) as Hb.
  { intros m. unfold before. by rewrite Hs, Ha. }
  induction t as [|j l IHl r IHr]; simpl; [split_and!; (done || set_solver)|].
  simpl in Ho. destruct Ho as (H1 & H2 & Hl & Hr). destruct (goes_left _ _ _) eqn:Hg; simpl.
  - split_and!; auto. intros k. rewrite tree_insert_ids, elem_of_cons.
    intros [->|Hk]; [by rewrite Hb|auto].
  - split_and!; auto. intros k. rewrite tree_insert_ids, elem_of_cons.
    intros [->|Hk]; [by rewrite Hb|auto].
Qed.

Lemma node_of_alter f ns i j :
  node_of (alter f i ns) j = if decide (i = j) then (if decide (i < length ns)%nat then f (node_of ns j) else node0) else node_of ns j.
Proof.
  unfold node_of. rewrite list_lookup_alter. case_decide as E; [|done]. subst j.
  case_decide as Hlt.
  - apply lookup_lt_is_Some in Hlt as [n Hn]. by rewrite Hn.
  - rewrite lookup_ge_None_2 by lia. done.
Qed.

Lemma node_upd_run i f s n :
  nodes s !! i = Some n -> node_upd i f s = Done tt (set_nodes (alter f i (nodes s)) s).
Proof. intros Hn. unfold node_upd, node_at, getopt, bind, modify. by rewrite Hn. Qed.

Lemma ins_par_ext ns ns' size addr t par :
  (forall j, j ∈ ids t -> node_of ns' j = node_of ns j) ->
  ins_par ns' size addr t par = ins_par ns size addr t par.
Proof.
  revert par. induction t as [|j l IHl r IHr]; intros par He; simpl; [done|]. simpl in He.
  rewrite He by set_solver. destruct (goes_left _ _ _); [apply IHl|apply IHr]; intros k Hk; apply He; set_solver.
Qed.

Lemma get_node_run s :
  get_node s = if next_node_idx s <? Z.of_nat POOL
    then Done (Some (Z.to_nat (next_node_idx s))) (set_next_idx (next_node_idx s + 1) s) else Done None s.
Proof.
  unfold get_node, bind, gets. cbn [bind_outcome]. rewrite Z.ltb_antisym.
  by destruct (Z.of_nat POOL <=? next_node_idx s).
Qed.

Lemma tree_insert_ext ns ns' size addr i t :
  (forall j, j ∈ ids t -> n_addr (node_of ns' j) = n_addr (node_of ns j) /\
     n_size (node_of ns' j) = n_size (node_of ns j)) ->
  tree_insert ns size addr i t = tree_insert ns' size addr i t.
Proof.
  induction t as [|j l IHl r IHr]; intros He; simpl; [done|]. simpl in He.
  destruct (He j) as [Ea Es]; [set_solver|].
  assert (goes_left size addr (node_of ns' j) = goes_left size addr (node_of ns j)) as ->
    by (unfold goes_left; by rewrite Ea, Es).
  rewrite IHl, IHr; [done|..]; intros k Hk; apply He; set_solver.
Qed.

(** The linking half of [bst_insert], from a node array [ns0] where node [i] is already filled. *)
Lemma bst_insert_link s t addr size i :
  bst_ok s t -> next_node_idx s = Z.of_nat i -> (i < POOL)%nat ->
  let s1 := set_nodes (alter (fun _ => MkNode addr size None None None) i (nodes s))
              (set_next_idx (Z.of_nat i + 1) s) in
  t <> Leaf ->
  exists q nq, ins_par (nodes s) size addr t None = Some q /\ q ∈ ids t /\ nodes s !! q = Some nq /\
    insert_parent (S POOL) size addr (root s) None s1 = Done (Some q) s1.
Proof.
  intros Hok Hidx Hi s1 Hne. pose proof Hok as (Hrep & Hnd & Ho & Hlen & H0 & Hlt).
  destruct (ins_par_in (nodes s) size addr t None Hne) as (q & Hq & Hqt).
  destruct (tree_rep_ids _ _ _ _ _ Hrep Hqt) as [nq Hnq]. exists q, nq. split_and!; [done..|].
  assert (forall j, j ∈ ids t -> j <> i) as Hji by (intros j Hj ->; apply Hlt in Hj; lia).
  assert (tree_rep (nodes s1) (root s) None t) as Hrep1.
  { eapply tree_rep_ext; [|exact Hrep]. intros j Hj. simpl. apply list_lookup_alter_ne.
    apply not_eq_sym. by apply Hji. }
  rewrite (insert_parent_run s1 t (root s) None None size addr (S POOL) Hrep1).
  2:{ pose proof (height_ids t). pose proof (ids_bound s t Hok). lia. }
  f_equal. rewrite <- Hq. apply ins_par_ext. intros j Hj. unfold s1. simpl.
  rewrite node_of_alter, decide_False; [done|]. apply not_eq_sym. by apply Hji.
Qed.

(** ** Theorems *)

(** kalloc_bestfit.c, bst_find_best_fit(): on a search tree the search that [kalloc] makes
    ends and is a best fit: it returns a free block that is large enough and no larger than any
    other large-enough block, or 0 exactly when no block is. *)
Theorem best_fit_minimal s t size :
  bst_ok s t ->
  exists r, bst_find_best_fit (S POOL) (root s) size None s = Done r s /\
    match r with
    | Some i => i ∈ ids t /\ size <= n_size (node_of (nodes s) i) /\
        forall j, j ∈ ids t -> size <= n_size (node_of (nodes s) j) ->
          n_size (node_of (nodes s) i) <= n_size (node_of (nodes s) j)
    | None => forall j, j ∈ ids t -> n_size (node_of (nodes s) j) < size
    end.
Proof.
  intros Hok. pose proof Hok as (Hrep & Hnd & Ho & _). eexists. split.
  - eapply find_best_run; [exact Hrep| |done]. pose proof (height_ids t). pose proof (ids_bound s t Hok). lia.
  - pose proof (best_of_spec (nodes s) size t None Ho) as Hb.
    destruct (best_of (nodes s) size t None) as [i|].
    + destruct Hb as (H1 & [H2|H2] & H3 & _); [done|done|]. done.
    + by destruct Hb.
Qed.


Definition bst_x : bst_st :=
  MkBst (MkMach true 0 [] ∅ (fun _ => 0) 0 0 0 (0, 0) (0, 0)) 0 None 0 0 (replicate POOL node0) 0 (fun _ => 0).

Lemma bst_x_ok : bst_ok bst_x Leaf.
Proof. split_and!; try done; [apply NoDup_nil_2|set_solver]. Qed.

Lemma best_fit_minimal_witness :
  bst_find_best_fit (S POOL) None 4096 None bst_x = Done None bst_x.
Proof.
  destruct (best_fit_minimal bst_x Leaf 4096 bst_x_ok) as (r & Hrun & Hr). simpl in Hrun.
  destruct r as [i|]; [by destruct Hr as [?%elem_of_nil _]|exact Hrun].
Defined.


