(* ===== verification/Vm.v ===== *)
(** * Virtual memory (vm.c)

    The page-table code over any kernel memory with the allocator interface of Pages.v.  A page
    directory and its tables are pages of memory; a pointer to an entry is its address.  Loads
    and stores through a pointer below KERNBASE are undefined behaviour of the kernel.  [readi]
    (fs.c) is an argument of [loaduvm]; [data] is the address the linker gives to [data]. *)
From S2P Require Import Prelude Mmu KString Spinlock Pages Kalloc.

(** ** seginit() *)
Definition seginit : M mach unit :=
  let* i := cpuid in
  let set_seg n d := modify (fun m =>
    set_cpus (alter (fun c => set_gdt (<[Z.to_nat n := d]> (gdt c)) c) (Z.to_nat i) (cpus m)) m) in
  set_seg SEG_KCODE (SEG (Z.lor STA_X STA_R) 0 0xffffffff 0);;;
  set_seg SEG_KDATA (SEG STA_W 0 0xffffffff 0);;;
  set_seg SEG_UCODE (SEG (Z.lor STA_X STA_R) 0 0xffffffff DPL_USER);;;
  set_seg SEG_UDATA (SEG STA_W 0 0xffffffff DPL_USER);;;
  let* c := getopt (fun m => cpus m !! Z.to_nat i) in
  modify (set_gdtr (ts_addr c + sizeof_taskstate, NSEGS * 8 - 1)).

(** ** Page tables *)
Record kmap_entry := Kmap { virt : Z; phys_start : Z; phys_end : Z; perm : Z }.
Definition kmap (data : Z) : list kmap_entry :=
  [ Kmap KERNBASE 0 EXTMEM PTE_W;
    Kmap KERNLINK (V2P KERNLINK) (V2P data) 0;
    Kmap data (V2P data) PHYSTOP PTE_W;
    Kmap DEVSPACE DEVSPACE 0 PTE_W ].

Section vm.
Context {S : Type} `{PageOps S} `{ConsoleOps S}.

(** Accesses of the kernel to its memory. *)
Definition rd32 (a : Z) : M S Z :=
  if a <? KERNBASE then undef else gets (fun s => ld32 (memory s) a).
Definition pokes (a : Z) (f : mem -> mem) : M S unit :=
  if a <? KERNBASE then undef else modify (fun s => put kmem_lens (f (memory s)) s).
Definition wr32 (a v : Z) : M S unit := pokes a (st32 a v).

(** The address of the page-table entry for [va], or 0. *)
Definition walkpgdir (pgdir va : Z) (alloc : bool) : M S Z :=
  let pde := pgdir + 4 * PDX va in
  let* e := rd32 pde in
  if has_flag e PTE_P then ret (P2V (PTE_ADDR e) + 4 * PTX va)
  else if negb alloc then ret 0
  else
    let* pgtab := kalloc in
    if pgtab =? 0 then ret 0
    else
      pokes pgtab (memset pgtab 0 PGSIZE);;;
      wr32 pde (Z.lor (Z.lor (Z.lor (V2P pgtab) PTE_P) PTE_W) PTE_U);;;
      ret (pgtab + 4 * PTX va).

(** The loop of [mappages]; [k] bounds the pages after this one. *)
Fixpoint mappages_loop (k : nat) (pgdir a last pa perm : Z) : M S Z :=
  let* pte := walkpgdir pgdir a true in
  if pte =? 0 then ret (-1) else
  let* e := rd32 pte in
  if has_flag e PTE_P then panic "remap" else
  wr32 pte (Z.lor (Z.lor pa perm) PTE_P);;;
  if a =? last then ret 0 else
  match k with
  | O => nofuel
  | Datatypes.S k' => mappages_loop k' pgdir (u32 (a + PGSIZE)) last (u32 (pa + PGSIZE)) perm
  end.
Definition mappages (pgdir va size pa perm : Z) : M S Z :=
  let a := PGROUNDDOWN va in
  let last := PGROUNDDOWN (u32 va + size - 1) in
  mappages_loop (Z.to_nat (u32 (last - a) / PGSIZE)) pgdir a last pa perm.

(** The loop of [deallocuvm]: a step moves [a] up by at least a page. *)
Fixpoint deallocuvm_loop (k : nat) (pgdir a oldsz : Z) : M S unit :=
  if negb (a <? oldsz) then ret tt else
  match k with
  | O => nofuel
  | Datatypes.S k' =>
      let* pte := walkpgdir pgdir a false in
      if pte =? 0 then
        deallocuvm_loop k' pgdir (u32 (PGADDR (PDX a + 1) 0 0 - PGSIZE + PGSIZE)) oldsz
      else
        let* e := rd32 pte in
        when (has_flag e PTE_P) (
          let pa := PTE_ADDR e in
          if pa =? 0 then panic "kfree" else
          kfree (P2V pa);;;
          wr32 pte 0);;;
        deallocuvm_loop k' pgdir (u32 (a + PGSIZE)) oldsz
  end.
Definition deallocuvm (pgdir oldsz newsz : Z) : M S Z :=
  if oldsz <=? newsz then ret oldsz else
  deallocuvm_loop (Z.to_nat (oldsz / PGSIZE + 1)) pgdir (PGROUNDUP newsz) oldsz;;;
  ret newsz.

Definition freevm (pgdir : Z) : M S unit :=
  if pgdir =? 0 then panic "freevm: no pgdir" else
  deallocuvm pgdir KERNBASE 0;;;
  for_each (seqZ 0 NPDENTRIES) (fun i =>
    let* e := rd32 (pgdir + 4 * i) in
    when (has_flag e PTE_P) (kfree (P2V (PTE_ADDR e))));;;
  kfree pgdir.

(** The loop of [setupkvm]: [false] if a mapping failed. *)
Fixpoint map_kernel (pgdir : Z) (ks : list kmap_entry) : M S bool :=
  match ks with
  | [] => ret true
  | k :: ks' =>
      let* r := mappages pgdir (virt k) (u32 (phys_end k - phys_start k)) (phys_start k) (perm k) in
      if r <? 0 then ret false else map_kernel pgdir ks'
  end.
Definition setupkvm (data : Z) : M S Z :=
  let* pgdir := kalloc in
  if pgdir =? 0 then ret 0 else
  pokes pgdir (memset pgdir 0 PGSIZE);;;
  if DEVSPACE <? P2V PHYSTOP then panic "PHYSTOP too high" else
  let* ok := map_kernel pgdir (kmap data) in
  if ok then ret pgdir else freevm pgdir;;; ret 0.

Definition inituvm (pgdir init sz : Z) : M S unit :=
  if PGSIZE <=? sz then panic "inituvm: more than a page" else
  let* mem := kalloc in
  pokes mem (memset mem 0 PGSIZE);;;
  mappages pgdir 0 PGSIZE (V2P mem) (Z.lor PTE_W PTE_U);;;
  pokes mem (memmove mem init (Z.to_nat sz)).

(** [loaduvm]; [readi dst off n] reads [n] bytes at [off] of the file into kernel memory. *)
Fixpoint loaduvm_loop (k : nat) (readi : Z -> Z -> Z -> M S Z) (pgdir addr offset sz i : Z) : M S Z :=
  if negb (i <? sz) then ret 0 else
  match k with
  | O => nofuel
  | Datatypes.S k' =>
      let* pte := walkpgdir pgdir (addr + i) false in
      if pte =? 0 then panic "loaduvm: address should exist" else
      let* e := rd32 pte in
      let pa := PTE_ADDR e in
      let n := if u32 (sz - i) <? PGSIZE then u32 (sz - i) else PGSIZE in
      let* r := readi (P2V pa) (u32 (offset + i)) n in
      if negb (r =? n) then ret (-1)
      else loaduvm_loop k' readi pgdir addr offset sz (u32 (i + PGSIZE))
  end.
Definition loaduvm (readi : Z -> Z -> Z -> M S Z) (pgdir addr offset sz : Z) : M S Z :=
  if negb (u32 addr mod PGSIZE =? 0) then panic "loaduvm: addr must be page aligned" else
  loaduvm_loop (Z.to_nat (sz / PGSIZE + 1)) readi pgdir addr offset sz 0.

(** The loop of [allocuvm], up to the new size. *)
Fixpoint allocuvm_loop (k : nat) (pgdir a oldsz newsz : Z) : M S Z :=
  if negb (a <? newsz) then ret newsz else
  match k with
  | O => nofuel
  | Datatypes.S k' =>
      let* mem := kalloc in
      if mem =? 0 then
        cprintf ("allocuvm out of memory" +:+ nl) [];;;
        deallocuvm pgdir newsz oldsz;;;
        ret 0
      else
        pokes mem (memset mem 0 PGSIZE);;;
        let* r := mappages pgdir a PGSIZE (V2P mem) (Z.lor PTE_W PTE_U) in
        if r <? 0 then
          cprintf ("allocuvm out of memory (2)" +:+ nl) [];;;
          deallocuvm pgdir newsz oldsz;;;
          kfree mem;;;
          ret 0
        else allocuvm_loop k' pgdir (u32 (a + PGSIZE)) oldsz newsz
  end.
Definition allocuvm (pgdir oldsz newsz : Z) : M S Z :=
  if KERNBASE <=? newsz then ret 0 else
  if newsz <? oldsz then ret oldsz else
  allocuvm_loop (Z.to_nat (newsz / PGSIZE + 1)) pgdir (PGROUNDUP oldsz) oldsz newsz.

Definition clearpteu (pgdir uva : Z) : M S unit :=
  let* pte := walkpgdir pgdir uva false in
  if pte =? 0 then panic "clearpteu" else
  let* e := rd32 pte in
  wr32 pte (Z.land e (u32 (Z.lnot PTE_U))).

(** The loop of [copyuvm] into [d]: [false] is the [goto bad]. *)
Fixpoint copyuvm_loop (k : nat) (pgdir d sz i : Z) : M S bool :=
  if negb (i <? sz) then ret true else
  match k with
  | O => nofuel
  | Datatypes.S k' =>
      let* pte := walkpgdir pgdir i false in
      if pte =? 0 then panic "copyuvm: pte should exist" else
      let* e := rd32 pte in
      if negb (has_flag e PTE_P) then panic "copyuvm: page not present" else
      let pa := PTE_ADDR e in
      let flags := PTE_FLAGS e in
      let* mem := kalloc in
      if mem =? 0 then ret false else
      pokes mem (memmove mem (P2V pa) (Z.to_nat PGSIZE));;;
      let* r := mappages d i PGSIZE (V2P mem) flags in
      if r <? 0 then kfree mem;;; ret false
      else copyuvm_loop k' pgdir d sz (u32 (i + PGSIZE))
  end.
Definition copyuvm (data pgdir sz : Z) : M S Z :=
  let* d := setupkvm data in
  if d =? 0 then ret 0 else
  let* ok := copyuvm_loop (Z.to_nat (sz / PGSIZE + 1)) pgdir d sz 0 in
  if ok then ret d else freevm d;;; ret 0.

Definition uva2ka (pgdir uva : Z) : M S Z :=
  let* pte := walkpgdir pgdir uva false in
  let* e := rd32 pte in
  if negb (has_flag e PTE_P) then ret 0 else
  let* e := rd32 pte in
  if negb (has_flag e PTE_U) then ret 0 else
  let* e := rd32 pte in
  ret (P2V (PTE_ADDR e)).

(** [copyout]: each step after the first copies a whole page or finishes. *)
Fixpoint copyout_loop (k : nat) (pgdir va buf len : Z) : M S Z :=
  if len <=? 0 then ret 0 else
  match k with
  | O => nofuel
  | Datatypes.S k' =>
      let va0 := PGROUNDDOWN va in
      let* pa0 := uva2ka pgdir va0 in
      if pa0 =? 0 then ret (-1) else
      let n := u32 (PGSIZE - (va - va0)) in
      let n := if len <? n then len else n in
      pokes (pa0 + (va - va0)) (memmove (pa0 + (va - va0)) buf (Z.to_nat n));;;
      copyout_loop k' pgdir (u32 (va0 + PGSIZE)) (buf + n) (u32 (len - n))
  end.
Definition copyout (pgdir va p len : Z) : M S Z :=
  copyout_loop (Z.to_nat (len / PGSIZE + 2)) pgdir va p len.
End vm.

(** ** Page tables as data *)

(** A page of the directly mapped physical memory. *)
Definition kpage (p : Z) : Prop :=
  p mod PGSIZE = 0 /\ KERNBASE < p /\ p + PGSIZE <= KERNBASE + PHYSTOP.

(** Directory entry [i] of [d] and the table it points to. *)
Definition pde_at (m : mem) (d i : Z) : Z := ld32 m (d + 4 * i).
Definition table_at (m : mem) (d i : Z) : Z := P2V (PTE_ADDR (pde_at m d i)).
Definition present (m : mem) (d i : Z) : Prop := 0 <= i < 1024 /\ has_flag (pde_at m d i) PTE_P = true.

(** What the hardware's walk finds for [va]: the entry's address, and the entry (0 if there is no
    table). *)
Definition pte_addr (m : mem) (d va : Z) : option Z :=
  if has_flag (pde_at m d (PDX va)) PTE_P then Some (table_at m d (PDX va) + 4 * PTX va) else None.
Definition pte_of (m : mem) (d va : Z) : Z :=
  match pte_addr m d va with Some a => ld32 m a | None => 0 end.

(** The tables of [d] are distinct pages of kernel memory, and neither they nor [d] are free. *)
Definition pt_ok (m : mem) (d : Z) (l : list Z) : Prop :=
  kpage d /\ (d ∉ l) /\
  (forall i, present m d i -> kpage (table_at m d i) /\ (table_at m d i ∉ l) /\ table_at m d i <> d) /\
  (forall i j, present m d i -> present m d j -> i <> j -> table_at m d i <> table_at m d j).

(** [x] belongs to the directory or to one of its tables. *)
Definition in_tables (m : mem) (d x : Z) : Prop :=
  in_page d x \/ exists i, present m d i /\ in_page (table_at m d i) x.

(** ** Lemmas *)
Lemma PDX_range va : 0 <= PDX va < 1024.
Proof.
  unfold PDX. change 0x3FF with (Z.ones 10). rewrite Z.land_ones by lia. apply Z.mod_pos_bound. lia.
Qed.

Lemma PTX_range va : 0 <= PTX va < 1024.
Proof.
  unfold PTX. change 0x3FF with (Z.ones 10). rewrite Z.land_ones by lia. apply Z.mod_pos_bound. lia.
Qed.

Lemma V2P_kpage p : kpage p -> V2P p = p - KERNBASE /\ V2P p mod 4096 = 0 /\ 0 < V2P p < 2 ^ 31.
Proof.
  intros (Hm & Hlo & Hhi). unfold V2P. unfold KERNBASE, PHYSTOP, PGSIZE in *.
  rewrite u32_small by lia. split; [done|]. split; [|lia].
  Z.to_euclidean_division_equations. lia.
Qed.

(** A page-table entry made of a page and flags, taken apart. *)
Lemma PTE_ADDR_V2P p f : kpage p -> 0 <= f < 4096 -> P2V (PTE_ADDR (Z.lor (V2P p) f)) = p.
Proof.
  intros Hp Hf. destruct (V2P_kpage p Hp) as (E & Hm & Hr).
  rewrite (lor_disjoint_add _ f 12) by (change (2 ^ 12) with 4096; lia). rewrite PTE_ADDR_eq.
  rewrite u32_small by lia. rewrite Zplus_mod, Hm, Z.add_0_l, Z.mod_mod, (Z.mod_small f) by lia.
  unfold P2V. rewrite E. replace (p - KERNBASE + f - f + KERNBASE) with p by lia. apply u32_small.
  destruct Hp as (_ & Hlo & Hhi). unfold KERNBASE, PHYSTOP, PGSIZE in *. lia.
Qed.

Lemma has_flag_P e : has_flag e PTE_P = Z.odd e.
Proof.
  unfold has_flag, PTE_P. change 1 with (Z.ones 1). rewrite Z.land_ones by lia.
  change (2 ^ 1) with 2. rewrite Zmod_odd. by destruct (Z.odd e).
Qed.

Lemma lor_odd a b : Z.odd (Z.lor a b) = Z.odd a || Z.odd b.
Proof. rewrite <- !Z.bit0_odd. apply Z.lor_spec. Qed.

Lemma in_page_entry p i : p mod PGSIZE = 0 -> 0 <= i < 1024 -> forall x, p + 4 * i <= x < p + 4 * i + 4 -> in_page p x.
Proof. unfold in_page, PGSIZE. intros. lia. Qed.

Lemma kpage_disjoint p q x : kpage p -> kpage q -> p <> q -> in_page p x -> ~ in_page q x.
Proof. intros [Hp _] [Hq _] Hne Hx Hy. apply Hne. by eapply in_page_inj. Qed.

(** Memory that agrees on the directory and its tables describes the same address space. *)
Lemma pde_at_ext m m' d i : 0 <= i < 1024 ->
  (forall x, in_page d x -> m' x = m x) -> pde_at m' d i = pde_at m d i.
Proof.
  intros Hi Hm. apply ld32_ext. intros x Hx. apply Hm. unfold in_page, PGSIZE. lia.
Qed.

Lemma pt_ext m m' d l :
  pt_ok m d l -> (forall x, in_tables m d x -> m' x = m x) ->
  pt_ok m' d l /\ (forall va, pte_of m' d va = pte_of m d va) /\
  (forall va, pte_addr m' d va = pte_addr m d va).
Proof.
  intros (Hd & Hdl & Ht & Hinj) Hm.
  assert (forall i, 0 <= i < 1024 -> pde_at m' d i = pde_at m d i) as Hpde.
  { intros i Hi. apply pde_at_ext; [done|]. intros x Hx. apply Hm. by left. }
  assert (forall i, present m' d i -> present m d i /\ table_at m' d i = table_at m d i) as Hpr.
  { intros i [Hi Hp]. unfold present, table_at. rewrite <- Hpde by done. done. }
  assert (forall va, pte_addr m' d va = pte_addr m d va) as Ha.
  { intros va. unfold pte_addr, table_at. by rewrite Hpde by apply PDX_range. }
  split; [|split; [|done]].
  - split_and!; [done|done| |].
    + intros i Hi. destruct (Hpr i Hi) as [Hi' ->]. by apply Ht.
    + intros i j Hi Hj. destruct (Hpr i Hi) as [Hi' ->], (Hpr j Hj) as [Hj' ->]. by apply Hinj.
  - intros va. unfold pte_of. rewrite Ha. unfold pte_addr.
    destruct (has_flag _ _) eqn:E; [|done]. apply ld32_ext. intros x Hx. apply Hm. right.
    exists (PDX va). split; [split; [apply PDX_range|done]|].
    pose proof (PTX_range va). unfold in_page, PGSIZE. lia.
Qed.

(** Fewer free pages. *)
Lemma pt_ok_sub m d l l' : pt_ok m d l -> l' ⊆ l -> pt_ok m d l'.
Proof.
  intros (Hd & Hdl & Ht & Hinj) Hs. split_and!; [done|set_solver| |done].
  intros i Hi. destruct (Ht i Hi) as (? & ? & ?). split_and!; [done|set_solver|done].
Qed.

(** The entry's address determines the page. *)
Lemma pte_addr_inj m d l va va' a :
  pt_ok m d l -> pte_addr m d va = Some a -> pte_addr m d va' = Some a ->
  PDX va = PDX va' /\ PTX va = PTX va'.
Proof.
  intros (Hd & Hdl & Ht & Hinj). unfold pte_addr.
  destruct (has_flag _ _) eqn:E; [|done]. destruct (has_flag (pde_at m d (PDX va')) _) eqn:E'; [|done].
  intros [= <-] [= Ha].
  assert (present m d (PDX va)) as Hp by (split; [apply PDX_range|done]).
  assert (present m d (PDX va')) as Hp' by (split; [apply PDX_range|done]).
  destruct (Ht _ Hp) as ([Hm _] & _), (Ht _ Hp') as ([Hm' _] & _).
  pose proof (PTX_range va). pose proof (PTX_range va').
  assert (table_at m d (PDX va) = table_at m d (PDX va')) as Et.
  { apply (in_page_inj _ _ (table_at m d (PDX va) + 4 * PTX va)); [done|done| |];
      unfold in_page, PGSIZE; lia. }
  split; [|lia]. destruct (decide (PDX va = PDX va')) as [|Hne]; [done|].
  exfalso. by apply (Hinj _ _ Hp Hp' Hne).
Qed.

(** Where an entry lives. *)
Lemma pte_addr_in m d l va a :
  pt_ok m d l -> pte_addr m d va = Some a ->
  exists t, kpage t /\ (t ∉ l) /\ t <> d /\ t <= a /\ a + 4 <= t + PGSIZE /\
    (forall x, a <= x < a + 4 -> in_tables m d x) /\ t = table_at m d (PDX va) /\ present m d (PDX va).
Proof.
  intros (Hd & Hdl & Ht & Hinj). unfold pte_addr. destruct (has_flag _ _) eqn:E; [|done].
  intros [= <-]. assert (present m d (PDX va)) as Hp by (split; [apply PDX_range|done]).
  destruct (Ht _ Hp) as (Hk & Hl & Hne). exists (table_at m d (PDX va)).
  pose proof (PTX_range va). split_and!; try done; try (unfold PGSIZE; lia).
  intros x Hx. right. exists (PDX va). split; [done|]. unfold in_page, PGSIZE. lia.
Qed.

(** Writing the entry of [va] changes that entry and no other. *)
Lemma pt_set_entry m d l va a v :
  pt_ok m d l -> pte_addr m d va = Some a -> 0 <= v < 2 ^ 32 ->
  let m' := st32 a v m in
  pt_ok m' d l /\ pte_of m' d va = v /\
  (forall va', pte_addr m' d va' = pte_addr m d va') /\
  (forall va', ~ (PDX va' = PDX va /\ PTX va' = PTX va) -> pte_of m' d va' = pte_of m d va').
Proof.
  intros Hok Ha Hv m'. destruct (pte_addr_in _ _ _ _ _ Hok Ha) as (t & Hk & Htl & Htd & Hlo & Hhi & Hin & Et & Hpt).
  pose proof Hok as (Hd & Hdl & Ht & Hinj).
  assert (forall x, in_page d x -> m' x = m x) as Hdir.
  { intros x Hx. apply st32_ne. intros Hax. apply (kpage_disjoint d t x); auto. unfold in_page. lia. }
  assert (forall i, 0 <= i < 1024 -> pde_at m' d i = pde_at m d i) as Hpde
    by (intros i Hi; by apply pde_at_ext).
  assert (forall i, present m' d i <-> present m d i) as Hpr.
  { intros i. unfold present. split; intros [Hi Hp]; (split; [done|]); [rewrite <- Hpde|rewrite Hpde]; done. }
  assert (forall i, present m d i -> table_at m' d i = table_at m d i) as Htab.
  { intros i [Hi _]. unfold table_at. by rewrite Hpde. }
  assert (forall va', pte_addr m' d va' = pte_addr m d va') as Haddr.
  { intros va'. unfold pte_addr, table_at. by rewrite Hpde by apply PDX_range. }
  split_and!; [|  |done|].
  - split_and!; [done|done| |].
    + intros i Hi%Hpr. rewrite Htab by done. by apply Ht.
    + intros i j Hi%Hpr Hj%Hpr. rewrite !Htab by done. by apply Hinj.
  - unfold pte_of. rewrite Haddr, Ha. by apply ld32_st32.
  - intros va' Hne. unfold pte_of. rewrite Haddr. destruct (pte_addr m d va') as [a'|] eqn:Ha'; [|done].
    apply ld32_st32_ne.
    destruct (pte_addr_in _ _ _ _ _ Hok Ha') as (t' & Hk' & _ & _ & Hlo' & Hhi' & _ & Et' & Hpt').
    destruct (decide (PDX va' = PDX va)) as [E|E].
    + assert (PTX va' <> PTX va) by tauto. unfold pte_addr in Ha, Ha'. rewrite E in Ha'.
      destruct (has_flag _ _); simplify_eq. lia.
    + assert (t <> t') as Hne' by (subst t t'; by apply Hinj; auto).
      destruct Hk as [Hm _], Hk' as [Hm' _]. unfold PGSIZE in *.
      Z.to_euclidean_division_equations. lia.
Qed.

(** ** Runs *)
Section runs.
Context {S : Type} `{PageAllocator S}.
Implicit Types (s : S) (l : list Z).

Lemma memory_put m s : memory (put kmem_lens m s) = m.
Proof. unfold memory. apply view_put. Qed.

Lemma wp_rd32 a (Q : Z -> S -> Prop) s :
  KERNBASE <= a -> Q (ld32 (memory s) a) s -> wp (rd32 a) Q s.
Proof. intros Ha HQ. unfold rd32. destruct (Z.ltb_spec a KERNBASE); [lia|]. done. Qed.

Lemma wp_pokes a f (Q : unit -> S -> Prop) s :
  KERNBASE <= a -> Q tt (put kmem_lens (f (memory s)) s) -> wp (pokes a f) Q s.
Proof. intros Ha HQ. unfold pokes. destruct (Z.ltb_spec a KERNBASE); [lia|]. done. Qed.

Lemma free_kpage s l p : pa_rep s l -> p ∈ l -> kpage p.
Proof.
  intros Hr Hp. destruct (pa_pages s l Hr) as [_ Hok]. rewrite Forall_forall in Hok.
  destruct (Hok p Hp) as (? & ? & ?). unfold kpage. lia.
Qed.

(** Writing outside the free pages keeps the allocator. *)
Lemma rep_pokes s l f :
  pa_rep s l -> mem_ok (f (memory s)) ->
  (forall x, in_pages l x -> f (memory s) x = memory s x) ->
  pa_rep (put kmem_lens (f (memory s)) s) l.
Proof. intros. by apply pa_frame. Qed.

Lemma rep_wr32 s l a v :
  pa_rep s l -> (forall x, in_pages l x -> ~ (a <= x < a + 4)) ->
  pa_rep (put kmem_lens (st32 a v (memory s)) s) l.
Proof.
  intros Hr Ha. apply (rep_pokes s l (st32 a v)); [done| |].
  - apply st32_ok. by eapply pa_bytes.
  - intros x Hx. apply st32_ne. by apply Ha.
Qed.

(** A page that is not free shares no address with the free pages. *)
Lemma not_free_page s l p x : pa_rep s l -> kpage p -> p ∉ l -> in_page p x -> ~ in_pages l x.
Proof.
  intros Hr [Hm _] Hpl Hx Hin. apply Hpl. destruct (pa_pages s l Hr) as [_ Hok].
  by eapply in_pages_in_page.
Qed.

Lemma tables_not_free s l d x : pa_rep s l -> pt_ok (memory s) d l -> in_tables (memory s) d x -> ~ in_pages l x.
Proof.
  intros Hr (Hd & Hdl & Ht & _) [Hx|(i & Hi & Hx)].
  - by apply (not_free_page s l d).
  - destruct (Ht i Hi) as (Hk & Hl & _). by apply (not_free_page s l (table_at (memory s) d i)).
Qed.

(** The walk without allocation only reads. *)
Lemma walkpgdir_read d va s l :
  pt_ok (memory s) d l ->
  wp (walkpgdir d va false) (fun r s' => s' = s /\ r = default 0 (pte_addr (memory s) d va)) s.
Proof.
  intros ([Hm [Hlo Hhi]] & _). unfold walkpgdir, pte_addr. pose proof (PDX_range va).
  apply wp_bind, wp_rd32; [lia|]. fold (pde_at (memory s) d (PDX va)).
  by destruct (has_flag _ _).
Qed.

(** What the walk with allocation may do: take at most one page from the free list, for a new,
    empty table. *)
Definition walk_post (s : S) (l : list Z) (d : Z) (s' : S) (l' : list Z) : Prop :=
  pa_rep s' l' /\ l' ⊆ l /\ pt_ok (memory s') d l' /\
  (forall va, pte_of (memory s') d va = pte_of (memory s) d va) /\
  (forall va a, pte_addr (memory s) d va = Some a -> pte_addr (memory s') d va = Some a) /\
  (forall x, ~ in_pages l x -> ~ in_page d x -> memory s' x = memory s x) /\
  (forall x, in_tables (memory s') d x -> in_tables (memory s) d x \/ in_pages l x).

Lemma walk_post_refl s l d : pa_rep s l -> pt_ok (memory s) d l -> walk_post s l d s l.
Proof. intros. unfold walk_post. split_and!; auto. Qed.

(** Equal directories have equal tables. *)
Lemma in_tables_pde m m' d x :
  (forall i, 0 <= i < 1024 -> pde_at m' d i = pde_at m d i) -> in_tables m' d x -> in_tables m d x.
Proof.
  intros Hpde [Hx|(i & [Hi Hp] & Hx)]; [by left|right]. exists i. unfold present, table_at in *.
  by rewrite <- Hpde.
Qed.

(** A fresh zeroed page [p] installed as table [PDX va]. *)
Lemma pt_add_table m m' d l p va :
  pt_ok m d (p :: l) -> kpage p -> p ∉ l -> has_flag (pde_at m d (PDX va)) PTE_P = false ->
  pde_at m' d (PDX va) = Z.lor (V2P p) 7 ->
  (forall i, 0 <= i < 1024 -> i <> PDX va -> pde_at m' d i = pde_at m d i) ->
  (forall x, in_page p x -> m' x = 0) ->
  (forall x, ~ in_page p x -> ~ in_page d x -> m' x = m x) ->
  pt_ok m' d l /\ pte_addr m' d va = Some (p + 4 * PTX va) /\
  (forall va', pte_of m' d va' = pte_of m d va') /\
  (forall va' a, pte_addr m d va' = Some a -> pte_addr m' d va' = Some a) /\
  (forall x, in_tables m' d x -> in_tables m d x \/ in_page p x).
Proof.
  intros (Hd & Hdl & Ht & Hinj) Hp Hpl Hno Hnew Hold Hzero Hsame.
  assert (p <> d) as Hpd by set_solver.
  assert (table_at m' d (PDX va) = p) as Htn.
  { unfold table_at. rewrite Hnew. apply PTE_ADDR_V2P; [done|lia]. }
  assert (has_flag (pde_at m' d (PDX va)) PTE_P = true) as Hpn.
  { rewrite Hnew, has_flag_P, lor_odd. apply orb_true_r. }
  assert (forall i, present m' d i -> i = PDX va \/ (i <> PDX va /\ present m d i /\ table_at m' d i = table_at m d i)) as Hcase.
  { intros i [Hi Hpi]. destruct (decide (i = PDX va)) as [->|Hne]; [by left|right].
    unfold present, table_at. rewrite <- Hold by done. done. }
  assert (forall va' a, pte_addr m d va' = Some a -> pte_addr m' d va' = Some a) as Haddr.
  { intros va' a. unfold pte_addr. destruct (has_flag (pde_at m d (PDX va')) _) eqn:E; [|done].
    intros [= <-]. assert (PDX va' <> PDX va) by congruence. unfold table_at.
    rewrite !Hold by (done || apply PDX_range). by rewrite E. }
  split_and!; [| | |done|].
  4:{ intros x [Hx|(i & Hi & Hx)]; [left; by left|]. destruct (Hcase i Hi) as [->|(Hne & Hi' & E)].
      - right. by rewrite Htn in Hx.
      - left. right. exists i. by rewrite <- E. }
  - split_and!; [done|set_solver| |].
    + intros i Hi. destruct (Hcase i Hi) as [->|(Hne & Hi' & ->)]; [rewrite Htn; set_solver|].
      destruct (Ht i Hi') as (? & ? & ?). set_solver.
    + assert (forall i, i <> PDX va -> present m d i -> table_at m d i <> p) as Hnp.
      { intros i _ Hi E. destruct (Ht i Hi) as (_ & Hin & _). rewrite E in Hin. set_solver. }
      intros i j Hi Hj Hij. destruct (Hcase i Hi) as [->|(Hne & Hi' & ->)],
        (Hcase j Hj) as [->|(Hne' & Hj' & ->)]; rewrite ?Htn; auto. by apply not_eq_sym, Hnp.
  - unfold pte_addr. by rewrite Hpn, Htn.
  - intros va'. unfold pte_of. destruct (pte_addr m d va') as [a|] eqn:Ha.
    + rewrite (Haddr _ _ Ha). unfold pte_addr in Ha.
      destruct (has_flag (pde_at m d (PDX va')) _) eqn:E; [|done]. injection Ha as <-.
      assert (present m d (PDX va')) as Hpr by (split; [apply PDX_range|done]).
      destruct (Ht _ Hpr) as (Hk & Hnl & Hnd). pose proof (PTX_range va').
      apply ld32_ext. intros x Hx.
      assert (in_page (table_at m d (PDX va')) x) as Hxp by (unfold in_page, PGSIZE; lia).
      apply Hsame; intros Hx'.
      * apply (kpage_disjoint (table_at m d (PDX va')) p x); try done. set_solver.
      * by apply (kpage_disjoint (table_at m d (PDX va')) d x).
    + unfold pte_addr in Ha. destruct (has_flag (pde_at m d (PDX va')) _) eqn:E; [done|].
      unfold pte_addr. destruct (has_flag (pde_at m' d (PDX va')) _) eqn:E'; [|done].
      destruct (decide (PDX va' = PDX va)) as [Ev|Hne].
      * rewrite Ev, Htn. pose proof (PTX_range va'). unfold ld32.
        rewrite !Hzero by (unfold in_page, PGSIZE; lia). done.
      * rewrite Hold in E' by (done || apply PDX_range). congruence.
Qed.

(** Two states with the same address space under [d]. *)
Definition same_space (d : Z) (s s' : S) : Prop :=
  (forall va, pte_of (memory s') d va = pte_of (memory s) d va) /\
  (forall va, pte_addr (memory s') d va = pte_addr (memory s) d va) /\
  (forall i, 0 <= i < 1024 -> pde_at (memory s') d i = pde_at (memory s) d i).

(** Taking a page leaves every address space as it is. *)
Lemma kalloc_tables d s l :
  pa_rep s l -> pt_ok (memory s) d l ->
  wp kalloc (fun p s1 => same_space d s s1 /\
    (forall x, ~ in_pages l x -> memory s1 x = memory s x) /\
    (p = 0 /\ l = [] /\ pa_rep s1 [] /\ pt_ok (memory s1) d [] \/
     exists l', l ≡ₚ p :: l' /\ kpage p /\ (p ∉ l') /\ pa_rep s1 l' /\ pt_ok (memory s1) d (p :: l'))) s.
Proof.
  intros Hr Hok. eapply wp_mono; [|by apply (pa_kalloc s l)]. intros p s1 [Hsame Hp].
  destruct (pt_ext (memory s) (memory s1) d l Hok) as (Hok1 & Hpte & Hpa).
  { intros x Hx. apply Hsame. by apply (tables_not_free s l d). }
  split; [|split; [done|]].
  - split_and!; [done..|]. intros i Hi. apply pde_at_ext; [done|]. intros x Hx. apply Hsame.
    apply (tables_not_free s l d); [done..|]. by left.
  - destruct l as [|q l0]; [left; by destruct Hp|right]. destruct Hp as (l' & Hperm & Hr1).
    exists l'. split_and!; [done| | |done|].
    + eapply (free_kpage s (q :: l0)); [done|]. rewrite Hperm. set_solver.
    + destruct (pa_pages s _ Hr) as [Hnd _]. rewrite Hperm in Hnd. by apply NoDup_cons in Hnd as [? _].
    + eapply pt_ok_sub; [exact Hok1|]. intros x. by rewrite Hperm.
Qed.

(** The table page is zeroed and entered in the directory. *)
Lemma install_table d p va s l :
  pa_rep s l -> pt_ok (memory s) d (p :: l) -> kpage p -> p ∉ l ->
  has_flag (pde_at (memory s) d (PDX va)) PTE_P = false ->
  let m := st32 (d + 4 * PDX va) (Z.lor (V2P p) 7) (memset p 0 PGSIZE (memory s)) in
  pa_rep (put kmem_lens m s) l /\ pt_ok m d l /\ pte_addr m d va = Some (p + 4 * PTX va) /\
  (forall va', pte_of m d va' = pte_of (memory s) d va') /\
  (forall va' a, pte_addr (memory s) d va' = Some a -> pte_addr m d va' = Some a) /\
  (forall x, ~ in_page p x -> ~ in_page d x -> m x = memory s x) /\
  (forall x, in_tables m d x -> in_tables (memory s) d x \/ in_page p x).
Proof.
  intros Hr Hok Hkp Hpl Hno m. pose proof Hok as (Hd & Hdl & _ & _).
  pose proof (PDX_range va) as Hx. assert (p <> d) as Hpd by set_solver.
  destruct (V2P_kpage p Hkp) as (_ & Hvm & Hvr).
  assert (Hm : forall x, m x = if within (d + 4 * PDX va) 4 x
    then st32 (d + 4 * PDX va) (Z.lor (V2P p) 7) (memory s) x
    else if within p PGSIZE x then 0 else memory s x).
  { intros x. unfold m. destruct (within_spec (d + 4 * PDX va) 4 x).
    - unfold st32, st8. repeat case_match; try done. lia.
    - rewrite st32_ne, memset_spec by (done || unfold PGSIZE; lia). done. }
  assert (forall x, ~ in_page p x -> ~ in_page d x -> m x = memory s x) as Hout.
  { intros x Hxp Hxd. rewrite Hm. unfold in_page, PGSIZE in *. case_within. }
  assert (pa_rep (put kmem_lens m s) l) as Hr'.
  { apply pa_frame; [done| |].
    - apply st32_ok, memset_ok; [unfold PGSIZE; lia|]. by eapply pa_bytes.
    - intros x Hxl. apply Hout.
      + intros Hxp. by eapply (not_free_page s l p).
      + intros Hxd. eapply (not_free_page s l d); [done|done| |done|done]. set_solver. }
  split; [done|]. destruct (pt_add_table (memory s) m d l p va) as (K1 & K2 & K3 & K4 & K5); try done.
  - unfold pde_at, m. apply ld32_st32. rewrite (lor_disjoint_add _ 7 12) by (done || lia). lia.
  - intros i Hi Hne. unfold pde_at. apply ld32_ext. intros y Hy.
    rewrite Hm. assert (~ in_page p y) as Hyp.
    { intros Hyp. apply (kpage_disjoint p d y); auto. unfold in_page, PGSIZE. lia. }
    unfold in_page in Hyp. case_within.
  - intros x Hxp. rewrite Hm. assert (~ in_page d x) as Hxd by (by apply (kpage_disjoint p d)).
    unfold in_page, PGSIZE in *. case_within.
Qed.

(** The walk with allocation: the entry's address, or 0 when the page for a new table could not
    be had. *)
Lemma walkpgdir_alloc d va s l :
  pa_rep s l -> pt_ok (memory s) d l ->
  wp (walkpgdir d va true) (fun r s' => exists l', walk_post s l d s' l' /\
    (r = 0 /\ l = [] \/ r <> 0 /\ pte_addr (memory s') d va = Some r)) s.
Proof.
  intros Hr Hok. pose proof Hok as (Hd & Hdl & Ht & Hinj). pose proof (PDX_range va) as Hx.
  pose proof (PTX_range va) as Htx. assert (KERNBASE < d) as Hdlo by apply Hd.
  unfold walkpgdir. apply wp_bind, wp_rd32; [lia|].
  fold (pde_at (memory s) d (PDX va)). destruct (has_flag _ _) eqn:E.
  - apply wp_ret. exists l. split; [by apply walk_post_refl|]. right.
    assert (present (memory s) d (PDX va)) as Hp by (split; [lia|done]).
    destruct (Ht _ Hp) as ((_ & Hlo & _) & _). fold (table_at (memory s) d (PDX va)).
    unfold pte_addr. rewrite E. split; [|done]. unfold KERNBASE in Hlo. lia.
  - simpl. apply wp_bind. eapply wp_mono; [|by apply (kalloc_tables d s l)].
    intros p s1 ((Hpte & Hpa & Hpde) & Hsame & [(-> & -> & Hr1 & Hok1)|(l' & Hperm & Hkp & Hpl & Hr1 & Hok1)]).
    + apply wp_ret. exists []. split; [|by left]. unfold walk_post. split_and!; auto.
      * intros va' a Ha. by rewrite Hpa.
      * intros x Hx1. left. by eapply in_tables_pde.
    + assert (KERNBASE < p) as Hplo by apply Hkp.
      destruct (Z.eqb_spec p 0); [unfold KERNBASE in Hplo; lia|].
      apply wp_bind, wp_pokes; [lia|]. apply wp_bind, wp_pokes; [lia|]. apply wp_ret.
      rewrite memory_put, put_put, <- !Z.lor_assoc.
      change (Z.lor PTE_P (Z.lor PTE_W PTE_U)) with 7.
      destruct (install_table d p va s1 l') as (K1 & K2 & K3 & K4 & K5 & K6 & K7); try done.
      { by rewrite Hpde. }
      exists l'. unfold walk_post. rewrite memory_put. split_and!; auto.
      * intros x. rewrite Hperm. set_solver.
      * intros va'. by rewrite K4, Hpte.
      * intros va' a Ha. apply K5. by rewrite Hpa.
      * intros x Hxl Hxd. rewrite K6, Hsame; [done..| |done]. intros Hxp. apply Hxl.
        exists p. split; [rewrite Hperm; set_solver|done].
      * intros x [Hx1|Hx1]%K7; [left; by eapply in_tables_pde|right].
        exists p. split; [rewrite Hperm; set_solver|done].
      * right. split; [unfold KERNBASE in Hplo; lia|done].
Qed.

(** *** mappages *)
Lemma same_page va va' :
  0 <= va < 2 ^ 32 -> 0 <= va' < 2 ^ 32 ->
  PDX va = PDX va' /\ PTX va = PTX va' <-> va / PGSIZE = va' / PGSIZE.
Proof.
  intros Hv Hv'. rewrite !PDX_eq, !PTX_eq by done. unfold PGSIZE.
  replace (va / 2 ^ 22) with (va / 4096 / 1024) by (rewrite Z.div_div by lia; done).
  replace (va' / 2 ^ 22) with (va' / 4096 / 1024) by (rewrite Z.div_div by lia; done).
  split; [|by intros ->]. intros [E1 E2].
  pose proof (Z.div_mod (va / 4096) 1024). pose proof (Z.div_mod (va' / 4096) 1024). lia.
Qed.

Lemma lor_range a b : 0 <= a < 2 ^ 32 -> 0 <= b < 2 ^ 32 -> 0 <= Z.lor a b < 2 ^ 32.
Proof.
  intros Ha Hb. split; [by apply Z.lor_nonneg; lia|].
  destruct (Z.eq_dec (Z.lor a b) 0) as [->|Hne]; [lia|].
  assert (0 < Z.lor a b) by (pose proof (proj2 (Z.lor_nonneg a b)); lia).
  apply Z.log2_lt_pow2; [done|]. rewrite Z.log2_lor by lia.
  destruct (Z.eq_dec a 0) as [->|], (Z.eq_dec b 0) as [->|]; simpl Z.log2;
    rewrite ?Z.max_lub_lt_iff; repeat split; try lia; apply Z.log2_lt_pow2; lia.
Qed.

(** What mapping the pages [a], [a + PGSIZE], ... ([k + 1] of them) does: all of them are mapped
    ([r = 0]) or memory ran out ([r = -1]); no other page of the address space changes, nor any
    memory but the tables and pages that were free. *)
Definition map_post (s : S) (l : list Z) (d a pa perm : Z) (k : nat) (r : Z) (s' : S) (l' : list Z) : Prop :=
  pa_rep s' l' /\ l' ⊆ l /\ pt_ok (memory s') d l' /\
  (forall va, 0 <= va < 2 ^ 32 -> ~ (a <= va < a + PGSIZE * (Z.of_nat k + 1)) ->
     pte_of (memory s') d va = pte_of (memory s) d va) /\
  (forall x, ~ in_pages l x -> ~ in_tables (memory s) d x -> memory s' x = memory s x) /\
  (r = 0 /\ (forall i, 0 <= i <= Z.of_nat k ->
     pte_of (memory s') d (a + PGSIZE * i) = Z.lor (Z.lor (pa + PGSIZE * i) perm) PTE_P)
   \/ r = -1 /\ l' = []).

(** One page entered. *)
Definition one_post (s : S) (l : list Z) (d a v : Z) (s' : S) (l' : list Z) : Prop :=
  pa_rep s' l' /\ l' ⊆ l /\ pt_ok (memory s') d l' /\ pte_of (memory s') d a = v /\
  (forall va, 0 <= va < 2 ^ 32 -> va / PGSIZE <> a / PGSIZE ->
     pte_of (memory s') d va = pte_of (memory s) d va) /\
  (forall x, ~ in_pages l x -> ~ in_tables (memory s) d x -> memory s' x = memory s x) /\
  (forall x, in_tables (memory s') d x -> in_tables (memory s) d x \/ in_pages l x).

Lemma wp_map_one d a v (K : M S Z) (Q : Z -> S -> Prop) s l :
  pa_rep s l -> pt_ok (memory s) d l -> 0 <= a < 2 ^ 32 -> 0 <= v < 2 ^ 32 ->
  has_flag (pte_of (memory s) d a) PTE_P = false ->
  (forall s' l', one_post s l d a v s' l' -> wp K Q s') ->
  (forall s', walk_post s l d s' [] -> Q (-1) s') ->
  wp (let* pte := walkpgdir d a true in
      if pte =? 0 then ret (-1) else
      let* e := rd32 pte in
      if has_flag e PTE_P then panic "remap" else wr32 pte v;;; K) Q s.
Proof.
  intros Hr Hok Ha Hv Hno HK HQ. apply wp_bind.
  eapply wp_mono; [|by apply (walkpgdir_alloc d a s l)]. intros r s1 (l1 & Hw & Hres).
  pose proof Hw as (Hr1 & Hl1 & Hok1 & Hpte1 & Hpa1 & Hsame1 & Htab1).
  destruct Hres as [[-> ->]|[Hne Hpa]].
  { apply wp_ret, HQ. assert (l1 = []) as -> by (destruct l1; [done|set_solver]). done. }
  destruct (Z.eqb_spec r 0); [done|].
  destruct (pte_addr_in _ _ _ _ _ Hok1 Hpa) as (t & (Htm & Htlo & Hthi) & _ & _ & Hlo & Hhi & Hint & _).
  apply wp_bind, wp_rd32; [lia|].
  assert (ld32 (memory s1) r = pte_of (memory s1) d a) as -> by (unfold pte_of; by rewrite Hpa).
  rewrite Hpte1, Hno. apply wp_bind, wp_pokes; [lia|].
  destruct (pt_set_entry (memory s1) d l1 a r v Hok1 Hpa Hv) as (Hok2 & Hv2 & Hpa2 & Hoth2).
  apply (HK _ l1). unfold one_post. rewrite memory_put. split_and!; auto.
  - apply rep_wr32; [done|]. intros x Hx Hrx. by apply (tables_not_free s1 l1 d x Hr1 Hok1); [apply Hint|].
  - intros va Hva Hne'. rewrite Hoth2, Hpte1; [done|].
    intros E. apply Hne'. by apply same_page.
  - intros x Hxl Hxt. rewrite st32_ne; [apply Hsame1; [done|]|].
    + intros Hxd. apply Hxt. by left.
    + intros Hrx. destruct (Htab1 x (Hint x Hrx)); done.
  - intros x Hx. apply Htab1. eapply in_tables_pde; [|exact Hx]. intros i Hi.
    apply pde_at_ext; [done|]. intros y Hy. apply st32_ne. intros Hry.
    destruct (pte_addr_in _ _ _ _ _ Hok1 Hpa) as (t' & Hk' & _ & Htd & Hlo' & Hhi' & _).
    apply (kpage_disjoint t' d y); try done; [apply Hok1|]. unfold in_page. lia.
Qed.

Lemma map_post_fail s l d a pa perm k s' :
  pt_ok (memory s) d l -> walk_post s l d s' [] -> map_post s l d a pa perm k (-1) s' [].
Proof.
  intros Hok (Hr1 & Hl1 & Hok1 & Hpte1 & Hpa1 & Hsame1 & Htab1). unfold map_post.
  split_and!; auto. intros x Hxl Hxt. apply Hsame1; [done|]. intros Hxd. apply Hxt. by left.
Qed.

Lemma map_post_one s l d a pa perm v s' l' :
  a mod PGSIZE = 0 -> v = Z.lor (Z.lor pa perm) PTE_P ->
  one_post s l d a v s' l' -> map_post s l d a pa perm 0 0 s' l'.
Proof.
  intros Ha -> (Hr & Hl & Hok & Hv & Hoth & Hsame & _). unfold map_post, PGSIZE in *.
  split_and!; auto.
  - intros va Hva Hne. apply Hoth; [done|]. Z.to_euclidean_division_equations; lia.
  - left. split; [done|]. intros i Hi. replace i with 0 by lia. rewrite !Z.mul_0_r, !Z.add_0_r. done.
Qed.

Lemma map_post_step s l d a pa perm k v s1 l1 r s' l' :
  a mod PGSIZE = 0 -> 0 <= a -> a + PGSIZE * (Z.of_nat k + 2) <= 2 ^ 32 ->
  v = Z.lor (Z.lor pa perm) PTE_P -> one_post s l d a v s1 l1 ->
  map_post s1 l1 d (a + PGSIZE) (pa + PGSIZE) perm k r s' l' ->
  map_post s l d a pa perm (Datatypes.S k) r s' l'.
Proof.
  intros Ha Ha0 Ha32 -> (Hr1 & Hl1 & Hok1 & Hv1 & Hoth1 & Hsame1 & Htab1)
    (Hr2 & Hl2 & Hok2 & Hoth2 & Hsame2 & Hres). unfold map_post, PGSIZE in *. split_and!; auto.
  - set_solver.
  - intros va Hva Hne. rewrite Hoth2 by lia. apply Hoth1; [done|].
    Z.to_euclidean_division_equations; lia.
  - intros x Hxl Hxt. rewrite Hsame2, Hsame1; [done..| |].
    + intros (p & Hp & Hx). apply Hxl. exists p. split; [set_solver|done].
    + intros [Hx|Hx]%Htab1; done.
  - destruct Hres as [[-> Hres]|?]; [left|by right]. split; [done|]. intros i Hi.
    destruct (Z.eq_dec i 0) as [->|Hi0].
    + rewrite !Z.mul_0_r, !Z.add_0_r. rewrite Hoth2, Hv1 by lia. done.
    + replace (a + 4096 * i) with (a + 4096 + 4096 * (i - 1)) by lia. rewrite Hres by lia.
      do 2 f_equal. lia.
Qed.

Lemma aligned_end a b : a mod PGSIZE = 0 -> b mod PGSIZE = 0 -> a < b -> a + PGSIZE <= b.
Proof. unfold PGSIZE. intros. Z.to_euclidean_division_equations. lia. Qed.

Lemma page_number va size : 0 <= va -> 0 < size -> 0 <= (va + size - 1) / PGSIZE - va / PGSIZE.
Proof. unfold PGSIZE. intros. Z.to_euclidean_division_equations. lia. Qed.

Lemma page_between va a v : va <= a < v -> va / PGSIZE <= a / PGSIZE <= (v - 1) / PGSIZE.
Proof. unfold PGSIZE. intros. Z.to_euclidean_division_equations. lia. Qed.

Lemma page_span x a k : a * PGSIZE <= x < a * PGSIZE + PGSIZE * (k + 1) -> a <= x / PGSIZE <= a + k.
Proof. unfold PGSIZE. intros. Z.to_euclidean_division_equations. lia. Qed.

Lemma mappages_loop_run k d a last pa perm s l :
  pa_rep s l -> pt_ok (memory s) d l -> a mod PGSIZE = 0 -> 0 <= a -> last = a + PGSIZE * Z.of_nat k ->
  last + PGSIZE <= 2 ^ 32 -> 0 <= pa -> pa + PGSIZE * Z.of_nat k < 2 ^ 32 -> 0 <= perm < 2 ^ 32 ->
  (forall i, 0 <= i <= Z.of_nat k -> has_flag (pte_of (memory s) d (a + PGSIZE * i)) PTE_P = false) ->
  wp (mappages_loop k d a last pa perm) (fun r s' => exists l', map_post s l d a pa perm k r s' l') s.
Proof.
  revert a pa s l. induction k as [|k IH]; intros a pa s l Hr Hok Ham Ha Hlast Hl32 Hpa Hpa32 Hperm Hno;
    simpl mappages_loop.
  all: assert (0 <= Z.lor (Z.lor pa perm) PTE_P < 2 ^ 32) as Hv
    by (apply lor_range; [apply lor_range; unfold PGSIZE in *; lia|unfold PTE_P; lia]).
  all: apply (wp_map_one d a _ _ _ s l); try done;
    [unfold PGSIZE in *; lia|specialize (Hno 0 ltac:(lia)); by rewrite Z.mul_0_r, Z.add_0_r in Hno| |
     intros s' Hw; exists []; by apply map_post_fail].
  - intros s' l' H1'. destruct (Z.eqb_spec a last); [|lia]. apply wp_ret. exists l'.
    by eapply map_post_one.
  - intros s1 l1 Hone. destruct (Z.eqb_spec a last); [unfold PGSIZE in *; lia|].
    pose proof Hone as (Hr1 & Hl1 & Hok1 & Hv1 & Hoth1 & Hsame1 & Htab1).
    rewrite !u32_small by (unfold PGSIZE in *; lia).
    eapply wp_mono; [|apply (IH (a + PGSIZE) (pa + PGSIZE) s1 l1); try done; try (unfold PGSIZE in *; lia)].
    + intros r s2 (l2 & Hpost). exists l2. eapply map_post_step; [done..| |done|done|done].
      unfold PGSIZE in *. lia.
    + unfold PGSIZE in *. Z.to_euclidean_division_equations; lia.
    + intros i Hi. rewrite Hoth1.
      * replace (a + PGSIZE + PGSIZE * i) with (a + PGSIZE * (i + 1)) by lia. apply Hno. lia.
      * unfold PGSIZE in *. lia.
      * unfold PGSIZE in *. Z.to_euclidean_division_equations; lia.
Qed.

(** *** uva2ka and copyout *)

(** The kernel's address of the user byte [va]; its page is mapped and open to user code. *)
Definition user_ok (m : mem) (d va : Z) : Prop :=
  has_flag (pte_of m d va) PTE_P = true /\ has_flag (pte_of m d va) PTE_U = true.
Definition user_addr (m : mem) (d va : Z) : Z := P2V (PTE_ADDR (pte_of m d va)) + va mod PGSIZE.

Lemma pte_addr_page m d va va' :
  0 <= va < 2 ^ 32 -> 0 <= va' < 2 ^ 32 -> va / PGSIZE = va' / PGSIZE ->
  pte_addr m d va = pte_addr m d va' /\ pte_of m d va = pte_of m d va'.
Proof.
  intros Hv Hv' E. apply same_page in E as [E1 E2]; [|done..].
  assert (pte_addr m d va = pte_addr m d va') as Ea by (unfold pte_addr; by rewrite E1, E2).
  unfold pte_of. by rewrite Ea.
Qed.

Lemma PGROUNDDOWN_page va : 0 <= va < 2 ^ 32 ->
  PGROUNDDOWN va = va / PGSIZE * PGSIZE /\ PGROUNDDOWN va / PGSIZE = va / PGSIZE /\
  va - PGROUNDDOWN va = va mod PGSIZE /\ 0 <= PGROUNDDOWN va <= va.
Proof.
  intros Hva. rewrite PGROUNDDOWN_eq, u32_small by done. unfold PGSIZE.
  Z.to_euclidean_division_equations. lia.
Qed.

Lemma uva2ka_run d va s l :
  pt_ok (memory s) d l ->
  match pte_addr (memory s) d va with
  | None => uva2ka d va s = Undef
  | Some _ => wp (uva2ka d va) (fun r s' => s' = s /\
      r = if has_flag (pte_of (memory s) d va) PTE_P && has_flag (pte_of (memory s) d va) PTE_U
          then P2V (PTE_ADDR (pte_of (memory s) d va)) else 0) s
  end.
Proof.
  intros Hok. pose proof (walkpgdir_read d va s l Hok) as Hw.
  destruct (pte_addr (memory s) d va) as [a|] eqn:Ha.
  - unfold uva2ka. apply wp_bind. eapply wp_mono; [|exact Hw]. intros r s' [-> ->]. simpl.
    destruct (pte_addr_in _ _ _ _ _ Hok Ha) as (t & (_ & Htlo & _) & _ & _ & Hlo & _).
    assert (ld32 (memory s) a = pte_of (memory s) d va) as E by (unfold pte_of; by rewrite Ha).
    apply wp_bind, wp_rd32; [lia|]. rewrite E. destruct (has_flag _ PTE_P); simpl; [|done].
    apply wp_bind, wp_rd32; [lia|]. rewrite E. destruct (has_flag _ PTE_U); simpl; [|done].
    apply wp_bind, wp_rd32; [lia|]. by rewrite E.
  - apply wp_done in Hw as (r & s' & Hrun & -> & ->). unfold uva2ka, bind. rewrite Hrun. done.
Qed.

(** User pages are pages of their own: of kernel memory, apart from the tables and the free
    pages, and different for different pages of the address space. *)
Definition user_pages_ok (m : mem) (d : Z) (l : list Z) : Prop :=
  forall va, 0 <= va < 2 ^ 32 -> user_ok m d va ->
    let p := P2V (PTE_ADDR (pte_of m d va)) in
    kpage p /\ (forall x, in_page p x -> ~ in_tables m d x /\ ~ in_pages l x) /\
    (forall va', 0 <= va' < 2 ^ 32 -> user_ok m d va' ->
       P2V (PTE_ADDR (pte_of m d va')) = p -> va' / PGSIZE = va / PGSIZE).

(** [src] is read-only for a copy of [len] bytes to user memory. *)
Definition src_ok (m : mem) (d src len : Z) : Prop :=
  forall va x, 0 <= va < 2 ^ 32 -> user_ok m d va -> src <= x < src + len ->
    ~ in_page (P2V (PTE_ADDR (pte_of m d va))) x.

Definition copyout_post (s : S) (l : list Z) (d va p len : Z) (r : Z) (s' : S) : Prop :=
  pa_rep s' l /\ pt_ok (memory s') d l /\
  (forall v, pte_of (memory s') d v = pte_of (memory s) d v) /\
  (forall x, (forall i, 0 <= i < len -> user_ok (memory s) d (va + i) -> x <> user_addr (memory s) d (va + i)) ->
     memory s' x = memory s x) /\
  (r = 0 /\ (forall i, 0 <= i < len -> user_ok (memory s) d (va + i) /\
     memory s' (user_addr (memory s) d (va + i)) = memory s (p + i))
   \/ r = -1 /\ exists i, 0 <= i < len /\ ~ user_ok (memory s) d (va + i)).

Lemma copyout_done s l d va p len :
  len <= 0 -> pa_rep s l -> pt_ok (memory s) d l -> copyout_post s l d va p len 0 s.
Proof.
  intros Hlen Hr Hok. unfold copyout_post. split_and!; auto. left. split; [done|]. intros i Hi. lia.
Qed.

Lemma user_ok_page m d va va' :
  0 <= va < 2 ^ 32 -> 0 <= va' < 2 ^ 32 -> va / PGSIZE = va' / PGSIZE -> user_ok m d va -> user_ok m d va'.
Proof. intros Hv Hv' E. unfold user_ok. by destruct (pte_addr_page m d va va' Hv Hv' E) as [_ ->]. Qed.

(** Bytes of one page lie side by side. *)
Lemma user_addr_page m d va i :
  0 <= va -> 0 <= i -> va + i < 2 ^ 32 -> va mod PGSIZE + i < PGSIZE ->
  (va + i) / PGSIZE = va / PGSIZE /\ user_addr m d (va + i) = user_addr m d va + i.
Proof.
  intros Hva Hi H32 Hpg. assert ((va + i) / PGSIZE = va / PGSIZE) as E.
  { unfold PGSIZE in *. Z.to_euclidean_division_equations. lia. }
  split; [done|]. unfold user_addr. destruct (pte_addr_page m d (va + i) va) as [_ ->]; [lia..|done|].
  unfold PGSIZE in *. Z.to_euclidean_division_equations. lia.
Qed.

(** Writing into the user page of [va] leaves the address space alone. *)
Lemma user_pages_ext m m' d l va :
  pt_ok m d l -> user_pages_ok m d l -> 0 <= va < 2 ^ 32 -> user_ok m d va ->
  (forall x, ~ in_page (P2V (PTE_ADDR (pte_of m d va))) x -> m' x = m x) ->
  pt_ok m' d l /\ user_pages_ok m' d l /\
  (forall v, pte_of m' d v = pte_of m d v) /\ (forall v, pte_addr m' d v = pte_addr m d v).
Proof.
  intros Hok Hup Hva Hu Hf. destruct (Hup va Hva Hu) as (Hk & Hout & _).
  destruct (pt_ext m m' d l Hok) as (Hok1 & Hpte & Hpa).
  { intros x Hx. apply Hf. intros Hxp. by destruct (Hout x Hxp). }
  split_and!; try done. intros v Hv [H1v H2v]. rewrite Hpte in H1v, H2v. simpl. rewrite Hpte.
  destruct (Hup v Hv (conj H1v H2v)) as (Hk' & Hout' & Hinj'). split; [done|]. split.
  - intros x Hx. destruct (Hout' x Hx) as [Hnt Hnf]. split; [|done]. intros Ht. apply Hnt.
    eapply in_tables_pde; [|exact Ht]. intros i Hi. apply pde_at_ext; [done|]. intros y Hy. apply Hf.
    intros Hyp. destruct (Hout y Hyp) as [Hny _]. apply Hny. by left.
  - intros v' Hv' [H1' H2']. rewrite Hpte in H1', H2' |- *. by apply Hinj'.
Qed.

Lemma user_write s l d va f :
  pa_rep s l -> pt_ok (memory s) d l -> user_pages_ok (memory s) d l ->
  0 <= va < 2 ^ 32 -> user_ok (memory s) d va -> mem_ok (f (memory s)) ->
  (forall x, ~ in_page (P2V (PTE_ADDR (pte_of (memory s) d va))) x -> f (memory s) x = memory s x) ->
  let s1 := put kmem_lens (f (memory s)) s in
  pa_rep s1 l /\ pt_ok (memory s1) d l /\ user_pages_ok (memory s1) d l /\
  (forall v, pte_of (memory s1) d v = pte_of (memory s) d v) /\
  (forall v, pte_addr (memory s1) d v = pte_addr (memory s) d v).
Proof.
  intros Hr Hok Hup Hva Hu Hmok Hf s1. unfold s1. rewrite memory_put.
  destruct (Hup va Hva Hu) as (Hk & Hout & _). split; [|by eapply user_pages_ext].
  apply pa_frame; [done..|]. intros x Hx. apply Hf. intros Hxp. by destruct (Hout x Hxp).
Qed.

Lemma user_addr_in_page m d va : in_page (P2V (PTE_ADDR (pte_of m d va))) (user_addr m d va).
Proof.
  unfold user_addr, in_page. pose proof (Z.mod_pos_bound va PGSIZE ltac:(unfold PGSIZE; lia)). lia.
Qed.

Lemma user_addr_inj m d l va va' :
  user_pages_ok m d l -> 0 <= va < 2 ^ 32 -> 0 <= va' < 2 ^ 32 -> user_ok m d va -> user_ok m d va' ->
  user_addr m d va = user_addr m d va' -> va' / PGSIZE = va / PGSIZE.
Proof.
  intros Hup Hv Hv' Hu Hu' E. destruct (Hup va Hv Hu) as ([Hm _] & _ & Hinj).
  destruct (Hup va' Hv' Hu') as ([Hm' _] & _). apply Hinj; [done..|].
  apply (in_page_inj _ _ (user_addr m d va)); [done..| |].
  - rewrite E. apply user_addr_in_page.
  - apply user_addr_in_page.
Qed.

Lemma user_addr_ne m d l va va' :
  user_pages_ok m d l -> 0 <= va < 2 ^ 32 -> 0 <= va' < 2 ^ 32 -> user_ok m d va -> user_ok m d va' ->
  va <> va' -> user_addr m d va <> user_addr m d va'.
Proof.
  intros Hup Hv Hv' Hu Hu' Hne E. pose proof (user_addr_inj _ _ _ _ _ Hup Hv Hv' Hu Hu' E) as Ep.
  destruct (pte_addr_page m d va' va) as [_ Epte]; [done..|]. unfold user_addr in E. rewrite Epte in E.
  unfold PGSIZE in *. Z.to_euclidean_division_equations. lia.
Qed.

Lemma user_pages_sub m d l l' : l' ⊆ l -> user_pages_ok m d l -> user_pages_ok m d l'.
Proof.
  intros Hl Hup va Hva Hu. destruct (Hup va Hva Hu) as (Hk & Hout & Hinj). split; [done|]. split; [|done].
  intros x Hx. destruct (Hout x Hx) as [? Hn]. split; [done|]. intros (q & Hq & Hqx). apply Hn. exists q. auto.
Qed.

(** The first chunk of a copy: [n] bytes within the page of [va]. *)
Definition chunk (s : S) (d va p n : Z) (s1 : S) : Prop :=
  (forall x, memory s1 x = if within (user_addr (memory s) d va) n x
     then memory s (p + (x - user_addr (memory s) d va)) else memory s x) /\
  (forall v, pte_of (memory s1) d v = pte_of (memory s) d v).

Lemma copyout_post_step s l d va p len n s1 va' r s' :
  user_pages_ok (memory s) d l -> src_ok (memory s) d p len -> 0 <= va -> va + len <= 2 ^ 32 ->
  0 < n <= len -> va mod PGSIZE + n <= PGSIZE -> (len = n \/ va' = va + n /\ va mod PGSIZE + n = PGSIZE) ->
  user_ok (memory s) d va -> chunk s d va p n s1 ->
  copyout_post s1 l d va' (p + n) (len - n) r s' -> copyout_post s l d va p len r s'.
Proof.
  intros Hup Hsrc Hva H32 Hn Hpg Hva' Hu [Hm Hpte] (Hr & Hok & Hpte' & Hframe & Hres).
  assert (forall v, user_ok (memory s1) d v <-> user_ok (memory s) d v) as Huo
    by (intros v; unfold user_ok; by rewrite Hpte).
  assert (forall v, user_addr (memory s1) d v = user_addr (memory s) d v) as Hua
    by (intros v; unfold user_addr; by rewrite Hpte).
  assert (forall i, 0 <= i < n -> user_ok (memory s) d (va + i) /\
    user_addr (memory s) d (va + i) = user_addr (memory s) d va + i) as Hin.
  { intros i Hi. destruct (user_addr_page (memory s) d va i) as [Ep Ea]; [lia..|]. split; [|done].
    eapply user_ok_page; [| |symmetry; exact Ep|done]; lia. }
  assert (forall i j, 0 <= i < n -> n <= j < len -> user_ok (memory s) d (va + j) ->
    user_addr (memory s) d (va + i) <> user_addr (memory s) d (va + j)) as Hdiff.
  { intros i j Hi Hj Huj E. destruct Hva' as [|[-> Hend]]; [lia|].
    apply (user_addr_inj _ _ l) in E; [|done|lia|lia|by apply Hin|done].
    unfold PGSIZE in *. Z.to_euclidean_division_equations. lia. }
  assert (forall i, n <= i < len -> va' + (i - n) = va + i) as Hrest by lia.
  unfold copyout_post. split_and!; [done|done| | |].
  - intros v. by rewrite Hpte'.
  - intros x Hx. rewrite Hframe.
    + rewrite Hm. case_within. exfalso. apply (Hx (x - user_addr (memory s) d va)); [lia| |].
      * apply Hin. lia.
      * destruct (Hin (x - user_addr (memory s) d va)) as [_ ->]; lia.
    + intros i Hi Hui. rewrite Hua. replace (va' + i) with (va + (n + i)) in Hui |- * by (specialize (Hrest (n + i)); lia).
      apply Hx; [lia|by apply Huo].
  - destruct Hres as [[-> Hcopy]|[-> (i & Hi & Hno)]]; [left|right]; (split; [done|]).
    + intros i Hi. destruct (Z.ltb_spec i n).
      * destruct (Hin i ltac:(lia)) as [Hui Hai]. split; [done|]. rewrite Hframe.
        -- rewrite Hm, Hai. case_within. f_equal. lia.
        -- intros j Hj Huj. rewrite Hua. replace (va' + j) with (va + (n + j)) in Huj |- * by (specialize (Hrest (n + j)); lia).
           apply Hdiff; [lia|lia|by apply Huo].
      * destruct (Hcopy (i - n) ltac:(lia)) as [Hui Hci]. rewrite Hua in Hci.
        rewrite Hrest in Hui, Hci by lia. split; [by apply Huo|]. rewrite Hci, Hm.
        replace (p + n + (i - n)) with (p + i) by lia. case_within. exfalso.
        apply (Hsrc va (p + i)); [lia|done|lia|]. pose proof (user_addr_in_page (memory s) d va).
        unfold user_addr, in_page in *. lia.
    + exists (n + i). split; [lia|]. rewrite <- Huo. specialize (Hrest (n + i) ltac:(lia)).
      by replace (va + (n + i)) with (va' + i) by lia.
Qed.

Lemma copyout_loop_run k d va p len s l :
  pa_rep s l -> pt_ok (memory s) d l -> user_pages_ok (memory s) d l -> src_ok (memory s) d p len ->
  0 <= len -> 0 <= va -> va + len <= 2 ^ 32 -> len + va mod PGSIZE <= Z.of_nat k * PGSIZE ->
  (forall i, 0 <= i < len -> is_Some (pte_addr (memory s) d (va + i))) ->
  wp (copyout_loop k d va p len) (copyout_post s l d va p len) s.
Proof.
  revert va p len s. induction k as [|k IH]; intros va p len s Hr Hok Hup Hsrc Hlen Hva H32 Hk Hmap;
    simpl copyout_loop; (destruct (Z.leb_spec len 0); [by apply wp_ret, copyout_done|]).
  { pose proof (Z.mod_pos_bound va PGSIZE ltac:(unfold PGSIZE; lia)). unfold PGSIZE in *. lia. }
  destruct (PGROUNDDOWN_page va ltac:(lia)) as (E0 & Epg & Eoff & Hrng).
  destruct (pte_addr_page (memory s) d (PGROUNDDOWN va) va) as [Ea Ee]; [lia..|done|].
  destruct (Hmap 0 ltac:(lia)) as [a Ha]. rewrite Z.add_0_r in Ha.
  apply wp_bind. pose proof (uva2ka_run d (PGROUNDDOWN va) s l Hok) as Hu. rewrite Ea, Ha in Hu.
  eapply wp_mono; [|exact Hu]. clear Hu. intros r s' [-> ->]. rewrite Ee.
  destruct (has_flag _ PTE_P && has_flag _ PTE_U) eqn:HPU.
  2:{ simpl. apply wp_ret. unfold copyout_post. split_and!; auto. right. split; [done|]. exists 0.
      rewrite Z.add_0_r. split; [lia|]. unfold user_ok. intros [E1 E2]. by rewrite E1, E2 in HPU. }
  assert (user_ok (memory s) d va) as Huok by (by apply andb_true_iff in HPU).
  destruct (Hup va ltac:(lia) Huok) as ((Hpm & Hplo & Hphi) & Hout & _).
  set (pg := P2V (PTE_ADDR (pte_of (memory s) d va))) in *.
  destruct (Z.eqb_spec pg 0) as [|_]; [unfold KERNBASE in Hplo; lia|]. rewrite Eoff.
  assert (0 <= va mod PGSIZE < PGSIZE) as Hoff by (apply Z.mod_pos_bound; unfold PGSIZE; lia).
  rewrite (u32_small (PGSIZE - va mod PGSIZE)) by (unfold PGSIZE in *; lia).
  set (n := if len <? PGSIZE - va mod PGSIZE then len else PGSIZE - va mod PGSIZE).
  assert (0 < n <= len /\ va mod PGSIZE + n <= PGSIZE /\ (len = n \/ va mod PGSIZE + n = PGSIZE)) as (Hn & Hn2 & Hn3).
  { unfold n. destruct (Z.ltb_spec len (PGSIZE - va mod PGSIZE)); lia. }
  change (pg + va mod PGSIZE) with (user_addr (memory s) d va).
  pose proof (user_addr_in_page (memory s) d va) as Hup'. fold pg in Hup'.
  apply wp_bind, wp_pokes; [unfold in_page in Hup'; lia|].
  set (f := memmove (user_addr (memory s) d va) p (Z.to_nat n)).
  assert (forall x, f (memory s) x = if within (user_addr (memory s) d va) n x
    then memory s (p + (x - user_addr (memory s) d va)) else memory s x) as Hmv.
  { intros x. unfold f. rewrite memmove_at by (by eapply pa_bytes). by rewrite Z2Nat.id by lia. }
  destruct (user_write s l d va f) as (Hr1 & Hok1 & Hup1 & Hpte1 & Hpa1); try done; [lia| | |].
  { apply memmove_ok. by eapply pa_bytes. }
  { intros x Hx. rewrite Hmv. fold pg in Hx. unfold in_page, user_addr in *. fold pg. case_within. }
  assert (chunk s d va p n (put kmem_lens (f (memory s)) s)) as Hch.
  { split; [|exact Hpte1]. intros x. by rewrite memory_put. }
  set (s1 := put kmem_lens (f (memory s)) s) in *. rewrite (u32_small (len - n)) by lia.
  set (va' := u32 (PGROUNDDOWN va + PGSIZE)).
  assert (0 <= va' < 2 ^ 32 /\ va' mod PGSIZE = 0) as [Hva' Hvam].
  { split; [apply u32_range|]. unfold va', u32. rewrite E0. unfold PGSIZE.
    Z.to_euclidean_division_equations. lia. }
  assert (len = n \/ va' = va + n /\ va mod PGSIZE + n = PGSIZE) as Hn4.
  { destruct (Z.eq_dec len n); [by left|right]. destruct Hn3; [done|]. unfold va'.
    rewrite u32_small; lia. }
  eapply wp_mono; [intros r s' Hpost; eapply copyout_post_step; [..|exact Hpost]; done || lia|].
  apply IH; try done; try lia.
  - intros v x Hv Hu Hx. rewrite Hpte1. apply Hsrc; [done| |lia]. unfold user_ok in *. by rewrite Hpte1 in Hu.
  - unfold PGSIZE in *. lia.
  - intros i Hi. rewrite Hpa1. destruct Hn4 as [|[-> _]]; [lia|].
    rewrite <- Z.add_assoc. apply Hmap. lia.
Qed.
End runs.

(** ** What virtual memory leaves alone

    A property of the state that does not depend on kernel memory, and that the allocator and the
    console keep, is kept by all of vm.c. *)
Class MemFrame {S : Type} `{PageOps S} `{ConsoleOps S} (I : S -> Prop) : Prop := {
  frame_put : forall m s, I s -> I (put kmem_lens m s);
  frame_kalloc : preserves I kalloc;
  frame_kfree : forall v, preserves I (kfree v);
  frame_cprintf : forall fmt args, preserves I (cprintf fmt args)
}.

Section frame.
Context {S : Type} `{PageOps S} `{ConsoleOps S} (I : S -> Prop) `{!MemFrame I}.

Lemma frame_rd32 a : preserves I (rd32 a).
Proof. unfold rd32. preserve. Qed.

Lemma frame_pokes a f : preserves I (pokes a f).
Proof.
  unfold pokes. apply preserves_if; [apply preserves_undef|]. apply preserves_modify.
  intros s. apply frame_put.
Qed.

Lemma frame_wr32 a v : preserves I (wr32 a v).
Proof. apply frame_pokes. Qed.

#[local] Hint Resolve frame_rd32 frame_pokes frame_wr32 frame_kalloc frame_kfree frame_cprintf : kern.

Lemma frame_walkpgdir d va b : preserves I (walkpgdir d va b).
Proof. unfold walkpgdir. preserve. Qed.
#[local] Hint Resolve frame_walkpgdir : kern.

Lemma frame_mappages d va size pa perm : preserves I (mappages d va size pa perm).
Proof.
  unfold mappages. generalize (PGROUNDDOWN (u32 va + size - 1)) (PGROUNDDOWN va) pa.
  intros last a. generalize (Z.to_nat (u32 (last - a) / PGSIZE)) as k. intros k. revert a.
  induction k; intros a pa'; simpl mappages_loop; preserve.
Qed.
#[local] Hint Resolve frame_mappages : kern.

Lemma frame_deallocuvm d o n : preserves I (deallocuvm d o n).
Proof.
  unfold deallocuvm. apply preserves_if; [apply preserves_ret|].
  apply preserves_bind; [|intros; apply preserves_ret].
  generalize (Z.to_nat (o / PGSIZE + 1)) (PGROUNDUP n). intros k.
  induction k; intros a; simpl deallocuvm_loop; preserve; auto.
Qed.
#[local] Hint Resolve frame_deallocuvm : kern.

Lemma frame_freevm d : preserves I (freevm d).
Proof. unfold freevm. generalize (seqZ 0 NPDENTRIES). intros l. preserve. Qed.
#[local] Hint Resolve frame_freevm : kern.

Lemma frame_setupkvm data : preserves I (setupkvm data).
Proof.
  unfold setupkvm. assert (forall ks d, preserves I (map_kernel d ks)) as Hk.
  { induction ks; intros d; simpl map_kernel; preserve; auto. }
  preserve.
Qed.
#[local] Hint Resolve frame_setupkvm : kern.

Lemma frame_inituvm d i sz : preserves I (inituvm d i sz).
Proof. unfold inituvm. preserve. Qed.

Lemma frame_allocuvm d o n : preserves I (allocuvm d o n).
Proof.
  unfold allocuvm. do 2 (apply preserves_if; [apply preserves_ret|]).
  generalize (Z.to_nat (n / PGSIZE + 1)) (PGROUNDUP o). intros k.
  induction k; intros a; simpl allocuvm_loop; preserve; auto.
Qed.

Lemma frame_copyuvm data d sz : preserves I (copyuvm data d sz).
Proof.
  unfold copyuvm. assert (forall k d' i, preserves I (copyuvm_loop k d d' sz i)) as Hk.
  { induction k; intros d' i; simpl copyuvm_loop; preserve; auto. }
  preserve.
Qed.
End frame.
#[export] Hint Extern 1 (MemFrame _) => typeclasses eauto : kern.
#[export] Hint Resolve frame_rd32 frame_pokes frame_wr32 frame_kalloc frame_kfree frame_cprintf
  frame_freevm frame_setupkvm frame_inituvm frame_allocuvm frame_deallocuvm frame_copyuvm : kern.

(** ** Theorems *)

(** C31. vm.c, mappages(): on a well-formed page table with none of the range mapped, either
    every address of [va .. va + size) is mapped to the physical page at its offset from [pa],
    with the permissions and the present bit, and the call returns 0; or the page allocator ran
    dry and it returns -1.  Either way the table stays well formed, all other addresses keep
    their mapping, no memory but the page tables and free pages changes, and there is no panic. *)
Theorem mappages_maps {S} `{PageAllocator S} d va size pa perm s l :
  pa_rep s l -> pt_ok (memory s) d l -> 0 <= va -> 0 < size -> va + size <= 2 ^ 32 ->
  0 <= pa -> pa + size + PGSIZE <= 2 ^ 32 -> 0 <= perm < 2 ^ 32 ->
  (forall a, PGROUNDDOWN va <= a < va + size -> has_flag (pte_of (memory s) d a) PTE_P = false) ->
  wp (mappages d va size pa perm) (fun r s' => exists l',
    pa_rep s' l' /\ l' ⊆ l /\ pt_ok (memory s') d l' /\
    (forall a, 0 <= a < 2 ^ 32 -> ~ (va / PGSIZE <= a / PGSIZE <= (va + size - 1) / PGSIZE) ->
       pte_of (memory s') d a = pte_of (memory s) d a) /\
    (forall x, ~ in_pages l x -> ~ in_tables (memory s) d x -> memory s' x = memory s x) /\
    (r = 0 /\ (forall a, va <= a < va + size -> pte_of (memory s') d a =
        Z.lor (Z.lor (pa + (PGROUNDDOWN a - PGROUNDDOWN va)) perm) PTE_P)
     \/ r = -1 /\ l' = [])) s.
Proof.
  intros Hr Hok Hva Hsz H32 Hpa Hpa32 Hperm Hno. unfold mappages. rewrite (u32_small va) by lia.
  destruct (PGROUNDDOWN_page va ltac:(lia)) as (E0 & _ & Hm0 & Hrng0).
  destruct (PGROUNDDOWN_page (va + size - 1) ltac:(lia)) as (E1 & _ & Hm1 & Hrng1).
  pose proof (page_number va size Hva Hsz) as Hq.
  set (a := PGROUNDDOWN va) in *. set (last := PGROUNDDOWN (va + size - 1)) in *.
  set (q := (va + size - 1) / PGSIZE - va / PGSIZE) in *.
  assert (last = a + PGSIZE * Z.of_nat (Z.to_nat q)) as Elast
    by (rewrite Z2Nat.id by done; unfold q; rewrite E0, E1; lia).
  assert (a mod PGSIZE = 0) as Ham by (rewrite E0; apply Z_mod_mult).
  assert (last mod PGSIZE = 0) as Hlm by (rewrite E1; apply Z_mod_mult).
  assert (u32 (last - a) / PGSIZE = q) as Eq.
  { rewrite u32_small by (unfold PGSIZE in *; lia). rewrite E0, E1, <- Z.mul_sub_distr_r.
    apply Z.div_mul. unfold PGSIZE. lia. }
  pose proof (Z.mod_pos_bound va PGSIZE ltac:(unfold PGSIZE; lia)) as Hb0.
  pose proof (Z.mod_pos_bound (va + size - 1) PGSIZE ltac:(unfold PGSIZE; lia)) as Hb1.
  assert (last + PGSIZE <= 2 ^ 32) as Hl32 by (apply aligned_end; [done|reflexivity|lia]).
  assert (pa + PGSIZE * Z.of_nat (Z.to_nat q) < 2 ^ 32) as Hpa' by (unfold PGSIZE in *; lia).
  assert (forall i, 0 <= i <= Z.of_nat (Z.to_nat q) ->
    has_flag (pte_of (memory s) d (a + PGSIZE * i)) PTE_P = false) as Hno'.
  { intros i Hi. apply Hno. unfold PGSIZE in *. lia. }
  rewrite Eq. eapply wp_mono; [|exact (mappages_loop_run (Z.to_nat q) d a last pa perm s l
    Hr Hok Ham ltac:(lia) Elast Hl32 Hpa Hpa' Hperm Hno')].
  intros r s' (l' & Hr' & Hl' & Hok' & Hoth & Hsame & Hres). exists l'. split_and!; try done.
  - intros x Hx Hnx. apply Hoth; [done|]. intros Hin. apply Hnx. rewrite Z2Nat.id in Hin by done.
    rewrite E0 in Hin. apply page_span in Hin. unfold q in Hin. lia.
  - destruct Hres as [[-> Hres]|?]; [left|by right]. split; [done|]. intros x Hx.
    destruct (PGROUNDDOWN_page x ltac:(lia)) as (Ex & Epx & _ & Hrx).
    destruct (pte_addr_page (memory s') d x (PGROUNDDOWN x)) as [_ ->]; [lia|lia|done|].
    specialize (Hres ((PGROUNDDOWN x - a) / PGSIZE)).
    assert (PGSIZE * ((PGROUNDDOWN x - a) / PGSIZE) = PGROUNDDOWN x - a) as Em.
    { rewrite Ex, E0, <- Z.mul_sub_distr_r, Z.div_mul by (unfold PGSIZE; lia). lia. }
    rewrite Em in Hres. replace (a + (PGROUNDDOWN x - a)) with (PGROUNDDOWN x) in Hres by lia.
    apply Hres. rewrite Z2Nat.id by done. unfold q.
    rewrite Ex, E0, <- Z.mul_sub_distr_r, Z.div_mul by (unfold PGSIZE; lia).
    pose proof (page_between va x (va + size)). lia.
Qed.

(** *** A small memory for the witnesses: a directory at 0x80200000 whose entry 0 leads to the
    table at 0x80201000, whose entry 0 maps the user page 0x80202000; one free page. *)
Definition dir_w : Z := 0x80200000.
Definition mem_w : mem :=
  st32 dir_w 0x201007 (st32 0x80201000 0x202007 (st32 0x80204000 PGSIZE (fun _ => 0))).
Definition kst_v : kst := MkKst mach_w1 0 0x80204000 mem_w.

Lemma mem_w_ok : mem_ok mem_w.
Proof. repeat apply st32_ok. intros x. lia. Qed.

Lemma mem_w_zero a :
  ~ (dir_w - 4 < a < dir_w + 4) -> ~ (0x80201000 - 4 < a < 0x80201000 + 4) ->
  ~ (0x80204000 - 4 < a < 0x80204000 + 4) -> ld32 mem_w a = 0.
Proof.
  intros H1 H2 H3. unfold mem_w, dir_w in *. rewrite !ld32_st32_ne by lia. done.
Qed.

Lemma present_w i : present mem_w dir_w i -> i = 0.
Proof.
  intros [Hi Hp]. destruct (Z.eq_dec i 0) as [|Hne]; [done|]. unfold pde_at in Hp.
  rewrite mem_w_zero in Hp by (unfold dir_w; lia). done.
Qed.

Lemma pt_ok_w : pt_ok mem_w dir_w [0x80204000].
Proof.
  assert (table_at mem_w dir_w 0 = 0x80201000) as E by (vm_compute; reflexivity).
  split_and!.
  - vm_compute. split_and!; congruence.
  - intros [H|H%elem_of_nil]%elem_of_cons; done.
  - intros i ->%present_w. rewrite E. split; [|split; [|done]].
    + vm_compute. split_and!; congruence.
    + intros [H|H%elem_of_nil]%elem_of_cons; done.
  - intros i j ->%present_w ->%present_w. done.
Qed.

Lemma rep_w : bestfit_rep 0x80200000 0 None 0 [] [] kst_v [0x80204000].
Proof.
  split; [|split].
  - split; [lia|]. split; [set_solver|]. split; [set_solver|]. intros Hz. by destruct Hz.
  - split; [apply NoDup_singleton|]. split; [apply Forall_singleton; vm_compute; split_and!; congruence|].
    split; [apply mem_w_ok|]. split; vm_compute; reflexivity.
  - apply Forall_singleton. vm_compute. reflexivity.
Qed.

Lemma pte_w va : 0 <= va < 2 ^ 32 -> pte_of mem_w dir_w va = if decide (va / PGSIZE = 0) then 0x202007 else 0.
Proof.
  intros Hva. pose proof (PDX_range va). pose proof (PTX_range va).
  assert (pde_at mem_w dir_w 0 = 0x201007) as E by (vm_compute; reflexivity).
  assert (table_at mem_w dir_w 0 = 0x80201000) as Et by (vm_compute; reflexivity).
  assert (PDX 0 = 0 /\ PTX 0 = 0) as [E1 E2] by (vm_compute; done).
  destruct (same_page va 0 Hva ltac:(lia)) as [Hs1 Hs2]. rewrite E1, E2 in Hs1, Hs2.
  change (0 / PGSIZE) with 0 in *. unfold pte_of, pte_addr.
  destruct (Z.eq_dec (PDX va) 0) as [Hp|Hne].
  - rewrite Hp, E, Et. change (has_flag 0x201007 PTE_P) with true. cbv iota. case_decide as Hd.
    + rewrite (proj2 (Hs2 Hd)). vm_compute. reflexivity.
    + apply mem_w_zero; unfold dir_w; lia.
  - unfold pde_at. rewrite mem_w_zero by (unfold dir_w; lia). simpl.
    rewrite decide_False; [done|]. intros Hd. by destruct (Hs2 Hd).
Qed.

Lemma user_ok_w va : 0 <= va < 2 ^ 32 -> user_ok mem_w dir_w va -> va / PGSIZE = 0 /\ pte_of mem_w dir_w va = 0x202007.
Proof. intros Hva [Hp _]. rewrite pte_w in Hp |- * by done. by case_decide. Qed.

#[local] Instance ops_w : PageOps kst := bestfit_ops 0x80200000.

(** The user page of the example is a page of its own. *)
Lemma user_pages_w : user_pages_ok mem_w dir_w [0x80204000].
Proof.
  intros va Hva Hu. destruct (user_ok_w va Hva Hu) as [Hv0 Ep].
  rewrite Ep. change (P2V (PTE_ADDR 0x202007)) with 0x80202000. split; [vm_compute; split_and!; congruence|]. split.
  - intros x Hx. unfold in_page, PGSIZE in Hx. split.
    + intros [Hd|(i & ->%present_w & Ht)]; [unfold in_page, PGSIZE, dir_w in Hd; lia|].
      change (table_at mem_w dir_w 0) with 0x80201000 in Ht. unfold in_page, PGSIZE in Ht. lia.
    + intros (q & Hq & Hqx). apply list_elem_of_singleton in Hq as ->. unfold in_page, PGSIZE in Hqx. lia.
  - intros va' Hva' Hu' _. destruct (user_ok_w va' Hva' Hu') as [-> _]. done.
Qed.

Lemma mappages_maps_witness :
  wp (mappages dir_w 0x1000 100 0x300000 6) (fun r s' =>
    r = 0 /\ pte_of (kbytes s') dir_w 0x1000 = 0x300007 \/ r = -1) kst_v.
Proof.
  refine (wp_mono _ _ _ _ _ (mappages_maps (H := bestfit_ops 0x80200000)
    (H0 := bestfit_allocator 0x80200000 0 None 0 [] []) dir_w 0x1000 100 0x300000 6 kst_v [0x80204000]
    rep_w pt_ok_w ltac:(lia) ltac:(lia) ltac:(lia) ltac:(lia) ltac:(unfold PGSIZE; lia) ltac:(lia) _)).
  - intros r s' (l' & _ & _ & _ & _ & _ & [[-> Hm]|[-> _]]); [left|by right]. split; [done|].
    exact (Hm 0x1000 ltac:(lia)).
  - intros a Ha. change (PGROUNDDOWN 0x1000) with 0x1000 in Ha.
    change (has_flag (pte_of mem_w dir_w a) PTE_P = false). rewrite pte_w by lia. case_decide as Hd; [|done].
    unfold PGSIZE in Hd. Z.to_euclidean_division_equations. lia.
Defined.

(** C32. vm.c, copyout() and uva2ka(): a copy to user addresses whose page tables exist returns,
    and writes nothing but the user-accessible bytes it was asked for: 0 means that the whole
    range is present and user-accessible and now holds the source bytes, across page boundaries;
    -1 means that some page of it is not.  The page table itself is untouched. *)
Theorem copyout_copies {S} `{PageAllocator S} d va p len s l :
  pa_rep s l -> pt_ok (memory s) d l -> user_pages_ok (memory s) d l -> src_ok (memory s) d p len ->
  0 <= len -> 0 <= va -> va + len <= 2 ^ 32 ->
  (forall i, 0 <= i < len -> is_Some (pte_addr (memory s) d (va + i))) ->
  wp (copyout d va p len) (fun r s' =>
    (forall v, pte_of (memory s') d v = pte_of (memory s) d v) /\
    (forall x, (forall i, 0 <= i < len -> user_ok (memory s) d (va + i) ->
       x <> user_addr (memory s) d (va + i)) -> memory s' x = memory s x) /\
    (r = 0 /\ (forall i, 0 <= i < len -> user_ok (memory s) d (va + i) /\
       memory s' (user_addr (memory s) d (va + i)) = memory s (p + i))
     \/ r = -1 /\ exists i, 0 <= i < len /\ ~ user_ok (memory s) d (va + i))) s.
Proof.
  intros Hr Hok Hup Hsrc Hlen Hva H32 Hmap. unfold copyout.
  eapply wp_mono; [|apply (copyout_loop_run _ d va p len s l); try done].
  - intros r s' (_ & _ & Hpte & Hframe & Hres). done.
  - pose proof (Z.mod_pos_bound va PGSIZE ltac:(unfold PGSIZE; lia)).
    pose proof (Z.mod_pos_bound len PGSIZE ltac:(unfold PGSIZE; lia)).
    pose proof (Z.div_mod len PGSIZE ltac:(unfold PGSIZE; lia)).
    assert (0 <= len / PGSIZE) by (apply Z.div_pos; [lia|unfold PGSIZE; lia]).
    rewrite Z2Nat.id by lia. lia.
Qed.

Lemma copyout_copies_witness :
  wp (copyout dir_w 0x10 0x80300000 16) (fun r s' =>
    r = 0 /\ (forall i, 0 <= i < 16 -> kbytes s' (0x80202010 + i) = kbytes kst_v (0x80300000 + i))
    \/ r = -1) kst_v.
Proof.
  assert (P2V (PTE_ADDR 0x202007) = 0x80202000) as Epg by (vm_compute; reflexivity).
  refine (wp_mono _ _ _ _ _ (copyout_copies (H := bestfit_ops 0x80200000)
    (H0 := bestfit_allocator 0x80200000 0 None 0 [] []) dir_w 0x10 0x80300000 16 kst_v [0x80204000]
    rep_w pt_ok_w user_pages_w _ ltac:(lia) ltac:(lia) ltac:(lia) _)).
  - intros r s' (_ & _ & [[-> Hc]|[-> _]]); [left|by right]. split; [done|]. intros i Hi.
    destruct (Hc i Hi) as [Hu E]. change (memory kst_v) with mem_w in *.
    destruct (user_ok_w (0x10 + i) ltac:(lia) Hu) as [_ Ep]. unfold user_addr in E. rewrite Ep, Epg in E.
    rewrite Z.mod_small in E by (unfold PGSIZE; lia). change (kbytes s' (0x80202010 + i) = mem_w (0x80300000 + i)). rewrite <- E.
    change (memory s') with (kbytes s'). f_equal. lia.
  - intros va x Hva Hu Hx. change (memory kst_v) with mem_w in *.
    destruct (user_ok_w va Hva Hu) as [_ Ep]. rewrite Ep, Epg. unfold in_page, PGSIZE. lia.
  - intros i Hi. change (memory kst_v) with mem_w. destruct (pte_addr_page mem_w dir_w (0x10 + i) 0) as [-> _].
    + lia.
    + lia.
    + unfold PGSIZE. Z.to_euclidean_division_equations. lia.
    + vm_compute. by eexists.
Defined.
