(* ===== verification/Sched.v ===== *)
(** * The process table and the MLFQ scheduler (proc.h, proc.c, the context part of vm.c)

    [pst] is the state proc.c keeps: the machine, [ptable], [nextpid], [initproc] and the kernel
    page directory.  Process pointers are indices into [ptable].  [swtch] is the [Switch] outcome:
    the process side hands the CPU over in [sched], the scheduler side in [dispatch]; each is
    resumed with whatever state the other side left.  The file models the scheduler, [sched],
    [yield], [sleep], [wakeup], [kill] and [switchuvm]/[switchkvm]; process creation and
    destruction are in Process.v, the timer tick in Trap.v. *)
From stdpp Require Import relations.
From S2P Require Import Prelude Mmu Spinlock.

Definition NPROC : nat := 64.
Definition KSTACKSIZE : Z := 4096.
Definition NOFILE : nat := 16.

Inductive procstate := UNUSED | EMBRYO | SLEEPING | RUNNABLE | RUNNING | ZOMBIE.

#[export] Instance procstate_eq_dec : EqDecision procstate.
Proof. solve_decision. Defined.

(** Registers saved by the hardware and trapasm.S (x86.h). *)
Record trapframe := MkTf {
  tf_edi : Z; tf_esi : Z; tf_ebp : Z; tf_oesp : Z; tf_ebx : Z; tf_edx : Z; tf_ecx : Z; tf_eax : Z;
  tf_gs : Z; tf_fs : Z; tf_es : Z; tf_ds : Z; tf_trapno : Z;
  tf_err : Z; tf_eip : Z; tf_cs : Z; tf_eflags : Z; tf_esp : Z; tf_ss : Z
}.
Definition tf0 : trapframe := MkTf 0 0 0 0 0 0 0 0 0 0 0 0 0 0 0 0 0 0 0.

(** Saved registers for kernel context switches. *)
Record context_t := MkCtx { cx_edi : Z; cx_esi : Z; cx_ebx : Z; cx_ebp : Z; cx_eip : Z }.

(** Per-process state.  Null pointers are [None] (or 0 for addresses); [ofile] holds indices into
    the file table, [cwd] an index into the inode cache, [name] the 16 bytes of the name. *)
Record proc := MkProc {
  sz : Z;
  pgdir : Z;
  kstack : Z;
  state : procstate;
  pid : Z;
  parent : option nat;
  tf : trapframe;
  context : context_t;
  chan : option lockid;
  killed : Z;
  ofile : list (option nat);
  cwd : option nat;
  name : list Z;
  priority : Z;
  ticks_used : Z
}.

Definition set_sz (x : Z) (p : proc) : proc :=
  MkProc x (pgdir p) (kstack p) (state p) (pid p) (parent p) (tf p) (context p) (chan p) (killed
    p) (ofile p) (cwd p) (name p) (priority p) (ticks_used p).
Definition set_pgdir (x : Z) (p : proc) : proc :=
  MkProc (sz p) x (kstack p) (state p) (pid p) (parent p) (tf p) (context p) (chan p) (killed p)
    (ofile p) (cwd p) (name p) (priority p) (ticks_used p).
Definition set_kstack (x : Z) (p : proc) : proc :=
  MkProc (sz p) (pgdir p) x (state p) (pid p) (parent p) (tf p) (context p) (chan p) (killed p)
    (ofile p) (cwd p) (name p) (priority p) (ticks_used p).
Definition set_state (x : procstate) (p : proc) : proc :=
  MkProc (sz p) (pgdir p) (kstack p) x (pid p) (parent p) (tf p) (context p) (chan p) (killed p)
    (ofile p) (cwd p) (name p) (priority p) (ticks_used p).
Definition set_pid (x : Z) (p : proc) : proc :=
  MkProc (sz p) (pgdir p) (kstack p) (state p) x (parent p) (tf p) (context p) (chan p) (killed p)
    (ofile p) (cwd p) (name p) (priority p) (ticks_used p).
Definition set_parent (x : option nat) (p : proc) : proc :=
  MkProc (sz p) (pgdir p) (kstack p) (state p) (pid p) x (tf p) (context p) (chan p) (killed p)
    (ofile p) (cwd p) (name p) (priority p) (ticks_used p).
Definition set_tf (x : trapframe) (p : proc) : proc :=
  MkProc (sz p) (pgdir p) (kstack p) (state p) (pid p) (parent p) x (context p) (chan p) (killed
    p) (ofile p) (cwd p) (name p) (priority p) (ticks_used p).
Definition set_context (x : context_t) (p : proc) : proc :=
  MkProc (sz p) (pgdir p) (kstack p) (state p) (pid p) (parent p) (tf p) x (chan p) (killed p)
    (ofile p) (cwd p) (name p) (priority p) (ticks_used p).
Definition set_chan (x : option lockid) (p : proc) : proc :=
  MkProc (sz p) (pgdir p) (kstack p) (state p) (pid p) (parent p) (tf p) (context p) x (killed p)
    (ofile p) (cwd p) (name p) (priority p) (ticks_used p).
Definition set_killed (x : Z) (p : proc) : proc :=
  MkProc (sz p) (pgdir p) (kstack p) (state p) (pid p) (parent p) (tf p) (context p) (chan p) x
    (ofile p) (cwd p) (name p) (priority p) (ticks_used p).
Definition set_ofile (x : list (option nat)) (p : proc) : proc :=
  MkProc (sz p) (pgdir p) (kstack p) (state p) (pid p) (parent p) (tf p) (context p) (chan p)
    (killed p) x (cwd p) (name p) (priority p) (ticks_used p).
Definition set_cwd (x : option nat) (p : proc) : proc :=
  MkProc (sz p) (pgdir p) (kstack p) (state p) (pid p) (parent p) (tf p) (context p) (chan p)
    (killed p) (ofile p) x (name p) (priority p) (ticks_used p).
Definition set_name (x : list Z) (p : proc) : proc :=
  MkProc (sz p) (pgdir p) (kstack p) (state p) (pid p) (parent p) (tf p) (context p) (chan p)
    (killed p) (ofile p) (cwd p) x (priority p) (ticks_used p).
Definition set_priority (x : Z) (p : proc) : proc :=
  MkProc (sz p) (pgdir p) (kstack p) (state p) (pid p) (parent p) (tf p) (context p) (chan p)
    (killed p) (ofile p) (cwd p) (name p) x (ticks_used p).
Definition set_ticks_used (x : Z) (p : proc) : proc :=
  MkProc (sz p) (pgdir p) (kstack p) (state p) (pid p) (parent p) (tf p) (context p) (chan p)
    (killed p) (ofile p) (cwd p) (name p) (priority p) x.

Definition proc0 : proc :=
  MkProc 0 0 0 UNUSED 0 None tf0 (MkCtx 0 0 0 0 0) None 0 (replicate NOFILE None) None
    (replicate 16 0) 0 0.

Record pst := MkPst {
  pm : mach;
  ptable : list proc;
  nextpid : Z;
  initproc : option nat;
  kpgdir : Z;
  first : bool              (* the static of forkret() *)
}.

Definition set_ptable (t : list proc) (s : pst) : pst :=
  MkPst (pm s) t (nextpid s) (initproc s) (kpgdir s) (first s).
Definition set_pm (m : mach) (s : pst) : pst :=
  MkPst m (ptable s) (nextpid s) (initproc s) (kpgdir s) (first s).
Definition set_nextpid (n : Z) (s : pst) : pst :=
  MkPst (pm s) (ptable s) n (initproc s) (kpgdir s) (first s).
Definition set_initproc (p : option nat) (s : pst) : pst :=
  MkPst (pm s) (ptable s) (nextpid s) p (kpgdir s) (first s).
Definition set_kpgdir (d : Z) (s : pst) : pst :=
  MkPst (pm s) (ptable s) (nextpid s) (initproc s) d (first s).
Definition set_first (b : bool) (s : pst) : pst :=
  MkPst (pm s) (ptable s) (nextpid s) (initproc s) (kpgdir s) b.
Definition pm_lens : lens pst mach := Lens pm set_pm.

#[export] Instance pm_lens_laws : LensLaws pm_lens.
Proof. by split; intros; simpl; try destruct s. Qed.
#[export] Instance pst_mach : HasMach pst := { mach_lens := pm_lens }.

Definition ptable_lock : lockid := ("ptable", 0).

Definition pinit : M pst unit := kinitlock ptable_lock "ptable".

(** [p->f] and [p->f = x]. *)
Definition proc_at (i : nat) : M pst proc := getopt (fun s => ptable s !! i).
Definition proc_upd (i : nat) (f : proc -> proc) : M pst unit :=
  let* _ := proc_at i in modify (fun s => set_ptable (alter f i (ptable s)) s).

Definition myproc : M pst (option nat) :=
  zoom pm_lens pushcli;;;
  let* c := zoom pm_lens mycpu_read in
  zoom pm_lens popcli;;;
  ret (cproc c).

(** [myproc()] where the result is dereferenced. *)
Definition curproc : M pst nat :=
  let* p := myproc in match p with Some i => ret i | None => undef end.

(** ** Address spaces (vm.c) *)
Definition lcr3 (v : Z) : M mach unit := modify (fun m => set_regs v (tr m) m).
Definition ltr (sel : Z) : M mach unit := modify (fun m => set_regs (cr3 m) sel m).

Definition switchkvm : M pst unit :=
  let* d := gets kpgdir in zoom pm_lens (lcr3 (V2P d)).

Definition switchuvm (p : option nat) : M pst unit :=
  match p with
  | None => panic "switchuvm: no process"
  | Some i =>
      let* q := proc_at i in
      if kstack q =? 0 then panic "switchuvm: no kstack"
      else if pgdir q =? 0 then panic "switchuvm: no pgdir"
      else zoom pm_lens (
        pushcli;;;
        let* c := mycpu_read in
        mycpu_write (fun c' => set_gdt (<[Z.to_nat SEG_TSS :=
          SEG16 STS_T32A (ts_addr c) (sizeof_taskstate - 1) 0]> (gdt c')) c');;;
        mycpu_write (fun c' => set_gdt (alter (set_sd_s 0) (Z.to_nat SEG_TSS) (gdt c')) c');;;
        mycpu_write (fun c' => set_ts (MkTs (esp0 (ts c')) (SEG_KDATA * 8) (iomb (ts c'))) c');;;
        mycpu_write (fun c' =>
          set_ts (MkTs (u32 (kstack q + KSTACKSIZE)) (ss0 (ts c')) (iomb (ts c'))) c');;;
        mycpu_write (fun c' => set_ts (MkTs (esp0 (ts c')) (ss0 (ts c')) 0xFFFF) c');;;
        ltr (SEG_TSS * 8);;;
        lcr3 (V2P (pgdir q));;;
        popcli)
  end.

(** ** The scheduler *)

(** The first process of the table that is RUNNABLE in queue [q]. *)
Definition runnable_in (q : Z) (p : proc) : bool :=
  bool_decide (state p = RUNNABLE) && (priority p =? q).
Definition pick (q : Z) (t : list proc) : option nat := find_index (runnable_in q) t.

(** [c->proc = p] for the scheduler's own CPU [c]. *)
Definition cpu_set_proc (c : nat) (p : option nat) : M pst unit :=
  zoom pm_lens (modify (fun m => set_cpus (alter (set_cproc p) c (cpus m)) m)).

(** Run process [i] until it gives the CPU back. *)
Definition dispatch (c i : nat) : M pst unit :=
  cpu_set_proc c (Some i);;;
  switchuvm (Some i);;;
  proc_upd i (set_state RUNNING);;;
  switch;;;
  switchkvm;;;
  cpu_set_proc c None.

(** One of the two table scans: dispatch the first candidate, then [break]. *)
Definition scan_queue (c : nat) (q : Z) : M pst unit :=
  let* t := gets ptable in
  match pick q t with
  | Some i => dispatch c i
  | None => ret tt
  end.

(** The second scan, guarded by [c->proc == 0], and the end of the iteration. *)
Definition scan_low (c : nat) : M pst unit :=
  let* cp := zoom pm_lens (getopt (fun m => cpus m !! c)) in
  when (bool_decide (cproc cp = None)) (scan_queue c 1);;;
  krelease ptable_lock.

(** One iteration of the scheduler's [for(;;)], on the CPU with index [c]. *)
Definition scheduler_pass (c : nat) : M pst unit :=
  zoom pm_lens sti;;;
  kacquire ptable_lock;;;
  scan_queue c 0;;;
  scan_low c.

(** scheduler(): [n] iterations of its endless loop. *)
Fixpoint scheduler_loop (n : nat) (c : nat) : M pst unit :=
  match n with
  | O => nofuel
  | S n' => scheduler_pass c;;; scheduler_loop n' c
  end.
Definition scheduler (n : nat) : M pst unit :=
  let* c := zoom pm_lens mycpu in
  cpu_set_proc c None;;;
  scheduler_loop n c.

(** ** The process side *)
Definition sched : M pst unit :=
  let* p := curproc in
  let* h := kholding ptable_lock in
  if negb h then panic "sched ptable.lock" else
  let* c := zoom pm_lens mycpu_read in
  if negb (ncli c =? 1) then panic "sched locks" else
  let* q := proc_at p in
  if bool_decide (state q = RUNNING) then panic "sched running" else
  let* eflags := zoom pm_lens (gets IF) in
  if eflags then panic "sched interruptible" else
  let* c := zoom pm_lens mycpu_read in
  let saved := intena c in
  switch;;;
  zoom pm_lens (mycpu_write (set_intena saved)).

Definition yield : M pst unit :=
  kacquire ptable_lock;;;
  let* p := curproc in
  proc_upd p (set_state RUNNABLE);;;
  sched;;;
  krelease ptable_lock.

(** sleep(chan, lk): atomically release lock and sleep on chan; reacquires lock when awakened. *)
Definition sleep (ch : lockid) (lk : option lockid) : M pst unit :=
  let* p := myproc in
  match p with
  | None => panic "sleep"
  | Some i =>
      match lk with
      | None => panic "sleep without lk"
      | Some lk =>
          let other := negb (bool_decide (lk = ptable_lock)) in
          when other (kacquire ptable_lock;;; krelease lk);;;
          proc_upd i (set_chan (Some ch));;;
          proc_upd i (set_state SLEEPING);;;
          sched;;;
          proc_upd i (set_chan None);;;
          when other (krelease ptable_lock;;; kacquire lk)
      end
  end.

(** wakeup1(chan): the ptable lock must be held. *)
Definition wake (ch : option lockid) (p : proc) : proc :=
  if bool_decide (state p = SLEEPING) && bool_decide (chan p = ch) then set_state RUNNABLE p else p.
Definition wakeup1 (ch : option lockid) : M pst unit :=
  modify (fun s => set_ptable (map (wake ch) (ptable s)) s).

Definition wakeup (ch : lockid) : M pst unit :=
  kacquire ptable_lock;;;
  wakeup1 (Some ch);;;
  krelease ptable_lock.

Definition kill (p : Z) : M pst Z :=
  kacquire ptable_lock;;;
  let* t := gets ptable in
  match find_index (fun q => pid q =? p) t with
  | Some i =>
      proc_upd i (set_killed 1);;;
      let* q := proc_at i in
      when (bool_decide (state q = SLEEPING)) (proc_upd i (set_state RUNNABLE));;;
      krelease ptable_lock;;;
      ret 0
  | None => krelease ptable_lock;;; ret (-1)
  end.

(** ** Specifications *)

(** A process in the high queue has used fewer than five ticks; there are two queues. *)
Definition mlfq_ok (p : proc) : Prop :=
  priority p = 0 /\ 0 <= ticks_used p < 5 \/ priority p = 1.
Definition mlfq_inv (s : pst) : Prop := Forall mlfq_ok (ptable s).

(** Everything the scheduler needs from a table entry it may dispatch. *)
Definition dispatchable (p : proc) : Prop := kstack p <> 0 /\ pgdir p <> 0.

(** The CPU [c] is in its scheduler loop outside the critical section, or inside it (holding
    only [ptable.lock]) with [c->proc = p]. *)
Abbreviation idle c := (on_cpu c None 0 [] [ptable_lock]).
Abbreviation in_sched c p := (on_cpu c p 1 [ptable_lock] []).

(** What a process that merely yields does to the table while it runs: it is RUNNABLE again when
    the scheduler gets the CPU back. *)
Definition yield_back (p : proc) : proc :=
  if bool_decide (state p = RUNNING) then set_state RUNNABLE p else p.
Definition env_yield (s : pst) : pst := set_ptable (map yield_back (ptable s)) s.

(** Process [j] never gets CPU [c], when the scheduler is resumed with [env] each time. *)
Fixpoint never_runs (c j : nat) (env : pst -> pst) (o : outcome pst unit) : Prop :=
  match o with
  | Switch s k => (cproc <$> cpus (pm s) !! c) <> Some (Some j) /\ never_runs c j env (k (env s))
  | _ => True
  end.

(** ** The MLFQ invariant *)
Lemma preserves_proc_upd (I : pst -> Prop) i f :
  (forall s, I s -> I (set_ptable (alter f i (ptable s)) s)) -> preserves I (proc_upd i f).
Proof.
  intros Hf. unfold proc_upd. apply preserves_bind; [apply preserves_getopt|].
  intros _. by apply preserves_modify.
Qed.

Lemma mlfq_zoom {A} (m : M mach A) : preserves mlfq_inv (zoom pm_lens m).
Proof. by apply preserves_zoom. Qed.

Lemma mlfq_upd i f : (forall p, mlfq_ok p -> mlfq_ok (f p)) -> preserves mlfq_inv (proc_upd i f).
Proof. intros Hf. apply preserves_proc_upd. intros s Hs. by apply Forall_alter. Qed.

#[export] Hint Resolve mlfq_zoom : kern.
#[export] Hint Extern 1 (preserves mlfq_inv (proc_upd _ _)) => apply mlfq_upd; done : kern.

Lemma mlfq_wakeup1 ch : preserves mlfq_inv (wakeup1 ch).
Proof.
  apply preserves_modify. intros s Hs. apply Forall_fmap. eapply Forall_impl; [exact Hs|].
  intros p Hp. unfold compose, wake. by destruct (_ && _).
Qed.
#[export] Hint Resolve mlfq_wakeup1 : kern.

Ltac mlfq := unfold kacquire, krelease, kholding, kinitlock, myproc, curproc, proc_at, cpu_set_proc; preserve.

Lemma mlfq_sched : preserves mlfq_inv sched.
Proof. unfold sched. mlfq. Qed.
Lemma mlfq_switchuvm p : preserves mlfq_inv (switchuvm p).
Proof. unfold switchuvm. mlfq. Qed.
#[export] Hint Resolve mlfq_sched mlfq_switchuvm : kern.
Lemma mlfq_scan c q : preserves mlfq_inv (scan_queue c q).
Proof.
  unfold scan_queue, dispatch, switchkvm. mlfq.
Qed.
#[export] Hint Resolve mlfq_scan : kern.

Lemma mlfq_sleep ch lk : preserves mlfq_inv (sleep ch lk).
Proof. unfold sleep. mlfq. Qed.
Lemma mlfq_yield : preserves mlfq_inv yield.
Proof. unfold yield. mlfq. Qed.
#[export] Hint Resolve mlfq_sleep mlfq_yield : kern.

(** ** Running the scheduler *)
(** switchuvm() of a process with a stack and a page table: the registers point to them, and
    the CPU's place in the scheduler is unchanged. *)
Lemma switchuvm_run n c p L F i q s :
  0 <= n -> on_cpu c p n L F (pm s) -> ptable s !! i = Some q -> dispatchable q ->
  wp (switchuvm (Some i)) (fun _ s' => exists m, s' = set_pm m s /\ on_cpu c p n L F m) s.
Proof.
  intros Hn Hin Hq [Hks Hpg]. unfold switchuvm. apply wp_bind.
  eapply (wp_getopt _ _ q); [done|].
  destruct (Z.eqb_spec (kstack q) 0); [done|]. destruct (Z.eqb_spec (pgdir q) 0); [done|].
  apply wp_zoom. simpl. apply wp_bind. eapply wp_mono; [|by apply (on_cpu_push c p n L F)].
  intros [] m1 H1. apply wp_bind. eapply wp_mono; [|apply (on_cpu_read c p (n + 1) L F); [lia|done]].
  intros k m2 (-> & _ & _).
  do 5 (apply wp_bind; eapply wp_mono; [|eapply (on_cpu_write c p (n + 1) L F); [lia|done..]];
    clear dependent m1; intros [] m1 H1).
  apply wp_bind, wp_modify, wp_bind, wp_modify.
  eapply wp_mono; [|apply (on_cpu_pop c p (n + 1) L F); [lia|exact H1]].
  intros [] m3 H3. exists m3. split; [done|]. by replace (n + 1 - 1) with n in H3 by lia.
Qed.

Lemma in_sched_acquire c s :
  idle c (pm s) ->
  exists m, in_sched c None m /\
    forall (f : M pst unit), (zoom pm_lens sti;;; kacquire ptable_lock;;; f) s = f (set_pm m s).
Proof.
  intros (Hi & _ & Hrest).
  assert (idle c (set_IF true (pm s))) as Hidle' by (split; [done|split; [lia|done]]).
  apply on_cpu_acquire in Hidle'; [|lia|set_solver].
  apply wp_done in Hidle' as ([] & m & Hrun & Hin). exists m. split; [done|]. intros f.
  unfold kacquire, bind, zoom. simpl. by rewrite Hrun.
Qed.

Lemma scan_queue_run c q s i : pick q (ptable s) = Some i -> scan_queue c q s = dispatch c i s.
Proof. intros Hp. unfold scan_queue, bind, gets. simpl. by rewrite Hp. Qed.

Lemma scan_queue_none c q s : pick q (ptable s) = None -> scan_queue c q s = Done tt s.
Proof. intros Hp. unfold scan_queue, bind, gets. simpl. by rewrite Hp. Qed.

Lemma in_sched_release c s :
  in_sched c None (pm s) ->
  wp (krelease ptable_lock) (fun _ s' => exists m, s' = set_pm m s /\ idle c m) s.
Proof.
  intros Hin. apply wp_zoom. eapply wp_mono; [|apply (on_cpu_release c None 1 [] [] ptable_lock); [lia|set_solver|done]].
  intros [] m Hm. by exists m.
Qed.

(** dispatch(): the CPU goes to process [i], RUNNING; back in the scheduler it is free again. *)
Lemma dispatch_run c i q s :
  in_sched c None (pm s) -> ptable s !! i = Some q -> dispatchable q ->
  switches (dispatch c i s) (fun s1 k =>
    ptable s1 = alter (set_state RUNNING) i (ptable s) /\ in_sched c (Some i) (pm s1) /\
    forall s2 p, in_sched c p (pm s2) ->
      returns (k s2) (fun _ s3 => exists m, s3 = set_pm m s2 /\ in_sched c None m)).
Proof.
  intros Hin Hq Hd. unfold dispatch. apply switches_wp_bind, wp_zoom, wp_modify. simpl.
  set (m1 := set_cpus _ (pm s)).
  assert (in_sched c (Some i) m1) as H1 by (eapply on_cpu_alter; eauto; done).
  apply switches_wp_bind. eapply wp_mono; [|by apply (switchuvm_run 1 c (Some i) [ptable_lock] [] i q)].
  intros [] s2 (m2 & -> & H2). apply switches_wp_bind. unfold proc_upd, proc_at.
  apply wp_bind. eapply (wp_getopt _ _ q); [done|]. apply wp_modify. simpl.
  split_and!; [done..|]. intros s2 p H3. simpl.
  eexists. split; [done|]. apply (on_cpu_alter c p None 1 [ptable_lock] [] (set_cproc None) (set_regs _ _ (pm s2))); [done|done|].
  by apply on_cpu_regs.
Qed.

Definition runnable_ok (s : pst) : Prop :=
  Forall (fun p => state p = RUNNABLE -> dispatchable p) (ptable s).

(** What is left of a pass in state [s] once queue 0 was served: the first RUNNABLE process of
    queue 1 gets the CPU, and the pass ends when it comes back; with none the pass ends. *)
Definition low_phase (c : nat) (s : pst) (o : outcome pst unit) : Prop :=
  match pick 1 (ptable s) with
  | Some j => switches o (fun s1 k =>
      ptable s1 = alter (set_state RUNNING) j (ptable s) /\ in_sched c (Some j) (pm s1) /\
      forall s2 p, in_sched c p (pm s2) ->
        returns (k s2) (fun _ s3 => exists m, s3 = set_pm m s2 /\ idle c m))
  | None => returns o (fun _ s' => exists m, s' = set_pm m s /\ idle c m)
  end.

Lemma pick_runnable q t i :
  pick q t = Some i -> exists p, t !! i = Some p /\ state p = RUNNABLE /\ priority p = q.
Proof.
  intros (p & Hp & H & _)%find_index_Some. exists p. unfold runnable_in in H.
  apply andb_true_iff in H as [?%bool_decide_eq_true ?%Z.eqb_eq]. done.
Qed.

Lemma pick_dispatchable q s i :
  runnable_ok s -> pick q (ptable s) = Some i ->
  exists p, ptable s !! i = Some p /\ dispatchable p.
Proof.
  intros Hok (p & Hp & Hr & _)%pick_runnable. exists p. split; [done|].
  unfold runnable_ok in Hok. rewrite Forall_lookup in Hok. eauto.
Qed.

(** The second half of a pass: the test on [c->proc], queue 1, the release. *)
Lemma scan_low_run c s :
  in_sched c None (pm s) -> runnable_ok s -> low_phase c s (scan_low c s).
Proof.
  intros Hin Hok. pose proof Hin as (Hi & HI & (k & Hk & Hn & Hcp) & _).
  assert (scan_low c s = (scan_queue c 1;;; krelease ptable_lock) s) as ->.
  { unfold scan_low, bind, zoom, getopt. simpl. rewrite Hk. simpl.
    rewrite bool_decide_eq_true_2 by done. by destruct s. }
  unfold low_phase. destruct (pick 1 (ptable s)) as [j|] eqn:Hj.
  - destruct (pick_dispatchable _ _ _ Hok Hj) as (q & Hq & Hd).
    apply switches_bind. rewrite (scan_queue_run _ _ _ _ Hj).
    eapply switches_mono; [|by apply (dispatch_run c j q s)]. intros s1 k1 (Ht & Hc & Hret).
    split_and!; [done..|]. intros s2 p Hs2. apply returns_bind.
    eapply returns_mono; [|by eapply Hret]. intros [] s3 (m & -> & Hm).
    eapply wp_mono; [|by apply in_sched_release]. simpl. intros [] s4 (m' & -> & Hm').
    by exists m'.
  - unfold bind. rewrite (scan_queue_none _ _ _ Hj). simpl. by apply in_sched_release.
Qed.

(** A whole pass, as its two scans. *)
Lemma scheduler_pass_run c s :
  idle c (pm s) -> runnable_ok s ->
  match pick 0 (ptable s) with
  | Some i => switches (scheduler_pass c s) (fun s1 k =>
      ptable s1 = alter (set_state RUNNING) i (ptable s) /\ in_sched c (Some i) (pm s1) /\
      forall s2 p, in_sched c p (pm s2) -> runnable_ok s2 -> low_phase c s2 (k s2))
  | None => low_phase c s (scheduler_pass c s)
  end.
Proof.
  intros Hidle Hok. destruct (in_sched_acquire c s Hidle) as (m & Hin & Hrun).
  unfold scheduler_pass. rewrite Hrun. clear Hrun.
  destruct (pick 0 (ptable s)) as [i|] eqn:Hi.
  - destruct (pick_dispatchable _ _ _ Hok Hi) as (q & Hq & Hd).
    apply switches_bind. rewrite (scan_queue_run _ _ _ i) by done.
    eapply switches_mono; [|by apply (dispatch_run c i q (set_pm m s))]. intros s1 k1 (Ht & Hc & Hret).
    split_and!; [done..|]. intros s2 p Hs2 Hok2. specialize (Hret _ _ Hs2).
    destruct (k1 s2) as [[] s3| | | | |]; try done. destruct Hret as (m' & -> & Hm'). simpl.
    by apply (scan_low_run c (set_pm m' s2)).
  - unfold bind. rewrite (scan_queue_none _ _ (set_pm m s)) by done. simpl.
    by apply (scan_low_run c (set_pm m s)).
Qed.

(** ** The process side, from a thread's place on its CPU *)
Definition same_but_pm (P : mach -> Prop) (s s' : pst) : Prop := exists m, s' = set_pm m s /\ P m.

Lemma myproc_run c p n L F s :
  0 <= n -> on_cpu c p n L F (pm s) ->
  wp myproc (fun r s' => r = p /\ same_but_pm (on_cpu c p n L F) s s') s.
Proof.
  intros Hn Hon. unfold myproc. apply wp_bind, wp_zoom. simpl.
  eapply wp_mono; [|by apply (on_cpu_push c p n L F)]. intros [] m1 H1.
  apply wp_bind, wp_zoom. simpl.
  eapply wp_mono; [|apply (on_cpu_read c p (n + 1) L F); [lia|done]]. intros k m2 (-> & _ & Hp).
  apply wp_bind, wp_zoom. simpl.
  eapply wp_mono; [|apply (on_cpu_pop c p (n + 1) L F); [lia|done]]. intros [] m3 H3.
  apply wp_ret. split; [done|]. exists m3. replace (n + 1 - 1) with n in H3 by lia. done.
Qed.

Lemma curproc_run c i n L F s :
  0 <= n -> on_cpu c (Some i) n L F (pm s) ->
  wp curproc (fun r s' => r = i /\ same_but_pm (on_cpu c (Some i) n L F) s s') s.
Proof.
  intros Hn Hon. unfold curproc. apply wp_bind.
  eapply wp_mono; [|by apply (myproc_run c (Some i) n L F)]. by intros r s' [-> H].
Qed.

Lemma proc_upd_run i f s q :
  ptable s !! i = Some q -> proc_upd i f s = Done tt (set_ptable (alter f i (ptable s)) s).
Proof. intros Hq. unfold proc_upd, proc_at, getopt, bind, modify. by rewrite Hq. Qed.

Lemma wp_proc_upd i f s q (Q : unit -> pst -> Prop) :
  ptable s !! i = Some q -> Q tt (set_ptable (alter f i (ptable s)) s) -> wp (proc_upd i f) Q s.
Proof. intros Hq HQ. unfold wp. by rewrite (proc_upd_run _ _ _ _ Hq). Qed.

Lemma kacquire_run c p n L F lk s :
  0 <= n -> lk ∉ F -> on_cpu c p n L (lk :: F) (pm s) ->
  wp (kacquire lk) (fun _ => same_but_pm (on_cpu c p (n + 1) (lk :: L) F) s) s.
Proof.
  intros. apply wp_zoom. eapply wp_mono; [|by apply (on_cpu_acquire c p n L F)].
  intros [] m Hm. by exists m.
Qed.

Lemma krelease_run c p n L F lk s :
  1 <= n -> lk ∉ L -> on_cpu c p n (lk :: L) F (pm s) ->
  wp (krelease lk) (fun _ => same_but_pm (on_cpu c p (n - 1) L (lk :: F)) s) s.
Proof.
  intros. apply wp_zoom. eapply wp_mono; [|by apply (on_cpu_release c p n L F)].
  intros [] m Hm. by exists m.
Qed.

Lemma kholding_run c p n L F lk s :
  0 <= n -> lk ∈ L -> on_cpu c p n L F (pm s) ->
  wp (kholding lk) (fun r s' => r = true /\ same_but_pm (on_cpu c p n L F) s s') s.
Proof.
  intros Hn Hlk Hon. apply wp_zoom. simpl.
  destruct (holding_run lk (pm s)) as (m & E & Hrun); [by eapply on_cpu_ok|].
  unfold wp. rewrite Hrun. pose proof Hon as (_ & _ & _ & HL & _).
  rewrite Forall_forall in HL. rewrite HL by done. split; [done|]. exists m. split; [done|]. by rewrite E.
Qed.

Lemma sched_run c i F s q :
  on_cpu c (Some i) 1 [ptable_lock] F (pm s) -> ptable s !! i = Some q -> state q <> RUNNING ->
  switches (sched s) (fun s1 k =>
    same_but_pm (on_cpu c (Some i) 1 [ptable_lock] F) s s1 /\
    forall s2 c' L' F', on_cpu c' (Some i) 1 L' F' (pm s2) ->
      returns (k s2) (fun _ => same_but_pm (on_cpu c' (Some i) 1 L' F') s2)).
Proof.
  intros Hon Hq Hr. unfold sched. apply switches_wp_bind.
  eapply wp_mono; [|by eapply (curproc_run c i 1)]. intros r s1 (-> & m1 & -> & H1).
  apply switches_wp_bind. eapply wp_mono; [|eapply (kholding_run c (Some i) 1 [ptable_lock] F); [lia|set_solver|done]].
  intros r s2 (-> & m2 & -> & H2). simpl. apply switches_wp_bind, wp_zoom. simpl.
  eapply wp_mono; [|by eapply (on_cpu_read c (Some i) 1)]. intros k1 m3 (-> & Hk1 & _).
  rewrite Hk1. simpl. apply switches_wp_bind. eapply (wp_getopt _ _ q); [done|].
  rewrite bool_decide_eq_false_2 by done. apply switches_wp_bind, wp_zoom, wp_gets. simpl.
  assert (IF m2 = false) as -> by (by apply H2). apply switches_wp_bind, wp_zoom. simpl.
  eapply wp_mono; [|by eapply (on_cpu_read c (Some i) 1)]. intros k2 m4 (-> & _ & _). simpl.
  split; [by exists m2|]. intros s2 c' L' F' H3.
  apply (wp_zoom pm_lens). simpl. eapply wp_mono; [|by eapply (on_cpu_write c' (Some i) 1 L' F')].
  intros [] m Hm. by exists m.
Qed.

(** The state [sleep] leaves to the scheduler, and what it does when dispatched again. *)
Lemma sleep_run c i ch lk F s q :
  lk <> ptable_lock -> ptable_lock ∉ F -> lk ∉ F ->
  on_cpu c (Some i) 1 [lk] (ptable_lock :: F) (pm s) -> ptable s !! i = Some q ->
  switches (sleep ch (Some lk) s) (fun s1 k =>
    same_but_pm (on_cpu c (Some i) 1 [ptable_lock] (lk :: F))
      (set_ptable (alter (fun p => set_state SLEEPING (set_chan (Some ch) p)) i (ptable s)) s) s1 /\
    forall s2 c' F' q', lk ∉ F' -> ptable_lock ∉ F' ->
      on_cpu c' (Some i) 1 [ptable_lock] (lk :: F') (pm s2) -> ptable s2 !! i = Some q' ->
      returns (k s2) (fun _ => same_but_pm (on_cpu c' (Some i) 1 [lk] (ptable_lock :: F'))
        (set_ptable (alter (set_chan None) i (ptable s2)) s2))).
Proof.
  intros Hne HF1 HF2 Hon Hq. unfold sleep. apply switches_wp_bind.
  eapply wp_mono; [|by eapply (myproc_run c (Some i) 1)]. intros r s1 (-> & m1 & -> & H1).
  rewrite bool_decide_eq_false_2 by done. simpl. apply switches_wp_bind, wp_bind.
  eapply wp_mono; [|eapply (kacquire_run c (Some i) 1 [lk] F); [lia|done|exact H1]].
  intros [] s2 (m2 & -> & H2).
  eapply wp_mono; [|eapply (krelease_run c (Some i) 2 [ptable_lock] F lk); [lia|set_solver|]].
  2:{ eapply on_cpu_weaken; [exact H2|set_solver..]. }
  intros [] s3 (m3 & -> & H3). apply switches_wp_bind. eapply (wp_proc_upd _ _ _ q); [done|].
  apply switches_wp_bind. eapply wp_proc_upd; [by apply lookup_alter_at|].
  simpl. rewrite alter_alter. apply switches_bind.
  eapply switches_mono; [|eapply sched_run; [exact H3|by apply lookup_alter_at|done]].
  intros s4 k ((m4 & -> & H4) & Hk). simpl. split; [by exists m4|].
  intros s5 c' F' q' HF HF' H5 Hq'. specialize (Hk _ _ _ _ H5). apply returns_bind.
  eapply returns_mono; [|exact Hk]. intros [] s6 (m6 & -> & H6). simpl.
  apply wp_bind. eapply wp_proc_upd; [done|]. apply wp_bind.
  eapply wp_mono; [|eapply (krelease_run c' (Some i) 1 [] (lk :: F')); [lia|set_solver|exact H6]].
  intros [] s7 (m7 & -> & H7).
  eapply wp_mono; [|eapply (kacquire_run c' (Some i) 0 [] (ptable_lock :: F')); [lia|set_solver|]].
  2:{ eapply on_cpu_weaken; [exact H7|set_solver..]. }
  intros [] s8 (m8 & -> & H8). by exists m8.
Qed.

Lemma wakeup_run c p n L F ch s :
  0 <= n -> ptable_lock ∉ L -> ptable_lock ∉ F -> on_cpu c p n L (ptable_lock :: F) (pm s) ->
  wp (wakeup ch) (fun _ => same_but_pm (on_cpu c p n L (ptable_lock :: F))
    (set_ptable (map (wake (Some ch)) (ptable s)) s)) s.
Proof.
  intros Hn HL HF Hon. unfold wakeup. apply wp_bind.
  eapply wp_mono; [|by eapply (kacquire_run c p n L F)]. intros [] s1 (m1 & -> & H1).
  apply wp_bind, wp_modify. simpl.
  eapply wp_mono; [|eapply (krelease_run c p (n + 1) L F); [lia|done|exact H1]].
  intros [] s2 (m2 & -> & H2). replace (n + 1 - 1) with n in H2 by lia. by exists m2.
Qed.

(** ** Scheduling by table order *)

(** Two tables the scans cannot tell apart. *)
Definition same_sched (p p' : proc) : Prop :=
  state p' = state p /\ priority p' = priority p /\ kstack p' = kstack p /\ pgdir p' = pgdir p.

(** What other code does between two dispatches when it neither blocks, creates nor demotes a
    process: RUNNING entries are RUNNABLE again, the rest may change its other fields. *)
Definition yields (env : pst -> pst) : Prop :=
  forall s, pm (env s) = pm s /\
    Forall2 (fun p p' => same_sched (yield_back p) p') (ptable s) (ptable (env s)).

Definition same_table (t : list proc) (s : pst) : Prop := Forall2 same_sched t (ptable s).
Definition no_running (t : list proc) : Prop := Forall (fun p => state p <> RUNNING) t.
Definition runnable_ok_t (t : list proc) : Prop :=
  Forall (fun p => state p = RUNNABLE -> dispatchable p) t.

Lemma same_table_pick t s q : same_table t s -> pick q (ptable s) = pick q t.
Proof.
  intros H. symmetry. apply find_index_Forall2. eapply Forall2_impl; [exact H|].
  intros p p' (E1 & E2 & _). unfold runnable_in. by rewrite E1, E2.
Qed.

Lemma same_table_ok t s : same_table t s -> runnable_ok_t t -> runnable_ok s.
Proof.
  intros H Hok. unfold runnable_ok, runnable_ok_t in *. rewrite Forall_lookup in *.
  intros i p' Hp' Hr. destruct (Forall2_lookup_r _ _ _ _ _ H Hp') as (p & Hp & E1 & E2 & E3 & E4).
  destruct (Hok i p Hp) as [? ?]; [congruence|]. by split; congruence.
Qed.

(** A dispatched process that comes back RUNNABLE leaves the table as the scans saw it. *)
Lemma yields_back_at env t s s1 i pi :
  yields env -> no_running t -> same_table t s -> t !! i = Some pi -> state pi = RUNNABLE ->
  ptable s1 = alter (set_state RUNNING) i (ptable s) -> same_table t (env s1).
Proof.
  intros Henv Hnr Hs Hpi Hri Ht. destruct (Henv s1) as [_ He]. rewrite Ht in He.
  unfold same_table. apply Forall2_same_length_lookup. split.
  { rewrite <- (Forall2_length _ _ _ He), length_alter. by apply Forall2_length in Hs. }
  intros j p p' Hp Hp'. destruct (Forall2_lookup_r _ _ _ _ _ He Hp') as (p1 & Hp1 & E).
  destruct (Forall2_lookup_l _ _ _ _ _ Hs Hp) as (p0 & Hp0 & E0).
  unfold no_running in Hnr. rewrite Forall_lookup in Hnr. specialize (Hnr _ _ Hp).
  unfold same_sched in *. destruct (decide (j = i)) as [->|Hne].
  - rewrite (lookup_alter_at _ _ _ _ Hp0) in Hp1. simplify_eq. unfold yield_back in E. simpl in E.
    destruct E as (? & ? & ? & ?), E0 as (? & ? & ? & ?). split_and!; congruence.
  - rewrite list_lookup_alter_ne in Hp1 by done. simplify_eq. unfold yield_back in E.
    destruct E0 as (E1 & ? & ? & ?). rewrite bool_decide_eq_false_2 in E by congruence.
    destruct E as (? & ? & ? & ?). split_and!; congruence.
Qed.
Lemma yields_back env t s s1 i :
  yields env -> no_running t -> same_table t s -> (exists q, pick q t = Some i) ->
  ptable s1 = alter (set_state RUNNING) i (ptable s) -> same_table t (env s1).
Proof. intros Henv Hnr Hs [q (pi & Hpi & Hri & _)%pick_runnable]. by eapply yields_back_at. Qed.

Section starvation.
Context (c j : nat) (env : pst -> pst) (t : list proc).
Context (Henv : yields env) (Hnr : no_running t) (Hok : runnable_ok_t t).
Context (Hj : forall q, pick q t <> Some j).

Lemma in_sched_not_j i s :
  in_sched c (Some i) (pm s) -> i <> j -> (cproc <$> cpus (pm s) !! c) <> Some (Some j).
Proof. intros (_ & _ & (k & -> & _ & Hp) & _) Hne. simpl. congruence. Qed.

Lemma low_phase_never s o (f : unit -> M pst unit) :
  low_phase c s o -> same_table t s ->
  (forall s', idle c (pm s') -> same_table t s' -> never_runs c j env (f tt s')) ->
  never_runs c j env (bind_outcome o f).
Proof.
  unfold low_phase. intros Ho Hs Hf. rewrite (same_table_pick t s) in Ho by done.
  destruct (pick 1 t) as [i|] eqn:Hi.
  - destruct o as [|s1 k| | | |]; try done. simpl. destruct Ho as (Ht & Hin & Hk). split.
    + eapply in_sched_not_j; [done|]. intros ->. by eapply Hj.
    + assert (same_table t (env s1)) as Hs1 by (eapply yields_back; eauto).
      specialize (Hk (env s1) (Some i)). destruct (Henv s1) as [Epm _]. rewrite Epm in Hk.
      specialize (Hk Hin). destruct (k (env s1)) as [[] s3| | | | |]; try done.
      destruct Hk as (m & -> & Hm). by apply Hf.
  - destruct o as [[] s1| | | | |]; try done. destruct Ho as (m & -> & Hm). by apply Hf.
Qed.

Lemma scheduler_loop_never n s :
  idle c (pm s) -> same_table t s -> never_runs c j env (scheduler_loop n c s).
Proof.
  revert s. induction n as [|n IH]; intros s Hidle Hs; [done|]. simpl.
  pose proof (scheduler_pass_run c s Hidle (same_table_ok _ _ Hs Hok)) as Hp.
  rewrite (same_table_pick t s) in Hp by done. unfold bind at 1.
  destruct (pick 0 t) as [i|] eqn:Hi; [|eapply low_phase_never; eauto].
  destruct (scheduler_pass c s) as [|s1 k| | | |]; try done. simpl. destruct Hp as (Ht & Hin & Hk).
  assert (same_table t (env s1)) as Hs1 by (eapply yields_back; eauto).
  split; [eapply in_sched_not_j; [done|]; intros ->; by eapply Hj|].
  eapply low_phase_never; [|done|by auto]. apply (Hk _ (Some i)); [|by eapply same_table_ok].
  destruct (Henv s1) as [-> _]. done.
Qed.
End starvation.

Lemma pick_unique q i j t p p' :
  t !! i = Some p -> runnable_in q p = true -> (i < j)%nat -> t !! j = Some p' ->
  runnable_in q p' = true -> forall q', pick q' t <> Some j.
Proof.
  intros Hp Hr Hlt Hp' Hr' q' (p2 & Hp2 & Hr2 & Hmin)%find_index_Some.
  rewrite Hp' in Hp2. simplify_eq. assert (q' = q) as ->.
  { unfold runnable_in in *. apply andb_true_iff in Hr' as [_ ?%Z.eqb_eq].
    apply andb_true_iff in Hr2 as [_ ?%Z.eqb_eq]. congruence. }
  specialize (Hmin _ _ Hlt Hp). congruence.
Qed.

(** ** A concrete kernel for the witnesses: one CPU, two runnable processes in each queue *)
Definition cpu_x : cpu := MkCpu 0 0x80112000 (MkTs 0 0 0) (replicate 6 (SEG 0 0 0 0)) 1 0 false None.
Definition mach_x : mach := MkMach true 0 [cpu_x] ∅ (fun _ => 0) 0 0 0 (0, 0) (0, 0).
Definition proc_x (q : Z) (st : procstate) (i : Z) : proc :=
  set_state st (set_pid i (set_kstack 0x8dfff000 (set_pgdir 0x8dffe000 (set_priority q proc0)))).
Definition pst_x (t : list proc) : pst := MkPst mach_x t 10 (Some 0%nat) 0x803ff000 false.
Definition table_x : list proc :=
  [proc_x 0 SLEEPING 1; proc_x 1 RUNNABLE 2; proc_x 1 RUNNABLE 3; proc_x 0 RUNNABLE 4;
   proc_x 0 RUNNABLE 5; proc0].

Lemma idle_x t : idle 0 (pm (pst_x t)).
Proof.
  split; [reflexivity|]. split; [simpl; lia|]. split; [by exists cpu_x|].
  split; [apply Forall_nil; done|]. apply Forall_singleton. reflexivity.
Qed.

Lemma table_x_ok : runnable_ok (pst_x table_x).
Proof. repeat constructor; simpl; intros; done. Qed.

(** ** Theorems *)

(** proc.c: every operation of the process table keeps every process in one of the two
    queues, and every process of the high queue below its quantum of five ticks: at the end and
    at each point where the CPU changes hands. *)
Theorem mlfq_invariant :
  (forall c, preserves mlfq_inv (scheduler_pass c)) /\ preserves mlfq_inv yield /\
  (forall ch lk, preserves mlfq_inv (sleep ch lk)) /\ (forall ch, preserves mlfq_inv (wakeup ch)) /\
  (forall p, preserves mlfq_inv (kill p)).
Proof.
  split_and!.
  - intros c. unfold scheduler_pass, scan_low. mlfq.
  - apply mlfq_yield.
  - apply mlfq_sleep.
  - intros ch. unfold wakeup. mlfq.
  - intros p. unfold kill. mlfq.
Qed.



(** proc.c:421, scheduler(): when a process of queue 0 gives the CPU back, the test
    [c->proc == 0] of the second scan holds, so the pass goes on to run the first RUNNABLE
    process of queue 1, even while processes of queue 0 are RUNNABLE. *)
Theorem scheduler_low_despite_high c s i j h :
  idle c (pm s) -> runnable_ok s -> pick 0 (ptable s) = Some i ->
  switches (scheduler_pass c s) (fun s1 k => forall s2 p,
    in_sched c p (pm s2) -> runnable_ok s2 -> pick 0 (ptable s2) = Some h -> pick 1 (ptable s2) = Some j ->
    switches (k s2) (fun s3 _ =>
      ptable s3 = alter (set_state RUNNING) j (ptable s2) /\ in_sched c (Some j) (pm s3) /\
      (exists ph, ptable s3 !! h = Some ph /\ state ph = RUNNABLE /\ priority ph = 0))).
Proof.
  intros Hidle Hok Hi. pose proof (scheduler_pass_run c s Hidle Hok) as Hp. rewrite Hi in Hp.
  eapply switches_mono; [|exact Hp]. intros s1 k (_ & _ & Hk) s2 p Hs2 Hok2 Hh Hj.
  specialize (Hk _ _ Hs2 Hok2). unfold low_phase in Hk. rewrite Hj in Hk.
  eapply switches_mono; [|exact Hk]. intros s3 k3 (Ht & Hin & _). split_and!; [done..|].
  destruct (pick_runnable _ _ _ Hh) as (ph & Hph & Hr & Hq0). exists ph. rewrite Ht.
  destruct (pick_runnable _ _ _ Hj) as (pj & Hpj & _ & Hq1).
  rewrite list_lookup_alter_ne; [done|]. intros ->. congruence.
Qed.

Lemma scheduler_low_despite_high_witness :
  switches (scheduler_pass 0 (pst_x table_x)) (fun s1 k => forall s2 p,
    in_sched 0 p (pm s2) -> runnable_ok s2 -> pick 0 (ptable s2) = Some 3%nat ->
    pick 1 (ptable s2) = Some 1%nat ->
    switches (k s2) (fun s3 _ =>
      ptable s3 = alter (set_state RUNNING) 1%nat (ptable s2) /\ in_sched 0 (Some 1%nat) (pm s3) /\
      (exists ph, ptable s3 !! 3%nat = Some ph /\ state ph = RUNNABLE /\ priority ph = 0))).
Proof.
  exact (scheduler_low_despite_high 0 (pst_x table_x) 3 1 3 (idle_x _) table_x_ok eq_refl).
Defined.

(** proc.c, scheduler(): both scans start at the head of the table and stop at the first
    hit, so there is no round robin inside a queue: of two processes that stay RUNNABLE in the
    same queue, the one with the larger index never runs, whatever the number of passes. *)
Theorem no_round_robin c i j q env s pi pj n :
  idle c (pm s) -> runnable_ok s -> Forall (fun p => state p <> RUNNING) (ptable s) -> yields env ->
  (i < j)%nat -> ptable s !! i = Some pi -> ptable s !! j = Some pj ->
  runnable_in q pi = true -> runnable_in q pj = true ->
  never_runs c j env (scheduler_loop n c s).
Proof.
  intros Hidle Hok Hnr Henv Hlt Hpi Hpj Hri Hrj.
  apply (scheduler_loop_never c j env (ptable s)); try done.
  - by apply (pick_unique q i j _ pi pj).
  - by apply Forall2_same.
Qed.

Lemma no_round_robin_witness :
  never_runs 0 2 env_yield (scheduler_loop 1000 0 (pst_x table_x)).
Proof.
  apply (no_round_robin 0 1 2 1 env_yield (pst_x table_x) (proc_x 1 RUNNABLE 2) (proc_x 1 RUNNABLE 3));
    try done; [apply idle_x|apply table_x_ok|by repeat constructor| |lia].
  intros s. split; [reflexivity|]. simpl. apply Forall2_fmap_r. apply Forall2_same. done.
Defined.


Definition mach_sleep_x : mach :=
  set_locks {[ ("pipe", 1) := MkSpinlock 1 "pipe" (Some 0%nat) [] ]}
    (set_IF false (set_cpus [set_ncli 1 (set_cproc (Some 1%nat) cpu_x)] mach_x)).


(** proc.c, kill(): the first process with the pid is marked killed, woken if it sleeps, and
    nothing else changes; with no such process the call fails and changes nothing.  Nothing
    excludes free slots: [kill(0)] on a table whose first slot with pid 0 is UNUSED returns 0 and
    leaves the mark in the free slot. *)
Theorem kill_effect c p n L F x s :
  0 <= n -> ptable_lock ∉ L -> ptable_lock ∉ F -> on_cpu c p n L (ptable_lock :: F) (pm s) ->
  wp (kill x) (fun r s' => on_cpu c p n L (ptable_lock :: F) (pm s') /\
    match find_index (fun q => pid q =? x) (ptable s) with
    | Some i => r = 0 /\ (forall j, j <> i -> ptable s' !! j = ptable s !! j) /\
        exists q, ptable s !! i = Some q /\ pid q = x /\ ptable s' !! i =
          Some (set_killed 1 (if decide (state q = SLEEPING) then set_state RUNNABLE q else q))
    | None => r = -1 /\ ptable s' = ptable s
    end) s.
Proof.
  intros Hn HL HF Hon. unfold kill. apply wp_bind.
  eapply wp_mono; [|by apply (kacquire_run c p n L F)]. intros [] s1 (m1 & -> & H1).
  apply wp_bind, wp_gets. simpl.
  assert (forall (r : Z) s0, on_cpu c p (n + 1) (ptable_lock :: L) F (pm s0) ->
    wp (krelease ptable_lock;;; ret r) (fun r' s' => r' = r /\
      same_but_pm (on_cpu c p n L (ptable_lock :: F)) s0 s') s0) as Hrel.
  { intros r s0 H0. apply wp_bind. eapply wp_mono; [|apply (krelease_run c p (n + 1) L F); [lia|done|done]].
    intros [] s2 (m2 & -> & H2). replace (n + 1 - 1) with n in H2 by lia. apply wp_ret. split; [done|].
    by exists m2. }
  destruct (find_index _ (ptable s)) as [i|] eqn:Hi.
  - pose proof Hi as (q & Hq & Hpid & _)%find_index_Some. apply Z.eqb_eq in Hpid.
    apply wp_bind. eapply wp_proc_upd; [done|]. simpl. apply wp_bind.
    eapply (wp_getopt _ _ (set_killed 1 q)); [by apply lookup_alter_at|]. simpl. unfold when.
    apply wp_bind. case_bool_decide as Hs; simpl.
    + eapply wp_proc_upd; [by apply lookup_alter_at|]. simpl. rewrite alter_alter.
      eapply wp_mono; [|by apply Hrel]. intros r s' (-> & m & -> & Hm). simpl. split; [done|].
      split; [done|]. split; [intros j Hj; by rewrite list_lookup_alter_ne|].
      exists q. rewrite (lookup_alter_at _ _ _ _ Hq). by rewrite decide_True.
    + apply wp_ret. eapply wp_mono; [|by apply Hrel]. intros r s' (-> & m & -> & Hm). simpl.
      split; [done|]. split; [done|]. split; [intros j Hj; by rewrite list_lookup_alter_ne|].
      exists q. rewrite (lookup_alter_at _ _ _ _ Hq). by rewrite decide_False.
  - eapply wp_mono; [|by apply Hrel]. intros r s' (-> & m & -> & Hm). done.
Qed.

Lemma kill_effect_witness :
  wp (kill 0) (fun r s' => r = 0 /\ ptable s' !! 5%nat = Some (set_killed 1 proc0)) (pst_x table_x).
Proof.
  refine (wp_mono _ _ _ _ _ (kill_effect 0 None 0 [] [] 0 (pst_x table_x) _ _ _ (idle_x _))).
  - simpl. intros r s' (_ & -> & _ & q & Hq & _ & E). simplify_eq. split; [done|]. by rewrite E.
  - lia.
  - set_solver.
  - set_solver.
Defined.
