(* ===== verification/Process.v ===== *)
(** * Creating and destroying processes (proc.c)

    [allocproc], [userinit], [growproc], [fork], [exit], [wait] and [forkret] over any kernel state
    that contains the process table ([HasProc]) and kernel memory ([PageOps], so the functions of
    Vm.v apply), and offers the file-system calls these functions make ([ProcFs]).  A process'
    channel for [wait] is its table index.  The trap frame and the context, which the kernel keeps
    in the process' stack page, are fields of the process here; [allocproc]'s writes to the page
    are modelled as well. *)
From S2P Require Import Prelude Mmu KString Spinlock Pages Kalloc Vm Sched.

Class HasProc (S : Type) := {
  proc_lens : lens S pst;
  proc_lens_laws :: LensLaws proc_lens
}.

(** What proc.c calls of file.c, fs.c and log.c. *)
Class ProcFs (S : Type) := {
  filedup : nat -> M S nat;
  fileclose : nat -> M S unit;
  idup : nat -> M S nat;
  iput : nat -> M S unit;
  begin_op : M S unit;
  end_op : M S unit;
  namei : string -> M S (option nat);
  iinit : Z -> M S unit;
  initlog : Z -> M S unit
}.

(** Addresses and data the linker provides. *)
Record proc_symbols := ProcSymbols {
  data_sym : Z;                (* data, of kernel.ld *)
  trapret_sym : Z;             (* trapret, of trapasm.S *)
  forkret_sym : Z;             (* forkret *)
  initcode_start : Z;          (* _binary_initcode_start *)
  initcode_size : Z            (* _binary_initcode_size *)
}.

Definition ROOTDEV : Z := 1.
Definition FL_IF : Z := 0x200.
Definition proc_chan (i : nat) : lockid := ("proc", Z.of_nat i).

(** [sizeof(struct trapframe)] and [sizeof(struct context)]. *)
Definition sizeof_tf : Z := 76.
Definition sizeof_context : Z := 20.

(** The trap frame at address [a]. *)
Definition tf_at (m : mem) (a : Z) : trapframe :=
  MkTf (ld32 m a) (ld32 m (a + 4)) (ld32 m (a + 8)) (ld32 m (a + 12)) (ld32 m (a + 16))
    (ld32 m (a + 20)) (ld32 m (a + 24)) (ld32 m (a + 28))
    (u16 (ld32 m (a + 32))) (u16 (ld32 m (a + 36))) (u16 (ld32 m (a + 40))) (u16 (ld32 m (a + 44)))
    (ld32 m (a + 48)) (ld32 m (a + 52)) (ld32 m (a + 56)) (u16 (ld32 m (a + 60)))
    (ld32 m (a + 64)) (ld32 m (a + 68)) (u16 (ld32 m (a + 72))).

Definition set_eax (v : Z) (t : trapframe) : trapframe :=
  MkTf (tf_edi t) (tf_esi t) (tf_ebp t) (tf_oesp t) (tf_ebx t) (tf_edx t) (tf_ecx t) v
    (tf_gs t) (tf_fs t) (tf_es t) (tf_ds t) (tf_trapno t) (tf_err t) (tf_eip t) (tf_cs t)
    (tf_eflags t) (tf_esp t) (tf_ss t).

(** [safestrcpy] between two name arrays: at most [n] bytes of the destination. *)
Fixpoint safestrcpy_name_loop (n : nat) (dst src : list Z) : list Z :=
  match n, dst, src with
  | O, _ :: dst', _ => 0 :: dst'
  | S k, _ :: dst', c :: src' =>
      if c =? 0 then match dst' with [] => [0] | _ :: d => 0 :: 0 :: d end
      else c :: safestrcpy_name_loop k dst' src'
  | _, _, _ => dst
  end.
Definition safestrcpy_name (dst src : list Z) (n : Z) : list Z :=
  if n <=? 0 then dst else safestrcpy_name_loop (Z.to_nat (n - 1)) dst src.

(** A C string as bytes. *)
Definition bytes_of (s : string) : list Z :=
  map (fun c => Z.of_nat (Ascii.nat_of_ascii c)) (String.list_ascii_of_string s) ++ [0].

Section process.
Context {S : Type} `{PageOps S} `{ConsoleOps S} `{!HasProc S} `{!ProcFs S}.
Context (syms : proc_symbols).

Definition ptab {A} (m : M pst A) : M S A := zoom proc_lens m.

Definition allocproc : M S (option nat) :=
  ptab (kacquire ptable_lock);;;
  let* t := ptab (gets ptable) in
  match find_index (fun p => bool_decide (state p = UNUSED)) t with
  | None => ptab (krelease ptable_lock);;; ret None
  | Some i =>
      ptab (proc_upd i (set_state EMBRYO));;;
      let* n := ptab (gets nextpid) in
      ptab (modify (set_nextpid (s32 (n + 1))));;;
      ptab (proc_upd i (set_pid n));;;
      ptab (proc_upd i (set_priority 0));;;
      ptab (proc_upd i (set_ticks_used 0));;;
      ptab (krelease ptable_lock);;;
      let* k := kalloc in
      ptab (proc_upd i (set_kstack k));;;
      if k =? 0 then
        ptab (proc_upd i (set_state UNUSED));;;
        ret None
      else
        let sp := k + KSTACKSIZE - sizeof_tf in
        let* m := gets memory in
        ptab (proc_upd i (set_tf (tf_at m sp)));;;
        let sp := sp - 4 in
        wr32 sp (trapret_sym syms);;;
        let sp := sp - sizeof_context in
        pokes sp (memset sp 0 sizeof_context);;;
        wr32 (sp + 16) (forkret_sym syms);;;
        ptab (proc_upd i (set_context (MkCtx 0 0 0 0 (forkret_sym syms))));;;
        ret (Some i)
  end.

Definition userinit : M S unit :=
  let* p := allocproc in
  ptab (modify (set_initproc p));;;
  match p with
  | None => undef
  | Some i =>
      let* d := setupkvm (data_sym syms) in
      ptab (proc_upd i (set_pgdir d));;;
      if d =? 0 then panic "userinit: out of memory?" else
      inituvm d (initcode_start syms) (initcode_size syms);;;
      ptab (proc_upd i (set_sz PGSIZE));;;
      let ud := Z.lor (SEG_UDATA * 8) DPL_USER in
      ptab (proc_upd i (set_tf (MkTf 0 0 0 0 0 0 0 0 0 0 ud ud 0 0 0
        (Z.lor (SEG_UCODE * 8) DPL_USER) FL_IF PGSIZE ud)));;;
      ptab (proc_upd i (fun p => set_name (safestrcpy_name (name p) (bytes_of "initcode") 16) p));;;
      let* c := namei "/" in
      ptab (proc_upd i (set_cwd c));;;
      ptab (kacquire ptable_lock);;;
      ptab (proc_upd i (set_state RUNNABLE));;;
      ptab (krelease ptable_lock)
  end.

Definition growproc (n : Z) : M S Z :=
  let* i := ptab curproc in
  let* p := ptab (proc_at i) in
  let* sz := (if 0 <? n then allocuvm (pgdir p) (sz p) (u32 (sz p + n))
              else if n <? 0 then deallocuvm (pgdir p) (sz p) (u32 (sz p + n))
              else ret (sz p)) in
  if negb (n =? 0) && (sz =? 0) then ret (-1) else
  ptab (proc_upd i (set_sz sz));;;
  ptab (switchuvm (Some i));;;
  ret 0.

Definition fork : M S Z :=
  let* cur := ptab curproc in
  let* np := allocproc in
  match np with
  | None => ret (-1)
  | Some i =>
      let* p := ptab (proc_at cur) in
      let* d := copyuvm (data_sym syms) (pgdir p) (sz p) in
      ptab (proc_upd i (set_pgdir d));;;
      if d =? 0 then
        let* q := ptab (proc_at i) in
        kfree (kstack q);;;
        ptab (proc_upd i (set_kstack 0));;;
        ptab (proc_upd i (set_state UNUSED));;;
        ret (-1)
      else
        let* p := ptab (proc_at cur) in
        ptab (proc_upd i (set_sz (sz p)));;;
        ptab (proc_upd i (set_parent (Some cur)));;;
        ptab (proc_upd i (set_tf (tf p)));;;
        ptab (proc_upd i (fun q => set_tf (set_eax 0 (tf q)) q));;;
        for_each (seq 0 NOFILE) (fun fd =>
          let* p := ptab (proc_at cur) in
          match ofile p !! fd with
          | Some (Some f) =>
              let* f' := filedup f in
              ptab (proc_upd i (fun q => set_ofile (<[fd := Some f']> (ofile q)) q))
          | _ => ret tt
          end);;;
        let* p := ptab (proc_at cur) in
        let* c := (match cwd p with Some c => idup c | None => undef end) in
        ptab (proc_upd i (set_cwd (Some c)));;;
        ptab (proc_upd i (fun q => set_name (safestrcpy_name (name q) (name p) 16) q));;;
        let* q := ptab (proc_at i) in
        ptab (kacquire ptable_lock);;;
        ptab (proc_upd i (set_state RUNNABLE));;;
        ptab (krelease ptable_lock);;;
        ret (pid q)
  end.

(** The loop of [exit] that passes abandoned children to init. *)
Definition reparent (cur : nat) : M pst unit :=
  for_each (seq 0 NPROC) (fun j =>
    let* p := proc_at j in
    when (bool_decide (parent p = Some cur)) (
      let* ip := gets initproc in
      proc_upd j (set_parent ip);;;
      when (bool_decide (state p = ZOMBIE)) (wakeup1 (proc_chan <$> ip)))).

Definition exit : M S unit :=
  let* cur := ptab curproc in
  let* ip := ptab (gets initproc) in
  if bool_decide (ip = Some cur) then panic "init exiting" else
  for_each (seq 0 NOFILE) (fun fd =>
    let* p := ptab (proc_at cur) in
    match ofile p !! fd with
    | Some (Some f) =>
        fileclose f;;;
        ptab (proc_upd cur (fun q => set_ofile (<[fd := None]> (ofile q)) q))
    | _ => ret tt
    end);;;
  begin_op;;;
  let* p := ptab (proc_at cur) in
  match cwd p with Some c => iput c | None => undef end;;;
  end_op;;;
  ptab (proc_upd cur (set_cwd None));;;
  ptab (kacquire ptable_lock);;;
  let* p := ptab (proc_at cur) in
  ptab (wakeup1 (proc_chan <$> parent p));;;
  ptab (reparent cur);;;
  ptab (proc_upd cur (set_state ZOMBIE));;;
  ptab sched;;;
  panic "zombie exit".

(** The loop of [wait]; one unit of fuel per wakeup. *)
Definition zombie_child (cur : nat) (p : proc) : bool :=
  bool_decide (parent p = Some cur) && bool_decide (state p = ZOMBIE).
Definition child (cur : nat) (p : proc) : bool := bool_decide (parent p = Some cur).

(** Free the zombie in slot [i]. *)
Definition reap (i : nat) : M S Z :=
  let* p := ptab (proc_at i) in
  kfree (kstack p);;;
  ptab (proc_upd i (set_kstack 0));;;
  freevm (pgdir p);;;
  ptab (proc_upd i (set_pid 0));;;
  ptab (proc_upd i (set_parent None));;;
  ptab (proc_upd i (fun q => set_name (<[0%nat := 0]> (name q)) q));;;
  ptab (proc_upd i (set_killed 0));;;
  ptab (proc_upd i (set_state UNUSED));;;
  ptab (krelease ptable_lock);;;
  ret (pid p).

Fixpoint wait_loop (k : nat) (cur : nat) : M S Z :=
  let* t := ptab (gets ptable) in
  match find_index (zombie_child cur) t with
  | Some i => reap i
  | None =>
      let* p := ptab (proc_at cur) in
      if negb (existsb (child cur) t) || negb (killed p =? 0) then
        ptab (krelease ptable_lock);;;
        ret (-1)
      else
        ptab (sleep (proc_chan cur) (Some ptable_lock));;;
        match k with O => nofuel | Datatypes.S k' => wait_loop k' cur end
  end.
Definition wait (k : nat) : M S Z :=
  let* cur := ptab curproc in
  ptab (kacquire ptable_lock);;;
  wait_loop k cur.

(** A new process starts here, holding ptable.lock. *)
Definition forkret : M S unit :=
  ptab (krelease ptable_lock);;;
  let* f := ptab (gets first) in
  when f (
    ptab (modify (set_first false));;;
    iinit ROOTDEV;;;
    initlog ROOTDEV).

(** kvmalloc() of vm.c. *)
Definition kvmalloc : M S unit :=
  let* d := setupkvm (data_sym syms) in
  ptab (modify (set_kpgdir d));;;
  ptab switchkvm.
End process.

(** ** Invariants of the process table *)

(** A property of the process table that the rest of the kernel leaves alone. *)
Class ProcFrame {S : Type} `{PageOps S} `{ConsoleOps S} `{!HasProc S} `{!ProcFs S} (J : pst -> Prop) : Prop := {
  pf_mem :: MemFrame (fun s => J (view proc_lens s));
  pf_filedup : forall f, preserves (fun s => J (view proc_lens s)) (filedup f);
  pf_fileclose : forall f, preserves (fun s => J (view proc_lens s)) (fileclose f);
  pf_idup : forall i, preserves (fun s => J (view proc_lens s)) (idup i);
  pf_iput : forall i, preserves (fun s => J (view proc_lens s)) (iput i);
  pf_begin_op : preserves (fun s => J (view proc_lens s)) begin_op;
  pf_end_op : preserves (fun s => J (view proc_lens s)) end_op;
  pf_namei : forall p, preserves (fun s => J (view proc_lens s)) (namei p)
}.

(** Slot [i] carries the kill mark. *)
Definition killed_at (i : nat) (s : pst) : Prop := exists p, ptable s !! i = Some p /\ killed p = 1.

(** ** Lemmas *)
Lemma killed_zoom {A} i (m : M mach A) : preserves (killed_at i) (zoom pm_lens m).
Proof. by apply preserves_zoom. Qed.

Lemma killed_upd i j f : (forall p, killed (f p) = killed p) -> preserves (killed_at i) (proc_upd j f).
Proof.
  intros Hf. apply preserves_proc_upd. intros s (p & Hp & Hk). unfold killed_at. simpl.
  rewrite list_lookup_alter. case_decide; [|by eauto]. subst. rewrite Hp. simpl. exists (f p).
  by rewrite Hf.
Qed.
#[export] Hint Resolve killed_zoom : kern.
#[export] Hint Extern 1 (preserves (killed_at _) (proc_upd _ _)) => apply killed_upd; done : kern.
#[export] Hint Extern 1 (preserves (killed_at _) (modify _)) => apply preserves_modify; done : kern.
#[export] Hint Extern 1 (preserves mlfq_inv (modify _)) => apply preserves_modify; done : kern.

Section frame.
Context {S : Type} `{PageOps S} `{ConsoleOps S} `{!HasProc S} `{!ProcFs S}.
Context (J : pst -> Prop) `{!ProcFrame J} (syms : proc_symbols).
Abbreviation I := (fun s : S => J (view proc_lens s)).

Lemma frame_ptab {A} (m : M pst A) : preserves J m -> preserves I (ptab m).
Proof. apply preserves_zoom_view. apply _. Qed.

Lemma frame_gets_proc i : preserves J (proc_at i).
Proof. apply preserves_getopt. Qed.
End frame.
#[export] Hint Extern 1 (ProcFrame _) => typeclasses eauto : kern.
#[export] Hint Extern 2 (preserves _ (ptab _)) => apply frame_ptab : kern.
#[export] Hint Resolve frame_gets_proc pf_filedup pf_fileclose pf_idup pf_iput pf_begin_op pf_end_op pf_namei : kern.

Ltac pframe := unfold curproc, myproc, kacquire, krelease, proc_at; preserve; try (apply frame_ptab; preserve).

Section mlfq.
Context {S : Type} `{PageOps S} `{ConsoleOps S} `{!HasProc S} `{!ProcFs S} `{!ProcFrame mlfq_inv} (syms : proc_symbols).
Abbreviation I := (fun s : S => mlfq_inv (view proc_lens s)).

(** Both scheduling fields are reset together. *)
Lemma mlfq_reset {A} i (k : M S A) :
  preserves I k ->
  preserves I (ptab (proc_upd i (set_priority 0));;; ptab (proc_upd i (set_ticks_used 0));;; k).
Proof.
  intros Hk s Hs. unfold bind at 1, ptab, zoom, proc_upd, proc_at, bind, getopt, modify. simpl.
  destruct (ptable (view proc_lens s) !! i) as [p|] eqn:Hp; simpl; [|done].
  rewrite view_put. simpl. rewrite (lookup_alter_at _ _ _ _ Hp). simpl. apply Hk. rewrite view_put.
  unfold mlfq_inv in *. simpl. rewrite alter_alter. apply Forall_lookup. intros j q.
  rewrite list_lookup_alter. rewrite Forall_lookup in Hs. case_decide; [|by eauto]. subst.
  rewrite Hp. simpl. intros [= <-]. left. simpl. lia.
Qed.

Lemma mlfq_allocproc : preserves I (allocproc syms).
Proof.
  unfold allocproc. apply preserves_bind; [pframe|]. intros _. apply preserves_bind; [pframe|].
  intros t. destruct (find_index _ t); [|pframe]. do 4 (apply preserves_bind; [pframe|intros ?]).
  apply mlfq_reset. pframe.
Qed.
#[local] Hint Resolve mlfq_allocproc : kern.

Lemma mlfq_fork : preserves I (fork syms).
Proof. unfold fork. generalize (seq 0 NOFILE). intros l. pframe. Qed.

Lemma mlfq_reparent cur : preserves mlfq_inv (reparent cur).
Proof. unfold reparent. generalize (seq 0 NPROC). intros l. pframe. Qed.
#[local] Hint Resolve mlfq_reparent : kern.

Lemma mlfq_exit : preserves I exit.
Proof. unfold exit. generalize (seq 0 NOFILE). intros l. pframe. Qed.

Lemma mlfq_wait k : preserves I (wait k).
Proof.
  unfold wait. assert (forall cur, preserves I (wait_loop k cur)) as Hw.
  { induction k; intros cur; simpl wait_loop; unfold reap; pframe; auto. }
  pframe.
Qed.

Lemma mlfq_growproc n : preserves I (growproc n).
Proof. unfold growproc. pframe. Qed.

Lemma mlfq_userinit : preserves I (userinit syms).
Proof. unfold userinit. pframe. Qed.
End mlfq.

Section killed.
Context {S : Type} `{PageOps S} `{ConsoleOps S} `{!HasProc S} `{!ProcFs S}.
Context (j : nat) `{!ProcFrame (killed_at j)} (syms : proc_symbols).

Lemma killed_allocproc : preserves (fun s => killed_at j (view proc_lens s)) (allocproc syms).
Proof. unfold allocproc. pframe. Qed.
#[local] Hint Resolve killed_allocproc : kern.

Lemma killed_fork : preserves (fun s => killed_at j (view proc_lens s)) (fork syms).
Proof. unfold fork. generalize (seq 0 NOFILE). intros l. pframe. Qed.
End killed.

(** *** Abandoned children *)

(** The table while [reparent] runs: entries below [k] have been visited, and init has been woken
    if one of them was a zombie child. *)
Definition adopt (cur : nat) (ip : option nat) (p : proc) : proc :=
  if decide (parent p = Some cur) then set_parent ip p else p.
Definition maybe_wake (b : bool) (ip : option nat) (p : proc) : proc :=
  if b then wake (proc_chan <$> ip) p else p.
Definition reparented (cur : nat) (ip : option nat) (t : list proc) (k : nat) (t' : list proc) : Prop :=
  length t' = length t /\
  forall j p, t !! j = Some p ->
    t' !! j = Some (maybe_wake (existsb (zombie_child cur) (take k t)) ip
      (if decide (j < k)%nat then adopt cur ip p else p)).

Lemma wake_fields ch p : parent (wake ch p) = parent p /\
  (state (wake ch p) = ZOMBIE <-> state p = ZOMBIE).
Proof.
  unfold wake. destruct (_ && _) eqn:E; [|done]. simpl.
  apply andb_true_iff in E as [->%bool_decide_eq_true _]. done.
Qed.

Lemma wake_idem ch p : wake ch (wake ch p) = wake ch p.
Proof.
  unfold wake. destruct (bool_decide (state p = SLEEPING) && bool_decide (chan p = ch)) eqn:E; simpl; [done|].
  by rewrite E.
Qed.

Lemma wake_set_parent ch x p : wake ch (set_parent x p) = set_parent x (wake ch p).
Proof. unfold wake. simpl. by destruct (_ && _). Qed.

Lemma existsb_take_S {A} (f : A -> bool) (t : list A) k p :
  t !! k = Some p -> existsb f (take (S k) t) = existsb f (take k t) || f p.
Proof.
  intros Hp. rewrite (take_S_r _ _ _ Hp), existsb_app. simpl. by rewrite orb_false_r.
Qed.

(** One step of the loop on entry [k]. *)
Lemma reparent_step cur ip t s k p :
  initproc s = ip -> t !! k = Some p -> reparented cur ip t k (ptable s) ->
  wp (let* p := proc_at k in
      when (bool_decide (parent p = Some cur)) (
        let* ip := gets initproc in
        proc_upd k (set_parent ip);;;
        when (bool_decide (state p = ZOMBIE)) (wakeup1 (proc_chan <$> ip))))
    (fun _ s' => exists t', s' = set_ptable t' s /\ reparented cur ip t (S k) t') s.
Proof.
  intros Hip Hp [Hlen Ht]. set (b := existsb (zombie_child cur) (take k t)) in *.
  pose proof (Ht k p Hp) as Hk. rewrite decide_False in Hk by lia.
  destruct (wake_fields (proc_chan <$> ip) p) as [Epar Ezom].
  assert (parent (maybe_wake b ip p) = parent p /\ (state (maybe_wake b ip p) = ZOMBIE <-> state p = ZOMBIE))
    as [Epar' Ezom'] by (unfold maybe_wake; by destruct b).
  apply wp_bind. eapply wp_getopt; [exact Hk|]. unfold when. rewrite Epar'.
  assert (existsb (zombie_child cur) (take (S k) t) = b || zombie_child cur p) as Eb by (by apply existsb_take_S).
  assert (forall j q, t !! j = Some q -> j <> k ->
    (if decide (j < S k)%nat then adopt cur ip q else q) = (if decide (j < k)%nat then adopt cur ip q else q)) as Hdec.
  { intros j q _ Hne. destruct (decide (j < S k)%nat), (decide (j < k)%nat); done || lia. }
  case_bool_decide as Hc; simpl.
  2:{ apply wp_ret. exists (ptable s). split; [by destruct s|]. split; [done|]. intros j q Hq.
      rewrite Eb. unfold zombie_child. rewrite bool_decide_eq_false_2 by done. simpl. rewrite orb_false_r.
      destruct (decide (j = k)) as [->|Hne]; [|rewrite Hdec by done; by apply Ht].
      rewrite Hp in Hq. injection Hq as <-. rewrite decide_True by lia. unfold adopt.
      by rewrite decide_False. }
  apply wp_bind, wp_gets, wp_bind. eapply wp_proc_upd; [exact Hk|]. rewrite Hip.
  assert (zombie_child cur p = bool_decide (state p = ZOMBIE)) as Ez.
  { unfold zombie_child. by rewrite bool_decide_eq_true_2. }
  assert (bool_decide (state (maybe_wake b ip p) = ZOMBIE) = bool_decide (state p = ZOMBIE)) as ->
    by (apply bool_decide_ext; done).
  set (t1 := alter (set_parent ip) k (ptable s)).
  assert (forall j q, t !! j = Some q -> t1 !! j = Some (maybe_wake b ip
    (if decide (j < S k)%nat then adopt cur ip q else q))) as Ht1.
  { intros j q Hq. unfold t1. destruct (decide (j = k)) as [->|Hne].
    - rewrite Hp in Hq. injection Hq as <-. rewrite (lookup_alter_at _ _ _ _ Hk), decide_True by lia.
      unfold adopt. rewrite decide_True by done. unfold maybe_wake. destruct b; [|done].
      by rewrite wake_set_parent.
    - rewrite list_lookup_alter_ne by done. rewrite Hdec by done. by apply Ht. }
  case_bool_decide as Hz; simpl.
  - apply wp_modify. simpl. eexists. split; [done|]. split; [by rewrite length_map; unfold t1; rewrite length_alter|].
    intros j q Hq. rewrite list_lookup_fmap, (Ht1 _ _ Hq). simpl. rewrite Eb, Ez, orb_true_r. simpl.
    f_equal. unfold maybe_wake. destruct b; [by rewrite wake_idem|done].
  - apply wp_ret. exists t1. split; [done|]. split; [unfold t1; by rewrite length_alter|].
    intros j q Hq. rewrite (Ht1 _ _ Hq), Eb, Ez, orb_false_r. done.
Qed.

Lemma reparent_run cur t s :
  ptable s = t -> length t = NPROC ->
  wp (reparent cur) (fun _ s' => exists t', s' = set_ptable t' s /\ reparented cur (initproc s) t NPROC t') s.
Proof.
  intros Ht Hlen. unfold reparent.
  apply (wp_for_each (seq 0 NPROC) _ (fun l s' => exists k t', l = seq k (NPROC - k) /\ (k <= NPROC)%nat /\
    s' = set_ptable t' s /\ reparented cur (initproc s) t k t')).
  - intros x l' s' (k & t' & El & Hk & -> & Hr). destruct (NPROC - k)%nat as [|n] eqn:En; [done|].
    simpl in El. injection El as -> ->. assert (k < length t)%nat as [p Hp]%lookup_lt_is_Some by lia.
    eapply wp_mono; [|apply (reparent_step cur (initproc s) t (set_ptable t' s) k p); done].
    intros [] s2 (t2 & -> & H2). exists (S k), t2. split_and!; [f_equal; lia|lia|done|done].
  - intros s' (k & t' & El & Hk & -> & Hr). exists t'. split; [done|].
    destruct (NPROC - k)%nat as [|n] eqn:En; [|done]. replace NPROC with k by lia. done.
  - exists 0%nat, t. split_and!; [done|lia|subst; by destruct s|]. split; [done|]. intros j p Hp.
    rewrite take_0, Hp. by rewrite decide_False by lia.
Qed.

(** ** A kernel for the witnesses: the process table and the page allocator side by side *)
Definition kernel_w : Type := pst * kst.
#[local] Instance pages_w : PageOps kernel_w := {|
  kalloc := zoom snd_lens BestFit.kalloc;
  kfree v := zoom snd_lens (BestFit.kfree 0x80200000 v);
  kmem_lens := compose_lens snd_lens kbytes_lens |}.
#[local] Instance console_w : ConsoleOps kernel_w := {| cprintf _ _ := ret tt |}.
#[local] Instance proc_w : HasProc kernel_w := {| proc_lens := fst_lens |}.
#[local] Instance fs_w : ProcFs kernel_w := {|
  filedup f := ret f; fileclose _ := ret tt; idup i := ret i; iput _ := ret tt;
  begin_op := ret tt; end_op := ret tt; namei _ := ret (Some 0%nat);
  iinit _ := ret tt; initlog _ := ret tt |}.

#[local] Instance frame_w (J : pst -> Prop) : ProcFrame J.
Proof.
  assert (forall A (m : M kst A), preserves (fun s : kernel_w => J (fst s)) (zoom snd_lens m)) as Hz
    by (intros A m; apply preserves_zoom; by intros t []).
  split; try (intros; apply preserves_ret).
  split; [by intros m []|apply Hz|intros; apply Hz|intros; apply preserves_ret].
Qed.

Definition syms_w : proc_symbols := ProcSymbols 0x80108000 0x80105000 0x80103000 0x8010b000 44.

(** ** Theorems *)

(** proc.c: creating, growing, ending and reaping processes keeps the two-queue invariant: a
    new process enters the high queue with no ticks used, and nothing else touches the scheduling
    fields; this holds wherever these functions hand the CPU over and when they return. *)
Theorem process_mlfq {S} `{PageOps S} `{ConsoleOps S} `{!HasProc S} `{!ProcFs S} syms :
  ProcFrame mlfq_inv ->
  let I := fun s : S => mlfq_inv (view proc_lens s) in
  preserves I (allocproc syms) /\ preserves I (userinit syms) /\ preserves I (fork syms) /\
  preserves I exit /\ (forall k, preserves I (wait k)) /\ (forall n, preserves I (growproc n)).
Proof.
  intros HJ I. split_and!.
  - apply mlfq_allocproc.
  - apply mlfq_userinit.
  - apply mlfq_fork.
  - apply mlfq_exit.
  - apply mlfq_wait.
  - apply mlfq_growproc.
Qed.

Lemma process_mlfq_witness :
  preserves (fun s : kernel_w => mlfq_inv (fst s)) (fork syms_w).
Proof.
  exact (proj1 (proj2 (proj2 (process_mlfq syms_w (frame_w mlfq_inv))))).
Defined.

(** proc.c: [allocproc] does not clear [killed], and neither does [fork]: a free slot that
    [kill(0)] has marked (see [kill_effect]) yields a process that carries the mark from birth. *)
Theorem fork_keeps_kill_mark {S} `{PageOps S} `{ConsoleOps S} `{!HasProc S} `{!ProcFs S} i syms :
  ProcFrame (killed_at i) ->
  preserves (fun s : S => killed_at i (view proc_lens s)) (allocproc syms) /\
  preserves (fun s : S => killed_at i (view proc_lens s)) (fork syms).
Proof. intros HJ. split; [by apply killed_allocproc|by apply killed_fork]. Qed.

Lemma fork_keeps_kill_mark_witness :
  preserves (fun s : kernel_w => killed_at 3 (fst s)) (fork syms_w).
Proof. exact (proj2 (fork_keeps_kill_mark 3 syms_w (frame_w (killed_at 3)))). Defined.

(** proc.c, exit(): after the loop over the table every child of the exiting process has
    init as its parent, all other parents are as before, and if one of the children is a zombie
    then an init that sleeps in wait() is RUNNABLE. *)
Theorem exit_reparents cur ip s :
  length (ptable s) = NPROC -> initproc s = Some ip ->
  wp (reparent cur) (fun _ s' =>
    forall j p, ptable s !! j = Some p -> exists p', ptable s' !! j = Some p' /\
      parent p' = (if decide (parent p = Some cur) then Some ip else parent p) /\
      (state p' <> state p -> state p = SLEEPING /\ chan p = Some (proc_chan ip) /\ state p' = RUNNABLE) /\
      (j = ip -> state p = SLEEPING -> chan p = Some (proc_chan ip) ->
       existsb (zombie_child cur) (ptable s) = true -> state p' = RUNNABLE)) s.
Proof.
  intros Hlen Hip. eapply wp_mono; [|by apply (reparent_run cur (ptable s) s)].
  intros [] s' (t' & -> & _ & Ht). simpl. intros j p Hp. rewrite Hip in Ht. simpl in Ht.
  eexists. split; [by apply Ht|]. apply lookup_lt_Some in Hp as Hlt.
  rewrite decide_True by lia. rewrite take_ge by lia.
  set (b := existsb _ _). set (p1 := adopt cur (Some ip) p).
  assert (parent p1 = (if decide (parent p = Some cur) then Some ip else parent p) /\
    state p1 = state p /\ chan p1 = chan p) as (E1 & E2 & E3).
  { unfold p1, adopt. by destruct (decide (parent p = Some cur)). }
  rewrite <- E1, <- E2, <- E3. unfold maybe_wake, wake. destruct b; [|split_and!; done].
  change (proc_chan <$> Some ip) with (Some (proc_chan ip)).
  destruct (bool_decide_reflect (state p1 = SLEEPING)), (bool_decide_reflect (chan p1 = Some (proc_chan ip)));
    simpl; split_and!; try done; intros; congruence.
Qed.

Lemma exit_reparents_witness :
  wp (reparent 3) (fun _ s' => exists p', ptable s' !! 5%nat = Some p' /\ parent p' = Some 0%nat)
    (set_ptable (replicate NPROC (set_parent (Some 3%nat) (set_state ZOMBIE proc0))) (pst_x [])).
Proof.
  refine (wp_mono _ _ _ _ _ (exit_reparents 3 0 (set_ptable (replicate NPROC
    (set_parent (Some 3%nat) (set_state ZOMBIE proc0))) (pst_x [])) eq_refl eq_refl)).
  intros [] s' H. destruct (H 5%nat _ eq_refl) as (p' & Hp' & Hpar & _). exists p'. split; [exact Hp'|].
  rewrite Hpar. reflexivity.
Defined.
