(* ===== verification/Syscall.v ===== *)
(** * System calls (syscall.c, sysproc.c)

    How the kernel reads a system call's arguments from the user's stack, the calls of sysproc.c,
    and the dispatch.  User memory is read through the page table of the current process: a page
    that is not present is a fault in the kernel, [Undef] here.  The system calls of sysfile.c are
    the class [SysFile]. *)
From S2P Require Import Prelude Mmu KString Spinlock Pages Kalloc Vm Sched Process.

(** The tick counter of trap.c, part of the state. *)
Class HasTicks (S : Type) := {
  ticks_lens : lens S Z;
  ticks_lens_laws :: LensLaws ticks_lens
}.
Definition tickslock : lockid := ("time", 0).
Definition ticks_chan : lockid := ("ticks", 0).

(** sysfile.c. *)
Class SysFile (S : Type) := {
  sys_pipe : M S Z; sys_read : M S Z; sys_exec : M S Z; sys_fstat : M S Z; sys_chdir : M S Z;
  sys_dup : M S Z; sys_open : M S Z; sys_write : M S Z; sys_mknod : M S Z; sys_unlink : M S Z;
  sys_link : M S Z; sys_mkdir : M S Z; sys_close : M S Z
}.

(** [ticks - ticks0 < n]: an unsigned comparison. *)
Definition sleep_pending (ticks ticks0 n : Z) : bool := u32 (ticks - ticks0) <? u32 n.

Section syscall.
Context {S : Type} `{PageOps S} `{ConsoleOps S} `{!HasProc S} `{!ProcFs S}.

(** The current process' record. *)
Definition curp : M S proc := let* i := ptab curproc in ptab (proc_at i).

(** A byte of user memory, in the current address space. *)
Definition uload8 (d va : Z) : M S Z :=
  getopt (fun s => if has_flag (pte_of (memory s) d va) PTE_P
                   then Some (memory s (user_addr (memory s) d va)) else None).
Definition uload32 (d va : Z) : M S Z :=
  let* b0 := uload8 d va in
  let* b1 := uload8 d (va + 1) in
  let* b2 := uload8 d (va + 2) in
  let* b3 := uload8 d (va + 3) in
  ret (b0 + 2 ^ 8 * b1 + 2 ^ 16 * b2 + 2 ^ 24 * b3).

(** [Some] is the value stored through the pointer, [None] the result -1. *)
Definition fetchint (addr : Z) : M S (option Z) :=
  let* p := curp in
  if (sz p <=? addr) || (sz p <? u32 (addr + 4)) then ret None
  else let* v := uload32 (pgdir p) addr in ret (Some (s32 v)).

(** The loop of [fetchstr] from [s] to [ep]; the result is [s - *pp] at the NUL. *)
Fixpoint fetchstr_loop (left : nat) (d s start : Z) : M S Z :=
  match left with
  | O => ret (-1)
  | Datatypes.S k =>
      let* c := uload8 d s in
      if c =? 0 then ret (s - start) else fetchstr_loop k d (s + 1) start
  end.
(** The pointer is [addr] itself. *)
Definition fetchstr (addr : Z) : M S Z :=
  let* p := curp in
  if sz p <=? addr then ret (-1)
  else fetchstr_loop (Z.to_nat (sz p - addr)) (pgdir p) addr addr.

Definition argint (n : Z) : M S (option Z) :=
  let* p := curp in fetchint (u32 (tf_esp (tf p) + 4 + 4 * n)).

Definition argptr (n size : Z) : M S (option Z) :=
  let* p := curp in
  let* i := argint n in
  match i with
  | None => ret None
  | Some i =>
      if (size <? 0) || (sz p <=? u32 i) || (sz p <? u32 (u32 i + size)) then ret None
      else ret (Some (u32 i))
  end.

(** The string's address and length. *)
Definition argstr (n : Z) : M S (option (Z * Z)) :=
  let* a := argint n in
  match a with
  | None => ret None
  | Some a => let* len := fetchstr (u32 a) in ret (if len <? 0 then None else Some (u32 a, len))
  end.
End syscall.

(** ** sysproc.c *)
Section sysproc.
Context {S : Type} `{PageOps S} `{ConsoleOps S} `{!HasProc S} `{!ProcFs S} `{!HasTicks S}.
Context (syms : proc_symbols).

Definition sys_fork : M S Z := fork syms.
Definition sys_exit : M S Z := exit;;; ret 0.
Definition sys_wait (k : nat) : M S Z := wait k.
Definition sys_kill : M S Z :=
  let* a := argint 0 in
  match a with None => ret (-1) | Some pid => ptab (kill pid) end.
Definition sys_getpid : M S Z := let* p := curp in ret (pid p).
Definition sys_sbrk : M S Z :=
  let* a := argint 0 in
  match a with
  | None => ret (-1)
  | Some n =>
      let* p := curp in
      let addr := s32 (sz p) in
      let* r := growproc n in
      if r <? 0 then ret (-1) else ret addr
  end.

(** The loop of [sys_sleep]; one unit of fuel per wakeup. *)
Fixpoint sys_sleep_loop (k : nat) (ticks0 n : Z) : M S Z :=
  let* t := gets (view ticks_lens) in
  if sleep_pending t ticks0 n then
    let* p := curp in
    if negb (killed p =? 0) then ptab (krelease tickslock);;; ret (-1)
    else
      ptab (sleep ticks_chan (Some tickslock));;;
      match k with O => nofuel | Datatypes.S k' => sys_sleep_loop k' ticks0 n end
  else ptab (krelease tickslock);;; ret 0.
Definition sys_sleep (k : nat) : M S Z :=
  let* a := argint 0 in
  match a with
  | None => ret (-1)
  | Some n =>
      ptab (kacquire tickslock);;;
      let* t := gets (view ticks_lens) in
      sys_sleep_loop k t n
  end.

Definition sys_uptime : M S Z :=
  ptab (kacquire tickslock);;;
  let* x := gets (view ticks_lens) in
  ptab (krelease tickslock);;;
  ret (s32 x).
End sysproc.

(** ** The dispatch *)
Section dispatch.
Context {S : Type} `{PageOps S} `{ConsoleOps S} `{!HasProc S} `{!ProcFs S} `{!HasTicks S} `{!SysFile S}.
Context (syms : proc_symbols) (fuel : nat).

(** [syscalls[]], indexed by the numbers of syscall.h; entry 0 is null. *)
Definition syscalls : list (option (M S Z)) :=
  [ None; Some (sys_fork syms); Some sys_exit; Some (sys_wait fuel); Some sys_pipe; Some sys_read;
    Some sys_kill; Some sys_exec; Some sys_fstat; Some sys_chdir; Some sys_dup; Some sys_getpid;
    Some sys_sbrk; Some (sys_sleep fuel); Some sys_uptime; Some sys_open; Some sys_write;
    Some sys_mknod; Some sys_unlink; Some sys_link; Some sys_mkdir; Some sys_close ].

Definition set_cur_eax (i : nat) (v : Z) : M S unit :=
  ptab (proc_upd i (fun p => set_tf (set_eax (u32 v) (tf p)) p)).

Definition syscall : M S unit :=
  let* i := ptab curproc in
  let* p := ptab (proc_at i) in
  let num := s32 (tf_eax (tf p)) in
  let h := if (0 <? num) && (num <? Z.of_nat (length syscalls))
           then syscalls !! Z.to_nat num else None in
  match h with
  | Some (Some f) => let* r := f in set_cur_eax i r
  | _ =>
      cprintf ("%d %s: unknown sys call %d" +:+ nl) [KNum (pid p); KStr (name p); KNum num];;;
      set_cur_eax i (-1)
  end.
End dispatch.

(** ** Specifications *)

(** The process table is not in kernel memory. *)
Class ProcMem (S : Type) `{PageOps S} `{!HasProc S} : Prop :=
  memory_put_proc : forall t s, memory (put proc_lens t s) = memory s.

(** All of the process' memory is present. *)
Definition mapped (m : mem) (p : proc) : Prop :=
  forall va, 0 <= va < sz p -> has_flag (pte_of m (pgdir p) va) PTE_P = true.

Definition ubyte (m : mem) (d va : Z) : Z := m (user_addr m d va).
Definition uword (m : mem) (d va : Z) : Z :=
  ubyte m d va + 2 ^ 8 * ubyte m d (va + 1) + 2 ^ 16 * ubyte m d (va + 2) + 2 ^ 24 * ubyte m d (va + 3).

(** ** Lemmas *)
Section runs.
Context {S : Type} `{PageOps S} `{ConsoleOps S} `{!HasProc S} `{!ProcFs S} `{!ProcMem S}.
Context (c i : nat) (L F : list lockid) (n0 : Z) (p : proc).

(** The current thread is process [p], in slot [i], on CPU [c]. *)
Definition running (s : S) : Prop :=
  0 <= n0 /\ on_cpu c (Some i) n0 L F (pm (view proc_lens s)) /\ ptable (view proc_lens s) !! i = Some p.

Lemma curp_run s (Q : proc -> S -> Prop) :
  running s -> (forall s', running s' -> memory s' = memory s -> Q p s') -> wp curp Q s.
Proof.
  intros (Hn & Hon & Hp) HQ. unfold curp. apply wp_bind, wp_zoom.
  eapply wp_mono; [|by eapply (curproc_run c i n0)]. intros r t (-> & m & -> & Hm).
  apply wp_zoom. unfold proc_at. eapply wp_getopt; [by rewrite view_put|]. rewrite put_put.
  apply HQ; [|by rewrite memory_put_proc]. split; [done|]. rewrite view_put. simpl. by rewrite view_put.
Qed.

Lemma uload8_run d va s (Q : Z -> S -> Prop) :
  has_flag (pte_of (memory s) d va) PTE_P = true -> Q (ubyte (memory s) d va) s -> wp (uload8 d va) Q s.
Proof. intros Hp HQ. unfold uload8. eapply wp_getopt; [by rewrite Hp|]. done. Qed.

Lemma uload32_run va s (Q : Z -> S -> Prop) :
  mapped (memory s) p -> 0 <= va -> va + 4 <= sz p ->
  Q (uword (memory s) (pgdir p) va) s -> wp (uload32 (pgdir p) va) Q s.
Proof.
  intros Hm Hlo Hhi HQ. unfold uload32.
  do 4 (apply wp_bind, uload8_run; [apply Hm; lia|]). by apply wp_ret.
Qed.

Lemma fetchint_run addr s (Q : option Z -> S -> Prop) :
  running s -> mapped (memory s) p -> 0 <= addr -> 0 <= sz p <= KERNBASE ->
  (forall s', running s' -> memory s' = memory s ->
     Q (if addr + 4 <=? sz p then Some (s32 (uword (memory s) (pgdir p) addr)) else None) s') ->
  wp (fetchint addr) Q s.
Proof.
  intros Hr Hm Ha Hsz HQ. unfold fetchint. apply wp_bind, curp_run; [done|]. intros s1 Hr1 Em.
  destruct (Z.leb_spec (sz p) addr); simpl.
  - apply wp_ret. specialize (HQ s1 Hr1 Em). destruct (Z.leb_spec (addr + 4) (sz p)); [lia|done].
  - unfold KERNBASE in *. rewrite u32_small by lia. specialize (HQ s1 Hr1 Em).
    destruct (Z.ltb_spec (sz p) (addr + 4)), (Z.leb_spec (addr + 4) (sz p)); try lia; [by apply wp_ret|].
    apply wp_bind, uload32_run; [by rewrite Em|lia|lia|]. rewrite Em. by apply wp_ret.
Qed.

Lemma argint_run n s (Q : option Z -> S -> Prop) :
  running s -> mapped (memory s) p -> 0 <= sz p <= KERNBASE ->
  let a := u32 (tf_esp (tf p) + 4 + 4 * n) in
  (forall s', running s' -> memory s' = memory s ->
     Q (if a + 4 <=? sz p then Some (s32 (uword (memory s) (pgdir p) a)) else None) s') ->
  wp (argint n) Q s.
Proof.
  intros Hr Hm Hsz a HQ. unfold argint. apply wp_bind, curp_run; [done|]. intros s1 Hr1 Em.
  apply fetchint_run; [done|by rewrite Em|apply u32_range|done|]. intros s2 Hr2 Em2. rewrite Em in *.
  apply HQ; [done|congruence].
Qed.

Lemma fetchstr_loop_run k va start s :
  mapped (memory s) p -> 0 <= start <= va -> va + Z.of_nat k = sz p ->
  (forall x, start <= x < va -> ubyte (memory s) (pgdir p) x <> 0) ->
  wp (fetchstr_loop k (pgdir p) va start) (fun r s' => s' = s /\
    ((0 <= r /\ start + r < sz p /\ ubyte (memory s) (pgdir p) (start + r) = 0 /\
      forall x, start <= x < start + r -> ubyte (memory s) (pgdir p) x <> 0)
     \/ r = -1 /\ forall x, start <= x < sz p -> ubyte (memory s) (pgdir p) x <> 0)) s.
Proof.
  intros Hm. revert va. induction k as [|k IH]; intros va Hs Hk Hnz; simpl.
  - apply wp_ret. split; [done|]. right. split; [done|]. intros x Hx. apply Hnz. lia.
  - apply wp_bind, uload8_run; [apply Hm; lia|].
    destruct (Z.eqb_spec (ubyte (memory s) (pgdir p) va) 0) as [E|E].
    + apply wp_ret. split; [done|]. left. replace (start + (va - start)) with va by lia.
      split_and!; auto; lia.
    + apply IH; [lia|lia|]. intros x Hx. destruct (Z.eq_dec x va) as [->|]; [done|apply Hnz; lia].
Qed.

Lemma u32_s32 z : 0 <= z < 2 ^ 32 -> u32 (s32 z) = z.
Proof.
  intros Hz. unfold s32. rewrite (u32_small z) by done. destruct (Z.ltb_spec z (2 ^ 31)).
  - by apply u32_small.
  - unfold u32. rewrite <- (Z_mod_plus_full _ 1). replace (z - 2 ^ 32 + 1 * 2 ^ 32) with z by lia.
    by apply Z.mod_small.
Qed.

Lemma uword_range m d va : mem_ok m -> 0 <= uword m d va < 2 ^ 32.
Proof.
  intros Hm. unfold uword, ubyte. pose proof (Hm (user_addr m d va)).
  pose proof (Hm (user_addr m d (va + 1))). pose proof (Hm (user_addr m d (va + 2))).
  pose proof (Hm (user_addr m d (va + 3))). lia.
Qed.
End runs.

(** ** Theorems *)

(** C38. syscall.c, argint() and argptr(): a pointer argument is accepted exactly when its word
    lies in the process' memory and the block of [size] bytes it points to does too; the block
    then ends below KERNBASE, no addition has wrapped, and the pointer is the word on the user's
    stack.  Otherwise the call fails. *)
Theorem argptr_in_user_memory {S} `{PageOps S} `{!HasProc S} `{!ProcMem S} c i L F n0 p n size s :
  running c i L F n0 p s -> mapped (memory s) p -> mem_ok (memory s) -> 0 <= sz p <= KERNBASE ->
  - 2 ^ 31 <= size < 2 ^ 31 ->
  let a := u32 (tf_esp (tf p) + 4 + 4 * n) in
  let w := uword (memory s) (pgdir p) a in
  wp (argptr n size) (fun r s' => memory s' = memory s /\ running c i L F n0 p s' /\
    forall x, r = Some x <->
      (a + 4 <= sz p /\ x = w /\ 0 <= size /\ 0 <= x < sz p /\ x + size <= sz p)) s.
Proof.
  intros Hr Hm Hok Hsz Hsize a w. unfold argptr. apply wp_bind, (curp_run c i L F n0 p); [done|].
  intros s1 Hr1 Em1. apply wp_bind, (argint_run c i L F n0 p); [done|by rewrite Em1|done|].
  intros s2 Hr2 Em2. fold a. rewrite Em1 in *. fold w.
  pose proof (uword_range (memory s) (pgdir p) a Hok) as Hw. fold w in Hw.
  unfold KERNBASE in Hsz. destruct (Z.leb_spec (a + 4) (sz p)).
  2:{ apply wp_ret. split_and!; [congruence|done|]. intros x. split; [done|lia]. }
  rewrite u32_s32 by done.
  destruct (Z.ltb_spec size 0); simpl.
  { apply wp_ret. split_and!; [congruence|done|]. intros x. split; [done|lia]. }
  destruct (Z.leb_spec (sz p) w); simpl.
  { apply wp_ret. split_and!; [congruence|done|]. intros x. split; [done|lia]. }
  rewrite (u32_small (w + size)) by lia. destruct (Z.ltb_spec (sz p) (w + size)); simpl.
  { apply wp_ret. split_and!; [congruence|done|]. intros x. split; [done|lia]. }
  apply wp_ret. split_and!; [congruence|done|]. intros x. split; [intros [= <-]; lia|].
  intros (_ & -> & _). done.
Qed.

(** syscall.c, fetchstr(): the scan of a user string ends at the process' size: a result
    other than -1 is the distance to the first NUL, which lies inside the process' memory; -1
    means that the string does not start there or has no NUL before the end. *)
Theorem fetchstr_bounded {S} `{PageOps S} `{!HasProc S} `{!ProcMem S} c i L F n0 p addr s :
  running c i L F n0 p s -> mapped (memory s) p -> 0 <= addr -> 0 <= sz p ->
  wp (fetchstr addr) (fun r s' => memory s' = memory s /\
    let b := ubyte (memory s) (pgdir p) in
    ((0 <= r /\ addr + r < sz p /\ b (addr + r) = 0 /\ forall x, addr <= x < addr + r -> b x <> 0)
     \/ r = -1 /\ forall x, addr <= x < sz p -> b x <> 0)) s.
Proof.
  intros Hr Hm Ha Hsz. unfold fetchstr. apply wp_bind, (curp_run c i L F n0 p); [done|].
  intros s1 Hr1 Em1. destruct (Z.leb_spec (sz p) addr).
  { apply wp_ret. split; [done|]. right. split; [done|lia]. }
  eapply wp_mono; [|apply (fetchstr_loop_run p); [by rewrite Em1|lia|lia|lia]].
  intros r s2 [-> Hres]. rewrite Em1 in *. split; [done|]. exact Hres.
Qed.

#[local] Existing Instances pages_w console_w proc_w fs_w.
#[local] Instance mem_proc_w : ProcMem kernel_w.
Proof. by intros t []. Qed.

(** A process of one page, whose stack pointer is 0x20; its memory is zero. *)
Definition proc_u : proc := set_pgdir dir_w (set_sz 4096 (set_tf (MkTf 0 0 0 0 0 0 0 0 0 0 0 0 0 0 0 0 0 0x20 0)
  (proc_x 0 RUNNING 1))).
Definition kernel_u : kernel_w :=
  (MkPst (set_cpus [set_cproc (Some 0%nat) cpu_x] mach_x) [proc_u] 2 None 0 false, kst_v).

Lemma running_u : running 0 0 [] [] 0 proc_u kernel_u.
Proof.
  split; [lia|]. split; [|reflexivity]. split; [reflexivity|]. split; [lia|].
  split; [by eexists|]. split; constructor.
Qed.

Lemma mapped_u : mapped (memory kernel_u) proc_u.
Proof.
  intros va Hva. simpl in Hva. change (has_flag (pte_of mem_w dir_w va) PTE_P = true).
  rewrite pte_w by lia. rewrite decide_True; [done|]. apply Z.div_small. unfold PGSIZE. lia.
Qed.

Lemma argptr_in_user_memory_witness :
  wp (argptr 0 16) (fun r _ => r = Some 0) kernel_u.
Proof.
  refine (wp_mono _ _ _ _ _ (argptr_in_user_memory 0 0 [] [] 0 proc_u 0 16 kernel_u running_u mapped_u
    mem_w_ok _ _)).
  - intros r s' (_ & _ & Hr). apply Hr. split_and!; vm_compute; congruence.
  - vm_compute. split; congruence.
  - lia.
Defined.

Lemma fetchstr_bounded_witness :
  wp (fetchstr 8) (fun r _ => r = 0 \/ r = -1 \/ 0 < r < 4096) kernel_u.
Proof.
  refine (wp_mono _ _ _ _ _ (fetchstr_bounded 0 0 [] [] 0 proc_u 8 kernel_u running_u mapped_u _ _)).
  - intros r s' (_ & [(H1 & H2 & _)|[H1 _]]); simpl in *; lia.
  - lia.
  - simpl. lia.
Defined.
