(* ===== verification/Trap.v ===== *)
(** * Traps and the timer tick (trap.c)

    [tvinit] and [idtinit], the trap dispatcher, and [timer_tick], the part of [trap] that charges
    a tick to the running process, demotes it to the low queue after five ticks, and yields. *)
From S2P Require Import Prelude Mmu KString Spinlock Pages Kalloc Vm Sched Process Syscall.

Definition T_SYSCALL : Z := 64.
Definition T_IRQ0 : Z := 32.
Definition IRQ_TIMER : Z := 0.
Definition IRQ_KBD : Z := 1.
Definition IRQ_COM1 : Z := 4.
Definition IRQ_IDE : Z := 14.
Definition IRQ_ERROR : Z := 19.
Definition IRQ_SPURIOUS : Z := 31.

(** The quantum of the high queue, in ticks. *)
Definition QUANTUM : Z := 5.

(** The device drivers' interrupt handlers, lapic.c, and the fault address register. *)
Class Devices (S : Type) := {
  lapiceoi : M S unit;
  ideintr : M S unit;
  kbdintr : M S unit;
  uartintr : M S unit;
  rcr2 : M S Z
}.

(** [idt], built by tvinit(): [vectors] gives the entry points. *)
Definition idt (vectors : Z -> Z) : list gatedesc :=
  <[Z.to_nat T_SYSCALL := SETGATE true (SEG_KCODE * 8) (vectors T_SYSCALL) DPL_USER]>
    (map (fun i => SETGATE false (SEG_KCODE * 8) (vectors i) 0) (seqZ 0 256)).

Definition idtinit (idt_addr : Z) : M mach unit := modify (set_idtr (idt_addr, 256 * 8 - 1)).

(** The scheduling part of [trap], for the current process [i], RUNNING, on a timer interrupt. *)
Definition charge_tick (i : nat) : M pst unit :=
  proc_upd i (fun p => set_ticks_used (s32 (ticks_used p + 1)) p);;;
  let* p := proc_at i in
  when ((priority p =? 0) && (QUANTUM <=? ticks_used p)) (
    proc_upd i (set_priority 1);;;
    proc_upd i (set_ticks_used 0)).

Definition timer_tick (trapno : Z) : M pst unit :=
  let* c := myproc in
  match c with
  | None => ret tt
  | Some i =>
      let* p := proc_at i in
      when (bool_decide (state p = RUNNING) && (trapno =? T_IRQ0 + IRQ_TIMER)) (
        charge_tick i;;;
        yield)
  end.

Section trap.
Context {S : Type} `{PageOps S} `{ConsoleOps S} `{!HasProc S} `{!ProcFs S} `{!HasTicks S} `{!SysFile S}.
Context `{!Devices S} (syms : proc_symbols) (fuel : nat).

(** tvinit(): the gates, and the lock of the tick counter. *)
Definition tvinit (vectors : Z -> Z) : M S (list gatedesc) :=
  ptab (kinitlock tickslock "time");;; ret (idt vectors).

(** [myproc() && myproc()->killed]. *)
Definition cur_killed : M S bool :=
  let* c := ptab myproc in
  match c with
  | None => ret false
  | Some i => let* p := ptab (proc_at i) in ret (negb (killed p =? 0))
  end.

Definition user_mode (t : trapframe) : bool := Z.land (tf_cs t) 3 =? DPL_USER.

(** The switch on [tf->trapno]. *)
Definition trap_dispatch (t : trapframe) : M S unit :=
  let n := tf_trapno t in
  if n =? T_IRQ0 + IRQ_TIMER then
    let* id := ptab (zoom pm_lens cpuid) in
    when (id =? 0) (
      ptab (kacquire tickslock);;;
      modify (fun s => put ticks_lens (u32 (view ticks_lens s + 1)) s);;;
      ptab (wakeup ticks_chan);;;
      ptab (krelease tickslock));;;
    lapiceoi
  else if n =? T_IRQ0 + IRQ_IDE then ideintr;;; lapiceoi
  else if n =? T_IRQ0 + IRQ_IDE + 1 then ret tt
  else if n =? T_IRQ0 + IRQ_KBD then kbdintr;;; lapiceoi
  else if n =? T_IRQ0 + IRQ_COM1 then uartintr;;; lapiceoi
  else if (n =? T_IRQ0 + 7) || (n =? T_IRQ0 + IRQ_SPURIOUS) then
    let* id := ptab (zoom pm_lens cpuid) in
    cprintf ("cpu%d: spurious interrupt at %x:%x" +:+ nl) [KNum id; KNum (tf_cs t); KNum (tf_eip t)];;;
    lapiceoi
  else
    let* c := ptab myproc in
    match c with
    | Some i =>
        if Z.land (tf_cs t) 3 =? 0 then
          let* id := ptab (zoom pm_lens cpuid) in
          let* a := rcr2 in
          cprintf ("unexpected trap %d from cpu %d eip %x (cr2=0x%x)" +:+ nl)
            [KNum n; KNum id; KNum (tf_eip t); KNum a];;;
          panic "trap"
        else
          let* p := ptab (proc_at i) in
          let* id := ptab (zoom pm_lens cpuid) in
          let* a := rcr2 in
          cprintf ("pid %d %s: trap %d err %d on cpu %d eip 0x%x addr 0x%x--kill proc" +:+ nl)
            [KNum (pid p); KStr (name p); KNum n; KNum (tf_err t); KNum id; KNum (tf_eip t); KNum a];;;
          ptab (proc_upd i (set_killed 1))
    | None =>
        let* id := ptab (zoom pm_lens cpuid) in
        let* a := rcr2 in
        cprintf ("unexpected trap %d from cpu %d eip %x (cr2=0x%x)" +:+ nl)
          [KNum n; KNum id; KNum (tf_eip t); KNum a];;;
        panic "trap"
    end.

Definition trap (t : trapframe) : M S unit :=
  if tf_trapno t =? T_SYSCALL then
    let* p := curp in
    when (negb (killed p =? 0)) exit;;;
    let* i := ptab curproc in
    ptab (proc_upd i (set_tf t));;;
    syscall syms fuel;;;
    let* p := curp in
    when (negb (killed p =? 0)) exit
  else
    trap_dispatch t;;;
    let* k := cur_killed in
    when (k && user_mode t) exit;;;
    ptab (timer_tick (tf_trapno t));;;
    let* k := cur_killed in
    when (k && user_mode t) exit.
End trap.

(** ** Specifications *)

(** The effect of a tick on the running process' record. *)
Definition account (p : proc) : proc :=
  let p := set_ticks_used (s32 (ticks_used p + 1)) p in
  if (priority p =? 0) && (QUANTUM <=? ticks_used p) then set_ticks_used 0 (set_priority 1 p) else p.

Fixpoint ticks_of (n : nat) (p : proc) : proc :=
  match n with O => p | S k => account (ticks_of k p) end.

(** ** Lemmas *)
Lemma charge_tick_run i s p :
  ptable s !! i = Some p -> charge_tick i s = Done tt (set_ptable (alter account i (ptable s)) s).
Proof.
  intros Hp. unfold charge_tick, bind. rewrite (proc_upd_run i _ s p Hp). cbn [bind_outcome].
  set (f := fun p => set_ticks_used (s32 (ticks_used p + 1)) p).
  unfold proc_at at 1, getopt. simpl. rewrite (lookup_alter_at _ _ _ _ Hp). cbn [bind_outcome].
  assert (account p = if (priority (f p) =? 0) && (QUANTUM <=? ticks_used (f p))
    then set_ticks_used 0 (set_priority 1 (f p)) else f p) as Ea by done.
  destruct (_ && _) eqn:Hq; simpl.
  - rewrite (proc_upd_run i _ _ (f p)) by (by apply lookup_alter_at). cbn [bind_outcome].
    rewrite (proc_upd_run i _ _ (set_priority 1 (f p)))
      by (simpl; rewrite alter_alter; by apply (lookup_alter_at (set_priority 1 ∘ f))).
    simpl. unfold set_ptable. simpl. rewrite !alter_alter. do 2 f_equal.
    apply (alter_ext_at _ _ _ _ p Hp). by rewrite Ea.
  - unfold set_ptable. simpl. do 2 f_equal. apply (alter_ext_at _ _ _ _ p Hp). by rewrite Ea.
Qed.

Lemma account_ok p : mlfq_ok p -> mlfq_ok (account p).
Proof.
  intros Hok. unfold account, mlfq_ok in *. simpl. destruct (Z.eqb_spec (priority p) 0) as [E|E]; simpl.
  - assert (0 <= ticks_used p < 5) by (destruct Hok as [[_ ?]|?]; [done|lia]).
    rewrite s32_small by lia. destruct (Z.leb_spec QUANTUM (ticks_used p + 1)); simpl; [by right|].
    left. unfold QUANTUM in *. lia.
  - right. destruct Hok as [[? _]|?]; [done|done].
Qed.

Lemma account_state p : state (account p) = state p /\ kstack (account p) = kstack p /\
  pgdir (account p) = pgdir p /\ killed (account p) = killed p.
Proof. unfold account. by destruct (_ && _). Qed.

Lemma ticks_of_low n p : priority p = 1 -> priority (ticks_of n p) = 1.
Proof.
  intros Hp. induction n as [|n IH]; simpl; [done|]. unfold account. simpl. by rewrite IH.
Qed.

Lemma ticks_of_high n p : priority p = 0 -> 0 <= ticks_used p ->
  ticks_used p + Z.of_nat n < QUANTUM ->
  priority (ticks_of n p) = 0 /\ ticks_used (ticks_of n p) = ticks_used p + Z.of_nat n.
Proof.
  intros Hp Ht. induction n as [|n IH]; intros Hn; simpl; [split; [done|lia]|].
  destruct IH as [IH1 IH2]; [lia|]. unfold account. simpl. rewrite IH1, IH2. unfold QUANTUM in *.
  rewrite s32_small by lia. destruct (Z.leb_spec 5 (ticks_used p + Z.of_nat n + 1)); [lia|]. simpl.
  rewrite IH1. split; [done|lia].
Qed.

Lemma ticks_of_add n k p : ticks_of (n + k) p = ticks_of n (ticks_of k p).
Proof. induction n as [|n IH]; simpl; [done|]. by rewrite IH. Qed.

(** The machine around [yield], for a process that holds no lock. *)
Lemma yield_run c i F s q :
  ptable_lock ∉ F -> on_cpu c (Some i) 0 [] (ptable_lock :: F) (pm s) -> ptable s !! i = Some q ->
  switches (yield s) (fun s1 k =>
    same_but_pm (on_cpu c (Some i) 1 [ptable_lock] F)
      (set_ptable (alter (set_state RUNNABLE) i (ptable s)) s) s1 /\
    forall s2 c' F', ptable_lock ∉ F' -> on_cpu c' (Some i) 1 [ptable_lock] F' (pm s2) ->
      returns (k s2) (fun _ => same_but_pm (on_cpu c' (Some i) 0 [] (ptable_lock :: F')) s2)).
Proof.
  intros HF Hon Hq. unfold yield. apply switches_wp_bind.
  eapply wp_mono; [|by apply (kacquire_run c (Some i) 0 [] F)]. intros [] s1 (m1 & -> & H1).
  apply switches_wp_bind. eapply wp_mono; [|by apply (curproc_run c i 1 [ptable_lock] F)].
  intros r s2 (-> & m2 & -> & H2). apply switches_wp_bind. eapply wp_proc_upd; [done|]. simpl.
  apply switches_bind. eapply switches_mono;
    [|apply (sched_run c i F _ (set_state RUNNABLE q)); [exact H2|by apply lookup_alter_at|done]].
  intros s3 k ((m3 & -> & H3) & Hk). simpl. split; [by exists m3|].
  intros s4 c' F' HF' H4. apply returns_bind. eapply returns_mono; [|by eapply Hk].
  intros [] s5 (m5 & -> & H5). simpl.
  eapply wp_mono; [|apply (krelease_run c' (Some i) 1 [] F' ptable_lock); [lia|set_solver|exact H5]].
  intros [] s6 (m6 & -> & H6). by exists m6.
Qed.

Lemma mlfq_charge_tick i : preserves mlfq_inv (charge_tick i).
Proof.
  intros s Hs. destruct (ptable s !! i) as [p|] eqn:Hp.
  - rewrite (charge_tick_run _ _ _ Hp). simpl. apply Forall_alter; [done|]. apply account_ok.
  - unfold charge_tick, bind, proc_upd, proc_at, bind, getopt. by rewrite Hp.
Qed.
#[export] Hint Resolve mlfq_charge_tick : kern.

Lemma mlfq_timer_tick n : preserves mlfq_inv (timer_tick n).
Proof. unfold timer_tick. mlfq. Qed.

(** ** Theorems *)

(** C3. trap.c: a timer interrupt that finds a RUNNING process charges it one tick, demotes it to
    the low queue with a fresh counter when that tick ends its quantum of five in the high queue,
    and gives up the CPU with the process RUNNABLE; dispatched again, on any CPU, the handler
    finishes.  No other process is touched, and any other interrupt leaves the table alone. *)
Theorem timer_tick_effect c i s p trapno :
  on_cpu c (Some i) 0 [] [ptable_lock] (pm s) -> ptable s !! i = Some p -> state p = RUNNING ->
  if trapno =? T_IRQ0 + IRQ_TIMER then
    switches (timer_tick trapno s) (fun s1 k =>
      ptable s1 = <[i := set_state RUNNABLE (account p)]> (ptable s) /\ in_sched c (Some i) (pm s1) /\
      forall s2 c', in_sched c' (Some i) (pm s2) ->
        returns (k s2) (fun _ s3 => ptable s3 = ptable s2 /\ on_cpu c' (Some i) 0 [] [ptable_lock] (pm s3)))
  else wp (timer_tick trapno) (fun _ s' => ptable s' = ptable s /\ on_cpu c (Some i) 0 [] [ptable_lock] (pm s')) s.
Proof.
  intros Hon Hp Hr. pose proof (myproc_run c (Some i) 0 [] [ptable_lock] s ltac:(lia) Hon) as Hm.
  destruct (trapno =? T_IRQ0 + IRQ_TIMER) eqn:Ht.
  - unfold timer_tick. apply switches_wp_bind. eapply wp_mono; [|exact Hm].
    intros r s1 (-> & m1 & -> & H1). apply switches_wp_bind. eapply (wp_getopt _ _ p); [done|].
    rewrite bool_decide_eq_true_2, Ht by done. simpl. unfold bind at 1.
    rewrite (charge_tick_run i (set_pm m1 s) p Hp). simpl.
    eapply switches_mono; [|apply (yield_run c i [] _ (account p)); [set_solver|exact H1|by apply lookup_alter_at]].
    intros s2 k ((m2 & -> & H2) & Hk). split_and!; [|done|].
    + simpl. rewrite alter_alter, list_insert_alter. by apply (alter_ext_at _ _ _ _ p Hp).
    + intros s3 c' H3. eapply returns_mono; [|apply (Hk s3 c' []); [set_solver|exact H3]].
      intros [] s4 (m4 & -> & H4). done.
  - unfold timer_tick. apply wp_bind. eapply wp_mono; [|exact Hm]. intros r s1 (-> & m1 & -> & H1).
    apply wp_bind. eapply (wp_getopt _ _ p); [done|]. rewrite Ht, andb_false_r. simpl. by apply wp_ret.
Qed.

Definition pst_run : pst :=
  set_pm (set_cpus [set_cproc (Some 0%nat) cpu_x] mach_x)
    (pst_x [set_ticks_used 4 (proc_x 0 RUNNING 1); proc_x 0 RUNNABLE 2]).

Lemma pst_run_on_cpu : on_cpu 0 (Some 0%nat) 0 [] [ptable_lock] (pm pst_run).
Proof.
  split; [reflexivity|]. split; [lia|]. split; [by eexists|]. split; [constructor|].
  apply Forall_singleton. reflexivity.
Qed.

Lemma pst_run_account :
  exists q, <[0%nat := set_state RUNNABLE (account (set_ticks_used 4 (proc_x 0 RUNNING 1)))]> (ptable pst_run)
    !! 0%nat = Some q /\ state q = RUNNABLE /\ priority q = 1 /\ ticks_used q = 0.
Proof. eexists. split; [reflexivity|]. vm_compute. done. Qed.

Lemma timer_irq : (32 =? T_IRQ0 + IRQ_TIMER) = true.
Proof. reflexivity. Qed.

Lemma timer_tick_effect_witness :
  switches (timer_tick 32 pst_run) (fun s1 _ =>
    exists q, ptable s1 !! 0%nat = Some q /\ state q = RUNNABLE /\ priority q = 1 /\ ticks_used q = 0).
Proof.
  pose proof (timer_tick_effect 0 0 pst_run (set_ticks_used 4 (proc_x 0 RUNNING 1)) 32
    pst_run_on_cpu eq_refl eq_refl) as H.
  rewrite timer_irq in H. eapply switches_mono; [|exact H].
  intros s1 k [E _]. rewrite E. exact pst_run_account.
Defined.

(** trap.c and proc.c: a new process stays in the high queue for exactly its first four
    ticks and is in the low queue from the fifth on, for good: nothing but the end of its life
    brings a process back, and a process that sleeps often is demoted like any other once its
    ticks add up, since [ticks_used] is never reset while it waits. *)
Theorem quantum_demotion n p :
  priority p = 0 -> ticks_used p = 0 ->
  if (n <? 5)%nat then priority (ticks_of n p) = 0 /\ ticks_used (ticks_of n p) = Z.of_nat n
  else priority (ticks_of n p) = 1.
Proof.
  intros Hp Ht. destruct (Nat.ltb_spec n 5) as [Hn|Hn].
  - destruct (ticks_of_high n p Hp) as [E1 E2]; [lia|unfold QUANTUM; lia|]. split; [done|lia].
  - replace n with ((n - 5) + 5)%nat by lia. rewrite ticks_of_add. apply ticks_of_low.
    destruct (ticks_of_high 4 p Hp) as [E1 E2]; [lia|unfold QUANTUM; lia|].
    change (ticks_of 5 p) with (account (ticks_of 4 p)). unfold account. simpl.
    change (account (account (account (account p)))) with (ticks_of 4 p). rewrite E1, E2, Ht. done.
Qed.

Lemma quantum_demotion_witness :
  priority (ticks_of 4 proc0) = 0 /\ priority (ticks_of 7 proc0) = 1.
Proof.
  split; [exact (proj1 (quantum_demotion 4 proc0 eq_refl eq_refl))|exact (quantum_demotion 7 proc0 eq_refl eq_refl)].
Defined.
