(* ===== verification/RoundRobin.v ===== *)
(** * The scheduler of the original kernel (src/xv6-public/proc.c), and the order of the turns

    The original's scheduler() is modelled beside the modified one, over the same process table: its
    body of the scan is the [dispatch] of Sched.v, and only the scans differ.  [turns] is the
    sequence of the processes that get a CPU during a run. *)
From S2P Require Import Prelude Mmu Spinlock Sched.

Module Original.

(** One round of the scan: the process at index [i], if it is RUNNABLE; there is no [break]. *)
Definition scan_step (c i : nat) : M pst unit :=
  let* p := proc_at i in
  when (bool_decide (state p = RUNNABLE)) (dispatch c i).

(** One iteration of the [for(;;)]. *)
Definition scheduler_pass (c : nat) : M pst unit :=
  zoom pm_lens sti;;;
  kacquire ptable_lock;;;
  let* n := gets (fun s => length (ptable s)) in
  for_each (seq 0 n) (scan_step c);;;
  krelease ptable_lock.

Fixpoint scheduler_loop (n : nat) (c : nat) : M pst unit :=
  match n with
  | O => nofuel
  | S n' => scheduler_pass c;;; scheduler_loop n' c
  end.
Definition scheduler (n : nat) : M pst unit :=
  let* c := zoom pm_lens mycpu in
  cpu_set_proc c None;;;
  scheduler_loop n c.
End Original.

(** ** Specifications *)

(** The processes that CPU [c] is given to, in order, when the scheduler is resumed with [env]. *)
Fixpoint turns (c : nat) (env : pst -> pst) (o : outcome pst unit) : list nat :=
  match o with
  | Switch s k => option_list (cpus (pm s) !! c ≫= cproc) ++ turns c env (k (env s))
  | _ => []
  end.

(** Round robin: every RUNNABLE process of the table, once. *)
Definition runnable_at (t : list proc) (i : nat) : Prop := exists p, t !! i = Some p /\ state p = RUNNABLE.
#[local] Instance runnable_at_dec t i : Decision (runnable_at t i).
Proof.
  destruct (t !! i) as [p|] eqn:E; [destruct (decide (state p = RUNNABLE))|].
  - left. by exists p.
  - right. intros (p' & Hp' & Hr). congruence.
  - right. intros (p' & Hp' & _). congruence.
Defined.
Definition round (t : list proc) : list nat := filter (runnable_at t) (seq 0 (length t)).

(** ** Lemmas *)
Lemma in_sched_turn c i s : in_sched c (Some i) (pm s) -> option_list (cpus (pm s) !! c ≫= cproc) = [i].
Proof. intros (_ & _ & (k & -> & _ & Hp) & _). simpl. by rewrite Hp. Qed.

Lemma turns_assoc {A B} c env (o : outcome pst A) (f : A -> M pst B) (g : B -> M pst unit) :
  turns c env (bind_outcome (bind_outcome o f) g) = turns c env (bind_outcome o (fun a => bind (f a) g)).
Proof. induction o as [a s|s k IH| | | |]; simpl; [done| |done..]. by rewrite IH. Qed.

Section turns.
Context (c : nat) (env : pst -> pst) (t : list proc).
Context (Henv : yields env) (Hnr : no_running t) (Hok : runnable_ok_t t).

Lemma turns_scan_step i s (f : M pst unit) X : in_sched c None (pm s) -> same_table t s -> (i < length t)%nat ->
  (forall s', in_sched c None (pm s') -> same_table t s' -> turns c env (f s') = X) ->
  turns c env (bind (Original.scan_step c i) (fun _ => f) s) = filter (runnable_at t) [i] ++ X.
Proof.
  intros Hin Hs Hi Hf. apply lookup_lt_is_Some in Hi as [p Hp].
  destruct (Forall2_lookup_l _ _ _ _ _ Hs Hp) as (p' & Hp' & E & _ & Ek & Ed).
  assert (Original.scan_step c i s = (when (bool_decide (state p' = RUNNABLE)) (dispatch c i)) s) as Estep
    by (unfold Original.scan_step, proc_at, bind, getopt; by rewrite Hp').
  rewrite filter_cons, filter_nil. unfold bind. rewrite Estep, E. destruct (decide (runnable_at t i)) as [Hr|Hr].
  - destruct Hr as (p0 & Hp0 & Hr). rewrite Hp in Hp0. injection Hp0 as <-. rewrite bool_decide_eq_true_2 by done. simpl.
    assert (dispatchable p') as Hd.
    { unfold runnable_ok_t in Hok. rewrite Forall_lookup in Hok. destruct (Hok i p Hp Hr). split; congruence. }
    pose proof (dispatch_run c i p' s Hin Hp' Hd) as Hdis. destruct (dispatch c i s) as [|s1 k| | | |]; try done.
    destruct Hdis as (Ht & Hin1 & Hk). simpl. rewrite (in_sched_turn c i s1 Hin1). simpl. f_equal.
    destruct (Henv s1) as [Epm _]. specialize (Hk (env s1) (Some i)). rewrite Epm in Hk. specialize (Hk Hin1).
    destruct (k (env s1)) as [[] s3| | | | |]; try done. destruct Hk as (m & -> & Hm). simpl. apply Hf; [done|].
    by apply (yields_back_at env t s s1 i p).
  - rewrite bool_decide_eq_false_2; [|intros Hr'; apply Hr; by exists p]. simpl. by apply Hf.
Qed.

Lemma turns_scan l s (f : M pst unit) X : in_sched c None (pm s) -> same_table t s -> Forall (fun i => i < length t)%nat l ->
  (forall s', in_sched c None (pm s') -> same_table t s' -> turns c env (f s') = X) ->
  turns c env ((for_each l (Original.scan_step c);;; f) s) = filter (runnable_at t) l ++ X.
Proof.
  revert s. induction l as [|i l IH]; intros s Hin Hs Hl Hf; [by apply Hf|]. apply Forall_cons in Hl as [Hi Hl].
  assert (filter (runnable_at t) (i :: l) = filter (runnable_at t) [i] ++ filter (runnable_at t) l) as ->
    by (rewrite <- filter_app; done).
  rewrite <- app_assoc. simpl for_each. unfold bind at 1 2. rewrite turns_assoc. apply turns_scan_step; [done..|]. intros s' Hin' Hs'. by apply IH.
Qed.

(** One pass of the original. *)
Lemma turns_original_pass s (f : M pst unit) X : idle c (pm s) -> same_table t s ->
  (forall s', idle c (pm s') -> same_table t s' -> turns c env (f s') = X) ->
  turns c env ((Original.scheduler_pass c;;; f) s) = round t ++ X.
Proof.
  intros Hidle Hs Hf. destruct (in_sched_acquire c s Hidle) as (m & Hin & Hrun).
  unfold bind at 1, Original.scheduler_pass. rewrite Hrun. clear Hrun. unfold bind at 1. simpl.
  assert (length (ptable s) = length t) as -> by (symmetry; by eapply Forall2_length).
  unfold bind at 1. rewrite turns_assoc. apply (turns_scan (seq 0 (length t)) (set_pm m s)); [done|done| |].
  - apply Forall_forall. intros i Hi. apply elem_of_seq in Hi. lia.
  - intros s' Hin' Hs'. pose proof (in_sched_release c s' Hin') as Hrel. unfold wp in Hrel. unfold bind.
    destruct (krelease ptable_lock s') as [[] s2| | | | |]; try done. destruct Hrel as (m' & -> & Hm'). simpl. by apply Hf.
Qed.

(** One pass of the modified scheduler: the first process of each queue. *)
Lemma turns_low s o (f : M pst unit) X : low_phase c s o -> same_table t s ->
  (forall s', idle c (pm s') -> same_table t s' -> turns c env (f s') = X) ->
  turns c env (bind_outcome o (fun _ => f)) = option_list (pick 1 t) ++ X.
Proof.
  unfold low_phase. intros Ho Hs Hf. rewrite (same_table_pick t s) in Ho by done. destruct (pick 1 t) as [i|] eqn:Hi.
  - destruct o as [|s1 k| | | |]; try done. simpl. destruct Ho as (Ht & Hin & Hk). rewrite (in_sched_turn c i s1 Hin). simpl. f_equal.
    specialize (Hk (env s1) (Some i)). destruct (Henv s1) as [Epm _]. rewrite Epm in Hk. specialize (Hk Hin).
    destruct (k (env s1)) as [[] s3| | | | |]; try done. destruct Hk as (m & -> & Hm). simpl. apply Hf; [done|].
    eapply (yields_back env t s s1); eauto.
  - destruct o as [[] s1| | | | |]; try done. destruct Ho as (m & -> & Hm). simpl. by apply Hf.
Qed.

Lemma turns_mlfq_pass s (f : M pst unit) X : idle c (pm s) -> same_table t s ->
  (forall s', idle c (pm s') -> same_table t s' -> turns c env (f s') = X) ->
  turns c env ((scheduler_pass c;;; f) s) = option_list (pick 0 t) ++ option_list (pick 1 t) ++ X.
Proof.
  intros Hidle Hs Hf. pose proof (scheduler_pass_run c s Hidle (same_table_ok _ _ Hs Hok)) as Hp.
  rewrite (same_table_pick t s) in Hp by done. unfold bind.
  destruct (pick 0 t) as [i|] eqn:Hi; [|by eapply turns_low].
  destruct (scheduler_pass c s) as [|s1 k| | | |]; try done. simpl. destruct Hp as (Ht & Hin & Hk).
  rewrite (in_sched_turn c i s1 Hin). simpl. f_equal.
  assert (same_table t (env s1)) as Hs1 by (eapply (yields_back env t s s1); eauto).
  eapply (turns_low (env s1)); [|done|done]. apply (Hk _ (Some i)); [|by eapply same_table_ok].
  destruct (Henv s1) as [-> _]. done.
Qed.

(** A loop whose passes give out the turns [R]. *)
Lemma turns_loop (pass : M pst unit) (loop : nat -> M pst unit) R n s : (forall n, loop (S n) = (pass;;; loop n)) -> loop 0%nat = nofuel ->
  (forall s (f : M pst unit) X, idle c (pm s) -> same_table t s -> (forall s', idle c (pm s') -> same_table t s' -> turns c env (f s') = X) ->
     turns c env ((pass;;; f) s) = R ++ X) ->
  idle c (pm s) -> same_table t s -> turns c env (loop n s) = concat (replicate n R).
Proof.
  intros HS HO Hpass. revert s. induction n as [|n IH]; intros s Hidle Hs; [by rewrite HO|]. rewrite HS. by apply Hpass.
Qed.
End turns.

(** ** Theorems *)

(** C5. src/xv6-public/proc.c, scheduler(): round robin.  When every dispatched process comes back RUNNABLE and nothing
    else becomes runnable or stops being so, each pass gives one turn to every RUNNABLE process of the table, in table
    order: in [n] passes every one of them has had exactly [n] turns. *)
Theorem original_round_robin c env n s :
  idle c (pm s) -> runnable_ok s -> Forall (fun p => state p <> RUNNING) (ptable s) -> yields env ->
  turns c env (Original.scheduler_loop n c s) = concat (replicate n (round (ptable s))).
Proof.
  intros Hidle Hok Hnr Henv.
  apply (turns_loop c env (ptable s) (Original.scheduler_pass c) (fun n => Original.scheduler_loop n c)); try done.
  - intros. by apply turns_original_pass.
  - by apply Forall2_same.
Qed.

Lemma original_round_robin_witness : turns 0 env_yield (Original.scheduler_loop 3 0 (pst_x table_x)) = [1; 2; 3; 4; 1; 2; 3; 4; 1; 2; 3; 4]%nat.
Proof.
  apply (original_round_robin 0 env_yield 3 (pst_x table_x)); [apply idle_x|apply table_x_ok|by repeat constructor|].
  intros s. split; [reflexivity|]. simpl. apply Forall2_fmap_r. by apply Forall2_same.
Defined.


