(* ===== verification/Sleeplock.v ===== *)
(** * Sleep locks (sleeplock.c)

    A sleep lock is a field of some component's record; [slref] says where, and which spin lock
    protects it.  The operations run in any kernel state with a process table.  The file also
    fixes how later files describe the place of a thread: [put_pm] replaces the machine part of a
    state, and [wp_lock]/[wp_unlock] move through a critical section. *)
From S2P Require Import Prelude Mmu Spinlock Pages Sched Process Syscall.

Record sleeplock := MkSleeplock {
  sl_locked : Z;             (* is the lock held? *)
  sl_name : string;
  sl_pid : Z                 (* process holding lock *)
}.
Definition sleeplock0 : sleeplock := MkSleeplock 0 "" 0.

(** A pointer to a sleep lock inside the component [T]: how to read and update it ([None] outside
    the array), the spin lock [lk] in it, and its address as a channel. *)
Record slref (T : Type) := Slref {
  sl_sel : T -> option sleeplock;
  sl_mod : (sleeplock -> sleeplock) -> T -> T;
  sl_lk : lockid;
  sl_chan : lockid
}.
Arguments Slref {T} _ _ _ _.
Arguments sl_sel {T} _ _.
Arguments sl_mod {T} _ _ _.
Arguments sl_lk {T} _.
Arguments sl_chan {T} _.

Section sleeplock.
Context {S T : Type} `{!HasProc S} (L : lens S T) (r : slref T).

Definition sl_get : M S sleeplock := getopt (fun s => sl_sel r (view L s)).
Definition sl_upd (f : sleeplock -> sleeplock) : M S unit :=
  let* _ := sl_get in modify (fun s => put L (sl_mod r f (view L s)) s).

Definition set_locked (z : Z) (l : sleeplock) : sleeplock := MkSleeplock z (sl_name l) (sl_pid l).
Definition set_slname (n : string) (l : sleeplock) : sleeplock := MkSleeplock (sl_locked l) n (sl_pid l).
Definition set_slpid (z : Z) (l : sleeplock) : sleeplock := MkSleeplock (sl_locked l) (sl_name l) z.

Definition initsleeplock (name : string) : M S unit :=
  ptab (kinitlock (sl_lk r) "sleep lock");;;
  sl_upd (set_slname name);;;
  sl_upd (set_locked 0);;;
  sl_upd (set_slpid 0).

(** The [while] of acquiresleep(); one unit of fuel per wakeup. *)
Fixpoint acquiresleep_loop (k : nat) : M S unit :=
  let* l := sl_get in
  if sl_locked l =? 0 then ret tt else
  ptab (sleep (sl_chan r) (Some (sl_lk r)));;;
  match k with O => nofuel | Datatypes.S k' => acquiresleep_loop k' end.
Definition acquiresleep (k : nat) : M S unit :=
  ptab (kacquire (sl_lk r));;;
  acquiresleep_loop k;;;
  sl_upd (set_locked 1);;;
  let* p := curp in
  sl_upd (set_slpid (pid p));;;
  ptab (krelease (sl_lk r)).

Definition releasesleep : M S unit :=
  ptab (kacquire (sl_lk r));;;
  sl_upd (set_locked 0);;;
  sl_upd (set_slpid 0);;;
  ptab (wakeup (sl_chan r));;;
  ptab (krelease (sl_lk r)).

Definition holdingsleep : M S bool :=
  ptab (kacquire (sl_lk r));;;
  let* l := sl_get in
  let* b := (if sl_locked l =? 0 then ret false
             else let* p := curp in ret (sl_pid l =? pid p)) in
  ptab (krelease (sl_lk r));;;
  ret b.
End sleeplock.

(** ** Specifications *)

(** The laws of a pointer to a sleep lock. *)
Class SlrefLaws {T} (r : slref T) : Prop := {
  sel_mod : forall f t, sl_sel r (sl_mod r f t) = f <$> sl_sel r t;
  mod_mod : forall f g t, sl_mod r f (sl_mod r g t) = sl_mod r (f ∘ g) t;
  mod_ext : forall f g t, (forall l, sl_sel r t = Some l -> f l = g l) -> sl_mod r f t = sl_mod r g t
}.

(** Taking and leaving a spin lock does not hand the CPU over. *)
Lemma straight_acquire lk : straight (acquire lk).
Proof. straighten. Qed.
Lemma straight_krelease lk : straight (krelease (S := pst) lk).
Proof. unfold krelease, release, holding, pushcli, popcli, mycpu_write, mycpu_read. straighten. Qed.

Section place.
Context {S : Type} `{!HasProc S}.

Definition machine (s : S) : mach := pm (view proc_lens s).
Definition put_pm (m : mach) (s : S) : S := put proc_lens (set_pm m (view proc_lens s)) s.

(** The same machine step, and sleepers woken. *)
Definition put_woken (ch : lockid) (m : mach) (s : S) : S :=
  put proc_lens (set_ptable (map (wake (Some ch)) (ptable (view proc_lens s))) (set_pm m (view proc_lens s))) s.

(** [F] without [lk]. *)
Definition without (lk : lockid) (F : list lockid) : list lockid := filter (.≠ lk) F.

(** ** Lemmas *)
Lemma machine_put_pm m s : machine (put_pm m s) = m.
Proof. unfold machine, put_pm. by rewrite view_put. Qed.
Lemma put_pm_put_pm m m' s : put_pm m (put_pm m' s) = put_pm m s.
Proof. unfold put_pm. by rewrite view_put, put_put. Qed.
Lemma machine_put_woken ch m s : machine (put_woken ch m s) = m.
Proof. unfold machine, put_woken. by rewrite view_put. Qed.
Lemma ptable_put_pm m s : ptable (view proc_lens (put_pm m s)) = ptable (view proc_lens s).
Proof. unfold put_pm. by rewrite view_put. Qed.
Lemma put_pm_woken ch m m' s : put_pm m (put_woken ch m' s) = put_woken ch m s.
Proof. unfold put_pm, put_woken. by rewrite view_put, put_put. Qed.
Lemma put_woken_pm ch m m' s : put_woken ch m (put_pm m' s) = put_woken ch m s.
Proof. unfold put_pm, put_woken. by rewrite view_put, put_put. Qed.

Section other.
Context {T} (L : lens S T) `{!LensLaws L} `{!LensIndep proc_lens L}.
Lemma view_put_pm m s : view L (put_pm m s) = view L s.
Proof. apply indep_view_r. Qed.
Lemma machine_put_other t s : machine (put L t s) = machine s.
Proof. unfold machine. by rewrite indep_view_l. Qed.
Lemma put_pm_other m t s : put_pm m (put L t s) = put L t (put_pm m s).
Proof. unfold put_pm. by rewrite indep_view_l, indep_put. Qed.
Lemma view_put_woken ch m s : view L (put_woken ch m s) = view L s.
Proof. apply indep_view_r. Qed.
Lemma put_woken_other ch m t s : put_woken ch m (put L t s) = put L t (put_woken ch m s).
Proof. unfold put_woken. by rewrite indep_view_l, indep_put. Qed.
End other.

Lemma without_in lk lk' F : lk' ∈ without lk F <-> lk' ∈ F /\ lk' <> lk.
Proof. unfold without. rewrite list_elem_of_filter. tauto. Qed.

Lemma wp_ptab {A} (m : M pst A) (Q : A -> S -> Prop) s :
  wp m (fun a t => Q a (put proc_lens t s)) (view proc_lens s) -> wp (ptab m) Q s.
Proof. apply wp_zoom. Qed.

Lemma wp_lock c p n L F lk (Q : unit -> S -> Prop) s :
  0 <= n -> lk ∈ F -> on_cpu c p n L F (machine s) ->
  (forall m, on_cpu c p (n + 1) (lk :: L) (without lk F) m -> Q tt (put_pm m s)) ->
  wp (ptab (kacquire lk)) Q s.
Proof.
  intros Hn Hlk Hon HQ. apply wp_ptab.
  eapply wp_mono; [|apply (kacquire_run c p n L (without lk F)); [done| |]].
  - intros [] t (m & -> & Hm). by apply HQ.
  - rewrite without_in. naive_solver.
  - eapply on_cpu_weaken; [exact Hon|set_solver|]. intros x [->|Hx]%elem_of_cons; [done|].
    by apply without_in in Hx as [? _].
Qed.

Lemma on_cpu_initlock c p n L F lk name ps m : (lk ∉ L) ->
  on_cpu c p n L F m -> on_cpu c p n L F (set_lock lk (MkSpinlock 0 name None ps) m).
Proof.
  intros HL (H1 & H2 & H3 & HHL & HHF). split_and!; [done..| |].
  - rewrite Forall_forall in *. intros x Hx. specialize (HHL x Hx). unfold held_here in *.
    rewrite lock_at_set, decide_False by (by intros ->). done.
  - rewrite Forall_forall in *. intros x Hx. specialize (HHF x Hx). unfold lock_free in *.
    rewrite lock_at_set. by destruct (decide (x = lk)).
Qed.

Lemma wp_initlock c p n L F lk name (Q : unit -> S -> Prop) s :
  (lk ∉ L) -> on_cpu c p n L F (machine s) -> (forall m, on_cpu c p n L F m -> Q tt (put_pm m s)) ->
  wp (ptab (kinitlock lk name)) Q s.
Proof. intros HL Hon HQ. apply wp_ptab, wp_zoom, wp_modify. simpl. apply HQ. by apply on_cpu_initlock. Qed.

Lemma wp_unlock c p n L F lk (Q : unit -> S -> Prop) s :
  1 <= n -> lk ∉ L -> on_cpu c p n (lk :: L) (without lk F) (machine s) ->
  (forall m, on_cpu c p (n - 1) L F m -> Q tt (put_pm m s)) ->
  wp (ptab (krelease lk)) Q s.
Proof.
  intros Hn HL Hon HQ. apply wp_ptab.
  eapply wp_mono; [|by apply (krelease_run c p n L (without lk F))].
  intros [] t (m & -> & Hm). apply HQ. eapply on_cpu_weaken; [exact Hm|done|].
  intros x Hx. apply elem_of_cons. destruct (decide (x = lk)); [by left|right].
  by apply without_in.
Qed.

Lemma wp_wakeup c p n L F ch (Q : unit -> S -> Prop) s :
  0 <= n -> ptable_lock ∉ L -> ptable_lock ∈ F -> on_cpu c p n L F (machine s) ->
  (forall m, on_cpu c p n L F m -> Q tt (put_woken ch m s)) ->
  wp (ptab (wakeup ch)) Q s.
Proof.
  intros Hn HL HF Hon HQ. apply wp_ptab.
  eapply wp_mono; [|apply (wakeup_run c p n L (without ptable_lock F)); [done|done| |]].
  - intros [] t (m & -> & Hm). apply HQ. eapply on_cpu_weaken; [exact Hm|done|].
    intros x Hx. apply elem_of_cons. destruct (decide (x = ptable_lock)); [by left|right].
    by apply without_in.
  - rewrite without_in. naive_solver.
  - eapply on_cpu_weaken; [exact Hon|done|]. intros x [->|Hx]%elem_of_cons; [done|].
    by apply without_in in Hx as [? _].
Qed.

Lemma wp_curp c i n L F p (Q : proc -> S -> Prop) s :
  0 <= n -> on_cpu c (Some i) n L F (machine s) -> ptable (view proc_lens s) !! i = Some p ->
  (forall m, on_cpu c (Some i) n L F m -> Q p (put_pm m s)) ->
  wp curp Q s.
Proof.
  intros Hn Hon Hp HQ. unfold curp. apply wp_bind, wp_ptab.
  eapply wp_mono; [|by apply (curproc_run c i n L F)]. intros r t (-> & m & -> & Hm). simpl.
  apply wp_ptab. eapply (wp_getopt _ _ p); [by rewrite view_put|].
  rewrite view_put, put_put. by apply HQ.
Qed.
End place.

(** ** Where a thread stands between two operations

    Process [i] with number [n] runs on CPU [c], inside no critical section; the spin locks [F],
    ptable.lock among them, are free. *)
Section base.
Context {S : Type} `{!HasProc S} (c i : nat) (n : Z) (F : list lockid).

Definition at_base (s : S) : Prop :=
  on_cpu c (Some i) 0 [] F (machine s) /\ ptable_lock ∈ F /\
  exists p, ptable (view proc_lens s) !! i = Some p /\ pid p = n.

Lemma at_base_put_pm m s : at_base s -> on_cpu c (Some i) 0 [] F m -> at_base (put_pm m s).
Proof.
  intros (_ & HF & p & Hp & Hn) Hm. split_and!; [by rewrite machine_put_pm|done|].
  exists p. by rewrite ptable_put_pm.
Qed.

Lemma at_base_put_woken ch m s :
  at_base s -> on_cpu c (Some i) 0 [] F m -> at_base (put_woken ch m s).
Proof.
  intros (_ & HF & p & Hp & Hn) Hm. split_and!; [by rewrite machine_put_woken|done|].
  exists (wake (Some ch) p). unfold put_woken. rewrite view_put. simpl.
  rewrite list_lookup_fmap, Hp. split; [done|]. unfold wake. by destruct (_ && _).
Qed.

Lemma at_base_other {T} (L : lens S T) `{!LensIndep proc_lens L} t s :
  at_base s -> at_base (put L t s).
Proof. intros (Hm & HF & p & Hp & Hn). split_and!; [by rewrite machine_put_other|done|]. exists p. by rewrite indep_view_l. Qed.

Context {T} (L : lens S T) `{!LensLaws L} `{!LensIndep proc_lens L} (r : slref T) `{!SlrefLaws r}.

Lemma wp_sl_get l (Q : sleeplock -> S -> Prop) s :
  sl_sel r (view L s) = Some l -> Q l s -> wp (sl_get L r) Q s.
Proof. intros Hl HQ. by eapply (wp_getopt (fun s => sl_sel r (view L s))). Qed.

Lemma wp_sl_upd f l (Q : unit -> S -> Prop) s :
  sl_sel r (view L s) = Some l -> Q tt (put L (sl_mod r f (view L s)) s) -> wp (sl_upd L r f) Q s.
Proof. intros Hl HQ. apply wp_bind. eapply wp_sl_get; [done|]. by apply wp_modify. Qed.

(** A free sleep lock is taken at once. *)
Lemma wp_acquiresleep k l (Q : unit -> S -> Prop) s :
  at_base s -> sl_lk r ∈ F -> sl_sel r (view L s) = Some l -> sl_locked l = 0 ->
  (forall m, on_cpu c (Some i) 0 [] F m ->
     Q tt (put L (sl_mod r (fun l => MkSleeplock 1 (sl_name l) n) (view L s)) (put_pm m s))) ->
  wp (acquiresleep L r k) Q s.
Proof.
  intros (Hon & HF & p & Hp & Hn) Hlk Hl H0 HQ. unfold acquiresleep. apply wp_bind.
  eapply (wp_lock c (Some i) 0 [] F); [done..|]. intros m1 H1. apply wp_bind.
  destruct k as [|k]; simpl.
  all: apply wp_bind; (eapply wp_sl_get; [by rewrite view_put_pm|]).
  all: rewrite H0; simpl; apply wp_ret, wp_bind; (eapply wp_sl_upd; [by rewrite view_put_pm|]).
  all: rewrite view_put_pm by done.
  all: apply wp_bind; (eapply (wp_curp c i (0 + 1) [sl_lk r] (without (sl_lk r) F) p); [done| | |]);
    [by rewrite machine_put_other, machine_put_pm|by rewrite indep_view_l, ptable_put_pm|].
  all: intros m2 H2; rewrite put_pm_other, put_pm_put_pm by done; apply wp_bind.
  all: (eapply wp_sl_upd; [by rewrite view_put, sel_mod, Hl|]).
  all: rewrite view_put, put_put, mod_mod.
  all: (eapply (wp_unlock c (Some i) (0 + 1) [] F); [done|set_solver|by rewrite machine_put_other, machine_put_pm|]).
  all: intros m3 H3; rewrite put_pm_other, put_pm_put_pm by done; rewrite Hn; by apply HQ.
Qed.

Lemma wp_releasesleep l (Q : unit -> S -> Prop) s :
  at_base s -> sl_lk r ∈ F -> sl_lk r <> ptable_lock -> sl_sel r (view L s) = Some l ->
  (forall m, on_cpu c (Some i) 0 [] F m ->
     Q tt (put L (sl_mod r (fun l => MkSleeplock 0 (sl_name l) 0) (view L s)) (put_woken (sl_chan r) m s))) ->
  wp (releasesleep L r) Q s.
Proof.
  intros (Hon & HF & p & Hp & Hn) Hlk Hne Hl HQ. unfold releasesleep. apply wp_bind.
  eapply (wp_lock c (Some i) 0 [] F); [done..|]. intros m1 H1. apply wp_bind.
  eapply wp_sl_upd; [by rewrite view_put_pm|]. rewrite view_put_pm by done. apply wp_bind.
  eapply wp_sl_upd; [by rewrite view_put, sel_mod, Hl|]. rewrite view_put, put_put, mod_mod. apply wp_bind.
  eapply (wp_wakeup c (Some i) (0 + 1) [sl_lk r] (without (sl_lk r) F)); [done|set_solver| | |].
  { apply without_in. done. }
  { by rewrite machine_put_other, machine_put_pm. }
  intros m2 H2. rewrite put_woken_other, put_woken_pm by done.
  eapply (wp_unlock c (Some i) (0 + 1) [] F); [done|set_solver|by rewrite machine_put_other, machine_put_woken|].
  intros m3 H3. rewrite put_pm_other, put_pm_woken by done. by apply HQ.
Qed.

Lemma wp_holdingsleep l (Q : bool -> S -> Prop) s :
  at_base s -> sl_lk r ∈ F -> sl_sel r (view L s) = Some l ->
  (forall m, on_cpu c (Some i) 0 [] F m ->
     Q (negb (sl_locked l =? 0) && (sl_pid l =? n)) (put_pm m s)) ->
  wp (holdingsleep L r) Q s.
Proof.
  intros (Hon & HF & p & Hp & Hn) Hlk Hl HQ. unfold holdingsleep. apply wp_bind.
  eapply (wp_lock c (Some i) 0 [] F); [done..|]. intros m1 H1. apply wp_bind.
  eapply wp_sl_get; [by rewrite view_put_pm|]. apply wp_bind.
  destruct (sl_locked l =? 0); simpl in *.
  - apply wp_ret, wp_bind. eapply (wp_unlock c (Some i) (0 + 1) [] F); [done|set_solver|by rewrite machine_put_pm|].
    intros m3 H3. rewrite put_pm_put_pm. apply wp_ret. by apply HQ.
  - apply wp_bind. eapply (wp_curp c i (0 + 1) [sl_lk r] (without (sl_lk r) F) p);
      [done|by rewrite machine_put_pm|by rewrite ptable_put_pm|].
    intros m2 H2. rewrite put_pm_put_pm. apply wp_ret, wp_bind.
    eapply (wp_unlock c (Some i) (0 + 1) [] F); [done|set_solver|by rewrite machine_put_pm|].
    intros m3 H3. rewrite put_pm_put_pm. apply wp_ret. rewrite Hn. by apply HQ.
Qed.
End base.
