(* ===== verification/Block.v ===== *)
(** * The interface of the block layer (fs.h, buf.h)

    What log.c and fs.c use of bio.c: [BlockOps] are the operations on buffers, [BlockCache] the
    promises to a single thread between two points where it gives up the CPU.  Bio.v implements
    the operations and proves the promises for the memory disk of memide.c.  Block contents are
    lists of [BSIZE] bytes. *)
From S2P Require Import Prelude Mmu KString.

Definition BSIZE : nat := 512.
Definition NBUF : nat := 30.
Definition FSSIZE : Z := 1000.
Definition B_VALID : Z := 2.
Definition B_DIRTY : Z := 4.

(** Bytes and little-endian words inside a block. *)
Definition byte_at (d : list Z) (off : nat) : Z := d !!! off.
Definition word_at (d : list Z) (off : nat) : Z :=
  byte_at d off + 2 ^ 8 * byte_at d (off + 1) + 2 ^ 16 * byte_at d (off + 2) + 2 ^ 24 * byte_at d (off + 3).
Definition half_at (d : list Z) (off : nat) : Z := byte_at d off + 2 ^ 8 * byte_at d (off + 1).
Definition set_bytes (off : nat) (bs : list Z) (d : list Z) : list Z := list_inserts off bs d.
Definition word_bytes (v : Z) : list Z := [u8 v; u8 (Z.shiftr v 8); u8 (Z.shiftr v 16); u8 (Z.shiftr v 24)].
Definition half_bytes (v : Z) : list Z := [u8 v; u8 (Z.shiftr v 8)].
Definition set_word (off : nat) (v : Z) (d : list Z) : list Z := set_bytes off (word_bytes v) d.
Definition set_half (off : nat) (v : Z) (d : list Z) : list Z := set_bytes off (half_bytes v) d.
Definition bytes_from (off n : nat) (d : list Z) : list Z := take n (drop off d).

(** A [struct buf *] is its index in the cache. *)
Class BlockOps (S : Type) := {
  bread : Z -> Z -> M S nat;
  bwrite : nat -> M S unit;
  brelse : nat -> M S unit;
  bdata : nat -> M S (list Z);                        (* b->data *)
  bset : nat -> (list Z -> list Z) -> M S unit;       (* a store into b->data *)
  bblockno : nat -> M S Z;                            (* b->blockno *)
  bdirty : nat -> M S unit                            (* b->flags |= B_DIRTY *)
}.

(** ** Specifications *)

(** What a thread may know of the cache: the disk, what [bread] would show of each block, the
    blocks pinned by B_DIRTY, the buffers it holds, and the writes made to the disk so far. *)
Record bview := BView {
  v_disk : Z -> list Z;
  v_cache : Z -> list Z;
  v_pinned : gset Z;
  v_held : gmap nat Z;
  v_writes : list (Z * list Z)
}.

Definition upd_block (b : Z) (d : list Z) (f : Z -> list Z) : Z -> list Z :=
  fun x => if x =? b then d else f x.

(** The disk after some writes; a crash leaves the disk as the first [k] of them did. *)
Definition apply_writes (ws : list (Z * list Z)) (D : Z -> list Z) : Z -> list Z :=
  fold_left (fun D w => upd_block (fst w) (snd w) D) ws D.

Definition held_blocks (H : gmap nat Z) : gset Z := list_to_set (snd <$> map_to_list H).

Definition v_set_held (H : gmap nat Z) (v : bview) : bview :=
  BView (v_disk v) (v_cache v) (v_pinned v) H (v_writes v).
Definition v_store (b : Z) (d : list Z) (v : bview) : bview :=
  BView (v_disk v) (upd_block b d (v_cache v)) (v_pinned v) (v_held v) (v_writes v).
Definition v_pin (b : Z) (v : bview) : bview :=
  BView (v_disk v) (v_cache v) ({[b]} ∪ v_pinned v) (v_held v) (v_writes v).
Definition v_write (b : Z) (v : bview) : bview :=
  BView (upd_block b (v_cache v b) (v_disk v)) (v_cache v) (v_pinned v ∖ {[b]}) (v_held v)
    (v_writes v ++ [(b, v_cache v b)]).

Class BlockCache (S : Type) `{BlockOps S} := {
  bc_size : Z;                         (* blocks of the disk *)
  bc_rep : S -> bview -> Prop;
  bc_length : forall s v b, bc_rep s v -> 0 <= b < bc_size -> length (v_cache v b) = BSIZE;
  bc_clean : forall s v b, bc_rep s v -> 0 <= b < bc_size -> b ∉ v_pinned v -> b ∉ held_blocks (v_held v) ->
    v_cache v b = v_disk v b;
  bc_bread : forall s v b, bc_rep s v -> 0 <= b < bc_size -> b ∉ held_blocks (v_held v) ->
    (size ({[b]} ∪ v_pinned v ∪ held_blocks (v_held v)) <= NBUF)%nat ->
    wp (bread 1 b) (fun h s' => v_held v !! h = None /\
      bc_rep s' (v_set_held (<[h := b]> (v_held v)) v)) s;
  bc_bwrite : forall s v h b, bc_rep s v -> v_held v !! h = Some b ->
    wp (bwrite h) (fun _ s' => bc_rep s' (v_write b v)) s;
  bc_brelse : forall s v h b, bc_rep s v -> v_held v !! h = Some b ->
    b ∈ v_pinned v \/ v_cache v b = v_disk v b ->
    wp (brelse h) (fun _ s' => bc_rep s' (v_set_held (delete h (v_held v)) v)) s;
  bc_bdata : forall s v h b, bc_rep s v -> v_held v !! h = Some b ->
    wp (bdata h) (fun d s' => s' = s /\ d = v_cache v b) s;
  bc_bset : forall s v h b f, bc_rep s v -> v_held v !! h = Some b ->
    (forall d, length (f d) = length d) ->
    wp (bset h f) (fun _ s' => bc_rep s' (v_store b (f (v_cache v b)) v)) s;
  bc_bblockno : forall s v h b, bc_rep s v -> v_held v !! h = Some b ->
    wp (bblockno h) (fun n s' => s' = s /\ n = b) s;
  bc_bdirty : forall s v h b, bc_rep s v -> v_held v !! h = Some b ->
    wp (bdirty h) (fun _ s' => bc_rep s' (v_pin b v)) s
}.

(** Whatever the interleaving, the block layer does not change another component. *)
Class BlockSteady {S T} `{BlockOps S} (L : lens S T) : Prop := {
  bs_bread : forall dev b, steady L (bread dev b);
  bs_bwrite : forall h, steady L (bwrite h);
  bs_brelse : forall h, steady L (brelse h);
  bs_bdata : forall h, steady L (bdata h);
  bs_bset : forall h f, steady L (bset h f);
  bs_bblockno : forall h, steady L (bblockno h);
  bs_bdirty : forall h, steady L (bdirty h)
}.

(** Nor does it depend on it. *)
Class BlockFrame {S T} `{BlockCache S} (L : lens S T) : Prop := {
  bf_steady :: BlockSteady L;
  bf_rep : forall t s v, bc_rep s v -> bc_rep (put L t s) v
}.

(** ** Lemmas *)
Lemma upd_block_eq b d f : upd_block b d f b = d.
Proof. unfold upd_block. by rewrite Z.eqb_refl. Qed.

Lemma upd_block_ne b b' d f : b' <> b -> upd_block b d f b' = f b'.
Proof. intros Hb. unfold upd_block. by destruct (Z.eqb_spec b' b). Qed.

Lemma apply_writes_app ws ws' D : apply_writes (ws ++ ws') D = apply_writes ws' (apply_writes ws D).
Proof. apply fold_left_app. Qed.

Lemma apply_writes_other ws D b : b ∉ map fst ws -> apply_writes ws D b = D b.
Proof.
  revert D. induction ws as [|[b' d] ws IH]; intros D; simpl; [done|].
  rewrite not_elem_of_cons. intros [Hb Hws]. rewrite IH by done. by apply upd_block_ne.
Qed.

Lemma word_bytes_value v : 0 <= v < 2 ^ 32 ->
  u8 v + 2 ^ 8 * u8 (Z.shiftr v 8) + 2 ^ 16 * u8 (Z.shiftr v 16) + 2 ^ 24 * u8 (Z.shiftr v 24) = v.
Proof.
  intros Hv. pose proof (ld32_st32 0 v (fun _ => 0) Hv) as E. unfold ld32, st32, st8 in E. simpl in E.
  unfold u8. unfold u8 in E. lia.
Qed.

Lemma length_set_bytes off bs d : length (set_bytes off bs d) = length d.
Proof. apply length_inserts. Qed.

Lemma byte_at_set_in off bs d k :
  (off <= k < off + length bs)%nat -> (k < length d)%nat -> byte_at (set_bytes off bs d) k = bs !!! (k - off)%nat.
Proof. intros. unfold byte_at, set_bytes. rewrite !list_lookup_total_alt, list_lookup_inserts; [done|lia|lia]. Qed.

Lemma byte_at_set_out off bs d k :
  (k < off \/ off + length bs <= k)%nat -> byte_at (set_bytes off bs d) k = byte_at d k.
Proof.
  intros Hk. unfold byte_at, set_bytes. rewrite !list_lookup_total_alt. f_equal.
  destruct Hk; [by apply list_lookup_inserts_lt|by apply list_lookup_inserts_ge].
Qed.

Lemma word_at_set_word off v d :
  0 <= v < 2 ^ 32 -> (off + 4 <= length d)%nat -> word_at (set_word off v d) off = v.
Proof.
  intros Hv Hd. unfold word_at, set_word. rewrite !byte_at_set_in by (simpl; lia).
  rewrite Nat.sub_diag. replace (off + 1 - off)%nat with 1%nat by lia.
  replace (off + 2 - off)%nat with 2%nat by lia. replace (off + 3 - off)%nat with 3%nat by lia.
  by apply word_bytes_value.
Qed.

Lemma word_at_set_word_ne off off' v d :
  (off' + 4 <= off \/ off + 4 <= off')%nat -> word_at (set_word off v d) off' = word_at d off'.
Proof. intros H. unfold word_at, set_word. by rewrite !byte_at_set_out by (simpl; lia). Qed.

Lemma elem_of_held_blocks H b : b ∈ held_blocks H <-> exists h, H !! h = Some b.
Proof.
  unfold held_blocks. rewrite elem_of_list_to_set, list_elem_of_fmap. split.
  - intros ([h b'] & -> & Hin). apply elem_of_map_to_list in Hin. by exists h.
  - intros (h & Hh). exists (h, b). split; [done|]. by apply elem_of_map_to_list.
Qed.

Lemma held_blocks_insert H h b : H !! h = None -> held_blocks (<[h := b]> H) = {[b]} ∪ held_blocks H.
Proof.
  intros Hh. apply set_eq. intros x. rewrite elem_of_union, !elem_of_held_blocks, elem_of_singleton. split.
  - intros (k & Hk). apply lookup_insert_Some in Hk as [[-> ->]|[_ Hk]]; eauto.
  - intros [->|(k & Hk)]; [exists h; by rewrite lookup_insert_eq|]. exists k.
    rewrite lookup_insert_ne; [done|]. intros ->. congruence.
Qed.

(** *** The operations beside another component *)
Section steps.
Context {S T : Type} `{BlockCache S} (L : lens S T) `{!BlockFrame L}.

Lemma step_bread v b (Q : nat -> S -> Prop) s :
  bc_rep s v -> 0 <= b < bc_size -> b ∉ held_blocks (v_held v) ->
  (base.size ({[b]} ∪ v_pinned v ∪ held_blocks (v_held v)) <= NBUF)%nat ->
  (forall h s', v_held v !! h = None -> bc_rep s' (v_set_held (<[h := b]> (v_held v)) v) ->
     view L s' = view L s -> Q h s') ->
  wp (bread 1 b) Q s.
Proof.
  intros Hs Hb Hh Hsz HQ. eapply wp_mono; [|apply (wp_leaves L); [apply steady_leaves, bs_bread|by apply bc_bread]].
  intros h s' [[H1 H2] H3]. by apply HQ.
Qed.

Lemma step_bwrite v h b (Q : unit -> S -> Prop) s :
  bc_rep s v -> v_held v !! h = Some b ->
  (forall s', bc_rep s' (v_write b v) -> view L s' = view L s -> Q tt s') -> wp (bwrite h) Q s.
Proof.
  intros Hs Hh HQ. eapply wp_mono; [|apply (wp_leaves L); [apply steady_leaves, bs_bwrite|by eapply bc_bwrite]].
  intros [] s' [H1 H2]. by apply HQ.
Qed.

Lemma step_brelse v h b (Q : unit -> S -> Prop) s :
  bc_rep s v -> v_held v !! h = Some b -> b ∈ v_pinned v \/ v_cache v b = v_disk v b ->
  (forall s', bc_rep s' (v_set_held (delete h (v_held v)) v) -> view L s' = view L s -> Q tt s') ->
  wp (brelse h) Q s.
Proof.
  intros Hs Hh Hc HQ. eapply wp_mono; [|apply (wp_leaves L); [apply steady_leaves, bs_brelse|by eapply bc_brelse]].
  intros [] s' [H1 H2]. by apply HQ.
Qed.

Lemma step_bset v h b f (Q : unit -> S -> Prop) s :
  bc_rep s v -> v_held v !! h = Some b -> (forall d, length (f d) = length d) ->
  (forall s', bc_rep s' (v_store b (f (v_cache v b)) v) -> view L s' = view L s -> Q tt s') ->
  wp (bset h f) Q s.
Proof.
  intros Hs Hh Hf HQ. eapply wp_mono; [|apply (wp_leaves L); [apply steady_leaves, bs_bset|by eapply bc_bset]].
  intros [] s' [H1 H2]. by apply HQ.
Qed.

Lemma step_bdata v h b (Q : list Z -> S -> Prop) s :
  bc_rep s v -> v_held v !! h = Some b -> Q (v_cache v b) s -> wp (bdata h) Q s.
Proof. intros Hs Hh HQ. eapply wp_mono; [|by eapply bc_bdata]. by intros d s' [-> ->]. Qed.
End steps.
