(* ===== verification/Bio.v ===== *)
(** * The buffer cache (bio.c, buf.h) and the memory disk (memide.c)

    [bcache] is the array of buffers; the list head is one more entry, at index [NBUF], and the
    pointers [prev]/[next] are indices.  [iderw] is the disk driver's: the class [DiskOps], with
    memide.c's instance here and ide.c's in Ide.v.  The history [md_writes] of the memory disk is
    not read by the code: it records the writes for the specifications of crashes. *)
From S2P Require Import Prelude Mmu KString Spinlock Pages Sched Process Syscall Sleeplock Block.

Record buf := MkBuf {
  b_flags : Z;
  b_dev : Z;
  b_blockno : Z;
  b_lock : sleeplock;
  b_refcnt : Z;
  b_prev : nat;              (* LRU cache list *)
  b_next : nat;
  b_qnext : option nat;      (* disk queue *)
  b_data : list Z
}.
Definition set_flags (x : Z) (b : buf) : buf :=
  MkBuf x (b_dev b) (b_blockno b) (b_lock b) (b_refcnt b) (b_prev b) (b_next b) (b_qnext b) (b_data b).
Definition set_dev (x : Z) (b : buf) : buf :=
  MkBuf (b_flags b) x (b_blockno b) (b_lock b) (b_refcnt b) (b_prev b) (b_next b) (b_qnext b) (b_data b).
Definition set_blockno (x : Z) (b : buf) : buf :=
  MkBuf (b_flags b) (b_dev b) x (b_lock b) (b_refcnt b) (b_prev b) (b_next b) (b_qnext b) (b_data b).
Definition set_b_lock (x : sleeplock) (b : buf) : buf :=
  MkBuf (b_flags b) (b_dev b) (b_blockno b) x (b_refcnt b) (b_prev b) (b_next b) (b_qnext b) (b_data b).
Definition set_refcnt (x : Z) (b : buf) : buf :=
  MkBuf (b_flags b) (b_dev b) (b_blockno b) (b_lock b) x (b_prev b) (b_next b) (b_qnext b) (b_data b).
Definition set_prev (x : nat) (b : buf) : buf :=
  MkBuf (b_flags b) (b_dev b) (b_blockno b) (b_lock b) (b_refcnt b) x (b_next b) (b_qnext b) (b_data b).
Definition set_next (x : nat) (b : buf) : buf :=
  MkBuf (b_flags b) (b_dev b) (b_blockno b) (b_lock b) (b_refcnt b) (b_prev b) x (b_qnext b) (b_data b).
Definition set_qnext (x : option nat) (b : buf) : buf :=
  MkBuf (b_flags b) (b_dev b) (b_blockno b) (b_lock b) (b_refcnt b) (b_prev b) (b_next b) x (b_data b).
Definition set_data (x : list Z) (b : buf) : buf :=
  MkBuf (b_flags b) (b_dev b) (b_blockno b) (b_lock b) (b_refcnt b) (b_prev b) (b_next b) (b_qnext b) x.

Definition buf0 : buf := MkBuf 0 0 0 sleeplock0 0 0 0 None (replicate BSIZE 0).

(** [bcache.buf], then [bcache.head]. *)
Notation bcache := (list buf).
Definition bhead : nat := NBUF.
Definition bcache0 : bcache := replicate (Datatypes.S NBUF) buf0.
Definition bcache_lock : lockid := ("bcache", 0).

(** [&b->lock] for the buffer [i]. *)
Definition buf_slref (i : nat) : slref bcache := {|
  sl_sel bs := b_lock <$> bs !! i;
  sl_mod f := alter (fun b => set_b_lock (f (b_lock b)) b) i;
  sl_lk := ("buffer", Z.of_nat i);
  sl_chan := ("buffer.lock", Z.of_nat i)
|}.

Class HasBio (S : Type) := { bio_lens : lens S bcache; bio_lens_laws :: LensLaws bio_lens }.
Class DiskOps (S : Type) := { iderw : nat -> M S unit }.

Definition clean (f : Z) : bool := Z.land f B_DIRTY =? 0.
Definition valid (f : Z) : bool := negb (Z.land f B_VALID =? 0).

Section bio.
Context {S : Type} `{!HasProc S} `{!HasBio S} `{!DiskOps S} (fuel : nat).

Definition buf_at (i : nat) : M S buf := getopt (fun s => view bio_lens s !! i).
Definition buf_upd (i : nat) (f : buf -> buf) : M S unit :=
  let* _ := buf_at i in modify (fun s => put bio_lens (alter f i (view bio_lens s)) s).

Definition binit : M S unit :=
  ptab (kinitlock bcache_lock "bcache");;;
  buf_upd bhead (set_prev bhead);;;
  buf_upd bhead (set_next bhead);;;
  for_each (seq 0 NBUF) (fun b =>
    let* hd := buf_at bhead in
    buf_upd b (set_next (b_next hd));;;
    buf_upd b (set_prev bhead);;;
    initsleeplock bio_lens (buf_slref b) "buffer";;;
    let* hd := buf_at bhead in
    buf_upd (b_next hd) (set_prev b);;;
    buf_upd bhead (set_next b)).

(** The two scans of bget(), along [next] from the head and along [prev]. *)
Fixpoint find_cached (k : nat) (dev blockno : Z) (b : nat) : M S (option nat) :=
  if Nat.eqb b bhead then ret None else
  let* x := buf_at b in
  if (b_dev x =? dev) && (b_blockno x =? blockno) then ret (Some b) else
  match k with O => nofuel | Datatypes.S k' => find_cached k' dev blockno (b_next x) end.
Fixpoint find_unused (k : nat) (b : nat) : M S (option nat) :=
  if Nat.eqb b bhead then ret None else
  let* x := buf_at b in
  if (b_refcnt x =? 0) && clean (b_flags x) then ret (Some b) else
  match k with O => nofuel | Datatypes.S k' => find_unused k' (b_prev x) end.

Definition bget (dev blockno : Z) : M S nat :=
  ptab (kacquire bcache_lock);;;
  let* hd := buf_at bhead in
  let* c := find_cached NBUF dev blockno (b_next hd) in
  match c with
  | Some b =>
      buf_upd b (fun x => set_refcnt (u32 (b_refcnt x + 1)) x);;;
      ptab (krelease bcache_lock);;;
      acquiresleep bio_lens (buf_slref b) fuel;;;
      ret b
  | None =>
      let* hd := buf_at bhead in
      let* c := find_unused NBUF (b_prev hd) in
      match c with
      | Some b =>
          buf_upd b (set_dev dev);;;
          buf_upd b (set_blockno blockno);;;
          buf_upd b (set_flags 0);;;
          buf_upd b (set_refcnt 1);;;
          ptab (krelease bcache_lock);;;
          acquiresleep bio_lens (buf_slref b) fuel;;;
          ret b
      | None => panic "bget: no buffers"
      end
  end.

Definition bio_read (dev blockno : Z) : M S nat :=
  let* b := bget dev blockno in
  let* x := buf_at b in
  when (negb (valid (b_flags x))) (iderw b);;;
  ret b.

Definition bio_write (b : nat) : M S unit :=
  let* h := holdingsleep bio_lens (buf_slref b) in
  if negb h then panic "bwrite" else
  buf_upd b (fun x => set_flags (Z.lor (b_flags x) B_DIRTY) x);;;
  iderw b.

(** The end of brelse(): unlink the buffer and link it in after the head. *)
Definition relink_front (b : nat) : M S unit :=
  let* x := buf_at b in
  buf_upd (b_next x) (set_prev (b_prev x));;;
  let* x := buf_at b in
  buf_upd (b_prev x) (set_next (b_next x));;;
  let* hd := buf_at bhead in
  buf_upd b (set_next (b_next hd));;;
  buf_upd b (set_prev bhead);;;
  let* hd := buf_at bhead in
  buf_upd (b_next hd) (set_prev b);;;
  buf_upd bhead (set_next b).

Definition bio_relse (b : nat) : M S unit :=
  let* h := holdingsleep bio_lens (buf_slref b) in
  if negb h then panic "brelse" else
  releasesleep bio_lens (buf_slref b);;;
  ptab (kacquire bcache_lock);;;
  buf_upd b (fun x => set_refcnt (u32 (b_refcnt x - 1)) x);;;
  let* x := buf_at b in
  when (b_refcnt x =? 0) (relink_front b);;;
  ptab (krelease bcache_lock).

Definition bio_ops : BlockOps S := {|
  bread := bio_read;
  bwrite := bio_write;
  brelse := bio_relse;
  bdata b := let* x := buf_at b in ret (b_data x);
  bset b f := buf_upd b (fun x => set_data (f (b_data x)) x);
  bblockno b := let* x := buf_at b in ret (b_blockno x);
  bdirty b := buf_upd b (fun x => set_flags (Z.lor (b_flags x) B_DIRTY) x)
|}.
End bio.

(** ** memide.c *)
Record memdisk := MkMemdisk {
  disksize : Z;
  md_disk : Z -> list Z;               (* the blocks at [memdisk] *)
  md_writes : list (Z * list Z)        (* history *)
}.
Class HasMemdisk (S : Type) := { memdisk_lens : lens S memdisk; memdisk_lens_laws :: LensLaws memdisk_lens }.

(** ideinit(): the disk is the image linked into the kernel, [img_size] bytes at [img]. *)
Definition ideinit {S} `{!HasMemdisk S} (img : Z -> list Z) (img_size : Z) : M S unit :=
  modify (put memdisk_lens (MkMemdisk (s32 (u32 img_size / Z.of_nat BSIZE)) img [])).
Definition ideintr {S} : M S unit := ret tt.

Section memide.
Context {S : Type} `{!HasProc S} `{!HasBio S} `{!HasMemdisk S}.

Definition memide_rw (i : nat) : M S unit :=
  let* h := holdingsleep bio_lens (buf_slref i) in
  if negb h then panic "iderw: buf not locked" else
  let* b := buf_at i in
  if Z.land (b_flags b) (Z.lor B_VALID B_DIRTY) =? B_VALID then panic "iderw: nothing to do" else
  if negb (b_dev b =? 1) then panic "iderw: request not for disk 1" else
  let* d := gets (view memdisk_lens) in
  if u32 (disksize d) <=? b_blockno b then panic "iderw: block out of range" else
  (if negb (clean (b_flags b)) then
     buf_upd i (fun b => set_flags (Z.land (b_flags b) (Z.lnot B_DIRTY)) b);;;
     modify (put memdisk_lens (MkMemdisk (disksize d)
       (upd_block (b_blockno b) (b_data b) (md_disk d)) (md_writes d ++ [(b_blockno b, b_data b)])))
   else buf_upd i (set_data (md_disk d (b_blockno b))));;;
  buf_upd i (fun b => set_flags (Z.lor (b_flags b) B_VALID) b).

Definition memide_ops : DiskOps S := {| iderw := memide_rw |}.
End memide.

#[local] Hint Constants Opaque : kern.

(** ** Specifications *)
#[export] Instance buf_inhabited : Inhabited buf := populate buf0.

(** [l] is a walk along [nx], and backwards along [pv]. *)
Fixpoint dchain (nx pv : nat -> nat) (l : list nat) : Prop :=
  match l with
  | a :: (b :: _) as t => nx a = b /\ pv b = a /\ dchain nx pv t
  | _ => True
  end.

Definition nexts (bs : bcache) (a : nat) : nat := b_next (bs !!! a).
Definition prevs (bs : bcache) (a : nat) : nat := b_prev (bs !!! a).

(** The LRU list: the buffers [l], most recently used first, in a ring with the head. *)
Definition lru (bs : bcache) (l : list nat) : Prop :=
  l ≡ₚ seq 0 NBUF /\ dchain (nexts bs) (prevs bs) (bhead :: l ++ [bhead]).

(** [x], at index [j], agrees with the view: a buffer is unused, or caches a block of disk 1 with
    the contents the view gives it; it is referenced and locked exactly while it is held, dirty
    exactly while its block is pinned, and in step with the disk otherwise. *)
Definition caches (x : buf) (b : Z) : Prop := b_dev x = 1 /\ b_blockno x = b.

Definition buf_ok (n size : Z) (v : bview) (j : nat) (x : buf) : Prop :=
  match v_held v !! j with
  | Some b => caches x b /\ b_refcnt x = 1 /\ sl_locked (b_lock x) = 1 /\ sl_pid (b_lock x) = n
  | None => b_refcnt x = 0 /\ sl_locked (b_lock x) = 0
  end /\
  (b_dev x = 0 /\ b_flags x = 0 \/
   b_dev x = 1 /\ 0 <= b_blockno x < size /\ b_data x = v_cache v (b_blockno x) /\
   length (b_data x) = BSIZE /\
   (b_flags x = 6 /\ b_blockno x ∈ v_pinned v \/
    b_flags x = 2 /\ (b_blockno x ∉ v_pinned v) /\
    (v_held v !! j = None -> b_data x = v_disk v (b_blockno x)))).

Record cache_ok (n size : Z) (bs : bcache) (v : bview) : Prop := {
  c_length : length bs = Datatypes.S NBUF;
  c_lru : exists l, lru bs l;
  c_buf : forall j, (j < NBUF)%nat -> buf_ok n size v j (bs !!! j);
  c_uniq : forall j k b, (j < NBUF)%nat -> (k < NBUF)%nat ->
    caches (bs !!! j) b -> caches (bs !!! k) b -> j = k;
  c_held : forall h b, v_held v !! h = Some b -> (h < NBUF)%nat;
  c_pinned : forall b, b ∈ v_pinned v -> exists j, (j < NBUF)%nat /\ caches (bs !!! j) b;
  c_clean : forall b, 0 <= b < size -> (forall j, (j < NBUF)%nat -> ~ caches (bs !!! j) b) ->
    v_cache v b = v_disk v b;
  c_disk : forall b, 0 <= b < size -> length (v_disk v b) = BSIZE
}.

(** ** Lemmas *)
Lemma lookup_total_alter_buf f k j (bs : list buf) :
  (k < length bs)%nat -> alter f k bs !!! j = if decide (j = k) then f (bs !!! k) else bs !!! j.
Proof.
  intros Hk. rewrite !list_lookup_total_alt, list_lookup_alter. destruct (decide (j = k)) as [->|Hj].
  - rewrite decide_True by done. destruct (lookup_lt_is_Some_2 bs k Hk) as [x Hx]. by rewrite Hx.
  - by rewrite decide_False by congruence.
Qed.

Lemma dchain_frame nx pv nx' pv' l :
  dchain nx pv l -> (forall a, a ∈ removelast l -> nx' a = nx a) ->
  (forall b, b ∈ tail l -> pv' b = pv b) -> dchain nx' pv' l.
Proof.
  induction l as [|a l IH]; [done|]. intros H Hn Hp. destruct l as [|b l]; [done|].
  simpl in H. destruct H as (H1 & H2 & H3). change (nx' a = b /\ pv' b = a /\ dchain nx' pv' (b :: l)).
  split_and!.
  - rewrite Hn; [done|]. simpl. set_solver.
  - rewrite Hp; [done|]. simpl. set_solver.
  - apply IH; [done| |].
    + intros x Hx. apply Hn. change (removelast (a :: b :: l)) with (a :: removelast (b :: l)). set_solver.
    + intros x Hx. apply Hp. simpl in *. set_solver.
Qed.

Lemma dchain_app nx pv l1 a l2 :
  dchain nx pv (l1 ++ a :: l2) <-> dchain nx pv (l1 ++ [a]) /\ dchain nx pv (a :: l2).
Proof.
  induction l1 as [|x l1 IH]; simpl; [tauto|].
  destruct l1 as [|y l1]; simpl in *; tauto.
Qed.

(** Unlinking a node, and linking it back right after the head. *)
Definition fupd (a b : nat) (f : nat -> nat) : nat -> nat := fun x => if decide (x = a) then b else f x.
Lemma fupd_eq a b f : fupd a b f a = b.
Proof. unfold fupd. by rewrite decide_True. Qed.
Lemma fupd_ne a b f x : x <> a -> fupd a b f x = f x.
Proof. intros. unfold fupd. by rewrite decide_False. Qed.

Lemma dchain_unlink nx pv l1 p b q l2 :
  p ∉ l1 -> q ∉ l2 -> q ∉ tail (l1 ++ [p]) -> p ∉ removelast (q :: l2) ->
  dchain nx pv (l1 ++ p :: b :: q :: l2) ->
  dchain (fupd p q nx) (fupd q p pv) (l1 ++ p :: q :: l2).
Proof.
  intros H1 H2 H3 H4 H. apply dchain_app in H as [Ha Hb]. simpl in Hb.
  destruct Hb as (_ & _ & _ & _ & Hb). rewrite (dchain_app _ _ l1 p). split.
  - apply (dchain_frame nx pv); [done| |].
    + intros a Hin. rewrite removelast_last in Hin. apply fupd_ne. set_solver.
    + intros x Hin. apply fupd_ne. set_solver.
  - split; [by rewrite fupd_eq|]. split; [by rewrite fupd_eq|].
    apply (dchain_frame nx pv); [done| |]; intros x Hin; apply fupd_ne; set_solver.
Qed.

Lemma dchain_front nx pv h b f l :
  h <> b -> h ∉ removelast (f :: l) -> b ∉ f :: l -> f ∉ l -> dchain nx pv (f :: l) ->
  dchain (fupd h b (fupd b f nx)) (fupd f b (fupd b h pv)) (h :: b :: f :: l).
Proof.
  intros Hhb Hh Hb Hf H. split; [by rewrite fupd_eq|].
  split; [rewrite fupd_ne by set_solver; by rewrite fupd_eq|].
  split; [rewrite fupd_ne by done; by rewrite fupd_eq|]. split; [by rewrite fupd_eq|].
  assert (forall x, x ∈ removelast (f :: l) -> x ∈ f :: l) as Hr.
  { intros x Hx. rewrite (app_removelast_last f (l := f :: l)) by done. set_solver. }
  apply (dchain_frame nx pv); [done| |]; intros x Hin; simpl in *.
  - rewrite fupd_ne by set_solver. apply fupd_ne. intros ->. by apply Hb, Hr.
  - rewrite fupd_ne by set_solver. apply fupd_ne. set_solver.
Qed.

(** The six pointer writes of brelse(). *)
Lemma ring_to_front nx pv h l1 b l2 :
  NoDup (h :: l1 ++ b :: l2) -> dchain nx pv (h :: l1 ++ b :: l2 ++ [h]) ->
  let pv1 := fupd (nx b) (pv b) pv in
  let nx1 := fupd (pv1 b) (nx b) nx in
  let nx2 := fupd b (nx1 h) nx1 in
  let pv2 := fupd b h pv1 in
  dchain (fupd h b nx2) (fupd (nx2 h) b pv2) (h :: b :: l1 ++ l2 ++ [h]).
Proof.
  intros Hd H. apply NoDup_cons in Hd as [Hh Hd].
  assert (h <> b) as Hhb by set_solver.
  destruct (exists_last (l := h :: l1)) as (l1' & p & E1); [done|].
  destruct (l2 ++ [h]) as [|q l2'] eqn:E2; [by destruct l2|].
  change (h :: l1 ++ b :: q :: l2') with ((h :: l1) ++ b :: q :: l2') in H.
  rewrite E1, <- app_assoc in H. simpl in H.
  assert (pv b = p /\ nx b = q) as [Ep Eq].
  { apply dchain_app in H as [_ H]. simpl in H. tauto. }
  assert (NoDup (l1' ++ [p])) as Hd1.
  { rewrite <- E1. apply NoDup_cons. split; [set_solver|]. by apply NoDup_app in Hd as (? & _). }
  assert (NoDup (q :: l2')) as Hd2.
  { rewrite <- E2. apply NoDup_app in Hd as (_ & _ & Hd). apply NoDup_cons in Hd as [_ Hd].
    apply NoDup_app. split_and!; [done|set_solver|apply NoDup_singleton]. }
  assert ((p ∉ l1')) as Hp1 by (apply NoDup_app in Hd1 as (_ & Hx & _); intros Hin; apply (Hx p Hin); set_solver).
  assert (q ∉ l2') as Hq2 by (by apply NoDup_cons in Hd2 as [? _]).
  assert (tail (l1' ++ [p]) = l1) as Et by (by rewrite <- E1).
  assert (removelast (q :: l2') = l2) as Er by (rewrite <- E2; apply removelast_last).
  assert (p ∈ h :: l1) as Hpin by (rewrite E1; set_solver).
  assert (q ∈ l2 ++ [h]) as Hqin by (rewrite E2; set_solver).
  assert ((b ∉ l1) /\ (b ∉ l2)) as [Hb1 Hb2].
  { apply NoDup_app in Hd as (_ & Hx & Hd). apply NoDup_cons in Hd as [? _]. split; [|done].
    intros Hin. apply (Hx b Hin). set_solver. }
  assert (forall x, x ∈ l1 -> x ∉ l2) as Hdis.
  { apply NoDup_app in Hd as (_ & Hx & _). intros x Hin Hin2. apply (Hx x Hin). set_solver. }
  assert (q ∉ l1) as Hq1.
  { intros Hin. apply elem_of_app in Hqin as [Hq|Hq]; [by apply (Hdis q)|].
    apply list_elem_of_singleton in Hq as ->. apply Hh, elem_of_app. by left. }
  assert (p ∉ l2) as Hp2.
  { intros Hin. apply elem_of_cons in Hpin as [->|Hp]; [|by apply (Hdis p)].
    apply Hh, elem_of_app. right. apply elem_of_cons. by right. }
  assert (b <> q) as Hbq.
  { intros ->. apply elem_of_app in Hqin as [Hq|Hq%list_elem_of_singleton]; [done|congruence]. }
  apply (dchain_unlink _ _ _ _ _ _ _ Hp1 Hq2) in H; [|by rewrite Et|by rewrite Er].
  cbv zeta. rewrite Ep, Eq.
  assert (fupd q p pv b = p) as -> by (by rewrite fupd_ne).
  change (l1' ++ p :: q :: l2') with (l1' ++ [p] ++ (q :: l2')) in H.
  rewrite app_assoc, <- E1, <- E2 in H. simpl in H.
  rewrite <- E2. destruct (l1 ++ l2 ++ [h]) as [|f l] eqn:El; [by destruct l1, l2|].
  destruct H as (Hf & _ & H). rewrite (fupd_ne b _ _ h) by done. rewrite Hf.
  assert (NoDup (f :: l)) as Hfl.
  { rewrite <- El. apply NoDup_app in Hd as (? & _ & Hd). apply NoDup_cons in Hd as [_ Hd].
    apply NoDup_app. split_and!; [done|set_solver|].
    apply NoDup_app. split_and!; [done|set_solver|apply NoDup_singleton]. }
  apply dchain_front; [done| | |by apply NoDup_cons in Hfl as [? _]|done].
  - rewrite <- El, app_assoc, removelast_last. set_solver.
  - rewrite <- El. set_solver.
Qed.

Lemma dchain_ext nx pv nx' pv' l :
  (forall a, nx' a = nx a) -> (forall a, pv' a = pv a) -> dchain nx pv l -> dchain nx' pv' l.
Proof. intros Hn Hp H. apply (dchain_frame nx pv); auto. Qed.

Lemma dchain_last nx pv h l a : dchain nx pv (h :: l ++ [a]) -> pv a = List.last l h.
Proof.
  revert h. induction l as [|x l IH]; intros h H; simpl in *; [tauto|].
  destruct H as (_ & _ & H). rewrite (IH x H). clear. destruct l as [|y l]; [done|].
  revert y. induction l as [|z l IH]; intros y; [done|]. apply (IH z).
Qed.

Lemma dchain_snoc nx pv h l a : dchain nx pv (h :: l ++ [a]) -> dchain nx pv (h :: l).
Proof.
  revert h. induction l as [|x l IH]; intros h H; simpl in *; [done|].
  destruct H as (? & ? & H). split_and!; [done..|]. by apply IH.
Qed.

Lemma lru_in bs l j : lru bs l -> (j ∈ l <-> (j < NBUF)%nat).
Proof. intros [Hl _]. rewrite Hl, elem_of_seq. lia. Qed.

Lemma lru_nodup bs l : lru bs l -> NoDup (bhead :: l).
Proof.
  intros Hl. apply NoDup_cons. split.
  - rewrite (lru_in _ _ _ Hl). unfold bhead. lia.
  - destruct Hl as [Hl _]. rewrite Hl. apply NoDup_seq.
Qed.

(** One buffer changes, apart from the list. *)
Lemma cache_ok_alter n size bs v v' h b f :
  cache_ok n size bs v -> (h < NBUF)%nat ->
  caches (f (bs !!! h)) b -> buf_ok n size v' h (f (bs !!! h)) ->
  b_next (f (bs !!! h)) = b_next (bs !!! h) -> b_prev (f (bs !!! h)) = b_prev (bs !!! h) ->
  (forall j, (j < NBUF)%nat -> j <> h -> ~ caches (bs !!! j) b) ->
  (forall b0, caches (bs !!! h) b0 -> b0 <> b -> (b0 ∉ v_pinned v) /\ v_cache v b0 = v_disk v b0) ->
  (forall j, j <> h -> v_held v' !! j = v_held v !! j) ->
  (forall b', b' <> b -> v_cache v' b' = v_cache v b' /\ v_disk v' b' = v_disk v b' /\
     (b' ∈ v_pinned v' <-> b' ∈ v_pinned v)) ->
  (0 <= b < size -> length (v_disk v' b) = BSIZE) ->
  cache_ok n size (alter f h bs) v'.
Proof.
  intros [Hlen Hlru Hbuf Huniq Hheld Hpin Hclean Hdisk] Hh Hy Hok Hn Hp Hother Hold Hv Hb Hdb.
  assert (forall j, alter f h bs !!! j = if decide (j = h) then f (bs !!! h) else bs !!! j) as Ha
    by (intros j; apply lookup_total_alter_buf; rewrite Hlen; lia).
  split.
  - by rewrite length_alter.
  - destruct Hlru as (l & Hperm & Hl). exists l. split; [done|]. eapply dchain_ext; [| |exact Hl].
    + intros a. unfold nexts. rewrite Ha. by destruct (decide (a = h)) as [->|].
    + intros a. unfold prevs. rewrite Ha. by destruct (decide (a = h)) as [->|].
  - intros j Hj. rewrite Ha. destruct (decide (j = h)) as [->|Hjh]; [done|].
    specialize (Hbuf j Hj). unfold buf_ok in *. rewrite Hv by done.
    destruct Hbuf as [Hb1 Hb2]. split; [done|]. destruct Hb2 as [?|(Hd & Hr & Hc & Hl & Hf)]; [by left|].
    right. assert (b_blockno (bs !!! j) <> b) as Hne by (intros E; by apply (Hother j Hj Hjh)).
    destruct (Hb _ Hne) as (-> & -> & ->). done.
  - intros j k b' Hj Hk. rewrite !Ha.
    destruct (decide (j = h)) as [->|Hjh], (decide (k = h)) as [->|Hkh]; [done| | |by apply Huniq].
    + intros [_ E] Hc. destruct Hy as [_ E']. assert (b' = b) as -> by congruence. by destruct (Hother k Hk Hkh).
    + intros Hc [_ E]. destruct Hy as [_ E']. assert (b' = b) as -> by congruence. by destruct (Hother j Hj Hjh).
  - intros j b' Hj. destruct (decide (j = h)) as [->|Hjh]; [done|]. rewrite Hv in Hj by done. eauto.
  - intros b' Hin. destruct (decide (b' = b)) as [->|Hne].
    { exists h. rewrite Ha, decide_True by done. done. }
    destruct (Hb _ Hne) as (_ & _ & Hiff). apply Hiff in Hin. destruct (Hpin _ Hin) as (j & Hj & Hc).
    exists j. split; [done|]. rewrite Ha. destruct (decide (j = h)) as [->|Hjh]; [|done].
    by destruct (Hold _ Hc Hne).
  - intros b' Hr Hno. destruct (decide (b' = b)) as [->|Hne].
    { destruct (Hno h Hh). rewrite Ha, decide_True by done. done. }
    destruct (Hb _ Hne) as (-> & -> & _).
    destruct (decide (b_dev (bs !!! h) = 1 /\ b_blockno (bs !!! h) = b')) as [Hc|Hc]; [by apply Hold|].
    apply Hclean; [done|]. intros j Hj Hcj. destruct (decide (j = h)) as [->|Hjh]; [done|].
    apply (Hno j Hj). by rewrite Ha, decide_False.
  - intros b' Hr. destruct (decide (b' = b)) as [->|Hne]; [auto|]. destruct (Hb _ Hne) as (_ & -> & _). auto.
Qed.

(** Only the list changes. *)
Lemma cache_ok_relink n size bs bs' v :
  cache_ok n size bs v -> length bs' = length bs ->
  (forall j, exists p q, bs' !!! j = set_prev p (set_next q (bs !!! j))) ->
  (exists l, lru bs' l) -> cache_ok n size bs' v.
Proof.
  intros [Hlen Hlru Hbuf Huniq Hheld Hpin Hclean Hdisk] Hl Hs Hlru'.
  assert (forall j b, caches (bs' !!! j) b <-> caches (bs !!! j) b) as Hc
    by (intros j b; destruct (Hs j) as (p & q & ->); done).
  split; [by rewrite Hl| | | |done| | |done].
  - done.
  - intros j Hj. specialize (Hbuf j Hj). destruct (Hs j) as (p & q & ->). exact Hbuf.
  - intros j k b Hj Hk H1 H2. apply (Huniq j k b); [done..| |]; by apply Hc.
  - intros b Hb. destruct (Hpin b Hb) as (j & Hj & Hcj). exists j. by rewrite Hc.
  - intros b Hb Hno. apply Hclean; [done|]. intros j Hj Hcj. by apply (Hno j Hj), Hc.
Qed.

#[export] Instance buf_slref_laws j : SlrefLaws (buf_slref j).
Proof.
  split; simpl; intros.
  - rewrite list_lookup_alter, decide_True by done. by destruct (t !! j).
  - by rewrite alter_alter.
  - destruct (t !! j) as [x|] eqn:Hx.
    + apply (alter_ext_at _ _ _ _ x Hx). by rewrite (H (b_lock x)).
    + apply list_eq. intros k. rewrite !list_lookup_alter. destruct (decide (j = k)) as [->|]; [|done].
      by rewrite Hx.
Qed.

(** *** Runs of a single thread *)
Section runs.
Context {S : Type} `{!HasProc S} `{!HasBio S} `{!LensIndep proc_lens bio_lens}.
Context (c i : nat) (n : Z) (F : list lockid) (HF1 : bcache_lock ∈ F).
Context (HF2 : forall j : nat, (j < NBUF)%nat -> sl_lk (buf_slref j) ∈ F).

(** The state with the cache [bs]; the machine is where the thread was. *)
Definition bufs (s : S) : bcache := view bio_lens s.
Definition put_bufs (bs : bcache) (s : S) : S := put bio_lens bs s.

Lemma wp_buf_at j (Q : buf -> S -> Prop) s :
  (j < length (bufs s))%nat -> Q (bufs s !!! j) s -> wp (buf_at j) Q s.
Proof.
  intros Hj HQ. destruct (lookup_lt_is_Some_2 (bufs s) j Hj) as [x Hx].
  eapply (wp_getopt (fun s => view bio_lens s !! j)); [exact Hx|].
  by rewrite (list_lookup_total_correct _ _ _ Hx) in HQ.
Qed.

Lemma wp_buf_upd j f (Q : unit -> S -> Prop) s :
  (j < length (bufs s))%nat -> Q tt (put_bufs (alter f j (bufs s)) s) -> wp (buf_upd j f) Q s.
Proof. intros Hj HQ. apply wp_bind, wp_buf_at; [done|]. by apply wp_modify. Qed.

Lemma bufs_put_bufs bs s : bufs (put_bufs bs s) = bs.
Proof. apply view_put. Qed.
Lemma put_bufs_put_bufs bs bs' s : put_bufs bs (put_bufs bs' s) = put_bufs bs s.
Proof. apply put_put. Qed.
Lemma bufs_put_pm m s : bufs (put_pm m s) = bufs s.
Proof. apply indep_view_r. Qed.
Lemma machine_put_bufs bs s : machine (put_bufs bs s) = machine s.
Proof. by apply machine_put_other. Qed.
Lemma put_pm_bufs m bs s : put_pm m (put_bufs bs s) = put_bufs bs (put_pm m s).
Proof. by apply put_pm_other. Qed.
Lemma at_base_put_bufs bs s : at_base c i n F s -> at_base c i n F (put_bufs bs s).
Proof. by apply at_base_other. Qed.
Lemma sel_buf j bs : (j < length bs)%nat -> sl_sel (buf_slref j) bs = Some (b_lock (bs !!! j)).
Proof.
  intros Hj. simpl. destruct (lookup_lt_is_Some_2 bs j Hj) as [x Hx].
  by rewrite (list_lookup_total_correct _ _ _ Hx), Hx.
Qed.
Create Rewrite HintDb bufs.
Hint Rewrite bufs_put_bufs put_bufs_put_bufs bufs_put_pm put_pm_bufs machine_put_bufs
  (@machine_put_pm S _) (@put_pm_put_pm S _) : bufs.

Lemma lookup_bufs j (bs : list buf) : (j < length bs)%nat -> bs !! j = Some (bs !!! j).
Proof.
  intros Hj. destruct (lookup_lt_is_Some_2 bs j Hj) as [x Hx].
  by rewrite (list_lookup_total_correct _ _ _ Hx).
Qed.

Lemma alter_twice f g h j (bs : list buf) : (j < length bs)%nat -> f (g (bs !!! j)) = h (bs !!! j) ->
  alter f j (alter g j bs) = alter h j bs.
Proof.
  intros Hj E. rewrite alter_alter. apply (alter_ext_at _ _ _ _ (bs !!! j)); [|done].
  by apply lookup_bufs.
Qed.

(** *** The scans of bget() *)
Lemma find_cached_run k dev bno l (Q : option nat -> S -> Prop) s :
  length (bufs s) = Datatypes.S NBUF -> (length l <= k)%nat -> (forall j, j ∈ l -> (j < NBUF)%nat) ->
  dchain (nexts (bufs s)) (prevs (bufs s)) (l ++ [bhead]) ->
  (forall r, match r with
             | Some j => j ∈ l /\ b_dev (bufs s !!! j) = dev /\ b_blockno (bufs s !!! j) = bno
             | None => forall j, j ∈ l -> ~ (b_dev (bufs s !!! j) = dev /\ b_blockno (bufs s !!! j) = bno)
             end -> Q r s) ->
  wp (find_cached k dev bno (List.hd bhead (l ++ [bhead]))) Q s.
Proof. clear HF1 HF2.
  intros Hlen. revert k. induction l as [|a l IH]; intros k Hk Hl Hc HQ; simpl.
  - destruct k; simpl; apply wp_ret, HQ; set_solver.
  - assert (a < NBUF)%nat as Ha by (apply Hl; set_solver).
    destruct k as [|k]; simpl in Hk; [lia|]. simpl.
    destruct (Nat.eqb_spec a bhead) as [->|_]; [unfold bhead in Ha; lia|].
    apply wp_bind, wp_buf_at; [lia|].
    destruct (Z.eqb_spec (b_dev (bufs s !!! a)) dev) as [E1|E1]; simpl.
    1: destruct (Z.eqb_spec (b_blockno (bufs s !!! a)) bno) as [E2|E2]; simpl.
    1: { apply wp_ret, HQ. split; [set_solver|done]. }
    all: assert (b_next (bufs s !!! a) = List.hd bhead (l ++ [bhead]) /\
           dchain (nexts (bufs s)) (prevs (bufs s)) (l ++ [bhead])) as [-> Hc']
           by (simpl in Hc; destruct l; simpl in *; tauto).
    all: apply IH; [lia|set_solver|done|]; intros r Hr; apply HQ; destruct r as [j|]; [set_solver|].
    all: intros j [->|Hj]%elem_of_cons; [naive_solver|by apply Hr].
Qed.

Lemma find_unused_run k l (Q : option nat -> S -> Prop) s :
  length (bufs s) = Datatypes.S NBUF -> (length l <= k)%nat -> (forall j, j ∈ l -> (j < NBUF)%nat) ->
  dchain (nexts (bufs s)) (prevs (bufs s)) (bhead :: l) ->
  (forall r, match r with
             | Some j => j ∈ l /\ b_refcnt (bufs s !!! j) = 0 /\ clean (b_flags (bufs s !!! j)) = true
             | None => forall j, j ∈ l -> b_refcnt (bufs s !!! j) = 0 -> clean (b_flags (bufs s !!! j)) = false
             end -> Q r s) ->
  wp (find_unused k (List.last l bhead)) Q s.
Proof. clear HF1 HF2.
  intros Hlen. revert k. induction l as [|a l IH] using rev_ind; intros k Hk Hl Hc HQ.
  - destruct k; simpl; apply wp_ret, HQ; set_solver.
  - assert (a < NBUF)%nat as Ha by (apply Hl; set_solver).
    rewrite length_app in Hk. simpl in Hk. destruct k as [|k]; [lia|]. rewrite List.last_last. simpl.
    destruct (Nat.eqb_spec a bhead) as [->|_]; [unfold bhead in Ha; lia|].
    apply wp_bind, wp_buf_at; [lia|].
    destruct (Z.eqb_spec (b_refcnt (bufs s !!! a)) 0) as [E1|E1]; simpl.
    1: destruct (clean (b_flags (bufs s !!! a))) eqn:E2; simpl.
    1: { apply wp_ret, HQ. split; [set_solver|done]. }
    all: change (b_prev (bufs s !!! a)) with (prevs (bufs s) a); rewrite (dchain_last _ _ _ _ _ Hc).
    all: apply IH; [lia|set_solver| |].
    1,3: by apply dchain_snoc in Hc.
    all: intros r Hr; apply HQ; destruct r as [j|]; [set_solver|].
    all: intros j [Hj| ->%list_elem_of_singleton]%elem_of_app; [by apply Hr|congruence].
Qed.

(** *** The list *)
Lemma nexts_set_next k v bs a : (k < length bs)%nat ->
  nexts (alter (set_next v) k bs) a = fupd k v (nexts bs) a.
Proof. intros Hk. unfold nexts, fupd. rewrite lookup_total_alter_buf by done. by destruct (decide (a = k)). Qed.
Lemma nexts_set_prev k v bs a : (k < length bs)%nat -> nexts (alter (set_prev v) k bs) a = nexts bs a.
Proof. intros Hk. unfold nexts. rewrite lookup_total_alter_buf by done. by destruct (decide (a = k)) as [->|]. Qed.
Lemma prevs_set_prev k v bs a : (k < length bs)%nat ->
  prevs (alter (set_prev v) k bs) a = fupd k v (prevs bs) a.
Proof. intros Hk. unfold prevs, fupd. rewrite lookup_total_alter_buf by done. by destruct (decide (a = k)). Qed.
Lemma prevs_set_next k v bs a : (k < length bs)%nat -> prevs (alter (set_next v) k bs) a = prevs bs a.
Proof. intros Hk. unfold prevs. rewrite lookup_total_alter_buf by done. by destruct (decide (a = k)) as [->|]. Qed.

Lemma fupd_same a b f : fupd a (f b) f b = f b.
Proof. unfold fupd. by destruct (decide (b = a)). Qed.

Lemma fupd_cong x v f g a : f a = g a -> fupd x v f a = fupd x v g a.
Proof. intros E. unfold fupd. by destruct (decide (a = x)). Qed.

(** Two arrays of buffers that differ only in the list. *)
Definition relinked (bs bs' : bcache) : Prop :=
  length bs' = length bs /\ forall j, exists p q, bs' !!! j = set_prev p (set_next q (bs !!! j)).

Lemma relinked_refl bs : relinked bs bs.
Proof. split; [done|]. intros j. exists (b_prev (bs !!! j)), (b_next (bs !!! j)). by destruct (bs !!! j). Qed.

Lemma relinked_next bs bs' k v : relinked bs bs' -> (k < length bs')%nat -> relinked bs (alter (set_next v) k bs').
Proof.
  intros [Hl H] Hk. split; [by rewrite length_alter|]. intros j. rewrite lookup_total_alter_buf by done.
  destruct (decide (j = k)) as [->|]; [|done]. destruct (H k) as (p & q & ->). by exists p, v.
Qed.

Lemma relinked_prev bs bs' k v : relinked bs bs' -> (k < length bs')%nat -> relinked bs (alter (set_prev v) k bs').
Proof.
  intros [Hl H] Hk. split; [by rewrite length_alter|]. intros j. rewrite lookup_total_alter_buf by done.
  destruct (decide (j = k)) as [->|]; [|done]. destruct (H k) as (p & q & ->). by exists v, q.
Qed.

(** The neighbours of a buffer in the ring. *)
Lemma ring_neighbours bs h l1 l2 : lru bs (l1 ++ h :: l2) -> length bs = Datatypes.S NBUF ->
  (nexts bs h < length bs)%nat /\ (prevs bs h < length bs)%nat /\ (nexts bs bhead < length bs)%nat.
Proof. clear HF1 HF2.
  intros Hl Hlen. rewrite Hlen.
  assert (forall x, x ∈ bhead :: (l1 ++ h :: l2) -> (x < Datatypes.S NBUF)%nat) as Hin.
  { intros x [->|Hx]%elem_of_cons; [unfold bhead; lia|]. apply (lru_in _ _ _ Hl) in Hx. lia. }
  destruct Hl as [_ Hl]. split_and!.
  - rewrite <- app_assoc in Hl. change (bhead :: l1 ++ (h :: l2) ++ [bhead]) with ((bhead :: l1) ++ h :: l2 ++ [bhead]) in Hl.
    apply dchain_app in Hl as [_ Hl]. destruct l2 as [|q l2]; simpl in Hl; destruct Hl as [-> _]; apply Hin; set_solver.
  - rewrite <- app_assoc in Hl. change (bhead :: l1 ++ (h :: l2) ++ [bhead]) with ((bhead :: l1) ++ h :: l2 ++ [bhead]) in Hl.
    apply dchain_app in Hl as [Hl _]. rewrite (dchain_last _ _ bhead l1 h Hl). apply Hin.
    destruct l1 as [|x l1]; [set_solver|]. apply elem_of_cons. right. apply elem_of_app. left.
    clear. revert x. induction l1 as [|y l1 IH]; intros x; [set_solver|]. simpl. specialize (IH y). set_solver.
  - destruct l1 as [|x l1]; simpl in Hl; destruct Hl as [-> _]; apply Hin; set_solver.
Qed.

Lemma relink_front_run h l (Q : unit -> S -> Prop) s :
  lru (bufs s) l -> (h < NBUF)%nat -> length (bufs s) = Datatypes.S NBUF ->
  (forall bs', relinked (bufs s) bs' -> (exists l', lru bs' l') -> Q tt (put_bufs bs' s)) ->
  wp (relink_front h) Q s.
Proof. clear HF1 HF2.
  intros Hl Hh Hlen HQ. pose proof (proj2 (lru_in _ _ h Hl) Hh) as Hin.
  apply list_elem_of_split in Hin as (l1 & l2 & ->).
  destruct (ring_neighbours _ _ _ _ Hl Hlen) as (Hn & Hp & Hb).
  assert (bhead < length (bufs s))%nat as Hhd by (rewrite Hlen; unfold bhead; lia).
  assert (h < length (bufs s))%nat as Hhl by lia.
  unfold relink_front. apply wp_bind, wp_buf_at; [done|]. apply wp_bind, wp_buf_upd; [done|].
  change (b_next (bufs s !!! h)) with (nexts (bufs s) h). change (b_prev (bufs s !!! h)) with (prevs (bufs s) h).
  apply wp_bind, wp_buf_at; autorewrite with bufs; [by rewrite length_alter|].
  set (bs1 := alter (set_prev (prevs (bufs s) h)) (nexts (bufs s) h) (bufs s)).
  assert (length bs1 = length (bufs s)) as L1 by apply length_alter.
  change (b_prev (bs1 !!! h)) with (prevs bs1 h). change (b_next (bs1 !!! h)) with (nexts bs1 h).
  assert (prevs bs1 h = prevs (bufs s) h) as -> by (unfold bs1; rewrite prevs_set_prev by done; apply fupd_same).
  assert (nexts bs1 h = nexts (bufs s) h) as -> by (unfold bs1; by rewrite nexts_set_prev).
  apply wp_bind, wp_buf_upd; autorewrite with bufs; [by rewrite L1|].
  set (bs2 := alter (set_next (nexts (bufs s) h)) (prevs (bufs s) h) bs1).
  assert (length bs2 = length (bufs s)) as L2 by (unfold bs2; by rewrite length_alter).
  apply wp_bind, wp_buf_at; autorewrite with bufs; [by rewrite L2|].
  change (b_next (bs2 !!! bhead)) with (nexts bs2 bhead).
  apply wp_bind, wp_buf_upd; autorewrite with bufs; [by rewrite L2|].
  set (bs3 := alter (set_next (nexts bs2 bhead)) h bs2).
  assert (length bs3 = length (bufs s)) as L3 by (unfold bs3; by rewrite length_alter).
  apply wp_bind, wp_buf_upd; autorewrite with bufs; [by rewrite L3|].
  set (bs4 := alter (set_prev bhead) h bs3).
  assert (length bs4 = length (bufs s)) as L4 by (unfold bs4; by rewrite length_alter).
  apply wp_bind, wp_buf_at; autorewrite with bufs; [by rewrite L4|].
  change (b_next (bs4 !!! bhead)) with (nexts bs4 bhead).
  assert (forall a, nexts bs2 a = fupd (prevs (bufs s) h) (nexts (bufs s) h) (nexts (bufs s)) a) as E2.
  { intros a. unfold bs2. rewrite nexts_set_next by lia. unfold fupd. unfold bs1. by rewrite nexts_set_prev. }
  assert (forall a, nexts bs4 a = fupd h (nexts bs2 bhead) (nexts bs2) a) as E4.
  { intros a. unfold bs4. rewrite nexts_set_prev by lia. unfold bs3. by rewrite nexts_set_next by lia. }
  assert (nexts bs4 bhead < length (bufs s))%nat as Hf.
  { rewrite E4, fupd_same, E2. unfold fupd. by destruct (decide _). }
  apply wp_bind, wp_buf_upd; autorewrite with bufs; [by rewrite L4|].
  set (bs5 := alter (set_prev h) (nexts bs4 bhead) bs4).
  assert (length bs5 = length (bufs s)) as L5 by (unfold bs5; by rewrite length_alter).
  apply wp_buf_upd; autorewrite with bufs; [by rewrite L5|]. apply HQ.
  - apply relinked_next, (eq_ind_r (fun n => _ < n)%nat Hhd L5). apply relinked_prev; [|lia].
    apply relinked_prev; [|lia]. apply relinked_next; [|lia]. apply relinked_next; [|lia].
    apply relinked_prev; [|done]. apply relinked_refl.
  - exists (h :: l1 ++ l2). pose proof (lru_nodup _ _ Hl) as Hd. destruct Hl as [Hperm Hl]. split.
    { rewrite <- Hperm. apply Permutation_middle. }
    rewrite <- app_assoc in Hl. apply (ring_to_front _ _ _ _ _ _ Hd) in Hl. cbv zeta in Hl.
    change ((h :: l1 ++ l2) ++ [bhead]) with (h :: (l1 ++ l2) ++ [bhead]). rewrite <- app_assoc.
    eapply dchain_ext; [| |exact Hl].
    + intros a. rewrite nexts_set_next by lia. apply fupd_cong.
      unfold bs5. rewrite nexts_set_prev by lia. rewrite E4, fupd_same, E2. apply fupd_cong, E2.
    + intros a. rewrite prevs_set_next by lia. unfold bs5. rewrite prevs_set_prev by lia.
      assert (nexts bs4 bhead = fupd h (fupd (fupd (nexts (bufs s) h) (prevs (bufs s) h) (prevs (bufs s)) h)
        (nexts (bufs s) h) (nexts (bufs s)) bhead) (fupd (fupd (nexts (bufs s) h) (prevs (bufs s) h) (prevs (bufs s)) h)
        (nexts (bufs s) h) (nexts (bufs s))) bhead) as ->.
      { rewrite E4. rewrite !fupd_same. apply E2. }
      apply fupd_cong. unfold bs4. rewrite prevs_set_prev by lia. apply fupd_cong.
      unfold bs3. rewrite prevs_set_next by lia. unfold bs2. rewrite prevs_set_next by lia.
      unfold bs1. by rewrite prevs_set_prev by lia.
Qed.
(** *** The memory disk *)
Context `{!HasMemdisk S} `{!LensIndep proc_lens memdisk_lens} `{!LensIndep bio_lens memdisk_lens}.
Context (size : Z) (Hsize : 0 <= size < 2 ^ 31).

Definition put_disk (d : memdisk) (s : S) : S := put memdisk_lens d s.
Lemma bufs_put_disk d s : bufs (put_disk d s) = bufs s.
Proof. apply indep_view_l. Qed.
Lemma put_bufs_disk d bs s : put_bufs bs (put_disk d s) = put_disk d (put_bufs bs s).
Proof. unfold put_bufs, put_disk. by rewrite <- (indep_put (l := bio_lens) (k := memdisk_lens)). Qed.
Lemma disk_put_disk d s : view memdisk_lens (put_disk d s) = d.
Proof. apply view_put. Qed.
Lemma disk_put_bufs bs s : view memdisk_lens (put_bufs bs s) = view memdisk_lens s.
Proof. apply indep_view_r. Qed.
Lemma disk_put_pm m s : view memdisk_lens (put_pm m s) = view memdisk_lens s.
Proof. apply indep_view_r. Qed.
Lemma at_base_put_disk d s : at_base c i n F s -> at_base c i n F (put_disk d s).
Proof. by apply at_base_other. Qed.
Hint Rewrite bufs_put_disk put_bufs_disk disk_put_disk disk_put_bufs disk_put_pm : bufs.

(** The buffer [x] is locked by this thread and holds a block of the disk. *)
Definition mine (x : buf) : Prop :=
  sl_locked (b_lock x) = 1 /\ sl_pid (b_lock x) = n /\ b_dev x = 1 /\ 0 <= b_blockno x < size.

Lemma wp_holding_buf h (Q : bool -> S -> Prop) s :
  at_base c i n F s -> (h < NBUF)%nat -> length (bufs s) = Datatypes.S NBUF -> mine (bufs s !!! h) ->
  (forall m, on_cpu c (Some i) 0 [] F m -> Q true (put_pm m s)) ->
  wp (holdingsleep bio_lens (buf_slref h)) Q s.
Proof.
  intros Hb Hh Hlen (H1 & H2 & _) HQ.
  eapply (wp_holdingsleep c i n F bio_lens (buf_slref h)); [done|by apply HF2| |].
  - apply sel_buf. unfold bufs in *. lia.
  - intros m Hm. unfold bufs in *. rewrite H1, H2, Z.eqb_refl. by apply HQ.
Qed.

Lemma wp_memide_write h D W (Q : unit -> S -> Prop) s :
  let x := bufs s !!! h in
  at_base c i n F s -> (h < NBUF)%nat -> length (bufs s) = Datatypes.S NBUF -> mine x ->
  b_flags x = 6 -> view memdisk_lens s = MkMemdisk size D W ->
  (forall m, on_cpu c (Some i) 0 [] F m ->
     Q tt (put_disk (MkMemdisk size (upd_block (b_blockno x) (b_data x) D) (W ++ [(b_blockno x, b_data x)]))
       (put_bufs (alter (set_flags 2) h (bufs s)) (put_pm m s)))) ->
  wp (memide_rw h) Q s.
Proof.
  intros x Hb Hh Hlen Hx Hf Hd HQ. unfold memide_rw. apply wp_bind.
  apply wp_holding_buf; [done..|]. intros m Hm. simpl. apply wp_bind, wp_buf_at; autorewrite with bufs; [lia|].
  fold x. destruct Hx as (_ & _ & Hdev & Hr). rewrite Hf, Hdev. simpl. apply wp_bind, wp_gets.
  rewrite disk_put_pm, Hd. simpl. rewrite u32_small by lia.
  destruct (Z.leb_spec size (b_blockno x)); [lia|].
  apply wp_bind, wp_bind, wp_buf_upd; autorewrite with bufs; [lia|]. apply wp_modify.
  change (put memdisk_lens) with put_disk. apply wp_buf_upd; autorewrite with bufs; [rewrite length_alter; lia|].
  rewrite (alter_twice _ _ (set_flags 2)); [by apply HQ|lia|]. simpl. unfold set_flags. simpl.
  fold x. rewrite Hf. done.
Qed.

Lemma wp_memide_read h D W (Q : unit -> S -> Prop) s :
  let x := bufs s !!! h in
  at_base c i n F s -> (h < NBUF)%nat -> length (bufs s) = Datatypes.S NBUF -> mine x ->
  b_flags x = 0 -> view memdisk_lens s = MkMemdisk size D W ->
  (forall m, on_cpu c (Some i) 0 [] F m ->
     Q tt (put_bufs (alter (fun y => set_flags 2 (set_data (D (b_blockno x)) y)) h (bufs s)) (put_pm m s))) ->
  wp (memide_rw h) Q s.
Proof.
  intros x Hb Hh Hlen Hx Hf Hd HQ. unfold memide_rw. apply wp_bind.
  apply wp_holding_buf; [done..|]. intros m Hm. simpl. apply wp_bind, wp_buf_at; autorewrite with bufs; [lia|].
  fold x. destruct Hx as (_ & _ & Hdev & Hr). rewrite Hf, Hdev. simpl. apply wp_bind, wp_gets.
  rewrite disk_put_pm, Hd. simpl. rewrite u32_small by lia.
  destruct (Z.leb_spec size (b_blockno x)); [lia|].
  apply wp_bind, wp_buf_upd; autorewrite with bufs; [lia|].
  apply wp_buf_upd; autorewrite with bufs; [rewrite length_alter; lia|].
  rewrite (alter_twice _ _ (fun y => set_flags 2 (set_data (D (b_blockno x)) y))); [by apply HQ|lia|].
  simpl. fold x. unfold set_flags, set_data. simpl. by rewrite Hf.
Qed.

(** *** The promises of the interface *)
Definition bio_rep (s : S) (v : bview) : Prop :=
  at_base c i n F s /\ cache_ok n size (bufs s) v /\
  view memdisk_lens s = MkMemdisk size (v_disk v) (v_writes v).

Lemma held_buf s v h b : bio_rep s v -> v_held v !! h = Some b ->
  (h < NBUF)%nat /\ length (bufs s) = Datatypes.S NBUF /\ mine (bufs s !!! h) /\
  caches (bufs s !!! h) b /\ b_refcnt (bufs s !!! h) = 1 /\ b_data (bufs s !!! h) = v_cache v b /\
  length (v_cache v b) = BSIZE /\ 0 <= b < size /\
  (b_flags (bufs s !!! h) = 6 /\ b ∈ v_pinned v \/ b_flags (bufs s !!! h) = 2 /\ b ∉ v_pinned v).
Proof.
  intros (_ & Hok & _) Hh. pose proof (c_held _ _ _ _ Hok h b Hh) as Hlt.
  pose proof (c_buf _ _ _ _ Hok h Hlt) as Hb. unfold buf_ok in Hb. rewrite Hh in Hb.
  destruct Hb as ((Hc & Hr & Hl & Hp) & Hb). pose proof Hc as [Hd Hno].
  destruct Hb as [[? _]|(_ & Hrange & Hdata & Hlen & Hf)]; [lia|]. rewrite Hno in *.
  split_and!; try done; try lia; [by apply (c_length _ _ _ _ Hok)|unfold mine; rewrite Hno; split_and!; done || lia|by rewrite <- Hdata|].
  destruct Hf as [?|(? & ? & _)]; auto.
Qed.

Lemma bio_rep_update s v v' h b f :
  bio_rep s v -> v_held v !! h = Some b -> v_held v' = v_held v -> v_disk v' = v_disk v ->
  v_writes v' = v_writes v -> (forall b', b' <> b -> v_cache v' b' = v_cache v b' /\ (b' ∈ v_pinned v' <-> b' ∈ v_pinned v)) ->
  let x := bufs s !!! h in let y := f x in
  caches y b -> b_refcnt y = 1 -> b_lock y = b_lock x -> b_next y = b_next x -> b_prev y = b_prev x ->
  b_data y = v_cache v' b -> length (b_data y) = BSIZE ->
  (b_flags y = 6 /\ b ∈ v_pinned v' \/ b_flags y = 2 /\ b ∉ v_pinned v') ->
  bio_rep (put_bufs (alter f h (bufs s)) s) v'.
Proof. clear HF1 HF2 Hsize.
  intros Hrep Hh Eh Ed Ew Hb x y Hc Hr Hl Hn Hp Hdat Hlen Hf.
  destruct (held_buf _ _ _ _ Hrep Hh) as (Hlt & Hbl & Hm & Hcx & _ & _ & _ & Hrange & _).
  pose proof Hrep as (Hbase & Hok & Hdisk). split_and!; [by apply at_base_put_bufs| |by rewrite disk_put_bufs, Ed, Ew].
  rewrite bufs_put_bufs. pose proof Hc as [Hc1 Hc2]. destruct Hm as (Hm1 & Hm2 & _).
  eapply (cache_ok_alter n size _ v v' h b); try done.
  - unfold buf_ok. rewrite Eh, Hh. fold x y. rewrite Hl, Hc2. split; [done|]. right.
    split_and!; try done; [lia|lia|]. destruct Hf as [?|[? ?]]; [by left|]. right. split_and!; try done.
  - intros j Hj Hjh Hcj. by apply Hjh, (c_uniq _ _ _ _ Hok j h b).
  - intros b0 [_ E1] Hne. destruct Hcx as [_ E2]. congruence.
  - by rewrite Eh.
  - intros b' Hne. destruct (Hb b' Hne). rewrite Ed. done.
  - intros. rewrite Ed. by apply (c_disk _ _ _ _ Hok).
Qed.
Lemma bset_run s v h b f : bio_rep s v -> v_held v !! h = Some b -> (forall d, length (f d) = length d) ->
  wp (buf_upd h (fun x => set_data (f (b_data x)) x)) (fun _ s' => bio_rep s' (v_store b (f (v_cache v b)) v)) s.
Proof.
  intros Hrep Hh Hf. destruct (held_buf _ _ _ _ Hrep Hh) as (Hlt & Hbl & _ & Hc & Hr & Hd & Hl & _ & Hfl).
  apply wp_buf_upd; [lia|]. apply (bio_rep_update s v _ h b); try done; simpl.
  - intros b' Hne. split; [by apply upd_block_ne|done].
  - by rewrite upd_block_eq, Hd.
  - by rewrite Hf, Hd.
Qed.

Lemma bdirty_run s v h b : bio_rep s v -> v_held v !! h = Some b ->
  wp (buf_upd h (fun x => set_flags (Z.lor (b_flags x) B_DIRTY) x)) (fun _ s' => bio_rep s' (v_pin b v)) s.
Proof. clear HF1 HF2 Hsize.
  intros Hrep Hh. destruct (held_buf _ _ _ _ Hrep Hh) as (Hlt & Hbl & _ & Hc & Hr & Hd & Hl & _ & Hfl).
  apply wp_buf_upd; [lia|]. apply (bio_rep_update s v _ h b); try done; simpl.
  - intros b' Hne. split; [done|]. set_solver.
  - by rewrite Hd.
  - left. split; [|set_solver]. by destruct Hfl as [[-> _]|[-> _]].
Qed.

Lemma bio_read_field {A} (g : buf -> A) s v h b (Q : A -> S -> Prop) : bio_rep s v -> v_held v !! h = Some b ->
  Q (g (bufs s !!! h)) s -> wp (let* x := buf_at h in ret (g x)) Q s.
Proof.
  intros Hrep Hh HQ. destruct (held_buf _ _ _ _ Hrep Hh) as (Hlt & Hbl & _).
  apply wp_bind, wp_buf_at; [lia|]. by apply wp_ret.
Qed.

Lemma bio_write_run s v h b : bio_rep s v -> v_held v !! h = Some b ->
  wp (bio_write (DiskOps0 := memide_ops) h) (fun _ s' => bio_rep s' (v_write b v)) s.
Proof.
  intros Hrep Hh. destruct (held_buf _ _ _ _ Hrep Hh) as (Hlt & Hbl & Hm & Hc & Hr & Hd & Hl & Hrange & Hfl).
  pose proof Hrep as (Hbase & Hok & Hdisk). unfold bio_write. apply wp_bind.
  apply wp_holding_buf; [done..|]. intros m Hm1. simpl. apply wp_bind, wp_buf_upd; autorewrite with bufs; [lia|].
  set (f1 := fun x => set_flags (Z.lor (b_flags x) B_DIRTY) x).
  assert (bufs (put_bufs (alter f1 h (bufs s)) (put_pm m s)) !!! h = f1 (bufs s !!! h)) as Ef.
  { rewrite bufs_put_bufs, lookup_total_alter_buf by lia. by rewrite decide_True. }
  apply (wp_memide_write h (v_disk v) (v_writes v)); try rewrite Ef; autorewrite with bufs; try done.
  - by apply at_base_put_bufs, at_base_put_pm.
  - by rewrite length_alter.
  - unfold f1. simpl. by destruct Hfl as [[-> _]|[-> _]].
  - intros m2 Hm2. change (b_blockno (f1 (bufs s !!! h))) with (b_blockno (bufs s !!! h)).
    change (b_data (f1 (bufs s !!! h))) with (b_data (bufs s !!! h)).
    pose proof Hc as [Hc1 Hc2]. rewrite Hc2, Hd. autorewrite with bufs.
    rewrite (alter_twice _ _ (set_flags 2)) by (done || lia).
    split_and!; autorewrite with bufs; [by apply at_base_put_disk, at_base_put_bufs, at_base_put_pm| |done].
    apply (cache_ok_alter n size _ v _ h b); try done.
    + unfold buf_ok. simpl. rewrite Hh, Hc2. pose proof Hm as (? & ? & _). split; [done|]. right.
      rewrite Hd, upd_block_eq. split_and!; try done; try lia. right. split_and!; [done|set_solver|done].
    + intros j Hj Hjh Hcj. by apply Hjh, (c_uniq _ _ _ _ Hok j h b).
    + intros b0 [_ E1] Hne. congruence.
    + intros b' Hne. simpl. rewrite upd_block_ne by done. split_and!; [done..|]. set_solver.
    + intros _. simpl. by rewrite upd_block_eq.
Qed.
(** *** brelse() and bread() *)
Lemma bufs_put_woken ch m s : bufs (put_woken ch m s) = bufs s.
Proof. apply indep_view_r. Qed.
Lemma disk_put_woken ch m s : view memdisk_lens (put_woken ch m s) = view memdisk_lens s.
Proof. apply indep_view_r. Qed.
Hint Rewrite bufs_put_woken disk_put_woken (@put_pm_woken S _) (@machine_put_woken S _) : bufs.

(** A buffer changes hands: its reference count and lock, and who holds it. *)
Definition hand (rc : Z) (l : sleeplock) (x : buf) : buf := set_refcnt rc (set_b_lock l x).

Lemma cache_ok_release bs v h b l :
  cache_ok n size bs v -> v_held v !! h = Some b -> sl_locked l = 0 ->
  b ∈ v_pinned v \/ v_cache v b = v_disk v b ->
  cache_ok n size (alter (hand 0 l) h bs) (v_set_held (delete h (v_held v)) v).
Proof.
  intros Hok Hh Hl Hb. pose proof (c_held _ _ _ _ Hok h b Hh) as Hlt.
  pose proof (c_buf _ _ _ _ Hok h Hlt) as Hbuf. unfold buf_ok in Hbuf. rewrite Hh in Hbuf.
  destruct Hbuf as ((Hc & _) & Hbuf). pose proof Hc as [Hd Hno].
  destruct Hbuf as [[? _]|(_ & Hr & Hdat & Hlen & Hf)]; [lia|]. rewrite Hno in *.
  apply (cache_ok_alter n size bs v _ h b); try done.
  - unfold buf_ok. simpl. rewrite lookup_delete_eq, Hno. split; [done|]. right. split_and!; try done; try lia.
    destruct Hf as [?|(? & ? & _)]; [by left|right]. split_and!; [done..|]. intros _. rewrite Hdat.
    by destruct Hb.
  - intros j Hj Hjh Hcj. by apply Hjh, (c_uniq _ _ _ _ Hok j h b).
  - intros b0 [_ E] Hne. congruence.
  - intros j Hj. simpl. by rewrite lookup_delete_ne.
  - intros. by apply (c_disk _ _ _ _ Hok).
Qed.

Lemma cache_ok_take bs v j b l :
  cache_ok n size bs v -> (j < NBUF)%nat -> caches (bs !!! j) b -> v_held v !! j = None ->
  sl_locked l = 1 -> sl_pid l = n ->
  cache_ok n size (alter (hand 1 l) j bs) (v_set_held (<[j := b]> (v_held v)) v).
Proof.
  intros Hok Hlt Hc Hh Hl Hp. pose proof (c_buf _ _ _ _ Hok j Hlt) as Hbuf. unfold buf_ok in Hbuf. rewrite Hh in Hbuf.
  destruct Hbuf as (_ & Hbuf). pose proof Hc as [Hd Hno].
  destruct Hbuf as [[? _]|(_ & Hr & Hdat & Hlen & Hf)]; [lia|]. rewrite Hno in *.
  apply (cache_ok_alter n size bs v _ j b); try done.
  - unfold buf_ok. simpl. rewrite lookup_insert_eq, Hno. split; [done|]. right. split_and!; try done; try lia.
    destruct Hf as [?|(? & ? & _)]; [by left|right]. split_and!; done.
  - intros k Hk Hkj Hck. by apply Hkj, (c_uniq _ _ _ _ Hok k j b).
  - intros b0 [_ E] Hne. congruence.
  - intros k Hk. simpl. by rewrite lookup_insert_ne.
  - intros. by apply (c_disk _ _ _ _ Hok).
Qed.

(** The buffer after bget() recycled it and bread() filled it. *)
Definition filled (b : Z) (d : list Z) (l : sleeplock) (x : buf) : buf :=
  MkBuf 2 1 b l 1 (b_prev x) (b_next x) (b_qnext x) d.

Lemma cache_ok_recycle bs v j b l :
  cache_ok n size bs v -> (j < NBUF)%nat -> (forall k, (k < NBUF)%nat -> ~ caches (bs !!! k) b) ->
  b_refcnt (bs !!! j) = 0 -> clean (b_flags (bs !!! j)) = true -> 0 <= b < size ->
  sl_locked l = 1 -> sl_pid l = n ->
  v_held v !! j = None /\
  cache_ok n size (alter (filled b (v_disk v b) l) j bs) (v_set_held (<[j := b]> (v_held v)) v).
Proof.
  intros Hok Hlt Hno Hr Hf Hb Hl Hp. pose proof (c_buf _ _ _ _ Hok j Hlt) as Hbuf. unfold buf_ok in Hbuf.
  destruct (v_held v !! j) as [b'|] eqn:Hh; [lia|]. split; [done|]. destruct Hbuf as (_ & Hbuf).
  assert (v_cache v b = v_disk v b) as Ec by (by apply (c_clean _ _ _ _ Hok)).
  assert (b ∉ v_pinned v) as Hpin.
  { intros Hin. destruct (c_pinned _ _ _ _ Hok b Hin) as (k & Hk & Hck). by apply (Hno k). }
  pose proof (c_disk _ _ _ _ Hok b Hb) as Hlen.
  apply (cache_ok_alter n size bs v _ j b); try done.
  - unfold buf_ok. simpl. rewrite lookup_insert_eq. split; [done|]. right. split_and!; try done; try lia.
    right. split_and!; done.
  - intros k Hk _. by apply Hno.
  - intros b0 [Hd0 Hn0] Hne. destruct Hbuf as [[? _]|(_ & Hr0 & Hdat & _ & Hf0)]; [lia|]. rewrite Hn0 in *.
    destruct Hf0 as [[E _]|(_ & ? & Hcl)]; [by rewrite E in Hf|]. split; [done|]. rewrite <- Hdat. auto.
  - intros k Hk. simpl. by rewrite lookup_insert_ne.
Qed.

(** If every buffer is busy, the pinned and the held blocks fill the cache. *)
Lemma all_busy bs v b :
  cache_ok n size bs v -> (forall k, (k < NBUF)%nat -> ~ caches (bs !!! k) b) ->
  (forall j, (j < NBUF)%nat -> b_refcnt (bs !!! j) = 0 -> clean (b_flags (bs !!! j)) = false) ->
  (NBUF < base.size ({[b]} ∪ v_pinned v ∪ held_blocks (v_held v)))%nat.
Proof.
  intros Hok Hno Hbusy. set (g := fun j => b_blockno (bs !!! j)).
  assert (forall j, (j < NBUF)%nat -> caches (bs !!! j) (g j) /\ (g j ∈ v_pinned v \/ g j ∈ held_blocks (v_held v))) as Hg.
  { intros j Hj. pose proof (c_buf _ _ _ _ Hok j Hj) as Hbuf. unfold buf_ok in Hbuf.
    destruct (v_held v !! j) as [b'|] eqn:Hh.
    - destruct Hbuf as ((Hc & _) & _). pose proof Hc as [Hd E]. unfold g. rewrite E. split; [done|]. right.
      apply elem_of_held_blocks. eauto.
    - destruct Hbuf as ((Hr & _) & Hbuf). specialize (Hbusy j Hj Hr).
      destruct Hbuf as [[_ E]|(Hd & _ & _ & _ & Hf)]; [by rewrite E in Hbusy|]. split; [done|].
      destruct Hf as [[_ ?]|(E & _)]; [by left|by rewrite E in Hbusy]. }
  assert (NoDup (g <$> seq 0 NBUF)) as Hnd.
  { apply NoDup_fmap_2_strong; [|apply NoDup_seq]. intros x y Hx Hy E. apply elem_of_seq in Hx, Hy.
    apply (c_uniq _ _ _ _ Hok x y (g x)); [lia|lia|by apply Hg; lia|]. rewrite E. apply Hg. lia. }
  assert (b ∉ g <$> seq 0 NBUF) as Hbn.
  { intros Hin. apply list_elem_of_fmap in Hin as (j & -> & Hj). apply elem_of_seq in Hj. apply (Hno j); [lia|].
    apply Hg. lia. }
  assert (base.size (list_to_set (b :: (g <$> seq 0 NBUF)) : gset Z) = Datatypes.S NBUF) as Es.
  { rewrite size_list_to_set by (by apply NoDup_cons). done. }
  apply Nat.lt_le_trans with (m := Datatypes.S NBUF); [lia|]. rewrite <- Es. apply subseteq_size.
  intros x. rewrite elem_of_list_to_set, elem_of_cons, list_elem_of_fmap.
  intros [->|(j & -> & Hj)]; [set_solver|]. apply elem_of_seq in Hj. destruct (Hg j) as [_ [?|?]]; [lia|set_solver|set_solver].
Qed.

Lemma bio_relse_run s v h b : bio_rep s v -> v_held v !! h = Some b ->
  b ∈ v_pinned v \/ v_cache v b = v_disk v b ->
  wp (bio_relse h) (fun _ s' => bio_rep s' (v_set_held (delete h (v_held v)) v)) s.
Proof.
  intros Hrep Hh Hb. destruct (held_buf _ _ _ _ Hrep Hh) as (Hlt & Hbl & Hm & Hc & Hr & _).
  pose proof Hrep as (Hbase & Hok & Hdisk). unfold bio_relse. apply wp_bind.
  apply wp_holding_buf; [done..|]. intros m Hm1. simpl. apply wp_bind.
  eapply (wp_releasesleep c i n F bio_lens (buf_slref h)); [by apply at_base_put_pm|by apply HF2|done| |].
  { change (view bio_lens (put_pm m s)) with (bufs (put_pm m s)). rewrite bufs_put_pm. apply sel_buf. lia. }
  intros m2 Hm2. change (put bio_lens) with put_bufs. change (view bio_lens) with bufs.
  rewrite bufs_put_pm, put_woken_pm. simpl.
  set (l := MkSleeplock 0 (sl_name (b_lock (bufs s !!! h))) 0).
  apply wp_bind. eapply (wp_lock c (Some i) 0 [] F); [done|done|by autorewrite with bufs|].
  intros m3 Hm3. autorewrite with bufs. apply wp_bind, wp_buf_upd; autorewrite with bufs; [rewrite length_alter; lia|].
  rewrite (alter_twice _ _ (hand 0 l)); [|lia|by unfold hand, set_refcnt; simpl; rewrite Hr].
  apply wp_bind, wp_buf_at; autorewrite with bufs; [rewrite length_alter; lia|].
  rewrite lookup_total_alter_buf, decide_True by (done || lia). simpl. apply wp_bind.
  pose proof (cache_ok_release _ _ _ _ l Hok Hh eq_refl Hb) as Hok2.
  destruct (c_lru _ _ _ _ Hok2) as [lr Hlr].
  eapply (relink_front_run h lr); autorewrite with bufs; [done|done|by rewrite length_alter|].
  intros bs' [Hl' Hrel] Hlru'. autorewrite with bufs.
  eapply (wp_unlock c (Some i) (0 + 1) [] F); [done|set_solver|by autorewrite with bufs|].
  intros m4 Hm4. autorewrite with bufs. split_and!; autorewrite with bufs; [|by eapply cache_ok_relink|done].
  apply at_base_put_bufs. by eapply at_base_put_woken.
Qed.

Lemma wp_take_buf fuel j l (Q : unit -> S -> Prop) s :
  at_base c i n F s -> (j < NBUF)%nat -> length (bufs s) = Datatypes.S NBUF ->
  b_lock (bufs s !!! j) = l -> sl_locked l = 0 ->
  (forall m, on_cpu c (Some i) 0 [] F m ->
     Q tt (put_bufs (alter (set_b_lock (MkSleeplock 1 (sl_name l) n)) j (bufs s)) (put_pm m s))) ->
  wp (acquiresleep bio_lens (buf_slref j) fuel) Q s.
Proof.
  intros Hbase Hj Hlen <- Hl HQ.
  eapply (wp_acquiresleep c i n F bio_lens (buf_slref j)); [done|by apply HF2| |exact Hl|].
  - apply sel_buf. change (view bio_lens s) with (bufs s). lia.
  - intros m Hm. specialize (HQ m Hm). simpl. change (put bio_lens) with put_bufs. change (view bio_lens s) with (bufs s).
    rewrite (alter_ext_at _ (set_b_lock (MkSleeplock 1 (sl_name (b_lock (bufs s !!! j))) n)) j (bufs s) (bufs s !!! j));
      [done|apply lookup_bufs; lia|done].
Qed.

Lemma bread_cached fuel s v b j l : bio_rep s v -> (j < NBUF)%nat -> caches (bufs s !!! j) b ->
  b ∉ held_blocks (v_held v) -> l = b_lock (bufs s !!! j) ->
  v_held v !! j = None /\ b_refcnt (bufs s !!! j) = 0 /\ sl_locked l = 0 /\
  valid (b_flags (bufs s !!! j)) = true /\
  wp (acquiresleep bio_lens (buf_slref j) fuel;;;
      let* x := buf_at j in
      when (negb (valid (b_flags x))) (iderw (DiskOps := memide_ops) j);;; ret j)
    (fun h s' => v_held v !! h = None /\ bio_rep s' (v_set_held (<[h := b]> (v_held v)) v))
    (put_bufs (alter (set_refcnt 1) j (bufs s)) s).
Proof.
  intros (Hbase & Hok & Hdisk) Hj Hc Hnb ->.
  pose proof (c_buf _ _ _ _ Hok j Hj) as Hbuf. unfold buf_ok in Hbuf.
  destruct (v_held v !! j) as [b'|] eqn:Hh.
  { destruct Hbuf as ((Hc' & _) & _). destruct Hc as [_ E], Hc' as [_ E']. destruct Hnb.
    apply elem_of_held_blocks. exists j. congruence. }
  destruct Hbuf as ((Hr & Hl) & Hbuf). pose proof Hc as [Hd Hno].
  destruct Hbuf as [[? _]|(_ & Hrange & Hdat & Hlen & Hf)]; [lia|].
  assert (valid (b_flags (bufs s !!! j)) = true) as Hv by (by destruct Hf as [[-> _]|[-> _]]).
  split_and!; [done..|]. pose proof (c_length _ _ _ _ Hok) as Hbl. apply wp_bind.
  eapply (wp_take_buf fuel j); [by apply at_base_put_bufs|done|by autorewrite with bufs; rewrite length_alter|done| |].
  { autorewrite with bufs. rewrite lookup_total_alter_buf, decide_True by (done || lia). done. }
  intros m Hm. autorewrite with bufs. rewrite lookup_total_alter_buf, decide_True by (done || lia). simpl.
  rewrite (alter_twice _ _ (hand 1 (MkSleeplock 1 (sl_name (b_lock (bufs s !!! j))) n))) by (done || lia).
  apply wp_bind, wp_buf_at; autorewrite with bufs; [rewrite length_alter; lia|].
  rewrite lookup_total_alter_buf, decide_True by (done || lia). simpl. rewrite Hv. simpl.
  apply wp_ret. split; [done|]. split_and!; autorewrite with bufs; [by apply at_base_put_bufs, at_base_put_pm| |done].
  by apply cache_ok_take.
Qed.

(** bget() when the block is not cached, once the scan has found the buffer [j] to recycle. *)
Lemma bread_recycled fuel s v b j :
  bio_rep s v -> (j < NBUF)%nat -> (forall k, (k < NBUF)%nat -> ~ caches (bufs s !!! k) b) ->
  b_refcnt (bufs s !!! j) = 0 -> clean (b_flags (bufs s !!! j)) = true -> 0 <= b < size ->
  wp (acquiresleep bio_lens (buf_slref j) fuel;;;
      let* x := buf_at j in
      when (negb (valid (b_flags x))) (iderw (DiskOps := memide_ops) j);;; ret j)
    (fun h s' => v_held v !! h = None /\ bio_rep s' (v_set_held (<[h := b]> (v_held v)) v))
    (put_bufs (alter (fun x => set_refcnt 1 (set_flags 0 (set_blockno b (set_dev 1 x)))) j (bufs s)) s).
Proof.
  intros (Hbase & Hok & Hdisk) Hj Hno Hr Hf Hb. pose proof (c_length _ _ _ _ Hok) as Hbl.
  set (l := MkSleeplock 1 (sl_name (b_lock (bufs s !!! j))) n).
  destruct (cache_ok_recycle _ _ _ _ l Hok Hj Hno Hr Hf Hb eq_refl eq_refl) as [Hh Hok'].
  assert (sl_locked (b_lock (bufs s !!! j)) = 0) as Hl.
  { pose proof (c_buf _ _ _ _ Hok j Hj) as Hbuf. unfold buf_ok in Hbuf. rewrite Hh in Hbuf. tauto. }
  apply wp_bind.
  eapply (wp_take_buf fuel j); [by apply at_base_put_bufs|done|by autorewrite with bufs; rewrite length_alter|done| |].
  { autorewrite with bufs. rewrite lookup_total_alter_buf, decide_True by (done || lia). done. }
  intros m Hm. autorewrite with bufs. rewrite lookup_total_alter_buf, decide_True by (done || lia). simpl.
  set (g := fun x => set_b_lock l (set_refcnt 1 (set_flags 0 (set_blockno b (set_dev 1 x))))).
  rewrite (alter_twice _ _ g) by (done || lia).
  apply wp_bind, wp_buf_at; autorewrite with bufs; [rewrite length_alter; lia|].
  rewrite lookup_total_alter_buf, decide_True by (done || lia). simpl. apply wp_bind.
  apply (wp_memide_read j (v_disk v) (v_writes v)); autorewrite with bufs;
    try rewrite lookup_total_alter_buf, decide_True by (done || lia); try done.
  - by apply at_base_put_bufs, at_base_put_pm.
  - by rewrite length_alter.
  - intros m2 Hm2. autorewrite with bufs. simpl. rewrite (alter_twice _ _ (filled b (v_disk v b) l)) by (done || lia).
    apply wp_ret. split; [done|]. split_and!; autorewrite with bufs; [by apply at_base_put_bufs, at_base_put_pm|done..].
Qed.

Lemma bio_read_run fuel s v b : bio_rep s v -> 0 <= b < size -> b ∉ held_blocks (v_held v) ->
  (base.size ({[b]} ∪ v_pinned v ∪ held_blocks (v_held v)) <= NBUF)%nat ->
  wp (bio_read (DiskOps0 := memide_ops) fuel 1 b) (fun h s' => v_held v !! h = None /\
    bio_rep s' (v_set_held (<[h := b]> (v_held v)) v)) s.
Proof.
  intros Hrep Hb Hnb Hsz. pose proof Hrep as (Hbase & Hok & Hdisk).
  pose proof (c_length _ _ _ _ Hok) as Hbl. destruct (c_lru _ _ _ _ Hok) as [l Hl].
  assert (length l = NBUF) as Hll by (destruct Hl as [Hl _]; rewrite Hl; apply length_seq).
  assert (forall j, j ∈ l -> (j < NBUF)%nat) as Hlt by (intros j; by apply (lru_in _ _ j Hl)).
  assert (bhead < length (bufs s))%nat as Hhd by (rewrite Hbl; unfold bhead; lia).
  unfold bio_read, bget. apply wp_bind, wp_bind.
  eapply (wp_lock c (Some i) 0 [] F); [done|done|by destruct Hbase|]. intros m Hm.
  apply wp_bind, wp_buf_at; autorewrite with bufs; [done|].
  assert (b_next (bufs s !!! bhead) = List.hd bhead (l ++ [bhead])) as ->
    by (destruct Hl as [_ Hl]; destruct l; simpl in Hl; tauto).
  apply wp_bind. apply (find_cached_run NBUF 1 b l); autorewrite with bufs; [done|by rewrite Hll|done| |].
  { destruct Hl as [_ Hl]. destruct l; simpl in *; tauto. }
  intros [j|].
  - intros (Hjl & Hd & Hno). apply wp_bind, wp_buf_upd; autorewrite with bufs; [rewrite Hbl; specialize (Hlt j Hjl); lia|].
    destruct (bread_cached fuel s v b j _ Hrep (Hlt j Hjl) (conj Hd Hno) Hnb eq_refl) as (_ & Hr & _).
    rewrite (alter_ext_at _ (set_refcnt 1) j (bufs s) (bufs s !!! j));
      [|apply lookup_bufs; specialize (Hlt j Hjl); lia|by simpl; rewrite Hr].
    apply wp_bind. eapply (wp_unlock c (Some i) (0 + 1) [] F); [done|set_solver|by autorewrite with bufs|].
    intros m2 Hm2. autorewrite with bufs. apply wp_bind.
    assert (bio_rep (put_pm m2 s) v) as Hrep2 by (split_and!; autorewrite with bufs; [by eapply at_base_put_pm|done..]).
    destruct (bread_cached fuel (put_pm m2 s) v b j (b_lock (bufs s !!! j)) Hrep2 (Hlt j Hjl)) as (_ & _ & _ & _ & H);
      rewrite ?bufs_put_pm; try done.
    rewrite bufs_put_pm in H. unfold wp, bind in H. unfold wp, bind.
    destruct (acquiresleep _ _ _ _); simpl in *; done.
  - intros Hno. apply wp_bind, wp_buf_at; autorewrite with bufs; [done|].
    assert (b_prev (bufs s !!! bhead) = List.last l bhead) as ->
      by (destruct Hl as [_ Hl]; exact (dchain_last _ _ _ _ _ Hl)).
    apply wp_bind. apply (find_unused_run NBUF l); autorewrite with bufs; [done|by rewrite Hll|done| |].
    { destruct Hl as [_ Hl]. by apply dchain_snoc in Hl. }
    assert (forall k, (k < NBUF)%nat -> ~ caches (bufs s !!! k) b) as Hno'.
    { intros k Hk. apply Hno. by apply (lru_in _ _ k Hl). }
    intros [j|].
    + intros (Hjl & Hr & Hf). pose proof (Hlt j Hjl) as Hj.
      apply wp_bind, wp_buf_upd; autorewrite with bufs; [lia|].
      apply wp_bind, wp_buf_upd; autorewrite with bufs; [rewrite length_alter; lia|].
      apply wp_bind, wp_buf_upd; autorewrite with bufs; [rewrite !length_alter; lia|].
      apply wp_bind, wp_buf_upd; autorewrite with bufs; [rewrite !length_alter; lia|].
      rewrite !alter_alter. apply wp_bind.
      eapply (wp_unlock c (Some i) (0 + 1) [] F); [done|set_solver|by autorewrite with bufs|].
      intros m2 Hm2. autorewrite with bufs. apply wp_bind.
      assert (bio_rep (put_pm m2 s) v) as Hrep2 by (split_and!; autorewrite with bufs; [by eapply at_base_put_pm|done..]).
      pose proof (bread_recycled fuel (put_pm m2 s) v b j Hrep2 Hj) as H. rewrite bufs_put_pm in H.
      specialize (H Hno' Hr Hf Hb). unfold wp, bind in H. unfold wp, bind.
      change (alter (set_refcnt 1 ∘ (set_flags 0 ∘ (set_blockno b ∘ set_dev 1))) j (bufs s)) with
        (alter (fun x => set_refcnt 1 (set_flags 0 (set_blockno b (set_dev 1 x)))) j (bufs s)).
      destruct (acquiresleep _ _ _ _); simpl in *; done.
    + intros Hbusy. pose proof (all_busy _ _ b Hok Hno') as H. exfalso.
      apply Nat.lt_nge in H; [done|]. intros j Hj. apply Hbusy. by apply (lru_in _ _ j Hl).
Qed.

Lemma cached_or_not (bs : bcache) b :
  (exists j, (j < NBUF)%nat /\ caches (bs !!! j) b) \/ (forall j, (j < NBUF)%nat -> ~ caches (bs !!! j) b).
Proof.
  destruct (decide (Exists (fun j => b_dev (bs !!! j) = 1 /\ b_blockno (bs !!! j) = b) (seq 0 NBUF))) as [He|He].
  - left. apply Exists_exists in He as (j & Hj & Hc). apply elem_of_seq in Hj. exists j. split; [lia|done].
  - right. intros j Hj Hc. apply He, Exists_exists. exists j. rewrite elem_of_seq. split; [lia|done].
Qed.

(** The cache and the memory disk keep the promises of Block.v. *)
Definition bio_cache (fuel : nat) : @BlockCache S (bio_ops (DiskOps0 := memide_ops) fuel).
Proof.
  refine {| bc_size := size; bc_rep := bio_rep |}.
  - intros s v b (_ & Hok & _) Hb. destruct (cached_or_not (bufs s) b) as [(j & Hj & Hc)|Hno].
    + pose proof (c_buf _ _ _ _ Hok j Hj) as [_ [[? _]|(_ & _ & E & Hl & _)]]; destruct Hc as [Hd Hno]; [lia|].
      rewrite Hno in E. by rewrite <- E.
    + rewrite (c_clean _ _ _ _ Hok) by done. by apply (c_disk _ _ _ _ Hok).
  - intros s v b (_ & Hok & _) Hr Hp Hh. destruct (cached_or_not (bufs s) b) as [(j & Hj & Hc)|Hno];
      [|by apply (c_clean _ _ _ _ Hok)].
    pose proof (c_buf _ _ _ _ Hok j Hj) as [Hbh [[? _]|(_ & _ & E & Hl & Hf)]]; destruct Hc as [Hd Hno]; [lia|].
    rewrite Hno in *. destruct Hf as [[_ ?]|(_ & _ & Hf)]; [done|]. rewrite <- E. apply Hf.
    destruct (v_held v !! j) as [b'|] eqn:Hj'; [|done]. destruct Hbh as ((_ & E') & _).
    destruct Hh. apply elem_of_held_blocks. exists j. congruence.
  - intros s v b H10 H11 H12 H13. exact (bio_read_run fuel s v b H10 H11 H12 H13).
  - intros s v h b H10 H11. exact (bio_write_run s v h b H10 H11).
  - intros s v h b H10 H11 H12. exact (bio_relse_run s v h b H10 H11 H12).
  - intros s v h b Hrep Hh. eapply bio_read_field; [done..|]. split; [done|].
    by destruct (held_buf _ _ _ _ Hrep Hh) as (_ & _ & _ & _ & _ & ? & _).
  - intros s v h b f H10 H11 H12. exact (bset_run s v h b f H10 H11 H12).
  - intros s v h b Hrep Hh. eapply bio_read_field; [done..|]. split; [done|].
    by destruct (held_buf _ _ _ _ Hrep Hh) as (_ & _ & _ & [_ ?] & _).
  - intros s v h b H10 H11. exact (bdirty_run s v h b H10 H11).
Defined.

(** *** binit() *)
Definition blank (x : buf) : Prop :=
  b_dev x = 0 /\ b_flags x = 0 /\ b_refcnt x = 0 /\ sl_locked (b_lock x) = 0.

(** [k-1, ..., 0]. *)
Fixpoint down (k : nat) : list nat :=
  match k with O => [] | Datatypes.S k' => k' :: down k' end.

Lemma elem_of_down x k : x ∈ down k <-> (x < k)%nat.
Proof. induction k as [|k IH]; simpl; [rewrite elem_of_nil; lia|]. rewrite elem_of_cons, IH. lia. Qed.

Lemma NoDup_down k : NoDup (down k).
Proof. induction k as [|k IH]; simpl; [constructor|]. apply NoDup_cons. rewrite elem_of_down. split; [lia|done]. Qed.

Lemma down_seq k : down k ≡ₚ seq 0 k.
Proof. apply NoDup_Permutation; [apply NoDup_down|apply NoDup_seq|]. intros x. rewrite elem_of_down, elem_of_seq. lia. Qed.

Definition half_built (s0 : S) (k : nat) (s : S) : Prop :=
  at_base c i n F s /\ view memdisk_lens s = view memdisk_lens s0 /\ length (bufs s) = Datatypes.S NBUF /\
  dchain (nexts (bufs s)) (prevs (bufs s)) (bhead :: down k ++ [bhead]) /\
  forall j, (j < NBUF)%nat -> blank (bufs s !!! j).

Lemma initsleeplock_run j name (Q : unit -> S -> Prop) s :
  at_base c i n F s -> (j < length (bufs s))%nat ->
  (forall m l, on_cpu c (Some i) 0 [] F m -> sl_locked l = 0 ->
     Q tt (put_bufs (alter (set_b_lock l) j (bufs s)) (put_pm m s))) ->
  wp (initsleeplock bio_lens (buf_slref j) name) Q s.
Proof.
  clear HF1 HF2 Hsize. intros (Hon & Hb) Hj HQ. unfold initsleeplock. apply wp_bind.
  apply (wp_initlock c (Some i) 0 [] F); [set_solver|done|]. intros m Hm.
  assert (forall f (Q : unit -> S -> Prop) s, (j < length (bufs s))%nat ->
    Q tt (put_bufs (alter (fun b => set_b_lock (f (b_lock b)) b) j (bufs s)) s) ->
    wp (sl_upd bio_lens (buf_slref j) f) Q s) as Hu.
  { intros f Q' s' Hj' HQ'. eapply (wp_sl_upd bio_lens (buf_slref j)); [|exact HQ'].
    by apply (sel_buf j (bufs s')). }
  apply wp_bind, Hu; autorewrite with bufs; [done|].
  apply wp_bind, Hu; autorewrite with bufs; [by rewrite length_alter|].
  apply Hu; autorewrite with bufs; [by rewrite !length_alter|].
  rewrite !alter_alter.
  rewrite (alter_ext_at _ (set_b_lock (MkSleeplock 0 name 0)) j (bufs s) (bufs s !!! j));
    [by apply HQ|by apply lookup_bufs|done].
Qed.

Lemma half_built_step s0 k s : half_built s0 k s -> (k < NBUF)%nat ->
  wp (let* hd := buf_at bhead in
    buf_upd k (set_next (b_next hd));;;
    buf_upd k (set_prev bhead);;;
    initsleeplock bio_lens (buf_slref k) "buffer";;;
    let* hd := buf_at bhead in
    buf_upd (b_next hd) (set_prev k);;;
    buf_upd bhead (set_next k)) (fun _ => half_built s0 (Datatypes.S k)) s.
Proof.
  clear HF1 HF2 Hsize. intros (Hbase & Hdisk & Hlen & Hc & Hb) Hk.
  assert (bhead < length (bufs s))%nat as Hhd by (rewrite Hlen; unfold bhead; lia).
  assert (bhead <> k) as Hhk by (unfold bhead; lia).
  destruct (down k ++ [bhead]) as [|f l] eqn:El; [by destruct (down k)|].
  assert (forall x, x ∈ f :: l -> x = bhead \/ (x < k)%nat) as Hin.
  { intros x. rewrite <- El, elem_of_app, list_elem_of_singleton, elem_of_down. lia. }
  assert (NoDup (f :: l)) as Hnd.
  { rewrite <- El. apply NoDup_app. split_and!; [apply NoDup_down| |apply NoDup_singleton].
    intros x Hx Hx2. apply list_elem_of_singleton in Hx2 as ->. apply elem_of_down in Hx. unfold bhead in Hx. lia. }
  assert (bhead ∉ removelast (f :: l)) as Hhr.
  { rewrite <- El, removelast_last, elem_of_down. unfold bhead. lia. }
  assert (nexts (bufs s) bhead = f /\ dchain (nexts (bufs s)) (prevs (bufs s)) (f :: l)) as [Ef Hl] by (simpl in Hc; tauto).
  assert (f < length (bufs s))%nat as Hf by (destruct (Hin f ltac:(set_solver)); subst; lia).
  assert (k < length (bufs s))%nat as Hkl by lia.
  apply wp_bind, wp_buf_at; [done|]. change (b_next (bufs s !!! bhead)) with (nexts (bufs s) bhead). rewrite Ef.
  apply wp_bind, wp_buf_upd; [done|]. apply wp_bind, wp_buf_upd; autorewrite with bufs; [by rewrite length_alter|].
  apply wp_bind, initsleeplock_run; [by apply at_base_put_bufs|by autorewrite with bufs; rewrite !length_alter|].
  intros m lk Hm Hlk. autorewrite with bufs. rewrite !alter_alter.
  set (g := set_b_lock lk ∘ set_prev bhead ∘ set_next f).
  apply wp_bind, wp_buf_at; autorewrite with bufs; [by rewrite length_alter|].
  rewrite lookup_total_alter_buf, decide_False by done.
  change (b_next (bufs s !!! bhead)) with (nexts (bufs s) bhead). rewrite Ef.
  apply wp_bind, wp_buf_upd; autorewrite with bufs; [by rewrite length_alter|].
  apply wp_buf_upd; autorewrite with bufs; [by rewrite !length_alter|].
  split_and!; autorewrite with bufs; [by apply at_base_put_bufs, at_base_put_pm|done|by rewrite !length_alter| |].
  - change (down (Datatypes.S k) ++ [bhead]) with (k :: (down k ++ [bhead])). rewrite El. eapply dchain_ext; [| |apply (dchain_front (nexts (bufs s)) (prevs (bufs s)) bhead k f l)];
      try done; [| | |by apply NoDup_cons in Hnd as [? _]].
    + intros a. rewrite nexts_set_next by (by rewrite !length_alter). apply fupd_cong.
      rewrite nexts_set_prev by (by rewrite length_alter). unfold nexts, fupd.
      rewrite lookup_total_alter_buf by done. by destruct (decide (a = k)).
    + intros a. rewrite prevs_set_next by (by rewrite !length_alter).
      rewrite prevs_set_prev by (by rewrite length_alter). apply fupd_cong. unfold prevs, fupd.
      rewrite lookup_total_alter_buf by done. by destruct (decide (a = k)).
    + intros Hk2. destruct (Hin k Hk2); [by subst|lia].
  - intros j Hj. rewrite !lookup_total_alter_buf by (by rewrite ?length_alter).
    specialize (Hb j Hj). destruct (decide (j = bhead)); [subst; unfold bhead in Hj; lia|].
    unfold blank in *. assert (forall x, (b_dev x = 0 /\ b_flags x = 0 /\ b_refcnt x = 0 /\ sl_locked (b_lock x) = 0) ->
      b_dev (g x) = 0 /\ b_flags (g x) = 0 /\ b_refcnt (g x) = 0 /\ sl_locked (b_lock (g x)) = 0) as Hg by (intros x; simpl; tauto).
    destruct (decide (j = f)) as [->|]; [destruct (decide (f = k)) as [->|]|destruct (decide (j = k)) as [->|]];
      first [exact Hb|exact (Hg _ Hb)].
Qed.

Lemma binit_run D s :
  at_base c i n F s -> bufs s = bcache0 -> view memdisk_lens s = MkMemdisk size D [] ->
  (forall b, 0 <= b < size -> length (D b) = BSIZE) ->
  wp binit (fun _ s' => bio_rep s' (BView D D ∅ ∅ []) /\ lru (bufs s') (down NBUF)) s.
Proof.
  clear HF1 HF2 Hsize. intros Hbase Hbufs Hdisk HD. unfold binit. apply wp_bind. pose proof Hbase as (Hon & _).
  apply (wp_initlock c (Some i) 0 [] F); [set_solver|done|]. intros m Hm.
  apply wp_bind, wp_buf_upd; autorewrite with bufs; rewrite Hbufs; [unfold bhead, bcache0; rewrite length_replicate; lia|].
  apply wp_bind, wp_buf_upd; autorewrite with bufs;
    [rewrite length_alter; unfold bhead, bcache0; rewrite length_replicate; lia|].
  apply (wp_for_each _ _ (fun l s' => exists k, l = seq k (NBUF - k) /\ (k <= NBUF)%nat /\ half_built (put_pm m s) k s')).
  - intros x l s' (k & El & Hk & Hs'). destruct (decide (k = NBUF)) as [->|Hne]; [done|].
    assert (NBUF - k = Datatypes.S (NBUF - Datatypes.S k))%nat as En by lia. rewrite En in El. injection El as -> ->.
    eapply wp_mono; [|apply half_built_step; [done|lia]]. intros [] s2 H2. exists (Datatypes.S k). split_and!; [done|lia|done].
  - intros s' (k & El & Hk & (Hb' & Hd' & Hl' & Hc' & Hbl)).
    assert (k = NBUF) as -> by (destruct (NBUF - k)%nat eqn:E; [lia|done]).
    rewrite disk_put_pm, Hdisk in Hd'.
    assert (lru (bufs s') (down NBUF)) as Hlru by (split; [apply down_seq|done]).
    split; [|done]. split_and!; [done| |done]. split; simpl; try done.
    + by exists (down NBUF).
    + intros j Hj. destruct (Hbl j Hj) as (H1 & H2 & H3 & H4). unfold buf_ok. simpl. rewrite lookup_empty. split; [done|].
      by left.
    + intros j k b Hj Hk' [Hd1 _]. destruct (Hbl j Hj) as (H1 & _). lia.
  - exists 0%nat. split_and!; [done|lia|]. split_and!; autorewrite with bufs; [by apply at_base_put_bufs, at_base_put_pm|done| | |].
    + rewrite !length_alter. done.
    + simpl. done.
    + intros j Hj. assert (Hb0 : bhead <> j) by (unfold bhead; lia).
      rewrite !lookup_total_alter_buf by (rewrite ?length_alter; unfold bhead, bcache0; rewrite length_replicate; lia).
      rewrite !decide_False by done. unfold bcache0. rewrite list_lookup_total_alt, lookup_replicate_2 by lia. done.
Qed.
End runs.

(** *** Any interleaving

    What holds of the cache wherever a thread inside it hands the CPU over: the list is a ring
    through all buffers, and no two buffers cache the same block. *)
Definition bcache_inv (bs : bcache) : Prop :=
  length bs = Datatypes.S NBUF /\ (exists l, lru bs l) /\
  forall j k, (j < NBUF)%nat -> (k < NBUF)%nat -> b_dev (bs !!! j) <> 0 ->
    b_dev (bs !!! j) = b_dev (bs !!! k) -> b_blockno (bs !!! j) = b_blockno (bs !!! k) -> j = k.

(** A disk driver does not touch which block a buffer caches, nor the list. *)
Class DiskFrame (S : Type) `{!HasBio S} `{!DiskOps S} : Prop :=
  iderw_frame : forall i, preserves (fun s => bcache_inv (view bio_lens s)) (iderw i).

Definition same_place (f : buf -> buf) : Prop :=
  forall b, b_next (f b) = b_next b /\ b_prev (f b) = b_prev b /\ b_dev (f b) = b_dev b /\
    b_blockno (f b) = b_blockno b.

Lemma bcache_inv_alter f j bs : same_place f -> bcache_inv bs -> bcache_inv (alter f j bs).
Proof.
  intros Hf (Hl & (l & Hp & Hlru) & Hu). destruct (decide (j < length bs)%nat) as [Hj|Hj].
  - assert (forall k, exists y, alter f j bs !!! k = y /\ b_next y = b_next (bs !!! k) /\
      b_prev y = b_prev (bs !!! k) /\ b_dev y = b_dev (bs !!! k) /\ b_blockno y = b_blockno (bs !!! k)) as Ha.
    { intros k. eexists. split; [done|]. rewrite lookup_total_alter_buf by done.
      destruct (decide (k = j)) as [->|]; [apply Hf|done]. }
    split_and!; [by rewrite length_alter| |].
    + exists l. split; [done|]. eapply dchain_ext; [| |exact Hlru]; intros a; destruct (Ha a) as (y & E & E1 & E2 & _);
        unfold nexts, prevs; by rewrite E.
    + intros a b Hla Hlb. destruct (Ha a) as (y & -> & _ & _ & -> & ->), (Ha b) as (z & -> & _ & _ & -> & ->). by apply Hu.
  - assert (alter f j bs = bs) as ->; [|by split_and!; [|exists l|]].
    apply list_eq. intros k. rewrite list_lookup_alter. destruct (decide (j = k)) as [->|]; [|done].
    by rewrite (lookup_ge_None_2 bs k) by lia.
Qed.

Section interleaving.
Context {S : Type} `{!HasProc S} `{!HasBio S} `{!DiskOps S} `{!LensIndep proc_lens bio_lens} `{!DiskFrame S} (fuel : nat).

Definition inv (s : S) : Prop := bcache_inv (view bio_lens s).

Lemma bc_inv_ptab {A} (m : M pst A) : preserves inv (ptab m).
Proof. apply preserves_zoom. intros t s Hs. unfold inv. by rewrite indep_view_r. Qed.

Lemma bc_inv_buf_upd j f : same_place f -> preserves inv (buf_upd j f).
Proof.
  intros Hf. apply preserves_bind; [apply preserves_getopt|]. intros _. apply preserves_modify.
  intros s Hs. unfold inv. rewrite view_put. by apply bcache_inv_alter.
Qed.

Lemma bc_inv_sl_upd j f : preserves inv (sl_upd bio_lens (buf_slref j) f).
Proof.
  apply preserves_bind; [apply preserves_getopt|]. intros _. apply preserves_modify.
  intros s Hs. unfold inv. rewrite view_put. by apply bcache_inv_alter.
Qed.
Hint Resolve bc_inv_ptab bc_inv_sl_upd : kern.

Lemma bc_inv_holdingsleep j : preserves inv (holdingsleep bio_lens (buf_slref j)).
Proof. unfold holdingsleep, sl_get, curp. preserve. Qed.
Lemma bc_inv_releasesleep j : preserves inv (releasesleep bio_lens (buf_slref j)).
Proof. unfold releasesleep, sl_get. preserve. Qed.
Lemma bc_inv_acquiresleep j k : preserves inv (acquiresleep bio_lens (buf_slref j) k).
Proof.
  assert (forall k, preserves inv (acquiresleep_loop bio_lens (buf_slref j) k)) as Hl
    by (clear k; intros k; induction k; simpl; unfold sl_get; preserve; auto).
  unfold acquiresleep, curp. preserve; auto.
Qed.
Hint Resolve bc_inv_holdingsleep bc_inv_releasesleep bc_inv_acquiresleep : kern.

Lemma bc_inv_locked {A} lk (m : M S A) : (forall s, inv s -> always inv (m s)) -> preserves inv (ptab (kacquire lk);;; m).
Proof.
  intros Hm s Hs. apply always_bind_wlp. unfold ptab, kacquire. apply wlp_zoom; [by apply straight_zoom, straight_acquire|].
  intros [] t. apply Hm. unfold inv. by rewrite indep_view_r.
Qed.

Lemma bc_inv_bget dev b : preserves inv (bget fuel dev b).
Proof.
  unfold bget. apply bc_inv_locked. intros s Hs. pose proof Hs as (Hl & (l & Hlru) & Hu).
  assert (length l = NBUF) as Hll by (destruct Hlru as [Hp _]; rewrite Hp; apply length_seq).
  assert (forall j, j ∈ l -> (j < NBUF)%nat) as Hlt by (intros j; by apply (lru_in _ _ j Hlru)).
  assert (bhead < length (bufs s))%nat as Hhd by (unfold bufs; rewrite Hl; unfold bhead; lia).
  apply always_bind_wlp, wlp_wp, wp_buf_at; [done|].
  assert (b_next (bufs s !!! bhead) = List.hd bhead (l ++ [bhead])) as ->
    by (destruct Hlru as [_ H]; destruct l; simpl in H; tauto).
  apply always_bind_wlp, wlp_wp. apply (find_cached_run NBUF dev b l); [done|by rewrite Hll|done| |].
  { destruct Hlru as [_ H]. destruct l; simpl in *; tauto. }
  intros [j|].
  - intros _. apply preserves_bind; [by apply bc_inv_buf_upd| |done]. intros _. preserve.
  - intros Hno. apply always_bind_wlp, wlp_wp, wp_buf_at; [done|].
    assert (b_prev (bufs s !!! bhead) = List.last l bhead) as ->
      by (destruct Hlru as [_ H]; exact (dchain_last _ _ _ _ _ H)).
    apply always_bind_wlp, wlp_wp. apply (find_unused_run NBUF l); [done|by rewrite Hll|done| |].
    { destruct Hlru as [_ H]. by apply dchain_snoc in H. }
    intros [j|]; [|done]. intros (Hjl & _). pose proof (Hlt j Hjl) as Hj.
    assert (j < length (bufs s))%nat as Hjl2 by (unfold bufs; lia).
    do 4 (apply always_bind_wlp, wlp_wp, wp_buf_upd; rewrite ?bufs_put_bufs, ?length_alter; [done|]).
    rewrite ?put_bufs_put_bufs, !alter_alter.
    assert (inv (put_bufs (alter (set_refcnt 1 ∘ set_flags 0 ∘ set_blockno b ∘ set_dev dev) j (bufs s)) s)) as Hinv.
    { unfold inv, put_bufs. rewrite view_put. split_and!; [by rewrite length_alter| |].
      - exists l. destruct Hlru as [Hp H]. split; [done|]. eapply dchain_ext; [| |exact H]; intros a; unfold nexts, prevs;
          rewrite lookup_total_alter_buf by done; by destruct (decide (a = j)) as [->|].
      - intros a c Ha Hc. rewrite !lookup_total_alter_buf by done.
        destruct (decide (a = j)) as [->|Haj], (decide (c = j)) as [->|Hcj]; simpl; [done| | |by apply Hu].
        + intros _ E1 E2. destruct (Hno c); [by apply (lru_in _ _ _ Hlru)|done].
        + intros _ E1 E2. destruct (Hno a); [by apply (lru_in _ _ _ Hlru)|done]. }
    revert Hinv. generalize (put_bufs (alter (set_refcnt 1 ∘ set_flags 0 ∘ set_blockno b ∘ set_dev dev) j (bufs s)) s).
    intros s0 Hs0. apply preserves_bind; [preserve| |done]. intros _. preserve.
Qed.
Hint Resolve bc_inv_bget : kern.

Lemma bc_inv_bread dev b : preserves inv (bio_read fuel dev b).
Proof. unfold bio_read, buf_at. preserve; apply iderw_frame. Qed.

Lemma bc_inv_bwrite j : preserves inv (bio_write j).
Proof.
  pose proof (bc_inv_buf_upd j (fun x => set_flags (Z.lor (b_flags x) B_DIRTY) x) ltac:(done)).
  unfold bio_write. preserve; apply iderw_frame.
Qed.

Lemma bc_inv_relink j : (j < NBUF)%nat -> preserves inv (relink_front j).
Proof.
  intros Hj s (Hl & (l & Hlru) & Hu). assert (wp (relink_front j) (fun _ => inv) s) as H.
  { eapply (relink_front_run j l); [done..|]. intros bs' [Hl' Hrel] Hlru'. unfold inv, put_bufs. rewrite view_put.
    split_and!; [by rewrite Hl'|done|]. intros a c Ha Hc.
    destruct (Hrel a) as (? & ? & ->), (Hrel c) as (? & ? & ->). by apply Hu. }
  unfold wp in H. by destruct (relink_front j s).
Qed.

Lemma bc_inv_brelse j : (j < NBUF)%nat -> preserves inv (bio_relse j).
Proof.
  intros Hj. pose proof (bc_inv_relink j Hj).
  pose proof (bc_inv_buf_upd j (fun x => set_refcnt (u32 (b_refcnt x - 1)) x) ltac:(done)).
  unfold bio_relse, buf_at. preserve.
Qed.
End interleaving.

#[export] Instance memide_frame {S} `{!HasProc S} `{!HasBio S} `{!HasMemdisk S} `{!LensIndep proc_lens bio_lens}
  `{!LensIndep bio_lens memdisk_lens} : DiskFrame S (DiskOps0 := memide_ops).
Proof.
  intros j. unfold iderw, memide_ops, memide_rw, buf_at.
  pose proof (bc_inv_buf_upd j (fun b => set_flags (Z.land (b_flags b) (Z.lnot B_DIRTY)) b) ltac:(done)).
  pose proof (bc_inv_buf_upd j (fun b => set_flags (Z.lor (b_flags b) B_VALID) b) ltac:(done)).
  assert (forall d, preserves inv (buf_upd j (set_data d))) by (intros d; by apply bc_inv_buf_upd).
  assert (forall d, preserves inv (modify (put memdisk_lens d))).
  { intros d. apply preserves_modify. intros s Hs. unfold inv. by rewrite indep_view_l. }
  pose proof (bc_inv_holdingsleep j). unfold inv in *. preserve.
Qed.

(** *** Beside the rest of the kernel *)
Section steady.
Context {S T : Type} `{!HasProc S} `{!HasBio S} `{!HasMemdisk S} (L : lens S T)
  `{!LensIndep L proc_lens} `{!LensIndep L bio_lens} `{!LensIndep L memdisk_lens}.

Lemma steady_ptab {A} (m : M pst A) : steady L (ptab m).
Proof. by apply steady_zoom. Qed.
Lemma steady_buf_at j : steady L (buf_at j).
Proof. apply steady_getopt. Qed.
Lemma steady_sl_get r : steady L (sl_get (T := bcache) bio_lens r).
Proof. apply steady_getopt. Qed.
Hint Resolve steady_ptab steady_buf_at steady_sl_get : kern.

Lemma steady_buf_upd j f : steady L (buf_upd j f).
Proof. unfold buf_upd. hold. Qed.
Lemma steady_sl_upd r f : steady L (sl_upd (T := bcache) bio_lens r f).
Proof. unfold sl_upd. hold. Qed.
Hint Resolve steady_buf_upd steady_sl_upd : kern.

Lemma steady_holdingsleep r : steady L (holdingsleep (T := bcache) bio_lens r).
Proof. unfold holdingsleep, curp. hold. Qed.
Lemma steady_releasesleep r : steady L (releasesleep (T := bcache) bio_lens r).
Proof. unfold releasesleep. hold. Qed.
Lemma steady_acquiresleep r k : steady L (acquiresleep (T := bcache) bio_lens r k).
Proof.
  assert (steady L (acquiresleep_loop (T := bcache) bio_lens r k)) as Hl by (induction k; simpl; hold).
  unfold acquiresleep, curp. hold.
Qed.
Hint Resolve steady_holdingsleep steady_releasesleep steady_acquiresleep : kern.

Lemma steady_memide_rw j : steady L (memide_rw j).
Proof. unfold memide_rw. hold. Qed.
Lemma steady_bget k dev b : steady L (bget k dev b).
Proof.
  assert (forall k j, steady L (find_cached k dev b j)) by (intros k'; induction k'; simpl; hold).
  assert (forall k j, steady L (find_unused k j)) by (intros k'; induction k'; simpl; hold).
  unfold bget. hold.
Qed.
Hint Resolve steady_memide_rw steady_bget : kern.

Lemma bio_steady fuel : BlockSteady (H := bio_ops (DiskOps0 := memide_ops) fuel) L.
Proof.
  split; simpl; intros.
  - unfold bio_read, iderw, memide_ops. hold.
  - unfold bio_write, iderw, memide_ops. hold.
  - unfold bio_relse, relink_front. hold.
  - hold.
  - hold.
  - hold.
  - hold.
Qed.
Lemma steady_binit : steady L binit.
Proof. unfold binit, initsleeplock. hold. Qed.

Lemma bio_frame `{!LensIndep proc_lens bio_lens} `{!LensIndep proc_lens memdisk_lens} `{!LensIndep bio_lens memdisk_lens}
  c i n F HF1 HF2 size Hsize fuel : BlockFrame (H0 := bio_cache c i n F HF1 HF2 size Hsize fuel) L.
Proof.
  split; [apply bio_steady|]. intros t s v (H1 & H2 & H3).
  split_and!; [by apply (at_base_other c i n F L)|unfold bufs in *; by rewrite (indep_view_r (l := L) (k := bio_lens))|
    by rewrite (indep_view_r (l := L) (k := memdisk_lens))].
Qed.
End steady.

(** ** A kernel for the witnesses: the process table, the buffer cache and the memory disk *)
Definition kern_b : Type := pst * (bcache * memdisk).
#[local] Instance proc_b : HasProc kern_b := {| proc_lens := fst_lens |}.
#[local] Instance bio_b : HasBio kern_b := {| bio_lens := compose_lens snd_lens fst_lens |}.
#[local] Instance memdisk_b : HasMemdisk kern_b := {| memdisk_lens := compose_lens snd_lens snd_lens |}.
#[local] Instance indep_b1 : LensIndep (S := kern_b) proc_lens bio_lens.
Proof. by split; intros; try destruct s. Qed.
#[local] Instance indep_b2 : LensIndep (S := kern_b) proc_lens memdisk_lens.
Proof. by split; intros; try destruct s. Qed.
#[local] Instance indep_b3 : LensIndep (S := kern_b) bio_lens memdisk_lens.
Proof. by split; intros; try destruct s as [? []]. Qed.

Definition locks_b : list lockid := ptable_lock :: bcache_lock :: map (fun j => ("buffer", Z.of_nat j)) (seq 0 NBUF).
Definition mach_b : mach := set_cpus [set_cproc (Some 0%nat) cpu_x] mach_x.
Definition disk_b : Z -> list Z := fun _ => replicate BSIZE 0.
Definition kern_b0 : kern_b :=
  (set_pm mach_b (pst_x [proc_x 0 RUNNING 1]), (bcache0, MkMemdisk FSSIZE disk_b [])).

Lemma on_cpu_b F : on_cpu 0 (Some 0%nat) 0 [] F mach_b.
Proof.
  split; [reflexivity|]. split; [lia|]. split; [by eexists|]. split; [constructor|].
  apply Forall_forall. intros lk _. reflexivity.
Qed.

Lemma kern_b0_base : at_base 0 0 1 locks_b kern_b0.
Proof. split_and!; [apply on_cpu_b|by left|]. by eexists. Qed.

Lemma locks_b_bcache : bcache_lock ∈ locks_b.
Proof. right. by left. Qed.

Lemma locks_b_buf (j : nat) : (j < NBUF)%nat -> sl_lk (buf_slref j) ∈ locks_b.
Proof.
  intros Hj. right. right. apply list_elem_of_fmap. exists j. split; [done|]. apply elem_of_seq. lia.
Qed.

Lemma fssize_range : 0 <= FSSIZE < 2 ^ 31.
Proof. unfold FSSIZE. lia. Qed.

Lemma disk_b_length b : 0 <= b < FSSIZE -> length (disk_b b) = BSIZE.
Proof. intros _. apply length_replicate. Qed.

Lemma binit_b : wp (S := kern_b) binit (fun _ s' => bio_rep 0 0 1 locks_b FSSIZE s' (BView disk_b disk_b ∅ ∅ []) /\
  lru (bufs s') (down NBUF)) kern_b0.
Proof. exact (binit_run (S := kern_b) 0 0 1 locks_b FSSIZE disk_b kern_b0 kern_b0_base eq_refl eq_refl disk_b_length). Qed.

(** ** Theorems *)

(** C9. bio.c, bread(), bwrite() and brelse() over memide.c: reading a block into the cache,
    changing the buffer, writing it and releasing it returns, whatever the cache holds, as long as
    not every buffer is busy; it appends exactly one write to the disk, of the changed block, and
    leaves the contents of all other blocks, the pinned blocks and the other held buffers as they
    were, although a buffer may have been recycled and the LRU list has changed. *)
Theorem buffer_read_modify_write {S} `{!HasProc S} `{!HasBio S} `{!HasMemdisk S}
    `{!LensIndep proc_lens bio_lens} `{!LensIndep proc_lens memdisk_lens} `{!LensIndep bio_lens memdisk_lens}
    c i n F size fuel f b s v :
  bcache_lock ∈ F -> (forall j : nat, (j < NBUF)%nat -> sl_lk (buf_slref j) ∈ F) -> 0 <= size < 2 ^ 31 ->
  bio_rep c i n F size s v -> 0 <= b < size -> b ∉ held_blocks (v_held v) ->
  (base.size ({[b]} ∪ v_pinned v ∪ held_blocks (v_held v)) <= NBUF)%nat ->
  (forall d, length (f d) = length d) ->
  let ops := bio_ops (DiskOps0 := memide_ops) fuel in
  let d := f (v_cache v b) in
  wp (let* h := bread 1 b in bset h f;;; bwrite h;;; brelse h)
    (fun _ s' => bio_rep c i n F size s' (BView (upd_block b d (v_disk v)) (upd_block b d (v_cache v))
       (v_pinned v ∖ {[b]}) (v_held v) (v_writes v ++ [(b, d)]))) s.
Proof.
  intros HF1 HF2 Hsz Hrep Hb Hnb Hsize Hf ops d. apply wp_bind.
  eapply wp_mono; [|by apply (bio_read_run c i n F HF1 HF2 size Hsz fuel s v b)].
  intros h s1 [Hh H1]. apply wp_bind.
  eapply wp_mono; [|apply (bset_run c i n F size s1 _ h b f H1); [apply lookup_insert_eq|done]].
  intros [] s2 H2. apply wp_bind.
  eapply wp_mono; [|apply (bio_write_run c i n F HF1 HF2 size Hsz s2 _ h b H2); apply lookup_insert_eq].
  intros [] s3 H3.
  eapply wp_mono; [|apply (bio_relse_run c i n F HF1 HF2 size Hsz s3 _ h b H3); [apply lookup_insert_eq|]].
  - intros [] s4 H4. unfold v_write, v_store, v_set_held in H4. simpl in H4.
    rewrite upd_block_eq, delete_insert_id in H4 by done. exact H4.
  - right. simpl. by rewrite !upd_block_eq.
Qed.

Definition stamp_b (d : list Z) : list Z := set_bytes 0 [7] d.

Lemma buffer_read_modify_write_witness :
  wp (binit;;; let* h := bio_read (DiskOps0 := memide_ops) 0 1 5 in
      buf_upd h (fun x => set_data (stamp_b (b_data x)) x);;;
      bio_write (DiskOps0 := memide_ops) h;;; bio_relse h)
    (fun _ s' => md_writes (view memdisk_lens s') = [(5, stamp_b (disk_b 5))]) kern_b0.
Proof.
  apply wp_bind. eapply wp_mono; [|exact binit_b].
  intros [] s [Hs _]. eapply wp_mono;
    [|exact (buffer_read_modify_write 0 0 1 locks_b FSSIZE 0 stamp_b 5 s _ locks_b_bcache locks_b_buf fssize_range Hs
        ltac:(unfold FSSIZE; lia) ltac:(apply not_elem_of_empty) ltac:(vm_compute; lia) (length_set_bytes 0 [7]))].
  intros [] s' (_ & _ & ->). reflexivity.
Defined.

(** bio.c, binit(): from zeroed memory the loop links all [NBUF] buffers into the ring, and the
    cache is then transparent: every block reads as the disk has it, nothing is held or pinned. *)
Theorem binit_transparent {S} `{!HasProc S} `{!HasBio S} `{!HasMemdisk S}
    `{!LensIndep proc_lens bio_lens} `{!LensIndep proc_lens memdisk_lens} `{!LensIndep bio_lens memdisk_lens}
    c i n F size D s :
  at_base c i n F s -> bufs s = bcache0 -> view memdisk_lens s = MkMemdisk size D [] ->
  (forall b, 0 <= b < size -> length (D b) = BSIZE) ->
  wp binit (fun _ s' => bio_rep c i n F size s' (BView D D ∅ ∅ []) /\ lru (bufs s') (down NBUF)) s.
Proof. intros. by apply binit_run. Qed.

Lemma binit_transparent_witness :
  wp (S := kern_b) binit (fun _ s' => lru (bufs s') (down NBUF)) kern_b0.
Proof.
  eapply wp_mono; [|exact (binit_transparent (S := kern_b) 0 0 1 locks_b FSSIZE disk_b kern_b0
    kern_b0_base eq_refl eq_refl disk_b_length)].
  intros [] s' [_ H]. exact H.
Defined.


