(* ===== verification/Log.v ===== *)
(** * The log (log.c, the super block of fs.c)

    [log_st] is [struct log] with its header; the log runs over the block layer of Block.v.  The
    pure part of the file says what a sequence of block copies does to the disk; on it rest the
    crash-safety of [commit] and of recovery, for a crash after any number of the disk writes. *)
From S2P Require Import Prelude Mmu KString Spinlock Pages Sched Process Syscall Sleeplock Block Bio.
From Stdlib Require Import FunctionalExtensionality.

Definition MAXOPBLOCKS : Z := 10.
Definition LOGSIZE : nat := 30.

Record superblock := MkSb {
  sb_size : Z; sb_nblocks : Z; sb_ninodes : Z; sb_nlog : Z; sb_logstart : Z; sb_inodestart : Z;
  sb_bmapstart : Z
}.

(** [memmove(sb, bp->data, sizeof( *sb))]. *)
Definition sb_of (d : list Z) : superblock :=
  MkSb (word_at d 0) (word_at d 4) (word_at d 8) (word_at d 12) (word_at d 16) (word_at d 20) (word_at d 24).

Record log_st := MkLog {
  lg_start : Z;
  lg_size : Z;
  lg_outstanding : Z;         (* how many FS sys calls are executing *)
  lg_committing : Z;          (* in commit(), please wait *)
  lg_dev : Z;
  lh_n : Z;                   (* struct logheader lh *)
  lh_block : list Z
}.
Definition set_lg_place (start size dev : Z) (l : log_st) : log_st :=
  MkLog start size (lg_outstanding l) (lg_committing l) dev (lh_n l) (lh_block l).
Definition set_outstanding (x : Z) (l : log_st) : log_st :=
  MkLog (lg_start l) (lg_size l) x (lg_committing l) (lg_dev l) (lh_n l) (lh_block l).
Definition set_committing (x : Z) (l : log_st) : log_st :=
  MkLog (lg_start l) (lg_size l) (lg_outstanding l) x (lg_dev l) (lh_n l) (lh_block l).
Definition set_lh_n (x : Z) (l : log_st) : log_st :=
  MkLog (lg_start l) (lg_size l) (lg_outstanding l) (lg_committing l) (lg_dev l) x (lh_block l).
Definition set_lh_block (x : list Z) (l : log_st) : log_st :=
  MkLog (lg_start l) (lg_size l) (lg_outstanding l) (lg_committing l) (lg_dev l) (lh_n l) x.

Definition log0 : log_st := MkLog 0 0 0 0 0 0 (replicate LOGSIZE 0).
Definition log_lock : lockid := ("log", 0).
Definition log_chan : lockid := ("log", 1).
Definition sizeof_logheader : Z := 4 + 4 * Z.of_nat LOGSIZE.

Class HasLog (S : Type) := { log_lens : lens S log_st; log_lens_laws :: LensLaws log_lens }.

Section log.
Context {S : Type} `{!HasProc S} `{!BlockOps S} `{!HasLog S}.

Definition readsb (dev : Z) : M S superblock :=
  let* bp := bread dev 1 in
  let* d := bdata bp in
  brelse bp;;;
  ret (sb_of d).

Definition log_upd (f : log_st -> log_st) : M S unit :=
  modify (fun s => put log_lens (f (view log_lens s)) s).
Definition the_log : M S log_st := gets (view log_lens).

(** [log.lh.block[i]], and a store into it: [LOGSIZE] entries. *)
Definition lh_at (i : nat) : M S Z := getopt (fun s => lh_block (view log_lens s) !! i).
Definition lh_put (i : nat) (b : Z) : M S unit :=
  let* _ := lh_at i in log_upd (fun l => set_lh_block (<[i := b]> (lh_block l)) l).

(** The loop of install_trans() from [tail]; index [LOGSIZE] is outside the array. *)
Fixpoint install_loop (k : nat) (tail : nat) : M S unit :=
  let* l := the_log in
  if negb (Z.of_nat tail <? lh_n l) then ret tt else
  match k with
  | O => let* _ := lh_at tail in nofuel
  | Datatypes.S k' =>
      let* lbuf := bread (u32 (lg_dev l)) (u32 (lg_start l + Z.of_nat tail + 1)) in
      let* dst := lh_at tail in
      let* dbuf := bread (u32 (lg_dev l)) (u32 dst) in
      let* d := bdata lbuf in
      bset dbuf (set_bytes 0 d);;;
      bwrite dbuf;;;
      brelse lbuf;;;
      brelse dbuf;;;
      install_loop k' (Datatypes.S tail)
  end.
Definition install_trans : M S unit := install_loop LOGSIZE 0.

(** A word of a buffer: reading past the block is undefined. *)
Definition buf_word (b : nat) (off : nat) : M S Z :=
  let* d := bdata b in
  if (off + 4 <=? length d)%nat then ret (word_at d off) else undef.
Definition buf_set_word (b : nat) (off : nat) (v : Z) : M S unit :=
  let* d := bdata b in
  if (off + 4 <=? length d)%nat then bset b (set_word off v) else undef.

Fixpoint read_head_loop (k : nat) (buf : nat) (i : nat) : M S unit :=
  let* l := the_log in
  if negb (Z.of_nat i <? lh_n l) then ret tt else
  match k with
  | O => let* _ := lh_at i in nofuel
  | Datatypes.S k' =>
      let* b := buf_word buf (4 + 4 * i) in
      lh_put i (s32 b);;;
      read_head_loop k' buf (Datatypes.S i)
  end.
Definition read_head : M S unit :=
  let* l := the_log in
  let* buf := bread (u32 (lg_dev l)) (u32 (lg_start l)) in
  let* n := buf_word buf 0 in
  log_upd (set_lh_n (s32 n));;;
  read_head_loop LOGSIZE buf 0;;;
  brelse buf.

Fixpoint write_head_loop (k : nat) (buf : nat) (i : nat) : M S unit :=
  let* l := the_log in
  if negb (Z.of_nat i <? lh_n l) then ret tt else
  match k with
  | O => let* _ := lh_at i in nofuel
  | Datatypes.S k' =>
      let* b := lh_at i in
      buf_set_word buf (4 + 4 * i) (u32 b);;;
      write_head_loop k' buf (Datatypes.S i)
  end.
Definition write_head : M S unit :=
  let* l := the_log in
  let* buf := bread (u32 (lg_dev l)) (u32 (lg_start l)) in
  buf_set_word buf 0 (u32 (lh_n l));;;
  write_head_loop LOGSIZE buf 0;;;
  bwrite buf;;;
  brelse buf.

Definition recover_from_log : M S unit :=
  read_head;;;
  install_trans;;;
  log_upd (set_lh_n 0);;;
  write_head.

Definition initlog (dev : Z) : M S unit :=
  if Z.of_nat BSIZE <=? sizeof_logheader then panic "initlog: too big logheader" else
  ptab (kinitlock log_lock "log");;;
  let* sb := readsb dev in
  log_upd (set_lg_place (s32 (sb_logstart sb)) (s32 (sb_nlog sb)) dev);;;
  recover_from_log.

(** begin_op(): one unit of fuel per wakeup. *)
Fixpoint begin_op_loop (k : nat) : M S unit :=
  let* l := the_log in
  if negb (lg_committing l =? 0) then
    ptab (sleep log_chan (Some log_lock));;;
    match k with O => nofuel | Datatypes.S k' => begin_op_loop k' end
  else if Z.of_nat LOGSIZE <? lh_n l + (lg_outstanding l + 1) * MAXOPBLOCKS then
    ptab (sleep log_chan (Some log_lock));;;
    match k with O => nofuel | Datatypes.S k' => begin_op_loop k' end
  else
    log_upd (fun l => set_outstanding (lg_outstanding l + 1) l);;;
    ptab (krelease log_lock).
Definition begin_op (k : nat) : M S unit :=
  ptab (kacquire log_lock);;;
  begin_op_loop k.

Fixpoint write_log_loop (k : nat) (tail : nat) : M S unit :=
  let* l := the_log in
  if negb (Z.of_nat tail <? lh_n l) then ret tt else
  match k with
  | O => let* _ := lh_at tail in nofuel
  | Datatypes.S k' =>
      let* to := bread (u32 (lg_dev l)) (u32 (lg_start l + Z.of_nat tail + 1)) in
      let* src := lh_at tail in
      let* from := bread (u32 (lg_dev l)) (u32 src) in
      let* d := bdata from in
      bset to (set_bytes 0 d);;;
      bwrite to;;;
      brelse from;;;
      brelse to;;;
      write_log_loop k' (Datatypes.S tail)
  end.
Definition write_log : M S unit := write_log_loop LOGSIZE 0.

Definition commit : M S unit :=
  let* l := the_log in
  when (0 <? lh_n l) (
    write_log;;;
    write_head;;;
    install_trans;;;
    log_upd (set_lh_n 0);;;
    write_head).

Definition end_op : M S unit :=
  ptab (kacquire log_lock);;;
  log_upd (fun l => set_outstanding (lg_outstanding l - 1) l);;;
  let* l := the_log in
  if negb (lg_committing l =? 0) then panic "log.committing" else
  let do_commit := lg_outstanding l =? 0 in
  (if do_commit then log_upd (set_committing 1) else ptab (wakeup log_chan));;;
  ptab (krelease log_lock);;;
  when do_commit (
    commit;;;
    ptab (kacquire log_lock);;;
    log_upd (set_committing 0);;;
    ptab (wakeup log_chan);;;
    ptab (krelease log_lock)).

(** The search of log_write(): the index of the block, or [n]. *)
Fixpoint absorb_loop (k : nat) (blockno : Z) (i : nat) : M S nat :=
  let* l := the_log in
  if negb (Z.of_nat i <? lh_n l) then ret i else
  let* b := lh_at i in
  if u32 b =? blockno then ret i else
  match k with O => nofuel | Datatypes.S k' => absorb_loop k' blockno (Datatypes.S i) end.

Definition log_write (b : nat) : M S unit :=
  let* l := the_log in
  if (Z.of_nat LOGSIZE <=? lh_n l) || (lg_size l - 1 <=? lh_n l) then panic "too big a transaction" else
  if lg_outstanding l <? 1 then panic "log_write outside of trans" else
  ptab (kacquire log_lock);;;
  let* blockno := bblockno b in
  let* i := absorb_loop LOGSIZE blockno 0 in
  lh_put i (s32 blockno);;;
  let* l := the_log in
  when (Z.of_nat i =? lh_n l) (log_upd (fun l => set_lh_n (lh_n l + 1) l));;;
  bdirty b;;;
  ptab (krelease log_lock).
End log.

#[local] Hint Constants Opaque : kern.

(** ** Specifications *)

(** [log.lh] lists the blocks [home]; the log of device 1 is at [st]. *)
Definition log_is (st : Z) (home : list Z) (l : log_st) : Prop :=
  lg_dev l = 1 /\ lg_start l = st /\ lh_n l = Z.of_nat (length home) /\ length (lh_block l) = LOGSIZE /\
  take (length home) (lh_block l) = home.

(** The log is set up, whatever its header lists. *)
Definition log_at (st : Z) (l : log_st) : Prop :=
  lg_dev l = 1 /\ lg_start l = st /\ length (lh_block l) = LOGSIZE.

(** The blocks of the log: the header at [st], then the copies. *)
Definition logblocks (st : Z) (t n : nat) : list Z := (fun i => st + Z.of_nat i + 1) <$> seq t n.
Definition in_log (st b : Z) : Prop := st <= b <= st + Z.of_nat LOGSIZE.

(** Copying a block onto another one through the cache, and writing it. *)
Definition copy1 (v : bview) (p : Z * Z) : bview := v_write (fst p) (v_store (fst p) (v_cache v (snd p)) v).
Definition copies (ps : list (Z * Z)) (v : bview) : bview := fold_left copy1 ps v.
Definition copied (C : Z -> list Z) (ps : list (Z * Z)) : list (Z * list Z) := (fun p => (fst p, C (snd p))) <$> ps.

(** What a header block says, and the header block that says it. *)
Definition head_n (d : list Z) : Z := s32 (word_at d 0).
Definition head_home (d : list Z) : list Z := (fun i => s32 (word_at d (4 + 4 * i))) <$> seq 0 (Z.to_nat (head_n d)).
Fixpoint head_words (i : nat) (home : list Z) (d : list Z) : list Z :=
  match home with
  | [] => d
  | b :: home' => head_words (Datatypes.S i) home' (set_word (4 + 4 * i) (u32 b) d)
  end.
Definition head_block (home : list Z) (d : list Z) : list Z :=
  head_words 0 home (set_word 0 (u32 (Z.of_nat (length home))) d).

(** What recovery makes of a disk: the logged blocks installed. *)
Definition recovered (st : Z) (D : Z -> list Z) : Z -> list Z :=
  let home := head_home (D st) in
  apply_writes (copied D (zip home (logblocks st 0 (length home)))) D.

(** ** Lemmas *)
Lemma logblocks_length st t n : length (logblocks st t n) = n.
Proof. unfold logblocks. by rewrite length_fmap, length_seq. Qed.

Lemma elem_of_logblocks st t n b :
  b ∈ logblocks st t n <-> st + 1 + Z.of_nat t <= b < st + 1 + Z.of_nat t + Z.of_nat n.
Proof.
  unfold logblocks. rewrite list_elem_of_fmap. split.
  - intros (i & -> & Hi%elem_of_seq). lia.
  - intros H. exists (Z.to_nat (b - st - 1)). split; [lia|]. apply elem_of_seq. lia.
Qed.

Lemma map_fst_copied C ps : map fst (copied C ps) = map fst ps.
Proof. induction ps; simpl; by f_equal. Qed.

Lemma copied_ext C C' ps : (forall b, b ∈ map snd ps -> C' b = C b) -> copied C' ps = copied C ps.
Proof.
  induction ps as [|[d s] ps IH]; intros H; simpl in *; [done|]. unfold copied in *. simpl. f_equal.
  - by rewrite H by set_solver.
  - apply IH. set_solver.
Qed.

(** Copies whose sources are not destinations. *)
Lemma copies_view ps v : (forall b, b ∈ map fst ps -> b ∉ map snd ps) ->
  let ws := copied (v_cache v) ps in
  exists P, copies ps v = BView (apply_writes ws (v_disk v)) (apply_writes ws (v_cache v)) P (v_held v) (v_writes v ++ ws) /\
    forall b, b ∈ P <-> b ∈ v_pinned v /\ b ∉ map fst ps.
Proof.
  revert v. induction ps as [|[d s] ps IH]; intros v Hdisj ws.
  - exists (v_pinned v). simpl. unfold ws. simpl. rewrite app_nil_r. split; [by destruct v|]. set_solver.
  - destruct (IH (copy1 v (d, s))) as (P & E & HP); [intros b Hb; specialize (Hdisj b); set_solver|].
    assert (copied (v_cache (copy1 v (d, s))) ps = copied (v_cache v) ps) as Ec.
    { apply copied_ext. intros b Hb. simpl. apply upd_block_ne. intros ->. by apply (Hdisj d); set_solver. }
    rewrite Ec in E. exists P. split.
    + unfold copies. simpl. fold (copies ps (copy1 v (d, s))). rewrite E. unfold ws. simpl. rewrite upd_block_eq.
      f_equal. by rewrite <- app_assoc.
    + intros b. rewrite HP. simpl. set_solver.
Qed.

Lemma apply_writes_copied C ps D b s : NoDup (map fst ps) -> (b, s) ∈ ps -> apply_writes (copied C ps) D b = C s.
Proof.
  revert D. induction ps as [|[d s'] ps IH]; intros D Hnd Hin; simpl in *; [set_solver|].
  apply NoDup_cons in Hnd as [Hd Hnd]. apply elem_of_cons in Hin as [[= <- <-]|Hin].
  - rewrite apply_writes_other by (by rewrite map_fst_copied). by rewrite upd_block_eq.
  - by apply IH.
Qed.

(** A block that no write names, after a crash. *)
Lemma apply_writes_prefix_other ws D b k : b ∉ map fst ws -> apply_writes (take k ws) D b = D b.
Proof.
  intros Hb. apply apply_writes_other. intros Hin. apply Hb.
  rewrite <- (take_drop k ws), map_app. set_solver.
Qed.

(** *** The header block *)
Lemma length_head_words i home d : length (head_words i home d) = length d.
Proof.
  revert i d. induction home as [|b home IH]; intros i d; simpl; [done|]. rewrite IH. apply length_set_bytes.
Qed.
Lemma length_head_block home d : length (head_block home d) = length d.
Proof. unfold head_block. rewrite length_head_words. apply length_set_bytes. Qed.

Lemma word_at_head_words_ne i home d off :
  (off + 4 <= 4 + 4 * i \/ 4 + 4 * i + 4 * length home <= off)%nat ->
  word_at (head_words i home d) off = word_at d off.
Proof.
  revert i d. induction home as [|b home IH]; intros i d H; simpl in *; [done|].
  rewrite IH by lia. apply word_at_set_word_ne. lia.
Qed.

Lemma word_at_head_words i home d j b :
  (4 + 4 * i + 4 * length home <= length d)%nat -> home !! j = Some b ->
  word_at (head_words i home d) (4 + 4 * (i + j)) = u32 b.
Proof.
  revert i d j. induction home as [|b' home IH]; intros i d j Hl Hj; [done|].
  change (word_at (head_words (Datatypes.S i) home (set_word (4 + 4 * i) (u32 b') d)) (4 + 4 * (i + j)) = u32 b).
  cbn [length] in Hl. destruct j as [|j]; cbn [lookup list_lookup] in Hj.
  - injection Hj as ->. rewrite Nat.add_0_r, word_at_head_words_ne by lia.
    apply word_at_set_word; [apply u32_range|lia].
  - replace (i + Datatypes.S j)%nat with (Datatypes.S i + j)%nat by lia. apply IH; [|done].
    unfold set_word. rewrite length_set_bytes. lia.
Qed.

Lemma s32_u32 z : - 2 ^ 31 <= z < 2 ^ 31 -> s32 (u32 z) = z.
Proof. intros Hz. unfold s32. rewrite !u32_idemp. by apply s32_small. Qed.

Lemma head_n_block home d : length d = BSIZE -> (length home <= LOGSIZE)%nat ->
  head_n (head_block home d) = Z.of_nat (length home).
Proof.
  intros Hd Hl. unfold head_n, head_block. unfold BSIZE, LOGSIZE in *.
  rewrite word_at_head_words_ne by lia. rewrite word_at_set_word by (try apply u32_range; lia). apply s32_u32. lia.
Qed.

Lemma head_home_block home d : length d = BSIZE -> (length home <= LOGSIZE)%nat ->
  Forall (fun b => 0 <= b < 2 ^ 31) home -> head_home (head_block home d) = home.
Proof.
  intros Hd Hl Hh. unfold head_home. rewrite head_n_block by done. rewrite Nat2Z.id.
  apply list_eq. intros j. rewrite list_lookup_fmap. destruct (decide (j < length home)%nat) as [Hj|Hj].
  - destruct (lookup_lt_is_Some_2 home j Hj) as [b Hb]. rewrite Hb.
    rewrite lookup_seq_lt by done. simpl. f_equal. unfold head_block.
    rewrite (word_at_head_words 0 home _ j b); [|unfold set_word; rewrite length_set_bytes; unfold BSIZE, LOGSIZE in *; lia|done].
    rewrite Forall_lookup in Hh. specialize (Hh j b Hb). apply s32_u32. lia.
  - rewrite lookup_seq_ge by lia. by rewrite lookup_ge_None_2 by lia.
Qed.

(** *** What recovery makes of a crash *)
Lemma apply_writes_in ws D D' b : b ∈ map fst ws -> apply_writes ws D b = apply_writes ws D' b.
Proof.
  revert D D'. induction ws as [|[b' d] ws IH]; intros D D' Hb; simpl in *; [set_solver|].
  destruct (decide (b ∈ map fst ws)) as [Hin|Hin]; [by apply IH|].
  rewrite !apply_writes_other by done. assert (b = b') as -> by set_solver. by rewrite !upd_block_eq.
Qed.

Lemma map_fst_zip {A B} (l : list A) (k : list B) : length l = length k -> map fst (zip l k) = l.
Proof. intros H. apply (fst_zip l k). lia. Qed.
Lemma map_snd_zip {A B} (l : list A) (k : list B) : length l = length k -> map snd (zip l k) = k.
Proof. intros H. apply (snd_zip l k). lia. Qed.

(** The copies of recovery, for the home blocks [home]. *)
Definition installs (st : Z) (home : list Z) : list (Z * Z) := zip home (logblocks st 0 (length home)).
Definition logs (st : Z) (home : list Z) : list (Z * Z) := zip (logblocks st 0 (length home)) home.

Lemma fst_installs st home : map fst (installs st home) = home.
Proof. apply map_fst_zip. by rewrite logblocks_length. Qed.
Lemma snd_installs st home : map snd (installs st home) = logblocks st 0 (length home).
Proof. apply map_snd_zip. by rewrite logblocks_length. Qed.
Lemma fst_logs st home : map fst (logs st home) = logblocks st 0 (length home).
Proof. apply map_fst_zip. by rewrite logblocks_length. Qed.
Lemma snd_logs st home : map snd (logs st home) = home.
Proof. apply map_snd_zip. by rewrite logblocks_length. Qed.

Lemma in_log_copy st (home : list Z) b : (length home <= LOGSIZE)%nat -> b ∈ logblocks st 0 (length home) -> in_log st b /\ b <> st.
Proof. intros Hl Hb%elem_of_logblocks. unfold in_log. lia. Qed.

Lemma elem_installs st home i b : home !! i = Some b -> (b, st + Z.of_nat i + 1) ∈ installs st home.
Proof.
  intros Hb. apply list_elem_of_lookup. exists i. unfold installs. rewrite lookup_zip_with, Hb. unfold logblocks.
  simpl. by rewrite list_lookup_fmap, lookup_seq_lt by (by eapply lookup_lt_Some).
Qed.
Lemma elem_logs st home i b : home !! i = Some b -> (st + Z.of_nat i + 1, b) ∈ logs st home.
Proof.
  intros Hb. apply list_elem_of_lookup. exists i. unfold logs. rewrite lookup_zip_with. unfold logblocks.
  rewrite list_lookup_fmap, lookup_seq_lt by (by eapply lookup_lt_Some). simpl. by rewrite Hb.
Qed.

(** The log blocks hold the copies. *)
Lemma logs_written st home C D i b : home !! i = Some b ->
  apply_writes (copied C (logs st home)) D (st + Z.of_nat i + 1) = C b.
Proof.
  intros Hb. apply apply_writes_copied; [|by apply elem_logs].
  rewrite fst_logs. unfold logblocks. apply NoDup_fmap_2; [|apply NoDup_seq]. intros x y. lia.
Qed.

Lemma head_home_empty d : head_n d = 0 -> head_home d = [].
Proof. intros E. unfold head_home. by rewrite E. Qed.

Lemma recovered_empty st D : head_n (D st) = 0 -> recovered st D = D.
Proof. intros E. unfold recovered. by rewrite head_home_empty. Qed.

(** A crash while recovery installs [home] and clears the header. *)
Lemma recovered_prefix st D C home hb k b :
  head_home (D st) = home -> (length home <= LOGSIZE)%nat -> Forall (fun b => ~ in_log st b) home ->
  (forall x, x ∈ logblocks st 0 (length home) -> C x = D x) -> head_n hb = 0 -> ~ in_log st b ->
  recovered st (apply_writes (take k (copied C (installs st home) ++ [(st, hb)])) D) b = recovered st D b.
Proof.
  intros Hhd Hl Hout HC Hhb Hb. rewrite Forall_forall in Hout.
  assert (copied C (installs st home) = copied D (installs st home)) as ->
    by (apply copied_ext; by rewrite snd_installs).
  assert (in_log st st) as Hst by (unfold in_log; lia).
  destruct (decide (k <= length (copied D (installs st home)))%nat) as [Hk|Hk].
  - rewrite take_app_le by done. set (Dk := apply_writes _ D).
    assert (forall x, in_log st x -> Dk x = D x) as HDk.
    { intros x Hx. apply apply_writes_prefix_other. rewrite map_fst_copied, fst_installs. intros Hin. by apply (Hout x). }
    unfold recovered. rewrite (HDk st Hst), Hhd. fold (installs st home).
    assert (copied Dk (installs st home) = copied D (installs st home)) as ->.
    { apply copied_ext. rewrite snd_installs. intros x Hx. by apply HDk, (in_log_copy st home). }
    destruct (decide (b ∈ home)) as [Hin|Hin].
    + apply apply_writes_in. by rewrite map_fst_copied, fst_installs.
    + rewrite !(apply_writes_other (copied D _)) by (by rewrite map_fst_copied, fst_installs).
      apply apply_writes_prefix_other. by rewrite map_fst_copied, fst_installs.
  - rewrite take_ge by (rewrite length_app; simpl; lia). rewrite apply_writes_app. simpl.
    rewrite recovered_empty by (by rewrite upd_block_eq). rewrite upd_block_ne by (intros ->; done).
    unfold recovered. by rewrite Hhd.
Qed.

(** A crash while a commit logs the blocks [home] and installs them. *)
Lemma commit_prefix st D C C1 home hb hb0 k :
  NoDup home -> (length home <= LOGSIZE)%nat -> Forall (fun b => ~ in_log st b) home ->
  head_n (D st) = 0 -> head_home hb = home -> head_n hb0 = 0 ->
  (forall i b, home !! i = Some b -> C1 (st + Z.of_nat i + 1) = C b) ->
  let ws := copied C (logs st home) ++ (st, hb) :: copied C1 (installs st home) ++ [(st, hb0)] in
  let d := apply_writes (take k ws) D st in
  (head_n d = 0 \/ d = hb) /\
  ((forall b, ~ in_log st b -> recovered st (apply_writes (take k ws) D) b = D b) \/
  (forall b, ~ in_log st b -> recovered st (apply_writes (take k ws) D) b = if decide (b ∈ home) then C b else D b)).
Proof.
  intros Hnd Hl Hout Hhd Hhb Hhb0 HC1 ws d0. subst d0. assert (in_log st st) as Hst by (unfold in_log; lia).
  assert (forall x, x ∈ map fst (copied C (logs st home)) -> in_log st x /\ x <> st) as Hlogs.
  { intros x. rewrite map_fst_copied, fst_logs. by apply in_log_copy. }
  destruct (decide (k <= length (copied C (logs st home)))%nat) as [Hk|Hk].
  - unfold ws. rewrite take_app_le by done.
    assert (forall x, (x = st \/ ~ in_log st x) -> apply_writes (take k (copied C (logs st home))) D x = D x) as HD.
    { intros x Hx. apply apply_writes_prefix_other. intros Hin%Hlogs. naive_solver. }
    rewrite HD by auto. split; [by left|]. left. intros b Hb.
    rewrite recovered_empty by (rewrite HD by auto; done). apply HD. auto.
  - set (D1 := apply_writes (copied C (logs st home) ++ [(st, hb)]) D).
    set (k' := (k - Datatypes.S (length (copied C (logs st home))))%nat).
    assert (apply_writes (take k ws) D = apply_writes (take k' (copied C1 (installs st home) ++ [(st, hb0)])) D1) as ->.
    { unfold D1, ws, k'. rewrite <- apply_writes_app. f_equal. rewrite take_app_ge by lia.
      destruct (k - length (copied C (logs st home)))%nat as [|m] eqn:E; [lia|]. rewrite <- app_assoc. simpl.
      replace (k - Datatypes.S (length (copied C (logs st home))))%nat with m by lia. done. }
    assert (D1 st = hb) as E1 by (unfold D1; rewrite apply_writes_app; simpl; apply upd_block_eq).
    assert (forall i b, home !! i = Some b -> D1 (st + Z.of_nat i + 1) = C b) as E2.
    { intros i b' Hb'. unfold D1. rewrite apply_writes_app. simpl. rewrite upd_block_ne by lia.
      by apply logs_written. }
    assert (forall x, x ∈ logblocks st 0 (length home) -> exists i b, x = st + Z.of_nat i + 1 /\ home !! i = Some b) as Hlb.
    { intros x Hx. apply elem_of_logblocks in Hx. exists (Z.to_nat (x - st - 1)).
      destruct (lookup_lt_is_Some_2 home (Z.to_nat (x - st - 1))) as [y Hy]; [lia|]. exists y. split; [lia|done]. }
    split.
    { assert (forall m, apply_writes (take m (copied C1 (installs st home))) D1 st = D1 st) as Hm.
      { intros m. apply apply_writes_prefix_other. rewrite map_fst_copied, fst_installs. intros Hin.
        rewrite Forall_forall in Hout. by apply (Hout st). }
      destruct (decide (k' <= length (copied C1 (installs st home)))%nat).
      - right. rewrite take_app_le by done. by rewrite Hm.
      - left. rewrite take_ge by (rewrite length_app; simpl; lia). rewrite apply_writes_app. simpl. by rewrite upd_block_eq. }
    right. intros b Hb.
    rewrite (recovered_prefix st D1 C1 home); [|by rewrite E1|done|done| |done|done].
    2: { intros x Hx. destruct (Hlb x Hx) as (i & y & -> & Hy). by rewrite (HC1 i y), (E2 i y). }
    unfold recovered. rewrite E1, Hhb. fold (installs st home). destruct (decide (b ∈ home)) as [Hin|Hin].
    + apply list_elem_of_lookup in Hin as [i Hi]. rewrite <- (E2 i b) by done.
      apply apply_writes_copied; [by rewrite fst_installs|by apply elem_installs].
    + rewrite apply_writes_other by (by rewrite map_fst_copied, fst_installs).
      unfold D1. rewrite apply_writes_app. simpl. rewrite upd_block_ne by (intros ->; done).
      apply apply_writes_other. intros H%Hlogs. naive_solver.
Qed.

(** The disk after a whole commit. *)
Lemma commit_final st D C C1 home hb hb0 b :
  NoDup home -> (length home <= LOGSIZE)%nat -> (forall i b, home !! i = Some b -> C1 (st + Z.of_nat i + 1) = C b) ->
  ~ in_log st b ->
  apply_writes (copied C (logs st home) ++ (st, hb) :: copied C1 (installs st home) ++ [(st, hb0)]) D b =
  if decide (b ∈ home) then C b else D b.
Proof.
  intros Hnd Hl HC1 Hb. assert (b <> st) as Hbs by (intros ->; apply Hb; unfold in_log; lia).
  rewrite apply_writes_app. simpl. rewrite apply_writes_app. simpl. rewrite upd_block_ne by done.
  destruct (decide (b ∈ home)) as [Hin|Hin].
  - apply list_elem_of_lookup in Hin as [i Hi]. rewrite <- (HC1 i b Hi).
    apply apply_writes_copied; [by rewrite fst_installs|by apply elem_installs].
  - rewrite apply_writes_other by (by rewrite map_fst_copied, fst_installs). rewrite upd_block_ne by done.
    apply apply_writes_other. rewrite map_fst_copied, fst_logs. intros Hx%in_log_copy; [tauto|done].
Qed.

(** *** The runs *)
Lemma set_bytes_all d d' : length d = length d' -> set_bytes 0 d d' = d.
Proof.
  intros H. apply list_eq. intros j. unfold set_bytes. destruct (decide (j < length d)%nat) as [Hj|Hj].
  - rewrite list_lookup_inserts by lia. by rewrite Nat.sub_0_r.
  - rewrite list_lookup_inserts_ge by lia. by rewrite !lookup_ge_None_2 by lia.
Qed.

Lemma upd_block_twice b d d' f : upd_block b d (upd_block b d' f) = upd_block b d f.
Proof. apply functional_extensionality. intros x. unfold upd_block. by destruct (x =? b). Qed.
Lemma v_store_store b d d' v : v_store b d (v_store b d' v) = v_store b d v.
Proof. unfold v_store. simpl. by rewrite upd_block_twice. Qed.
Lemma upd_block_id b f : upd_block b (f b) f = f.
Proof. apply functional_extensionality. intros x. unfold upd_block. by destruct (Z.eqb_spec x b) as [->|]. Qed.
Lemma v_store_id b v : v_store b (v_cache v b) v = v.
Proof. unfold v_store. rewrite upd_block_id. by destruct v. Qed.
Lemma v_set_held_id v : v_set_held (v_held v) v = v.
Proof. by destruct v. Qed.
Lemma held_blocks_empty : held_blocks ∅ = ∅.
Proof. done. Qed.

Section runs.
Context {S : Type} `{!HasProc S} `{!HasLog S} `{BlockCache S} `{!BlockFrame log_lens}.
Context (st : Z) (Hst : 0 <= st) (Hend : st + Z.of_nat LOGSIZE < bc_size) (Hsize : bc_size <= 2 ^ 31).

Definition home_ok (home : list Z) : Prop := Forall (fun b => 0 <= b < bc_size /\ ~ in_log st b) home.
Definition room (suf : list Z) (v : bview) : Prop :=
  forall b, b ∈ suf -> (base.size ({[b]} ∪ v_pinned v) < NBUF)%nat.

(** What both copying loops do once they hold the log block and the home block. *)
Lemma wp_copy hs hd bs bd v (rest : M S unit) Q s :
  bc_rep s v -> v_held v !! hs = Some bs -> v_held v !! hd = Some bd -> hs <> hd -> bs <> bd ->
  0 <= bs < bc_size -> 0 <= bd < bc_size -> bs ∈ v_pinned v \/ v_cache v bs = v_disk v bs ->
  (forall s', bc_rep s' (copy1 (v_set_held (delete hd (delete hs (v_held v))) v) (bd, bs)) ->
     view log_lens s' = view log_lens s -> wp rest Q s') ->
  wp (let* d := bdata hs in bset hd (set_bytes 0 d);;; bwrite hd;;; brelse hs;;; brelse hd;;; rest) Q s.
Proof.
  intros Hs Hhs Hhd Hne Hb Hbs Hbd Hclean HQ. apply wp_bind. eapply step_bdata; [done..|].
  apply wp_bind. eapply (step_bset log_lens); [done..|apply length_set_bytes|]. intros s1 H1 E1.
  rewrite set_bytes_all in H1 by (by rewrite !(bc_length s)).
  apply wp_bind. eapply (step_bwrite log_lens); [done..|]. intros s2 H2 E2.
  apply wp_bind. eapply (step_brelse log_lens); [done|exact Hhs| |].
  { simpl. rewrite !upd_block_ne by done. destruct Hclean; [left; set_solver|by right]. }
  intros s3 H3 E3. apply wp_bind. eapply (step_brelse log_lens); [done| | |].
  { simpl. rewrite lookup_delete_ne by done. exact Hhd. }
  { right. simpl. by rewrite !upd_block_eq. }
  intros s4 H4 E4. apply HQ; [exact H4|congruence].
Qed.

Lemma size_room v b b' : (base.size ({[b]} ∪ v_pinned v) < NBUF)%nat ->
  (base.size ({[b']} ∪ v_pinned v ∪ ∅) <= NBUF)%nat /\ (base.size ({[b]} ∪ v_pinned v ∪ ({[b']} ∪ ∅)) <= NBUF)%nat.
Proof.
  intros Hb.
  pose proof (size_union_alt ({[b']} : gset Z) (v_pinned v)) as E1.
  pose proof (size_union_alt ({[b']} : gset Z) ({[b]} ∪ v_pinned v)) as E2.
  rewrite size_singleton in E1, E2.
  assert (base.size (v_pinned v ∖ {[b']}) <= base.size ({[b]} ∪ v_pinned v))%nat by (apply subseteq_size; set_solver).
  assert (base.size (({[b]} ∪ v_pinned v) ∖ {[b']}) <= base.size ({[b]} ∪ v_pinned v))%nat by (apply subseteq_size; set_solver).
  replace ({[b']} ∪ v_pinned v ∪ ∅) with ({[b']} ∪ v_pinned v) by set_solver.
  replace ({[b]} ∪ v_pinned v ∪ ({[b']} ∪ ∅)) with ({[b']} ∪ ({[b]} ∪ v_pinned v)) by set_solver.
  lia.
Qed.

Lemma room_copy suf b v p : room (b :: suf) v -> room suf (copy1 v p).
Proof.
  intros Hr b' Hb'. eapply Nat.le_lt_trans; [|apply (Hr b')]; [|set_solver].
  apply subseteq_size. simpl. set_solver.
Qed.

Lemma log_block_word home l i : log_is st home l -> (i < length home)%nat ->
  u32 (lg_dev l) = 1 /\ (length home <= LOGSIZE)%nat /\ u32 (lg_start l + Z.of_nat i + 1) = st + Z.of_nat i + 1 /\
  lh_block l !! i = Some (home !!! i).
Proof.
  intros (H1 & H2 & H3 & H4 & H5) Hi.
  assert (length home <= LOGSIZE)%nat as Hl by (rewrite <- H5, length_take; lia).
  split_and!; [by rewrite H1|done| |].
  - rewrite H2. apply u32_small. lia.
  - rewrite <- (lookup_take_lt _ (length home)) by done. rewrite H5. by apply list_lookup_lookup_total_lt.
Qed.

Lemma wp_lh_at home i (Q : Z -> S -> Prop) s :
  log_is st home (view log_lens s) -> (i < length home)%nat -> Q (home !!! i) s -> wp (lh_at i) Q s.
Proof.
  intros Hl Hi HQ. destruct (log_block_word _ _ _ Hl Hi) as (_ & _ & _ & E).
  by eapply (wp_getopt (fun s => lh_block (view log_lens s) !! i)).
Qed.

Lemma lookup_mid (pre suf : list Z) b : (pre ++ b :: suf) !!! length pre = b.
Proof. rewrite list_lookup_total_alt, list_lookup_middle; done. Qed.

(** One round of either loop: the log block and the home block are read, one is copied onto the
    other; [cp] says which. *)
Lemma round_run (inst : bool) pre b suf v (rest : M S unit) Q s :
  let home := pre ++ b :: suf in
  let lb := st + Z.of_nat (length pre) + 1 in
  log_is st home (view log_lens s) -> home_ok home -> bc_rep s v -> v_held v = ∅ ->
  room (b :: suf) v -> (if inst then lb ∉ v_pinned v else b ∈ v_pinned v) ->
  (forall s', bc_rep s' (copy1 v (if inst then (b, lb) else (lb, b))) -> view log_lens s' = view log_lens s ->
     wp rest Q s') ->
  wp (let* l := the_log in
      let* h1 := bread (u32 (lg_dev l)) (u32 (lg_start l + Z.of_nat (length pre) + 1)) in
      let* x := lh_at (length pre) in
      let* h2 := bread (u32 (lg_dev l)) (u32 x) in
      let hs := if inst then h1 else h2 in let hd := if inst then h2 else h1 in
      let* d := bdata hs in bset hd (set_bytes 0 d);;; bwrite hd;;; brelse hs;;; brelse hd;;; rest) Q s.
Proof.
  intros home lb Hl Hok Hs Hheld Hroom Hpin HQ. unfold the_log. apply wp_bind, wp_gets.
  assert (length pre < length home)%nat as Hi by (unfold home; rewrite length_app; simpl; lia).
  destruct (log_block_word _ _ _ Hl Hi) as (Hdev & Hlen & -> & _). rewrite Hdev.
  assert (0 <= b < bc_size /\ ~ in_log st b) as [Hb Hnl].
  { unfold home_ok in Hok. rewrite Forall_forall in Hok. apply Hok. set_solver. }
  assert (0 <= lb < bc_size) as Hlb by (unfold lb; lia).
  assert (b <> lb) as Hne by (intros E; apply Hnl; unfold in_log, lb in *; lia).
  destruct (size_room v b lb ltac:(apply Hroom; set_solver)) as [Hz1 Hz2].
  apply wp_bind. eapply (step_bread log_lens); [done|exact Hlb| | |].
  { rewrite Hheld. apply not_elem_of_empty. }
  { by rewrite Hheld. }
  intros h1 s1 Hh1 H1 E1. apply wp_bind. eapply (wp_lh_at home); [by rewrite E1|done|].
  unfold home. rewrite lookup_mid, u32_small by lia. apply wp_bind.
  rewrite Hheld in H1. eapply (step_bread log_lens); [done|exact Hb| | |].
  { simpl. rewrite held_blocks_insert by done. rewrite held_blocks_empty. set_solver. }
  { simpl. rewrite held_blocks_insert by done. rewrite held_blocks_empty. exact Hz2. }
  intros h2 s2 Hh2 H2 E2. simpl in H2, Hh2.
  assert (h1 <> h2) as Hh12 by (intros ->; by rewrite lookup_insert_eq in Hh2).
  assert (v_set_held (delete h1 (delete h2 (<[h2 := b]> (<[h1 := lb]> ∅)))) v = v /\
    v_set_held (delete h2 (delete h1 (<[h2 := b]> (<[h1 := lb]> ∅)))) v = v) as [Ev1 Ev2].
  { rewrite (delete_delete _ h2 h1). rewrite delete_insert_id by done. rewrite delete_insert_id by done.
    rewrite <- Hheld. by rewrite v_set_held_id. }
  cbv zeta. destruct inst.
  - eapply (wp_copy h1 h2 lb b); [exact H2| | |done|done|done|done| |]; simpl.
    + rewrite lookup_insert_ne by congruence. by rewrite lookup_insert_eq.
    + by rewrite lookup_insert_eq.
    + right. apply (bc_clean s); [done..|]. by rewrite Hheld.
    + intros s3 H3 E3. apply HQ; [|congruence]. change (bc_rep s3 (copy1 (v_set_held (delete h2 (delete h1 (<[h2 := b]> (<[h1 := lb]> ∅)))) v) (b, lb))) in H3.
      by rewrite Ev2 in H3.
  - eapply (wp_copy h2 h1 b lb); [exact H2| | |done|done|done|done| |]; simpl.
    + by rewrite lookup_insert_eq.
    + rewrite lookup_insert_ne by congruence. by rewrite lookup_insert_eq.
    + by left.
    + intros s3 H3 E3. apply HQ; [|congruence]. change (bc_rep s3 (copy1 (v_set_held (delete h1 (delete h2 (<[h2 := b]> (<[h1 := lb]> ∅)))) v) (lb, b))) in H3.
      by rewrite Ev1 in H3.
Qed.

Lemma loop_test home i s : log_is st home (view log_lens s) ->
  negb (Z.of_nat i <? lh_n (view log_lens s)) = (length home <=? i)%nat.
Proof. intros (_ & _ & -> & _). destruct (Nat.leb_spec (length home) i), (Z.ltb_spec (Z.of_nat i) (Z.of_nat (length home))); simpl; lia. Qed.

Lemma write_log_run suf pre k v (Q : unit -> S -> Prop) s :
  let home := pre ++ suf in
  log_is st home (view log_lens s) -> home_ok home -> bc_rep s v -> v_held v = ∅ -> (length suf <= k)%nat ->
  room suf v -> (forall b, b ∈ suf -> b ∈ v_pinned v) ->
  (forall s', bc_rep s' (copies (zip (logblocks st (length pre) (length suf)) suf) v) ->
     view log_lens s' = view log_lens s -> Q tt s') ->
  wp (write_log_loop k (length pre)) Q s.
Proof.
  revert pre k v s. induction suf as [|b suf IH]; intros pre k v s home Hl Hok Hs Hheld Hk Hroom Hpin HQ.
  - destruct k; simpl; apply wp_bind, wp_gets; rewrite (loop_test home) by done;
      (rewrite leb_correct by (unfold home; rewrite app_nil_r; lia)); apply wp_ret; by apply HQ.
  - destruct k as [|k]; simpl in Hk; [lia|]. simpl. unfold the_log at 1. apply wp_bind, wp_gets.
    assert (length pre < length home)%nat as Hi by (unfold home; rewrite length_app; simpl; lia).
    rewrite (loop_test home), leb_correct_conv by done.
    pose proof (round_run false pre b suf v (write_log_loop k (Datatypes.S (length pre))) Q s Hl Hok Hs Hheld Hroom
      ltac:(apply Hpin; set_solver)) as R.
    unfold the_log in R at 1. apply R. clear R. intros s' H' E'.
    assert (home = (pre ++ [b]) ++ suf) as Eh by (unfold home; by rewrite <- app_assoc).
    replace (Datatypes.S (length pre)) with (length (pre ++ [b])) by (rewrite length_app; simpl; lia).
    eapply (IH (pre ++ [b]) k); [by rewrite E', <- Eh|by rewrite <- Eh|exact H'|done|lia|by eapply room_copy| |].
    + intros b' Hb'. simpl. apply elem_of_difference. split; [apply Hpin; set_solver|].
      rewrite elem_of_singleton. intros ->. unfold home_ok in Hok. rewrite Forall_forall in Hok.
      destruct (Hok (st + Z.of_nat (length pre) + 1)) as [_ Hn]; [unfold home; set_solver|]. apply Hn.
      destruct (log_block_word _ _ _ Hl Hi) as (_ & Hlen & _).
      unfold in_log. unfold home in Hlen. rewrite length_app in Hlen. simpl in Hlen. lia.
    + intros s2 H2 E2. apply HQ; [|congruence]. rewrite length_app, Nat.add_1_r in H2. exact H2.
Qed.

Lemma install_run suf pre k v (Q : unit -> S -> Prop) s :
  let home := pre ++ suf in
  log_is st home (view log_lens s) -> home_ok home -> bc_rep s v -> v_held v = ∅ -> (length suf <= k)%nat ->
  room suf v -> (forall b, in_log st b -> b ∉ v_pinned v) ->
  (forall s', bc_rep s' (copies (zip suf (logblocks st (length pre) (length suf))) v) ->
     view log_lens s' = view log_lens s -> Q tt s') ->
  wp (install_loop k (length pre)) Q s.
Proof.
  revert pre k v s. induction suf as [|b suf IH]; intros pre k v s home Hl Hok Hs Hheld Hk Hroom Hpin HQ.
  - destruct k; simpl; apply wp_bind, wp_gets; rewrite (loop_test home) by done;
      (rewrite leb_correct by (unfold home; rewrite app_nil_r; lia)); apply wp_ret; by apply HQ.
  - destruct k as [|k]; simpl in Hk; [lia|]. simpl. unfold the_log at 1. apply wp_bind, wp_gets.
    assert (length pre < length home)%nat as Hi by (unfold home; rewrite length_app; simpl; lia).
    rewrite (loop_test home), leb_correct_conv by done.
    destruct (log_block_word _ _ _ Hl Hi) as (_ & Hlen & _).
    pose proof (round_run true pre b suf v (install_loop k (Datatypes.S (length pre))) Q s Hl Hok Hs Hheld Hroom
      ltac:(apply Hpin; unfold in_log; lia)) as R.
    unfold the_log in R at 1. apply R. clear R. intros s' H' E'.
    assert (home = (pre ++ [b]) ++ suf) as Eh by (unfold home; by rewrite <- app_assoc).
    replace (Datatypes.S (length pre)) with (length (pre ++ [b])) by (rewrite length_app; simpl; lia).
    eapply (IH (pre ++ [b]) k); [by rewrite E', <- Eh|by rewrite <- Eh|exact H'|done|lia|by eapply room_copy| |].
    + intros b' Hb'. simpl. specialize (Hpin b' Hb'). set_solver.
    + intros s2 H2 E2. apply HQ; [|congruence]. rewrite length_app, Nat.add_1_r in H2. exact H2.
Qed.

(** *** The header *)
Lemma wp_buf_set_word h off x v b (Q : unit -> S -> Prop) s :
  bc_rep s v -> v_held v !! h = Some b -> 0 <= b < bc_size -> (off + 4 <= BSIZE)%nat ->
  (forall s', bc_rep s' (v_store b (set_word off x (v_cache v b)) v) -> view log_lens s' = view log_lens s -> Q tt s') ->
  wp (buf_set_word h off x) Q s.
Proof.
  intros Hs Hh Hb Hoff HQ. apply wp_bind. eapply step_bdata; [done..|].
  rewrite (bc_length s), leb_correct by done. eapply (step_bset log_lens); [done..| |done].
  intros d. apply length_set_bytes.
Qed.

Lemma wp_buf_word h off v b (Q : Z -> S -> Prop) s :
  bc_rep s v -> v_held v !! h = Some b -> 0 <= b < bc_size -> (off + 4 <= BSIZE)%nat ->
  Q (word_at (v_cache v b) off) s -> wp (buf_word h off) Q s.
Proof.
  intros Hs Hh Hb Hoff HQ. apply wp_bind. eapply step_bdata; [done..|].
  by rewrite (bc_length s), leb_correct by done.
Qed.

Lemma log_home_length home l : log_is st home l -> (length home <= LOGSIZE)%nat.
Proof. intros (_ & _ & _ & H4 & H5). rewrite <- H5, length_take. lia. Qed.

Lemma write_head_loop_run suf pre k h v (Q : unit -> S -> Prop) s :
  let home := pre ++ suf in
  log_is st home (view log_lens s) -> bc_rep s v -> v_held v !! h = Some st -> (length suf <= k)%nat ->
  (forall s', bc_rep s' (v_store st (head_words (length pre) suf (v_cache v st)) v) ->
     view log_lens s' = view log_lens s -> Q tt s') ->
  wp (write_head_loop k h (length pre)) Q s.
Proof.
  revert pre k v s. induction suf as [|b suf IH]; intros pre k v s home Hl Hs Hheld Hk HQ.
  - destruct k; simpl; apply wp_bind, wp_gets; rewrite (loop_test home) by done;
      (rewrite leb_correct by (unfold home; rewrite app_nil_r; lia)); apply wp_ret; apply HQ; [|done| |done];
      simpl; by rewrite v_store_id.
  - destruct k as [|k]; simpl in Hk; [lia|].
    assert (length pre < length home)%nat as Hi by (unfold home; rewrite length_app; simpl; lia).
    pose proof (log_home_length _ _ Hl) as Hlen. unfold LOGSIZE in Hlen.
    change (write_head_loop (Datatypes.S k) h (length pre)) with
      (let* l := the_log in if negb (Z.of_nat (length pre) <? lh_n l) then ret tt else
        let* b := lh_at (length pre) in buf_set_word h (4 + 4 * length pre) (u32 b);;;
        write_head_loop k h (Datatypes.S (length pre))).
    apply wp_bind, wp_gets. rewrite (loop_test home), leb_correct_conv by done.
    apply wp_bind. eapply (wp_lh_at home); [done..|]. unfold home. rewrite lookup_mid.
    apply wp_bind. eapply wp_buf_set_word; [done|done|lia|unfold BSIZE; lia|]. intros s1 H1 E1.
    assert (home = (pre ++ [b]) ++ suf) as Eh by (unfold home; by rewrite <- app_assoc).
    replace (Datatypes.S (length pre)) with (length (pre ++ [b])) by (rewrite length_app; simpl; lia).
    eapply (IH (pre ++ [b])); [by rewrite E1, <- Eh|exact H1|done|lia|].
    intros s2 H2 E2. apply HQ; [|congruence]. rewrite v_store_store in H2. simpl in H2. rewrite upd_block_eq in H2.
    rewrite length_app, Nat.add_1_r in H2. exact H2.
Qed.

Lemma size_one v b : (base.size (v_pinned v) < NBUF)%nat -> (base.size ({[b]} ∪ v_pinned v ∪ ∅) <= NBUF)%nat.
Proof.
  intros Hr. replace ({[b]} ∪ v_pinned v ∪ ∅) with ({[b]} ∪ v_pinned v) by set_solver.
  rewrite (size_union_alt ({[b]} : gset Z)), size_singleton.
  assert (base.size (v_pinned v ∖ {[b]}) <= base.size (v_pinned v))%nat by (apply subseteq_size; set_solver). lia.
Qed.

Lemma write_head_run home v (Q : unit -> S -> Prop) s :
  log_is st home (view log_lens s) -> bc_rep s v -> v_held v = ∅ -> (base.size (v_pinned v) < NBUF)%nat ->
  (forall s', bc_rep s' (v_write st (v_store st (head_block home (v_cache v st)) v)) ->
     view log_lens s' = view log_lens s -> Q tt s') ->
  wp write_head Q s.
Proof.
  intros Hl Hs Hheld Hroom HQ. pose proof Hl as (Hdev & Hstart & Hn & _). unfold write_head, the_log.
  apply wp_bind, wp_gets. rewrite Hdev, Hstart, Hn, (u32_small 1), (u32_small st) by lia.
  apply wp_bind. eapply (step_bread log_lens); [done|lia| | |].
  { rewrite Hheld. apply not_elem_of_empty. }
  { rewrite Hheld. by apply size_one. }
  intros h s1 Hh H1 E1. apply wp_bind.
  eapply wp_buf_set_word; [done|apply lookup_insert_eq|lia|unfold BSIZE; lia|]. intros s2 H2 E2.
  apply wp_bind. eapply (write_head_loop_run home []); [simpl; congruence|exact H2|apply lookup_insert_eq| |].
  { by apply (log_home_length home (view log_lens s)). }
  intros s3 H3 E3. rewrite v_store_store in H3. apply wp_bind.
  eapply (step_bwrite log_lens); [done|apply lookup_insert_eq|]. intros s4 H4 E4.
  eapply (step_brelse log_lens); [done|apply lookup_insert_eq| |].
  { right. simpl. by rewrite !upd_block_eq. }
  intros s5 H5 E5. apply HQ; [|congruence]. simpl in H5. rewrite upd_block_eq in H5.
  unfold v_write, v_store, v_set_held in *. simpl in *.
  rewrite delete_insert_id in H5 by done. exact H5.
Qed.

Definition head_word (d : list Z) (i : nat) : Z := s32 (word_at d (4 + 4 * i)).

Lemma read_head_loop_run n i k h v (Q : unit -> S -> Prop) s :
  let l := view log_lens s in
  let d := v_cache v st in
  log_at st l -> lh_n l = Z.of_nat n -> take i (lh_block l) = head_word d <$> seq 0 i ->
  (i <= n <= LOGSIZE)%nat -> (n - i <= k)%nat -> bc_rep s v -> v_held v !! h = Some st ->
  (forall s', bc_rep s' v -> log_is st (head_word d <$> seq 0 n) (view log_lens s') -> Q tt s') ->
  wp (read_head_loop k h i) Q s.
Proof.
  revert i s. induction k as [|k IH]; intros i s l d Hat Hn Htake Hi Hk Hs Hheld HQ;
    pose proof (Hn : lh_n (view log_lens s) = Z.of_nat n) as Hn'.
  1: assert (i = n) as -> by lia. 2: destruct (decide (i = n)) as [->|Hne].
  1,2: simpl; apply wp_bind, wp_gets; rewrite Hn', Z.ltb_irrefl; simpl; apply wp_ret, HQ; [done|].
  1,2: destruct Hat as (H1 & H2 & H3); unfold log_is; rewrite length_fmap, length_seq; done.
  change (read_head_loop (Datatypes.S k) h i) with
    (let* l := the_log in if negb (Z.of_nat i <? lh_n l) then ret tt else
     let* b := buf_word h (4 + 4 * i) in lh_put i (s32 b);;; read_head_loop k h (Datatypes.S i)).
  apply wp_bind, wp_gets. rewrite Hn'. rewrite (proj2 (Z.ltb_lt _ _)) by lia. simpl negb. cbv iota.
  apply wp_bind. eapply wp_buf_word; [done..|lia|unfold BSIZE, LOGSIZE in *; lia|].
  apply wp_bind. destruct Hat as (H1 & H2 & H3).
  destruct (lookup_lt_is_Some_2 (lh_block l) i) as [x Hx]; [rewrite H3; lia|].
  apply wp_bind. eapply (wp_getopt (fun s => lh_block (view log_lens s) !! i)); [exact Hx|].
  apply wp_modify. fold (head_word (v_cache v st) i). fold d. fold l.
  apply IH; rewrite ?view_put; cbn [lh_n lh_block set_lh_block]; try done.
  - split_and!; cbn [lg_dev lg_start lh_block set_lh_block]; [done..|]. by rewrite length_insert.
  - rewrite seq_S, fmap_app. cbn [Nat.add fmap list_fmap]. rewrite (take_S_r _ _ (head_word d i)).
    2: { apply list_lookup_insert_eq. lia. }
    f_equal. rewrite take_insert_ge by lia. exact Htake.
  - lia.
  - lia.
  - by apply bf_rep.
Qed.

Lemma held_restore h b v : v_held v !! h = None ->
  v_set_held (delete h (<[h := b]> (v_held v))) v = v.
Proof. intros Hh. rewrite delete_insert_id by done. apply v_set_held_id. Qed.

Lemma read_head_run v (Q : unit -> S -> Prop) s :
  let d := v_cache v st in
  log_at st (view log_lens s) -> 0 <= head_n d <= Z.of_nat LOGSIZE -> bc_rep s v -> v_held v = ∅ -> (st ∉ v_pinned v) ->
  (base.size (v_pinned v) < NBUF)%nat ->
  (forall s', bc_rep s' v -> log_is st (head_home d) (view log_lens s') -> Q tt s') ->
  wp read_head Q s.
Proof.
  intros d Hat Hn Hs Hheld Hpin Hroom HQ. pose proof Hat as (Hdev & Hstart & Hlen). unfold read_head, the_log.
  apply wp_bind, wp_gets. rewrite Hdev, Hstart, (u32_small 1), (u32_small st) by lia.
  assert (v_cache v st = v_disk v st) as Hclean by (apply (bc_clean s); [done|lia|done|by rewrite Hheld]).
  apply wp_bind. eapply (step_bread log_lens); [done|lia| | |].
  { rewrite Hheld. apply not_elem_of_empty. }
  { rewrite Hheld. by apply size_one. }
  intros h s1 Hh H1 E1. apply wp_bind.
  eapply wp_buf_word; [done|apply lookup_insert_eq|lia|unfold BSIZE; lia|].
  apply wp_bind, wp_modify. apply wp_bind.
  eapply (read_head_loop_run (Z.to_nat (head_n d)) 0); rewrite ?view_put, ?E1.
  - done.
  - change (v_cache (v_set_held (<[h:=st]> (v_held v)) v) st) with d. fold (head_n d).
    change (head_n d = Z.of_nat (Z.to_nat (head_n d))). lia.
  - done.
  - lia.
  - lia.
  - apply bf_rep. exact H1.
  - apply lookup_insert_eq.
  - intros s2 H2 L2. eapply (step_brelse log_lens); [done|apply lookup_insert_eq|by right|].
    intros s3 H3 E3. apply HQ; [|rewrite E3; exact L2]. 
    change (bc_rep s3 (v_set_held (delete h (<[h := st]> (v_held v))) v)) in H3. by rewrite held_restore in H3.
Qed.

Lemma home_out home : home_ok home -> Forall (fun b => ~ in_log st b) home.
Proof. intros Hok. eapply Forall_impl; [exact Hok|]. by intros b [_ ?]. Qed.

Lemma head_n_cleared d : length d = BSIZE -> head_n (head_block [] d) = 0.
Proof. intros Hd. by rewrite head_n_block by (done || unfold LOGSIZE; simpl; lia). Qed.

Lemma log_is_cleared home l : log_is st home l -> log_is st [] (set_lh_n 0 l).
Proof. intros (H1 & H2 & _ & H4 & _). done. Qed.

(** Installing and clearing the header, the end of both commit() and recovery. *)
Lemma install_clear_run home v (Q : unit -> S -> Prop) s :
  log_is st home (view log_lens s) -> home_ok home -> bc_rep s v -> v_held v = ∅ -> room home v ->
  (base.size (v_pinned v) < NBUF)%nat -> (forall b, in_log st b -> b ∉ v_pinned v) ->
  (forall s' P hb, let ws := copied (v_cache v) (installs st home) ++ [(st, hb)] in
     bc_rep s' (BView (apply_writes ws (v_disk v)) (apply_writes ws (v_cache v)) P ∅ (v_writes v ++ ws)) ->
     (forall b, b ∈ P <-> b ∈ v_pinned v /\ b ∉ home) -> head_n hb = 0 ->
     view log_lens s' = set_lh_n 0 (view log_lens s) -> Q tt s') ->
  wp (install_trans;;; log_upd (set_lh_n 0);;; write_head) Q s.
Proof.
  intros Hl Hok Hs Hheld Hroom Hsz Hpin HQ. pose proof (log_home_length _ _ Hl) as Hlen.
  apply wp_bind. eapply (install_run home [] LOGSIZE v); [done..|].
  intros s1 H1 E1. cbn [length] in H1. fold (installs st home) in H1.
  destruct (copies_view (installs st home) v) as (P & EP & HP).
  { rewrite fst_installs, snd_installs. intros b Hb Hb2. apply (in_log_copy st home b Hlen) in Hb2 as [Hb2 _].
    pose proof (home_out _ Hok) as Ho. rewrite Forall_forall in Ho. by apply (Ho b). }
  rewrite EP in H1. clear EP. rewrite fst_installs in HP.
  apply wp_bind, wp_modify.
  eapply write_head_run.
  - rewrite view_put, E1. by eapply log_is_cleared.
  - apply bf_rep. exact H1.
  - exact Hheld.
  - simpl. eapply Nat.le_lt_trans; [|exact Hsz]. apply subseteq_size. intros b [? _]%HP. done.
  - intros s2 H2 E2. eapply (HQ s2 (P ∖ {[st]}) (head_block [] _)).
    + cbv zeta. rewrite !apply_writes_app, app_assoc, <- Hheld. simpl.
      unfold v_write, v_store in H2. simpl in H2. rewrite upd_block_eq in H2. exact H2.
    + intros b. rewrite elem_of_difference, HP, elem_of_singleton. split; [tauto|]. intros Hb. split; [done|].
      intros ->. apply (Hpin st); [unfold in_log; lia|tauto].
    + apply head_n_cleared. apply (bc_length s1 _ st H1). lia.
    + by rewrite E2, view_put, E1.
Qed.

Lemma recover_run v (Q : unit -> S -> Prop) s :
  let D := v_disk v in
  let home := head_home (D st) in
  log_at st (view log_lens s) -> 0 <= head_n (D st) <= Z.of_nat LOGSIZE -> home_ok home ->
  bc_rep s v -> v_held v = ∅ -> v_pinned v = ∅ ->
  (forall s' hb C, let ws := copied D (installs st home) ++ [(st, hb)] in
     bc_rep s' (BView (apply_writes ws D) C ∅ ∅ (v_writes v ++ ws)) -> head_n hb = 0 ->
     log_is st [] (view log_lens s') -> Q tt s') ->
  wp recover_from_log Q s.
Proof.
  intros D home Hat Hn Hok Hs Hheld Hpin HQ.
  assert (forall b, 0 <= b < bc_size -> v_cache v b = D b) as HC.
  { intros b Hb. apply (bc_clean s); [done|done|by rewrite Hpin|by rewrite Hheld]. }
  apply wp_bind. eapply read_head_run; [done| |done|done| | |].
  { rewrite HC by lia. done. }
  { rewrite Hpin. set_solver. }
  { rewrite Hpin, size_empty. unfold NBUF. lia. }
  intros s1 H1 L1. rewrite HC in L1 by lia. fold home in L1. pose proof (log_home_length _ _ L1) as Hlen.
  eapply install_clear_run; [exact L1|done|exact H1|done| | | |].
  - intros b _. rewrite Hpin, union_empty_r_L, size_singleton. unfold NBUF. lia.
  - rewrite Hpin, size_empty. unfold NBUF. lia.
  - intros b _. rewrite Hpin. set_solver.
  - intros s2 P hb ws H2 HP Hhb E2.
    assert (P = ∅) as ->. { apply set_eq. intros b. rewrite HP, Hpin. set_solver. }
    assert (copied (v_cache v) (installs st home) = copied D (installs st home)) as Ec.
    { apply copied_ext. rewrite snd_installs. intros b Hb%elem_of_logblocks. apply HC. lia. }
    unfold ws in H2. rewrite Ec in H2. eapply HQ; [exact H2|done|]. rewrite E2. by eapply log_is_cleared.
Qed.

(** Which disk a commit leaves, outside the log. *)
Definition committed (home : list Z) (v : bview) (b : Z) : list Z :=
  if decide (b ∈ home) then v_cache v b else v_disk v b.

Lemma commit_run home v (Q : unit -> S -> Prop) s :
  let D := v_disk v in
  log_is st home (view log_lens s) -> home_ok home -> NoDup home -> (length home < NBUF)%nat ->
  bc_rep s v -> v_held v = ∅ -> (forall b, b ∈ v_pinned v <-> b ∈ home) -> head_n (D st) = 0 ->
  (forall s' ws C, bc_rep s' (BView (apply_writes ws D) C ∅ ∅ (v_writes v ++ ws)) ->
     (forall k, let Dk := apply_writes (take k ws) D in
        (head_n (Dk st) = 0 \/ exists d, length d = BSIZE /\ Dk st = head_block home d) /\
        ((forall b, ~ in_log st b -> recovered st Dk b = D b) \/
         (forall b, ~ in_log st b -> recovered st Dk b = committed home v b))) ->
     (forall b, ~ in_log st b -> apply_writes ws D b = committed home v b) ->
     head_n (apply_writes ws D st) = 0 ->
     log_is st [] (view log_lens s') -> Q tt s') ->
  wp commit Q s.
Proof.
  intros D Hl Hok Hnd Hlen Hs Hheld Hpin Hhd HQ. pose proof (log_home_length _ _ Hl) as Hlen2.
  pose proof (home_out _ Hok) as Hout. pose proof Hout as Hout'. rewrite Forall_forall in Hout'.
  assert (in_log st st) as Hstl by (unfold in_log; lia).
  unfold commit, the_log. apply wp_bind, wp_gets. pose proof Hl as (_ & _ & Hn & _). rewrite Hn.
  destruct home as [|b0 home0] eqn:Ehome.
  { simpl. apply wp_ret. apply (HQ s [] (v_cache v)); simpl; [| | |done|done].
    - rewrite app_nil_r. replace ∅ with (v_pinned v) at 1 by (apply set_eq; set_solver). rewrite <- Hheld.
      by destruct v.
    - intros k. rewrite take_nil. simpl. split; [by left|]. left. intros b _. by rewrite recovered_empty.
    - intros b _. done. }
  rewrite <- Ehome in *. assert ((0 <? Z.of_nat (length home)) = true) as -> by (rewrite Ehome; done). simpl when.
  assert (base.size (v_pinned v) < NBUF)%nat as Hsz.
  { replace (v_pinned v) with (list_to_set home : gset Z) by (apply set_eq; intros x; rewrite elem_of_list_to_set; naive_solver).
    rewrite size_list_to_set by done. done. }
  assert (forall P : gset Z, (forall b, b ∈ P -> b ∈ v_pinned v) -> base.size P < NBUF)%nat as Hsz'.
  { intros P HP. eapply Nat.le_lt_trans; [|exact Hsz]. by apply subseteq_size. }
  apply wp_bind. eapply (write_log_run home [] LOGSIZE v); [done..| | |].
  { intros b Hb. apply Hsz'. intros x. rewrite elem_of_union, elem_of_singleton. intros [->|?]; [by apply Hpin|done]. }
  { intros b. by apply Hpin. }
  intros s1 H1 E1. cbn [length] in H1. fold (logs st home) in H1.
  destruct (copies_view (logs st home) v) as (P & EP & HP).
  { rewrite fst_logs, snd_logs. intros b Hb Hb2. apply (in_log_copy st home b Hlen2) in Hb as [Hb _]. by apply (Hout' b). }
  rewrite EP in H1. clear EP. rewrite fst_logs in HP. rewrite Hheld in H1.
  assert (forall b, b ∈ P <-> b ∈ home) as HP'.
  { intros b. rewrite HP, Hpin. split; [tauto|]. intros Hb. split; [done|].
    intros [Hb2 _]%(in_log_copy st home b Hlen2). by apply (Hout' b). }
  apply wp_bind. eapply write_head_run; [by rewrite E1|exact H1|done| |].
  { apply Hsz'. intros b Hb%HP'. by apply Hpin. }
  intros s2 H2 E2. cbn [v_cache v_disk v_held v_pinned v_writes] in H2.
  set (ws1 := copied (v_cache v) (logs st home)) in *. set (d := apply_writes ws1 (v_cache v) st) in *.
  assert (length d = BSIZE) as Hd by (apply (bc_length s1 _ st H1); lia).
  set (C1 := upd_block st (head_block home d) (apply_writes ws1 (v_cache v))) in *.
  eapply install_clear_run; [rewrite E2, E1; exact Hl|done|exact H2|done| | | |].
  { intros b Hb. apply Hsz'. intros x. simpl. rewrite elem_of_union, elem_of_singleton, elem_of_difference.
    intros [->|[Hx _]]; [by apply Hpin|]. by apply Hpin, HP'. }
  { apply Hsz'. intros x. simpl. rewrite elem_of_difference. intros [Hx _]. by apply Hpin, HP'. }
  { intros b Hb. simpl. rewrite elem_of_difference. intros [Hx%HP' _]. by apply (Hout' b). }
  intros s3 P' hb0 ws2 H3 HP3 Hhb0 E3. simpl in H3, HP3, ws2. fold C1 in ws2, H3.
  assert (C1 st = head_block home d) as EC by (apply upd_block_eq). rewrite EC in H3.
  assert (P' = ∅) as ->.
  { apply set_eq. intros b. rewrite HP3, elem_of_difference, HP'. set_solver. }
  assert (forall i b, home !! i = Some b -> C1 (st + Z.of_nat i + 1) = v_cache v b) as HC1.
  { intros i b Hb. unfold C1, ws1. rewrite upd_block_ne by lia. by apply logs_written. }
  assert (head_home (head_block home d) = home) as Hhb.
  { apply head_home_block; [done|done|]. eapply Forall_impl; [exact Hok|]. intros b [Hb _]. simpl in Hb. lia. }
  set (ws := ws1 ++ (st, head_block home d) :: copied C1 (installs st home) ++ [(st, hb0)]).
  assert (apply_writes ws D st = hb0) as Est.
  { unfold ws. rewrite apply_writes_app. simpl. rewrite apply_writes_app. simpl. by rewrite upd_block_eq. }
  apply (HQ s3 ws (apply_writes ws2 C1)).
  - replace (apply_writes ws D) with
      (apply_writes ws2 (upd_block st (head_block home d) (apply_writes ws1 (v_disk v)))) by
      (unfold ws, ws2, D; by rewrite (apply_writes_app ws1)).
    replace (v_writes v ++ ws) with (((v_writes v ++ ws1) ++ [(st, head_block home d)]) ++ ws2); [exact H3|].
    unfold ws. rewrite <- !app_assoc. done.
  - intros k Dk. destruct (commit_prefix st D (v_cache v) C1 home (head_block home d) hb0 k) as [Hh Hr];
      [done..|]. split; [|exact Hr]. destruct Hh as [Hh|Hh]; [by left|]. right. exists d. split; [done|exact Hh].
  - intros b Hb. by apply commit_final.
  - by rewrite Est.
  - rewrite E3, E2, E1. by eapply log_is_cleared.
Qed.
End runs.

(** *** log_write() *)
Definition absorb (b : Z) (home : list Z) : list Z := if decide (b ∈ home) then home else home ++ [b].

Lemma absorb_nodup b home : NoDup home -> NoDup (absorb b home).
Proof.
  intros Hnd. unfold absorb. case_decide; [done|]. apply NoDup_app. split_and!; [done|set_solver|apply NoDup_singleton].
Qed.

Lemma absorb_nil b : absorb b [] = [b].
Proof. unfold absorb. rewrite decide_False; [done|set_solver]. Qed.

Lemma absorb_length b home : (length (absorb b home) <= Datatypes.S (length home))%nat.
Proof. unfold absorb. case_decide; [lia|]. rewrite length_app. simpl. lia. Qed.

Section absorb.
Context {S : Type} `{!HasProc S} `{!HasLog S} (st : Z).

(** The search stops at the block, or at the end. *)
Lemma absorb_loop_run pre suf k b (Q : nat -> S -> Prop) s :
  let home := pre ++ suf in
  log_is st home (view log_lens s) -> Forall (fun x => 0 <= x < 2 ^ 32) home -> b ∉ pre -> (length suf <= k)%nat ->
  (forall i, (i <= length home)%nat -> (match home !! i with Some x => x = b | None => b ∉ home end) -> Q i s) ->
  wp (absorb_loop k b (length pre)) Q s.
Proof.
  revert pre k. induction suf as [|x suf IH]; intros pre k home Hl Hr Hb Hk HQ.
  - destruct k; simpl; apply wp_bind, wp_gets; rewrite (loop_test st home) by done;
      (rewrite leb_correct by (unfold home; rewrite app_nil_r; lia)); apply wp_ret, HQ; unfold home; rewrite app_nil_r;
      [lia|by rewrite lookup_ge_None_2 by lia|lia|by rewrite lookup_ge_None_2 by lia].
  - destruct k as [|k]; simpl in Hk; [lia|]. simpl.
    assert (length pre < length home)%nat as Hi by (unfold home; rewrite length_app; simpl; lia).
    apply wp_bind, wp_gets. rewrite (loop_test st home), leb_correct_conv by done.
    assert (lh_block (view log_lens s) !! length pre = Some x) as Hx.
    { destruct Hl as (_ & _ & _ & _ & H5). rewrite <- (lookup_take_lt _ (length home)) by done. rewrite H5.
      unfold home. by rewrite list_lookup_middle. }
    apply wp_bind. eapply (wp_getopt (fun s => lh_block (view log_lens s) !! length pre)); [exact Hx|].
    rewrite Forall_forall in Hr. rewrite u32_small by (apply Hr; unfold home; set_solver).
    destruct (Z.eqb_spec x b) as [->|Hne].
    + apply wp_ret, HQ; [lia|]. unfold home. by rewrite list_lookup_middle.
    + assert (home = (pre ++ [x]) ++ suf) as Eh by (unfold home; by rewrite <- app_assoc).
      replace (Datatypes.S (length pre)) with (length (pre ++ [x])) by (rewrite length_app; simpl; lia).
      apply IH; rewrite <- ?Eh; [done|by apply Forall_forall|set_solver|lia|done].
Qed.
End absorb.

(** The header once [b] has been stored at the index the search found. *)
Lemma log_is_absorb st home l b i :
  log_is st home l -> (i <= length home < LOGSIZE)%nat ->
  (match home !! i with Some x => x = b | None => b ∉ home end) ->
  let l1 := set_lh_block (<[i := b]> (lh_block l)) l in
  log_is st (absorb b home) (if Z.of_nat i =? lh_n l then set_lh_n (lh_n l + 1) l1 else l1).
Proof.
  intros (H1 & H2 & H3 & H4 & H5) Hi Hb l1. unfold absorb. rewrite H3. destruct (home !! i) as [x|] eqn:Hx.
  - subst x. pose proof (lookup_lt_Some _ _ _ Hx) as Hlt. rewrite decide_True by (by eapply list_elem_of_lookup_2).
    destruct (Z.eqb_spec (Z.of_nat i) (Z.of_nat (length home))); [lia|].
    split_and!; simpl; [done..|by rewrite length_insert|]. rewrite take_insert_lt, H5 by lia.
    by apply list_insert_id.
  - apply lookup_ge_None_1 in Hx. assert (i = length home) as -> by lia. rewrite decide_False by done.
    rewrite Z.eqb_refl. split_and!; simpl; [done..| |by rewrite length_insert|].
    + rewrite length_app. simpl. lia.
    + rewrite length_app, Nat.add_1_r. simpl. rewrite (take_S_r _ _ b).
      * rewrite take_insert_ge by lia. by rewrite H5.
      * apply list_lookup_insert_eq. lia.
Qed.

Section log_write.
Context {S : Type} `{!HasProc S} `{!HasBio S} `{!HasMemdisk S} `{!HasLog S}.
Context `{!LensIndep proc_lens bio_lens} `{!LensIndep proc_lens memdisk_lens} `{!LensIndep bio_lens memdisk_lens}.
Context `{!LensIndep log_lens proc_lens} `{!LensIndep log_lens bio_lens} `{!LensIndep log_lens memdisk_lens}.
Context (c i : nat) (n : Z) (F : list lockid) (size : Z) (fuel : nat).

Lemma bio_rep_put_pm m s v :
  bio_rep c i n F size s v -> on_cpu c (Some i) 0 [] F m -> bio_rep c i n F size (put_pm m s) v.
Proof.
  intros (H1 & H2 & H3) Hm. split_and!; [by apply at_base_put_pm|unfold bufs in *; by rewrite view_put_pm|].
  by rewrite view_put_pm.
Qed.

Lemma bio_rep_put_log l s v : bio_rep c i n F size s v -> bio_rep c i n F size (put log_lens l s) v.
Proof.
  intros (H1 & H2 & H3). split_and!; [by apply (at_base_other c i n F log_lens)| |].
  - unfold bufs in *. by rewrite (indep_view_r (l := log_lens) (k := bio_lens)).
  - by rewrite (indep_view_r (l := log_lens) (k := memdisk_lens)).
Qed.

Lemma log_write_run st home v h b (Q : unit -> S -> Prop) s :
  log_lock ∈ F -> bio_rep c i n F size s v -> v_held v !! h = Some b -> 0 <= b < 2 ^ 31 ->
  log_is st home (view log_lens s) -> Forall (fun x => 0 <= x < 2 ^ 31) home ->
  (length home < LOGSIZE)%nat -> Z.of_nat (length home) < lg_size (view log_lens s) - 1 ->
  1 <= lg_outstanding (view log_lens s) ->
  (forall s', bio_rep c i n F size s' (v_pin b v) -> log_is st (absorb b home) (view log_lens s') -> 
     lg_size (view log_lens s') = lg_size (view log_lens s) -> lg_outstanding (view log_lens s') = lg_outstanding (view log_lens s) ->
     Q tt s') ->
  wp (log_write (BlockOps0 := bio_ops (DiskOps0 := memide_ops) fuel) h) Q s.
Proof.
  intros HF Hrep Hh Hb Hl Hrange Hn Hsz Hout HQ. pose proof Hl as (_ & _ & E3 & E4 & _).
  unfold log_write, the_log. apply wp_bind, wp_gets. rewrite E3.
  destruct (Z.leb_spec (Z.of_nat LOGSIZE) (Z.of_nat (length home))); [lia|].
  destruct (Z.leb_spec (lg_size (view log_lens s) - 1) (Z.of_nat (length home))); [lia|]. simpl orb. cbv iota.
  destruct (Z.ltb_spec (lg_outstanding (view log_lens s)) 1); [lia|].
  pose proof Hrep as ((Hon & _ & _) & _ & _).
  apply wp_bind. eapply (wp_lock c (Some i) 0 [] F); [done|exact HF|exact Hon|]. intros m1 Hm1.
  destruct (held_buf _ _ _ _ _ _ _ _ _ Hrep Hh) as (Hlt & Hbl & _ & [_ Hno] & _).
  assert (forall m s, bufs (put_pm m s) = bufs s) as Ebm by (intros m s0; unfold bufs; by rewrite view_put_pm).
  apply wp_bind. unfold bblockno, bio_ops. apply wp_bind, wp_buf_at; rewrite Ebm; [lia|]. rewrite Hno. apply wp_ret.
  assert (view log_lens (put_pm m1 s) = view log_lens s) as El by apply indep_view_l.
  apply wp_bind. eapply (absorb_loop_run st [] home LOGSIZE); [by rewrite El|eapply Forall_impl; [exact Hrange|simpl; lia]|set_solver|lia|].
  intros j Hj Hjb. cbn [app] in Hj, Hjb. rewrite s32_small by lia.
  destruct (lookup_lt_is_Some_2 (lh_block (view log_lens s)) j) as [x Hx]; [lia|].
  apply wp_bind, wp_bind. eapply (wp_getopt (fun s => lh_block (view log_lens s) !! j)); [rewrite El; exact Hx|].
  apply wp_modify. rewrite El. set (l1 := set_lh_block (<[j := b]> (lh_block (view log_lens s))) (view log_lens s)). apply wp_bind, wp_gets. rewrite view_put.
  pose proof (log_is_absorb st home _ b j Hl ltac:(lia) Hjb) as Hl2. fold l1 in Hl2. cbv zeta in Hl2.
  change (lh_n l1) with (lh_n (view log_lens s)). 
  set (l2 := if Z.of_nat j =? lh_n (view log_lens s) then set_lh_n (lh_n (view log_lens s) + 1) l1 else l1) in Hl2.
  assert (forall Q', Q' tt (put log_lens l2 (put_pm m1 s)) ->
    wp (when (Z.of_nat j =? lh_n (view log_lens s)) (log_upd (fun l => set_lh_n (lh_n l + 1) l))) Q'
      (put log_lens l1 (put_pm m1 s))) as Hwhen.
  { intros Q' HQ'. unfold l2 in HQ'. destruct (Z.of_nat j =? _); simpl; [|by apply wp_ret].
    apply wp_modify. by rewrite view_put, put_put. }
  apply wp_bind, Hwhen. clear Hwhen.
  pose proof (bdirty_run c i n F size _ v h b (bio_rep_put_log l2 s v Hrep) Hh) as Hd.
  set (s2 := put log_lens l2 s) in *.
  rewrite <- (put_pm_other log_lens m1 l2 s). fold s2.
  assert (bufs s2 = bufs s) as Eb by (unfold bufs, s2; exact (indep_view_r (l := log_lens) (k := bio_lens) l2 s)).
  apply wp_bind, wp_buf_upd; rewrite Ebm; [rewrite Eb; lia|].
  unfold wp, buf_upd, bind, buf_at, getopt, modify in Hd. fold (bufs s2) in Hd.
  rewrite (lookup_bufs h (bufs s2)) in Hd by (rewrite Eb; lia). simpl in Hd.
  set (s3 := put bio_lens _ s2) in Hd. unfold put_bufs. fold (bufs s2) in s3.
  assert (put bio_lens (alter (fun x => set_flags (Z.lor (b_flags x) B_DIRTY) x) h (bufs s2)) (put_pm m1 s2) = put_pm m1 s3) as ->
    by exact (eq_sym (put_pm_other bio_lens m1 _ s2)).
  eapply (wp_unlock c (Some i) (0 + 1) [] F); [done|set_solver|by rewrite machine_put_pm|].
  intros m3 Hm3. rewrite put_pm_put_pm.
  assert (view log_lens (put_pm m3 s3) = l2) as El3.
  { unfold put_pm. rewrite indep_view_l. unfold s3. rewrite indep_view_l. unfold s2. apply view_put. }
  apply HQ; [by apply bio_rep_put_pm|by rewrite El3| |]; rewrite El3; unfold l2; by destruct (_ =? _).
Qed.
End log_write.

(** *** begin_op() *)
Section begin_op.
Context {S : Type} `{!HasProc S} `{!HasLog S} `{!LensIndep proc_lens log_lens}.

(** The log has room for every operation under way. *)
Definition reserved (l : log_st) : Prop :=
  lg_committing l = 0 /\ lh_n l + lg_outstanding l * MAXOPBLOCKS <= Z.of_nat LOGSIZE.


Lemma begin_op_loop_ends k s : ends (fun _ s' => reserved (view log_lens s')) (begin_op_loop k s).
Proof.
  revert s. induction k as [|k IH]; intros s; simpl; apply ends_bind; simpl;
    (destruct (Z.eqb_spec (lg_committing (view log_lens s)) 0); simpl;
      [|apply ends_bind; apply ends_true; intros [] s'; [exact I||apply IH]]);
    (destruct (_ <? _) eqn:E; [apply ends_bind; apply ends_true; intros [] s'; [exact I||apply IH]|]);
    apply Z.ltb_ge in E; apply ends_wlp, wlp_bind, wlp_wp, wp_modify, wlp_zoom; try apply straight_krelease; intros [] t;
    rewrite indep_view_r, view_put; split; cbn [lg_committing lh_n lg_outstanding set_outstanding]; lia.
Qed.

Lemma begin_op_run c i n F k (Q : unit -> S -> Prop) s `{!LensIndep log_lens proc_lens} :
  at_base c i n F s -> log_lock ∈ F ->
  reserved (set_outstanding (lg_outstanding (view log_lens s) + 1) (view log_lens s)) ->
  (forall m, on_cpu c (Some i) 0 [] F m ->
     Q tt (put log_lens (set_outstanding (lg_outstanding (view log_lens s) + 1) (view log_lens s)) (put_pm m s))) ->
  wp (begin_op k) Q s.
Proof.
  intros (Hon & HF & _) Hlk [Hc Hr] HQ. simpl in Hc, Hr. apply wp_bind.
  eapply (wp_lock c (Some i) 0 [] F); [done..|]. intros m1 H1.
  destruct k; simpl; apply wp_bind, wp_gets; rewrite view_put_pm by done; rewrite Hc, Z.eqb_refl;
    (destruct (_ <? _) eqn:E; [apply Z.ltb_lt in E; lia|]); apply wp_bind, wp_modify; rewrite view_put_pm by done;
    (eapply (wp_unlock c (Some i) (0 + 1) [] F); [done|set_solver|by rewrite machine_put_other, machine_put_pm|]);
    intros m3 H3; rewrite put_pm_other, put_pm_put_pm by done; by apply HQ.
Qed.
End begin_op.

(** ** A kernel for the witnesses *)
Definition kern_l : Type := kern_b * log_st.
#[local] Instance proc_l : HasProc kern_l := {| proc_lens := compose_lens fst_lens (proc_lens (HasProc := proc_b)) |}.
#[local] Instance bio_l : HasBio kern_l := {| bio_lens := compose_lens fst_lens (bio_lens (HasBio := bio_b)) |}.
#[local] Instance memdisk_l : HasMemdisk kern_l :=
  {| memdisk_lens := compose_lens fst_lens (memdisk_lens (HasMemdisk := memdisk_b)) |}.
#[local] Instance log_l : HasLog kern_l := {| log_lens := snd_lens |}.
#[local] Instance indep_l1 : LensIndep (S := kern_l) proc_lens bio_lens.
Proof. by split; intros; try destruct s as [[? []] ?]. Qed.
#[local] Instance indep_l2 : LensIndep (S := kern_l) proc_lens memdisk_lens.
Proof. by split; intros; try destruct s as [[? []] ?]. Qed.
#[local] Instance indep_l3 : LensIndep (S := kern_l) bio_lens memdisk_lens.
Proof. by split; intros; try destruct s as [[? []] ?]. Qed.
#[local] Instance indep_l4 : LensIndep (S := kern_l) log_lens proc_lens.
Proof. by split; intros; try destruct s as [[? []] ?]. Qed.
#[local] Instance indep_l5 : LensIndep (S := kern_l) log_lens bio_lens.
Proof. by split; intros; try destruct s as [[? []] ?]. Qed.
#[local] Instance indep_l6 : LensIndep (S := kern_l) log_lens memdisk_lens.
Proof. by split; intros; try destruct s as [[? []] ?]. Qed.
#[local] Instance indep_l7 : LensIndep (S := kern_l) proc_lens log_lens.
Proof. by split; intros; try destruct s as [[? []] ?]. Qed.

Definition locks_l : list lockid := log_lock :: locks_b.
(** The log of device 1 starts at block 2; block 100 is logged. *)
Definition log_x : log_st := MkLog 2 30 1 0 1 1 (100 :: replicate 29 0).
Lemma locks_l_bcache : bcache_lock ∈ locks_l.
Proof. right. apply locks_b_bcache. Qed.
Lemma locks_l_buf (j : nat) : (j < NBUF)%nat -> sl_lk (buf_slref j) ∈ locks_l.
Proof. intros Hj. right. by apply locks_b_buf. Qed.
#[local] Instance ops_l : BlockOps kern_l := bio_ops (DiskOps0 := memide_ops) 0.
#[local] Instance cache_l : BlockCache kern_l :=
  bio_cache 0 0 1 locks_l locks_l_bcache locks_l_buf FSSIZE fssize_range 0.
#[local] Instance frame_l : BlockFrame (S := kern_l) log_lens :=
  bio_frame log_lens 0 0 1 locks_l locks_l_bcache locks_l_buf FSSIZE fssize_range 0.

(** The machine after boot on the disk [D], with the log [l]. *)
Definition kern_lD (D : Z -> list Z) (l : log_st) : kern_l := ((kern_b0.1, (bcache0, MkMemdisk FSSIZE D [])), l).

Lemma kern_l0_base D l : at_base (S := kern_l) 0 0 1 locks_l (kern_lD D l).
Proof. split_and!; [apply on_cpu_b|right; by left|]. by eexists. Qed.

Lemma binit_l D l : (forall b, 0 <= b < FSSIZE -> length (D b) = BSIZE) ->
  wp (S := kern_l) binit (fun _ s' => bc_rep s' (BView D D ∅ ∅ []) /\ view log_lens s' = l) (kern_lD D l).
Proof.
  intros HD. eapply wp_mono; [|apply (wp_leaves log_lens); [apply steady_leaves, steady_binit; apply _|
    exact (binit_run (S := kern_l) 0 0 1 locks_l FSSIZE D (kern_lD D l) (kern_l0_base D l) eq_refl eq_refl HD)]].
  intros [] s' [[H _] E]. split; [exact H|exact E].
Qed.

(** Block 100 is changed and pinned, as log_write() leaves it. *)
Definition touch_l (b : Z) : M kern_l unit :=
  let* h := bread 1 b in bset h stamp_b;;; bdirty h;;; brelse h.
Definition view_l : bview := v_pin 100 (v_store 100 (stamp_b (disk_b 100)) (BView disk_b disk_b ∅ ∅ [])).

Lemma touch_run s (Q : unit -> kern_l -> Prop) :
  bc_rep s (BView disk_b disk_b ∅ ∅ []) -> view log_lens s = log_x ->
  (forall s', bc_rep s' view_l -> view log_lens s' = log_x -> Q tt s') -> wp (touch_l 100) Q s.
Proof.
  intros Hs Hl HQ. unfold touch_l. apply wp_bind.
  eapply (step_bread log_lens); [done|unfold bc_size, cache_l, bio_cache, FSSIZE; simpl; lia|apply not_elem_of_empty|vm_compute; lia|].
  intros h s1 Hh H1 E1. apply wp_bind. eapply (step_bset log_lens); [done|apply lookup_insert_eq|apply length_set_bytes|].
  intros s2 H2 E2. apply wp_bind. eapply wp_mono; [|apply (wp_leaves log_lens); [apply steady_leaves, bs_bdirty|
    eapply bc_bdirty; [exact H2|apply lookup_insert_eq]]]. intros [] s3 [H3 E3].
  eapply (step_brelse log_lens); [done|apply lookup_insert_eq|left; simpl; set_solver|].
  intros s4 H4 E4. apply HQ; [|congruence].
  unfold v_set_held, v_pin, v_store in H4. simpl in H4. rewrite delete_insert_id in H4 by done. exact H4.
Qed.

(** ** Theorems *)

(** C8. log.c, commit() and recover_from_log(): commit() of the blocks listed in the log header
    returns, and the disk outside the log then has the logged blocks' cached contents.  If the
    machine stops after any number [k] of the disk writes commit() makes, and recovery runs at the
    next boot on the disk as it was left, recovery returns and the disk outside the log is either
    exactly the old one or has all the committed contents: no transaction is half installed. *)
Theorem commit_crash_safe {S} `{!HasProc S} `{!HasLog S} `{BlockCache S} `{!BlockFrame log_lens} st home v s :
  0 <= st -> st + Z.of_nat LOGSIZE < bc_size -> bc_size <= 2 ^ 31 ->
  log_is st home (view log_lens s) -> home_ok st home -> NoDup home -> (length home < NBUF)%nat ->
  bc_rep s v -> v_held v = ∅ -> (forall b, b ∈ v_pinned v <-> b ∈ home) -> head_n (v_disk v st) = 0 ->
  wp commit (fun _ s' => exists ws C,
    bc_rep s' (BView (apply_writes ws (v_disk v)) C ∅ ∅ (v_writes v ++ ws)) /\
    log_is st [] (view log_lens s') /\
    (forall b, ~ in_log st b -> apply_writes ws (v_disk v) b = committed home v b) /\
    forall k s2 W, let Dk := apply_writes (take k ws) (v_disk v) in
      log_at st (view log_lens s2) -> bc_rep s2 (BView Dk Dk ∅ ∅ W) ->
      wp recover_from_log (fun _ s3 => exists D3 C3 W3, bc_rep s3 (BView D3 C3 ∅ ∅ W3) /\
        log_is st [] (view log_lens s3) /\
        ((forall b, ~ in_log st b -> D3 b = v_disk v b) \/
         (forall b, ~ in_log st b -> D3 b = committed home v b))) s2) s.
Proof.
  intros Hst Hend Hsize Hl Hok Hnd Hlen Hs Hheld Hpin Hhd. pose proof (log_home_length _ _ _ Hl) as Hlen2.
  eapply commit_run; [done..|]. intros s' ws C H' Hk Hfin _ Hl'. exists ws, C. split_and!; [done..|].
  intros k s2 W Dk Hat H2. destruct (Hk k) as [Hhead Hatom]. fold Dk in Hhead, Hatom.
  assert (0 <= head_n (Dk st) <= Z.of_nat LOGSIZE /\ home_ok st (head_home (Dk st))) as [Hn Hho].
  { destruct Hhead as [E|(d & Hd & ->)].
    - rewrite E, head_home_empty by done. split; [unfold LOGSIZE; lia|constructor].
    - rewrite head_n_block, head_home_block by (done || (eapply Forall_impl; [exact Hok|]; simpl; lia)).
      split; [lia|done]. }
  eapply (recover_run st) with (v := BView Dk Dk ∅ ∅ W); [done..|]. intros s3 hb C3 ws3 H3 Hhb Hl3. eexists _, C3, _. split_and!; [exact H3|done|].
  assert (forall b, ~ in_log st b -> apply_writes ws3 Dk b = recovered st Dk b) as E.
  { intros b Hb. unfold ws3. cbn [v_disk]. rewrite apply_writes_app. simpl.
    apply upd_block_ne. intros ->. apply Hb. unfold in_log. lia. }
  destruct Hatom as [Ha|Ha]; [left|right]; intros b Hb; (etrans; [exact (E b Hb)|by apply Ha]).
Qed.

Lemma commit_crash_safe_witness :
  wp (S := kern_l) (binit;;; touch_l 100;;; commit) (fun _ s' => exists ws C,
    bc_rep s' (BView (apply_writes ws disk_b) C ∅ ∅ ws) /\ apply_writes ws disk_b 100 = stamp_b (disk_b 100))
    (kern_lD disk_b log_x).
Proof.
  apply wp_bind. eapply wp_mono; [|exact (binit_l disk_b log_x disk_b_length)]. intros [] s1 [H1 E1].
  apply wp_bind. apply (touch_run s1); [exact H1|exact E1|]. intros s2 H2 E2.
  assert (log_is 2 [100] (view log_lens s2)) as Hl by (rewrite E2; done).
  assert (home_ok (S := kern_l) 2 [100]) as Hok.
  { constructor; [|constructor]. unfold bc_size, cache_l, bio_cache, FSSIZE, in_log, LOGSIZE. simpl. lia. }
  eapply wp_mono; [|apply (commit_crash_safe (S := kern_l) 2 [100] view_l s2); [lia|done|done|exact Hl|exact Hok|
    apply NoDup_singleton|vm_compute; lia|exact H2|done|intros b; simpl; set_solver|vm_compute; reflexivity]].
  intros [] s3 (ws & C & H3 & _ & Hf & _). exists ws, C. split; [exact H3|].
  etrans; [apply (Hf 100); unfold in_log, LOGSIZE; lia|]. vm_compute. reflexivity.
Defined.

(** log.c, recover_from_log(): recovery installs the logged blocks, clears the header and
    returns; if the machine stops after any number of its own disk writes, the next recovery
    produces the same disk outside the log, so crashes during recovery are harmless too. *)
Theorem recovery_idempotent {S} `{!HasProc S} `{!HasLog S} `{BlockCache S} `{!BlockFrame log_lens} st v s :
  let D := v_disk v in
  0 <= st -> st + Z.of_nat LOGSIZE < bc_size -> bc_size <= 2 ^ 31 ->
  log_at st (view log_lens s) -> 0 <= head_n (D st) <= Z.of_nat LOGSIZE -> home_ok st (head_home (D st)) ->
  bc_rep s v -> v_held v = ∅ -> v_pinned v = ∅ ->
  wp recover_from_log (fun _ s' => exists ws C,
    bc_rep s' (BView (apply_writes ws D) C ∅ ∅ (v_writes v ++ ws)) /\ log_is st [] (view log_lens s') /\
    head_n (apply_writes ws D st) = 0 /\
    forall k b, ~ in_log st b ->
      apply_writes ws D b = recovered st D b /\ recovered st (apply_writes (take k ws) D) b = recovered st D b) s.
Proof.
  intros D Hst Hend Hsize Hat Hn Hok Hs Hheld Hpin. eapply (recover_run st); [done..|].
  intros s' hb C ws H' Hhb Hl'. exists ws, C. split_and!; [done|done| |].
  - unfold ws. rewrite apply_writes_app. simpl. by rewrite upd_block_eq.
  - intros k b Hb. fold D in ws. split.
    + unfold ws. rewrite apply_writes_app. simpl. apply upd_block_ne. intros ->. apply Hb. unfold in_log. lia.
    + apply recovered_prefix; [done| |by apply home_out|done|done|done].
      unfold head_home. rewrite length_fmap, length_seq. lia.
Qed.

(** A disk left by a crash after the header was written: block 100 is logged in block 3. *)
Definition disk_h : Z -> list Z :=
  upd_block 2 (head_block [100] (disk_b 2)) (upd_block 3 (stamp_b (disk_b 3)) disk_b).

Lemma disk_h_length b : 0 <= b < FSSIZE -> length (disk_h b) = BSIZE.
Proof.
  intros Hb. unfold disk_h, upd_block. destruct (b =? 2); [by rewrite length_head_block|].
  destruct (b =? 3); [apply length_set_bytes|]. by apply disk_b_length.
Qed.

Lemma recovery_idempotent_witness :
  wp (S := kern_l) (binit;;; recover_from_log) (fun _ s' => exists ws C,
    bc_rep s' (BView (apply_writes ws disk_h) C ∅ ∅ ws) /\ apply_writes ws disk_h 100 = stamp_b (disk_b 3))
    (kern_lD disk_h log_x).
Proof.
  apply wp_bind. eapply wp_mono; [|exact (binit_l disk_h log_x disk_h_length)]. intros [] s1 [H1 E1].
  assert (log_at 2 (view log_lens s1)) as Hl by (rewrite E1; done).
  assert (head_home (disk_h 2) = [100]) as Hh by (vm_compute; reflexivity).
  assert (home_ok (S := kern_l) 2 (head_home (disk_h 2))) as Hok.
  { rewrite Hh. constructor; [|constructor]. unfold bc_size, cache_l, bio_cache, FSSIZE, in_log, LOGSIZE. simpl. lia. }
  eapply wp_mono; [|apply (recovery_idempotent (S := kern_l) 2 (BView disk_h disk_h ∅ ∅ []) s1); [lia|done|done|exact Hl|
    vm_compute; split; discriminate|exact Hok|exact H1|done|done]].
  intros [] s3 (ws & C & H3 & _ & _ & Hf). exists ws, C. split; [exact H3|].
  destruct (Hf 0%nat 100) as [Hf1 _]; [unfold in_log, LOGSIZE; lia|]. etrans; [exact Hf1|]. vm_compute. reflexivity.
Defined.

(** log.c, log_write(): inside a transaction with room, log_write() of a held buffer returns,
    the block is pinned in the cache and listed in the header exactly once: a block already listed
    is absorbed, and the header grows by at most one block. *)
Theorem log_write_absorbs {S} `{!HasProc S} `{!HasBio S} `{!HasMemdisk S} `{!HasLog S}
    `{!LensIndep proc_lens bio_lens} `{!LensIndep proc_lens memdisk_lens} `{!LensIndep bio_lens memdisk_lens}
    `{!LensIndep log_lens proc_lens} `{!LensIndep log_lens bio_lens} `{!LensIndep log_lens memdisk_lens}
    c i n F size fuel st home v h b s :
  log_lock ∈ F -> bio_rep c i n F size s v -> v_held v !! h = Some b -> 0 <= b < 2 ^ 31 ->
  log_is st home (view log_lens s) -> Forall (fun x => 0 <= x < 2 ^ 31) home -> NoDup home ->
  (length home < LOGSIZE)%nat -> Z.of_nat (length home) < lg_size (view log_lens s) - 1 ->
  1 <= lg_outstanding (view log_lens s) ->
  wp (log_write (BlockOps0 := bio_ops (DiskOps0 := memide_ops) fuel) h) (fun _ s' =>
    bio_rep c i n F size s' (v_pin b v) /\ log_is st (absorb b home) (view log_lens s') /\
    NoDup (absorb b home) /\ (length (absorb b home) <= Datatypes.S (length home))%nat) s.
Proof.
  intros HF Hrep Hh Hb Hl Hr Hnd Hn Hsz Hout. eapply log_write_run; [done..|]. intros s' H' Hl' _ _.
  split_and!; [done|done|by apply absorb_nodup|apply absorb_length].
Qed.

Definition log_y : log_st := MkLog 2 30 1 0 1 0 (replicate 30 0).

Lemma log_write_absorbs_witness :
  wp (S := kern_l) (binit;;; let* h := bread 1 100 in log_write h) (fun _ s' => log_is 2 [100] (view log_lens s'))
    (kern_lD disk_b log_y).
Proof.
  apply wp_bind. eapply wp_mono; [|exact (binit_l disk_b log_y disk_b_length)]. intros [] s1 [H1 E1].
  apply wp_bind. eapply (step_bread log_lens); [exact H1|unfold bc_size, cache_l, bio_cache, FSSIZE; simpl; lia|
    apply not_elem_of_empty|vm_compute; lia|]. intros h s2 Hh H2 E2. rewrite E1 in E2.
  assert (log_is 2 [] (view log_lens s2)) as Hl by (rewrite E2; done).
  eapply wp_mono; [|eapply (log_write_absorbs (S := kern_l) 0 0 1 locks_l FSSIZE 0 2 [] _ h 100 s2); [by left|exact H2|
    apply lookup_insert_eq|lia|exact Hl|by apply Forall_nil|apply NoDup_nil_2|vm_compute; lia|rewrite E2; vm_compute; reflexivity|
    rewrite E2; vm_compute; discriminate]].
  intros [] s3 (_ & H3 & _). rewrite absorb_nil in H3. exact H3.
Defined.

(** C30. log.c, begin_op(): however the threads interleave while it waits, when begin_op() returns no
    commit is under way and the log has room for [MAXOPBLOCKS] blocks of every operation under way,
    the caller's included; and when that already holds at the call, it returns without waiting. *)
Theorem begin_op_reserves {S} `{!HasProc S} `{!HasLog S} `{!LensIndep proc_lens log_lens} `{!LensIndep log_lens proc_lens}
    c i n F k s s0 :
  at_base c i n F s0 -> log_lock ∈ F ->
  reserved (set_outstanding (lg_outstanding (view log_lens s0) + 1) (view log_lens s0)) ->
  ends (fun _ s' => reserved (view log_lens s')) (begin_op k s) /\
  wp (begin_op k) (fun _ s' => view log_lens s' = set_outstanding (lg_outstanding (view log_lens s0) + 1) (view log_lens s0)) s0.
Proof.
  intros Hb HF Hr. split.
  - apply ends_bind, ends_true. intros [] s'. apply begin_op_loop_ends.
  - eapply begin_op_run; [done..|]. intros m _. apply view_put.
Qed.

Lemma begin_op_reserves_witness :
  wp (begin_op 0) (fun _ s' => lg_outstanding (view log_lens s') = 2) (kern_lD disk_b log_y).
Proof.
  eapply wp_mono; [|refine (proj2 (begin_op_reserves (S := kern_l) 0 0 1 locks_l 0 (kern_lD disk_b log_y)
    (kern_lD disk_b log_y) (kern_l0_base disk_b log_y) _ _))].
  - intros [] s' E. rewrite E. reflexivity.
  - by left.
  - split; vm_compute; [reflexivity|discriminate].
Defined.
