(* ===== verification/Fs.v ===== *)
(** * The file system (fs.c, fs.h, the inodes of file.h)

    The block allocator, the inodes and their cache, the contents of files, directories and paths,
    over the buffer cache (Block.v) and the log (Log.v).  A [struct inode *] is an index into the
    cache.  [readi] hands the bytes it reads to a [sink] and [writei] takes them from a [source]:
    user memory, kernel memory or a local variable of the caller.  A path is the list of its bytes. *)
From S2P Require Import Prelude Mmu KString Spinlock Pages Sched Process Syscall Sleeplock Block Bio Log.

Definition NINODE : nat := 50.
Definition NDEV : Z := 10.
Definition ROOTINO : Z := 1.
Definition NDIRECT : nat := 12.
Definition NINDIRECT : Z := Z.of_nat BSIZE / 4.
Definition MAXFILE : Z := Z.of_nat NDIRECT + NINDIRECT.
Definition T_DIR : Z := 1.
Definition T_FILE : Z := 2.
Definition T_DEV : Z := 3.
Definition sizeof_dinode : Z := 64.
Definition IPB : Z := Z.of_nat BSIZE / sizeof_dinode.
Definition IBLOCK (i : Z) (sb : superblock) : Z := u32 (i / IPB + sb_inodestart sb).
Definition BPB : Z := Z.of_nat BSIZE * 8.
Definition BBLOCK (b : Z) (sb : superblock) : Z := u32 (b / BPB + sb_bmapstart sb).
Definition DIRSIZ : nat := 14.
Definition sizeof_dirent : Z := 16.

Record inode := MkInode {
  i_dev : Z;
  i_inum : Z;
  i_ref : Z;
  i_lock : sleeplock;         (* protects everything below here *)
  i_valid : Z;                (* inode has been read from disk? *)
  i_type : Z;                 (* copy of disk inode *)
  i_major : Z;
  i_minor : Z;
  i_nlink : Z;
  i_size : Z;
  i_addrs : list Z
}.
Definition set_i_id (dev inum ref valid : Z) (i : inode) : inode :=
  MkInode dev inum ref (i_lock i) valid (i_type i) (i_major i) (i_minor i) (i_nlink i) (i_size i) (i_addrs i).
Definition set_i_ref (x : Z) (i : inode) : inode :=
  MkInode (i_dev i) (i_inum i) x (i_lock i) (i_valid i) (i_type i) (i_major i) (i_minor i) (i_nlink i) (i_size i) (i_addrs i).
Definition set_i_lock (x : sleeplock) (i : inode) : inode :=
  MkInode (i_dev i) (i_inum i) (i_ref i) x (i_valid i) (i_type i) (i_major i) (i_minor i) (i_nlink i) (i_size i) (i_addrs i).
Definition set_i_valid (x : Z) (i : inode) : inode :=
  MkInode (i_dev i) (i_inum i) (i_ref i) (i_lock i) x (i_type i) (i_major i) (i_minor i) (i_nlink i) (i_size i) (i_addrs i).
Definition set_i_type (x : Z) (i : inode) : inode :=
  MkInode (i_dev i) (i_inum i) (i_ref i) (i_lock i) (i_valid i) x (i_major i) (i_minor i) (i_nlink i) (i_size i) (i_addrs i).
Definition set_i_major (x : Z) (i : inode) : inode :=
  MkInode (i_dev i) (i_inum i) (i_ref i) (i_lock i) (i_valid i) (i_type i) x (i_minor i) (i_nlink i) (i_size i) (i_addrs i).
Definition set_i_minor (x : Z) (i : inode) : inode :=
  MkInode (i_dev i) (i_inum i) (i_ref i) (i_lock i) (i_valid i) (i_type i) (i_major i) x (i_nlink i) (i_size i) (i_addrs i).
Definition set_i_nlink (x : Z) (i : inode) : inode :=
  MkInode (i_dev i) (i_inum i) (i_ref i) (i_lock i) (i_valid i) (i_type i) (i_major i) (i_minor i) x (i_size i) (i_addrs i).
Definition set_i_size (x : Z) (i : inode) : inode :=
  MkInode (i_dev i) (i_inum i) (i_ref i) (i_lock i) (i_valid i) (i_type i) (i_major i) (i_minor i) (i_nlink i) x (i_addrs i).
Definition set_i_addrs (x : list Z) (i : inode) : inode :=
  MkInode (i_dev i) (i_inum i) (i_ref i) (i_lock i) (i_valid i) (i_type i) (i_major i) (i_minor i) (i_nlink i) (i_size i) x.
Definition inode0 : inode := MkInode 0 0 0 sleeplock0 0 0 0 0 0 0 (replicate (Datatypes.S NDIRECT) 0).

(** [sb] and [icache]. *)
Record fs_st := MkFs { fs_sb : superblock; fs_icache : list inode }.
Definition set_sb (x : superblock) (s : fs_st) : fs_st := MkFs x (fs_icache s).
Definition set_icache (x : list inode) (s : fs_st) : fs_st := MkFs (fs_sb s) x.
Definition icache_lock : lockid := ("icache", 0).
Class HasFs (S : Type) := { fs_lens : lens S fs_st; fs_lens_laws :: LensLaws fs_lens }.

(** [&ip->lock]. *)
Definition inode_slref (i : nat) : slref fs_st := {|
  sl_sel s := i_lock <$> fs_icache s !! i;
  sl_mod f s := set_icache (alter (fun x => set_i_lock (f (i_lock x)) x) i (fs_icache s)) s;
  sl_lk := ("inode", Z.of_nat i);
  sl_chan := ("inode.lock", Z.of_nat i)
|}.

(** [sink a off bytes] stores bytes at offset [off] of the destination, [source off m] reads [m]
    bytes at [off]; [A] is the destination when it is a variable of the caller. *)
Definition sink (S A : Type) : Type := A -> Z -> list Z -> M S A.
Definition source (S : Type) : Type := Z -> Z -> M S (list Z).

(** [devsw]: the functions of the devices; console.c provides those of CONSOLE. *)
Class DevOps (S : Type) := {
  dev_read : Z -> option (forall A, sink S A -> A -> nat -> Z -> M S (Z * A));
  dev_write : Z -> option (source S -> nat -> Z -> M S Z)
}.

(** A variable of [n] bytes as a destination, and bytes of a variable as a source. *)
Definition to_var {S} : sink S (list Z) := fun v off bs => ret (set_bytes (Z.to_nat off) bs v).
Definition from_var {S} (v : list Z) : source S := fun off m => ret (bytes_from (Z.to_nat off) (Z.to_nat m) v).

(** *** Names and paths *)

(** [strncmp] and [strncpy] on the bytes of strings; the end of a list is the NUL. *)
Fixpoint strncmp_bytes (n : nat) (p q : list Z) : Z :=
  match n with
  | O => 0
  | Datatypes.S n' =>
      let c := hd 0 p in let d := hd 0 q in
      if negb (c =? 0) && (c =? d) then strncmp_bytes n' (tail p) (tail q) else c - d
  end.
Fixpoint strncpy_bytes (n : nat) (t : list Z) : list Z :=
  match n with
  | O => []
  | Datatypes.S n' =>
      let c := hd 0 t in if c =? 0 then replicate n 0 else c :: strncpy_bytes n' (tail t)
  end.
Definition namecmp (s t : list Z) : Z := strncmp_bytes DIRSIZ s t.

Definition slash : Z := 47.

(** The two kinds of [while] of skipelem(). *)
Fixpoint skip_slashes (path : list Z) : list Z :=
  match path with c :: path' => if c =? slash then skip_slashes path' else path | [] => [] end.
Fixpoint split_elem (path : list Z) : list Z * list Z :=
  match path with
  | c :: path' => if (c =? slash) || (c =? 0) then ([], path)
                  else let '(e, r) := split_elem path' in (c :: e, r)
  | [] => ([], [])
  end.
Definition skipelem (path name : list Z) : option (list Z * list Z) :=
  let path := skip_slashes path in
  if hd 0 path =? 0 then None else
  let '(s, rest) := split_elem path in
  let name := if (DIRSIZ <=? length s)%nat then set_bytes 0 (take DIRSIZ s) name
              else set_bytes (length s) [0] (set_bytes 0 s name) in
  Some (skip_slashes rest, name).

Section fs.
Context {S : Type} `{!HasProc S} `{!BlockOps S} `{!HasLog S} `{!HasFs S} `{!DevOps S} `{!ConsoleOps S} (fuel : nat).

Definition the_sb : M S superblock := gets (fun s => fs_sb (view fs_lens s)).
Definition ino (i : nat) : M S inode := getopt (fun s => fs_icache (view fs_lens s) !! i).
Definition ino_upd (i : nat) (f : inode -> inode) : M S unit :=
  let* _ := ino i in
  modify (fun s => put fs_lens (set_icache (alter f i (fs_icache (view fs_lens s))) (view fs_lens s)) s).

(** *** Blocks *)
Definition bzero (dev bno : Z) : M S unit :=
  let* bp := bread dev bno in
  bset bp (fun d => replicate (length d) 0);;;
  log_write bp;;;
  brelse bp.

(** The bit [m] of the byte [bi/8]. *)
Definition bit_of (bi : Z) : Z := Z.shiftl 1 (bi mod 8).
Definition bit_clear (d : list Z) (bi : Z) : bool := Z.land (byte_at d (Z.to_nat (bi / 8))) (bit_of bi) =? 0.
Definition set_bit (bi : Z) (d : list Z) : list Z :=
  let k := Z.to_nat (bi / 8) in set_bytes k [u8 (Z.lor (byte_at d k) (bit_of bi))] d.
Definition clear_bit (bi : Z) (d : list Z) : list Z :=
  let k := Z.to_nat (bi / 8) in set_bytes k [u8 (Z.land (byte_at d k) (Z.lnot (bit_of bi)))] d.

(** The inner loop of balloc() over one bitmap block: the first free bit. *)
Fixpoint free_bit (k : nat) (d : list Z) (size b bi : Z) : option Z :=
  match k with
  | O => None
  | Datatypes.S k' =>
      if (bi <? BPB) && (b + bi <? size) then
        if bit_clear d bi then Some bi else free_bit k' d size b (bi + 1)
      else None
  end.
Fixpoint balloc_loop (k : nat) (dev b : Z) : M S Z :=
  let* sb := the_sb in
  if negb (b <? sb_size sb) then panic "balloc: out of blocks" else
  match k with
  | O => nofuel
  | Datatypes.S k' =>
      let* bp := bread dev (BBLOCK b sb) in
      let* d := bdata bp in
      match free_bit (Z.to_nat BPB) d (sb_size sb) b 0 with
      | Some bi =>
          bset bp (set_bit bi);;;
          log_write bp;;;
          brelse bp;;;
          bzero dev (b + bi);;;
          ret (b + bi)
      | None =>
          brelse bp;;;
          balloc_loop k' dev (b + BPB)
      end
  end.
Definition balloc (dev : Z) : M S Z :=
  let* sb := the_sb in balloc_loop (Z.to_nat (sb_size sb / BPB + 1)) dev 0.

Definition bfree (dev b : Z) : M S unit :=
  let* sb := the_sb in
  let* bp := bread dev (BBLOCK b sb) in
  let bi := b mod BPB in
  let* d := bdata bp in
  if bit_clear d bi then panic "freeing free block" else
  bset bp (clear_bit bi);;;
  log_write bp;;;
  brelse bp.

(** *** Inodes *)
Definition iinit (dev : Z) : M S unit :=
  ptab (kinitlock icache_lock "icache");;;
  for_each (seq 0 NINODE) (fun i => initsleeplock fs_lens (inode_slref i) "inode");;;
  let* sb := readsb dev in
  modify (fun s => put fs_lens (set_sb sb (view fs_lens s)) s);;;
  let* sb := the_sb in
  cprintf ("sb: size %d nblocks %d ninodes %d nlog %d logstart %d inodestart %d bmap start %d" +:+ nl)
    [KNum (sb_size sb); KNum (sb_nblocks sb); KNum (sb_ninodes sb); KNum (sb_nlog sb);
     KNum (sb_logstart sb); KNum (sb_inodestart sb); KNum (sb_bmapstart sb)].

(** The loop of iget(): a cached entry, and the first empty slot. *)
Fixpoint iget_scan (l : list inode) (i : nat) (empty : option nat) (dev inum : Z) : option nat * option nat :=
  match l with
  | [] => (None, empty)
  | ip :: l' =>
      if (0 <? i_ref ip) && (i_dev ip =? dev) && (i_inum ip =? inum) then (Some i, empty) else
      iget_scan l' (Datatypes.S i)
        (match empty with None => if i_ref ip =? 0 then Some i else None | _ => empty end) dev inum
  end.
Definition iget (dev inum : Z) : M S nat :=
  ptab (kacquire icache_lock);;;
  let* l := gets (fun s => fs_icache (view fs_lens s)) in
  match iget_scan l 0 None dev inum with
  | (Some ip, _) =>
      ino_upd ip (fun x => set_i_ref (i_ref x + 1) x);;;
      ptab (krelease icache_lock);;;
      ret ip
  | (None, None) => panic "iget: no inodes"
  | (None, Some ip) =>
      ino_upd ip (set_i_id dev inum 1 0);;;
      ptab (krelease icache_lock);;;
      ret ip
  end.

(** [(struct dinode* )bp->data + inum%IPB], as an offset in the block. *)
Definition dinode_off (inum : Z) : nat := Z.to_nat (inum mod IPB * sizeof_dinode).

Fixpoint ialloc_loop (k : nat) (dev type inum : Z) : M S nat :=
  let* sb := the_sb in
  if negb (inum <? sb_ninodes sb) then panic "ialloc: no inodes" else
  match k with
  | O => nofuel
  | Datatypes.S k' =>
      let* bp := bread dev (IBLOCK inum sb) in
      let off := dinode_off inum in
      let* d := bdata bp in
      if s16 (half_at d off) =? 0 then
        bset bp (set_bytes off (replicate (Z.to_nat sizeof_dinode) 0));;;
        bset bp (set_half off type);;;
        log_write bp;;;
        brelse bp;;;
        iget dev inum
      else
        brelse bp;;;
        ialloc_loop k' dev type (inum + 1)
  end.
Definition ialloc (dev type : Z) : M S nat :=
  let* sb := the_sb in ialloc_loop (Z.to_nat (sb_ninodes sb)) dev type 1.

Definition addrs_bytes (a : list Z) : list Z := mbind word_bytes a.
Definition addrs_at (d : list Z) (off : nat) : list Z :=
  (fun i => word_at d (off + 4 * i)) <$> seq 0 (Datatypes.S NDIRECT).

Definition iupdate (ip : nat) : M S unit :=
  let* x := ino ip in
  let* sb := the_sb in
  let* bp := bread (i_dev x) (IBLOCK (i_inum x) sb) in
  let off := dinode_off (i_inum x) in
  bset bp (set_half off (i_type x));;;
  bset bp (set_half (off + 2) (i_major x));;;
  bset bp (set_half (off + 4) (i_minor x));;;
  bset bp (set_half (off + 6) (i_nlink x));;;
  bset bp (set_word (off + 8) (i_size x));;;
  bset bp (set_bytes (off + 12) (addrs_bytes (i_addrs x)));;;
  log_write bp;;;
  brelse bp.

Definition idup (ip : nat) : M S nat :=
  ptab (kacquire icache_lock);;;
  ino_upd ip (fun x => set_i_ref (i_ref x + 1) x);;;
  ptab (krelease icache_lock);;;
  ret ip.

Definition ilock (ip : option nat) : M S unit :=
  match ip with
  | None => panic "ilock"
  | Some ip =>
      let* x := ino ip in
      if i_ref x <? 1 then panic "ilock" else
      acquiresleep fs_lens (inode_slref ip) fuel;;;
      let* x := ino ip in
      when (i_valid x =? 0) (
        let* sb := the_sb in
        let* bp := bread (i_dev x) (IBLOCK (i_inum x) sb) in
        let off := dinode_off (i_inum x) in
        let* d := bdata bp in
        ino_upd ip (set_i_type (s16 (half_at d off)));;;
        ino_upd ip (set_i_major (s16 (half_at d (off + 2))));;;
        ino_upd ip (set_i_minor (s16 (half_at d (off + 4))));;;
        ino_upd ip (set_i_nlink (s16 (half_at d (off + 6))));;;
        ino_upd ip (set_i_size (word_at d (off + 8)));;;
        ino_upd ip (set_i_addrs (addrs_at d (off + 12)));;;
        brelse bp;;;
        ino_upd ip (set_i_valid 1);;;
        let* x := ino ip in
        if i_type x =? 0 then panic "ilock: no type" else ret tt)
  end.

Definition iunlock (ip : option nat) : M S unit :=
  match ip with
  | None => panic "iunlock"
  | Some ip =>
      let* h := holdingsleep fs_lens (inode_slref ip) in
      if negb h then panic "iunlock" else
      let* x := ino ip in
      if i_ref x <? 1 then panic "iunlock" else
      releasesleep fs_lens (inode_slref ip)
  end.

(** *** Contents *)
Definition set_addr (i : nat) (b : Z) (x : inode) : inode := set_i_addrs (<[i := b]> (i_addrs x)) x.

Definition bmap (ip : nat) (bn : Z) : M S Z :=
  let* x := ino ip in
  if bn <? Z.of_nat NDIRECT then
    let addr := i_addrs x !!! Z.to_nat bn in
    if addr =? 0 then
      let* addr := balloc (i_dev x) in
      ino_upd ip (set_addr (Z.to_nat bn) addr);;;
      ret addr
    else ret addr
  else
    let bn := u32 (bn - Z.of_nat NDIRECT) in
    if bn <? NINDIRECT then
      let addr := i_addrs x !!! NDIRECT in
      let* addr := (if addr =? 0 then
          let* addr := balloc (i_dev x) in
          ino_upd ip (set_addr NDIRECT addr);;;
          ret addr
        else ret addr) in
      let* bp := bread (i_dev x) addr in
      let* addr := buf_word bp (4 * Z.to_nat bn) in
      let* addr := (if addr =? 0 then
          let* addr := balloc (i_dev x) in
          buf_set_word bp (4 * Z.to_nat bn) addr;;;
          log_write bp;;;
          ret addr
        else ret addr) in
      brelse bp;;;
      ret addr
    else panic "bmap: out of range".

Definition itrunc (ip : nat) : M S unit :=
  for_each (seq 0 NDIRECT) (fun i =>
    let* x := ino ip in
    when (negb (i_addrs x !!! i =? 0)) (
      bfree (i_dev x) (i_addrs x !!! i);;;
      ino_upd ip (set_addr i 0)));;;
  let* x := ino ip in
  when (negb (i_addrs x !!! NDIRECT =? 0)) (
    let* bp := bread (i_dev x) (i_addrs x !!! NDIRECT) in
    for_each (seq 0 (Z.to_nat NINDIRECT)) (fun j =>
      let* a := buf_word bp (4 * j) in
      when (negb (a =? 0)) (bfree (i_dev x) a));;;
    brelse bp;;;
    bfree (i_dev x) (i_addrs x !!! NDIRECT);;;
    ino_upd ip (set_addr NDIRECT 0));;;
  ino_upd ip (set_i_size 0);;;
  iupdate ip.

Definition iput (ip : nat) : M S unit :=
  acquiresleep fs_lens (inode_slref ip) fuel;;;
  let* x := ino ip in
  when (negb (i_valid x =? 0) && (i_nlink x =? 0)) (
    ptab (kacquire icache_lock);;;
    let* x := ino ip in
    let r := i_ref x in
    ptab (krelease icache_lock);;;
    when (r =? 1) (
      itrunc ip;;;
      ino_upd ip (set_i_type 0);;;
      iupdate ip;;;
      ino_upd ip (set_i_valid 0)));;;
  releasesleep fs_lens (inode_slref ip);;;
  ptab (kacquire icache_lock);;;
  ino_upd ip (fun x => set_i_ref (i_ref x - 1) x);;;
  ptab (krelease icache_lock).

Definition iunlockput (ip : nat) : M S unit :=
  iunlock (Some ip);;;
  iput ip.

Record stat := MkStat { st_type : Z; st_dev : Z; st_ino : Z; st_nlink : Z; st_size : Z }.
Definition stati (ip : nat) : M S stat :=
  let* x := ino ip in
  ret (MkStat (i_type x) (s32 (i_dev x)) (i_inum x) (i_nlink x) (i_size x)).

(** The loop of readi(); each round but the first and the last moves a whole block. *)
Fixpoint readi_loop {A} (k : nat) (dst : sink S A) (a : A) (ip : nat) (tot off n : Z) : M S A :=
  if negb (tot <? n) then ret a else
  match k with
  | O => nofuel
  | Datatypes.S k' =>
      let* x := ino ip in
      let* b := bmap ip (off / Z.of_nat BSIZE) in
      let* bp := bread (i_dev x) b in
      let m := Z.min (u32 (n - tot)) (u32 (Z.of_nat BSIZE - off mod Z.of_nat BSIZE)) in
      let* d := bdata bp in
      let* a := dst a tot (bytes_from (Z.to_nat (off mod Z.of_nat BSIZE)) (Z.to_nat m) d) in
      brelse bp;;;
      readi_loop k' dst a ip (u32 (tot + m)) (u32 (off + m)) n
  end.
Definition rw_fuel (n : Z) : nat := Z.to_nat (n / Z.of_nat BSIZE + 2).

Definition readi {A} (dst : sink S A) (a : A) (ip : nat) (off n : Z) : M S (Z * A) :=
  let* x := ino ip in
  if i_type x =? T_DEV then
    if (i_major x <? 0) || (NDEV <=? i_major x) then ret (-1, a) else
    match dev_read (i_major x) with
    | None => ret (-1, a)
    | Some read => read A dst a ip (s32 n)
    end
  else if (i_size x <? off) || (u32 (off + n) <? off) then ret (-1, a) else
  let n := if i_size x <? u32 (off + n) then u32 (i_size x - off) else n in
  let* a := readi_loop (rw_fuel n) dst a ip 0 off n in
  ret (s32 n, a).

(** The loop of writei(), which returns [off]. *)
Fixpoint writei_loop (k : nat) (src : source S) (ip : nat) (tot off n : Z) : M S Z :=
  if negb (tot <? n) then ret off else
  match k with
  | O => nofuel
  | Datatypes.S k' =>
      let* x := ino ip in
      let* b := bmap ip (off / Z.of_nat BSIZE) in
      let* bp := bread (i_dev x) b in
      let m := Z.min (u32 (n - tot)) (u32 (Z.of_nat BSIZE - off mod Z.of_nat BSIZE)) in
      let* bs := src tot m in
      bset bp (set_bytes (Z.to_nat (off mod Z.of_nat BSIZE)) bs);;;
      log_write bp;;;
      brelse bp;;;
      writei_loop k' src ip (u32 (tot + m)) (u32 (off + m)) n
  end.
Definition writei (src : source S) (ip : nat) (off n : Z) : M S Z :=
  let* x := ino ip in
  if i_type x =? T_DEV then
    if (i_major x <? 0) || (NDEV <=? i_major x) then ret (-1) else
    match dev_write (i_major x) with
    | None => ret (-1)
    | Some write => write src ip (s32 n)
    end
  else if (i_size x <? off) || (u32 (off + n) <? off) then ret (-1) else
  if MAXFILE * Z.of_nat BSIZE <? u32 (off + n) then ret (-1) else
  let* off := writei_loop (rw_fuel n) src ip 0 off n in
  let* x := ino ip in
  when ((0 <? n) && (i_size x <? off)) (
    ino_upd ip (set_i_size off);;;
    iupdate ip);;;
  ret (s32 n).

(** *** Directories *)
Definition de_inum (de : list Z) : Z := half_at de 0.
Definition de_name (de : list Z) : list Z := drop 2 de.

(** Reads one entry; the old value of the variable is [de]. *)
Definition read_dirent (msg : string) (dp : nat) (de : list Z) (off : Z) : M S (list Z) :=
  let* r := readi to_var de dp off sizeof_dirent in
  if negb (fst r =? sizeof_dirent) then panic msg else ret (snd r).
Definition dirent0 : list Z := replicate (Z.to_nat sizeof_dirent) 0.
Definition dir_fuel (size : Z) : nat := Z.to_nat (size / sizeof_dirent + 1).

(** [Some (ip, off)] is the entry found and its offset, [None] the null pointer. *)
Fixpoint dirlookup_loop (k : nat) (dp : nat) (name de : list Z) (off : Z) : M S (option (nat * Z)) :=
  let* x := ino dp in
  if negb (off <? i_size x) then ret None else
  match k with
  | O => nofuel
  | Datatypes.S k' =>
      let* de := read_dirent "dirlookup read" dp de off in
      if negb (de_inum de =? 0) && (namecmp name (de_name de) =? 0) then
        let* ip := iget (i_dev x) (de_inum de) in
        ret (Some (ip, off))
      else dirlookup_loop k' dp name de (u32 (off + sizeof_dirent))
  end.
Definition dirlookup (dp : nat) (name : list Z) : M S (option (nat * Z)) :=
  let* x := ino dp in
  if negb (i_type x =? T_DIR) then panic "dirlookup not DIR" else
  dirlookup_loop (dir_fuel (i_size x)) dp name dirent0 0.

(** The search of dirlink() for an empty entry. *)
Fixpoint dirlink_loop (k : nat) (dp : nat) (de : list Z) (off : Z) : M S Z :=
  let* x := ino dp in
  if negb (off <? i_size x) then ret off else
  match k with
  | O => nofuel
  | Datatypes.S k' =>
      let* de := read_dirent "dirlink read" dp de off in
      if de_inum de =? 0 then ret off else dirlink_loop k' dp de (off + sizeof_dirent)
  end.
Definition dirlink (dp : nat) (name : list Z) (inum : Z) : M S Z :=
  let* r := dirlookup dp name in
  match r with
  | Some (ip, _) => iput ip;;; ret (-1)
  | None =>
      let* x := ino dp in
      let* off := dirlink_loop (dir_fuel (i_size x)) dp dirent0 0 in
      let de := half_bytes inum ++ strncpy_bytes DIRSIZ name in
      let* r := writei (from_var de) dp off sizeof_dirent in
      if negb (r =? sizeof_dirent) then panic "dirlink" else ret 0
  end.

(** *** Paths *)

(** The loop of namex(): the inode, and [name]. *)
Fixpoint namex_loop (k : nat) (ip : nat) (path : list Z) (parent : bool) (name : list Z) : M S (option nat * list Z) :=
  match skipelem path name with
  | None => if parent then iput ip;;; ret (None, name) else ret (Some ip, name)
  | Some (path, name) =>
      match k with
      | O => nofuel
      | Datatypes.S k' =>
          ilock (Some ip);;;
          let* x := ino ip in
          if negb (i_type x =? T_DIR) then iunlockput ip;;; ret (None, name) else
          if parent && (hd 0 path =? 0) then iunlock (Some ip);;; ret (Some ip, name) else
          let* next := dirlookup ip name in
          match next with
          | None => iunlockput ip;;; ret (None, name)
          | Some (next, _) => iunlockput ip;;; namex_loop k' next path parent name
          end
      end
  end.
Definition namex (path : list Z) (parent : bool) (name : list Z) : M S (option nat * list Z) :=
  let* ip := (if hd 0 path =? slash then iget ROOTDEV ROOTINO
              else let* p := curp in match cwd p with Some c => idup c | None => undef end) in
  namex_loop (Datatypes.S (length path)) ip path parent name.

Definition name0 : list Z := replicate DIRSIZ 0.
Definition namei (path : list Z) : M S (option nat) :=
  let* r := namex path false name0 in ret (fst r).
Definition nameiparent (path name : list Z) : M S (option nat * list Z) := namex path true name.
End fs.

(** ** Specifications *)

(** The cache of inodes is well-formed: the fields are in the ranges of their C types, and no two
    entries in use cache the same inode. *)
Definition short_ok (z : Z) : Prop := - 2 ^ 15 <= z < 2 ^ 15.
Definition inode_ok (x : inode) : Prop :=
  length (i_addrs x) = Datatypes.S NDIRECT /\ short_ok (i_type x) /\ short_ok (i_major x) /\ short_ok (i_minor x) /\
  short_ok (i_nlink x) /\ (i_valid x = 0 \/ i_valid x = 1).
Definition same_inode (x y : inode) : Prop := i_dev x = i_dev y /\ i_inum x = i_inum y.
Definition icache_ok (l : list inode) : Prop :=
  length l = NINODE /\ Forall inode_ok l /\
  forall i j x y, l !! i = Some x -> l !! j = Some y -> 0 < i_ref x -> 0 < i_ref y -> same_inode x y -> i = j.

(** Updates of one entry that keep it so. *)
Definition harmless (f : inode -> inode) : Prop := forall x, inode_ok x ->
  inode_ok (f x) /\ i_dev (f x) = i_dev x /\ i_inum (f x) = i_inum x /\ (0 < i_ref (f x) -> 0 < i_ref x).

(** ** Lemmas *)
Lemma s16_short z : short_ok (s16 z).
Proof.
  unfold short_ok, s16. assert (0 <= u16 z < 2 ^ 16) by (apply Z.mod_pos_bound; lia).
  destruct (Z.ltb_spec (u16 z) (2 ^ 15)); lia.
Qed.

Lemma icache_ok_alter l i f : harmless f -> icache_ok l -> icache_ok (alter f i l).
Proof.
  intros Hf (Hl & Ht & Hu). split_and!; [by rewrite length_alter|apply Forall_alter; [done|intros x; apply Hf]|].
  assert (forall j y, alter f i l !! j = Some y -> exists x, l !! j = Some x /\ same_inode y x /\ (0 < i_ref y -> 0 < i_ref x)) as Ha.
  { intros j y. rewrite list_lookup_alter. destruct (decide (i = j)) as [->|]; [|intros ->; by exists y].
    intros (x & Hx & ->)%fmap_Some. exists x.
    rewrite Forall_lookup in Ht. destruct (Hf x (Ht _ _ Hx)) as (_ & E1 & E2 & ?). unfold same_inode. auto. }
  intros j k y z Hy Hz Hry Hrz [E1 E2].
  destruct (Ha _ _ Hy) as (y' & Hy' & [? ?] & Hr1), (Ha _ _ Hz) as (z' & Hz' & [? ?] & Hr2).
  apply (Hu j k y' z'); try done; [auto|auto|]. split; congruence.
Qed.

(** What the scan of iget() finds. *)
Lemma iget_scan_spec l i e dev inum (P : nat -> Prop) :
  (forall k, e = Some k -> P k) -> (forall k x, l !! k = Some x -> i_ref x = 0 -> P (i + k)%nat) ->
  match iget_scan l i e dev inum with
  | (Some k, _) => exists x, (i <= k)%nat /\ l !! (k - i)%nat = Some x /\ 0 < i_ref x /\ i_dev x = dev /\ i_inum x = inum
  | (None, r) => (forall k x, l !! k = Some x -> 0 < i_ref x -> ~ (i_dev x = dev /\ i_inum x = inum)) /\
      forall k, r = Some k -> P k
  end.
Proof.
  revert i e. induction l as [|x l IH]; intros i e He HP; simpl; [done|].
  destruct ((0 <? i_ref x) && (i_dev x =? dev) && (i_inum x =? inum)) eqn:E.
  { apply andb_prop in E as [[E1%Z.ltb_lt E2%Z.eqb_eq]%andb_prop E3%Z.eqb_eq].
    exists x. rewrite Nat.sub_diag. done. }
  set (e' := match e with None => _ | _ => _ end).
  specialize (IH (Datatypes.S i) e'). destruct (iget_scan l (Datatypes.S i) e' dev inum) as [[k|] r].
  - destruct IH as (y & Hk & Hy & Hr).
    + intros k' Hk'. unfold e' in Hk'. destruct e; [by apply He|]. destruct (Z.eqb_spec (i_ref x) 0); [|done].
      injection Hk' as <-. rewrite <- (Nat.add_0_r i). by apply (HP 0%nat x).
    + intros k' y Hy Hr. replace (Datatypes.S i + k')%nat with (i + Datatypes.S k')%nat by lia. by apply (HP _ y).
    + exists y. split; [lia|]. replace (k - i)%nat with (Datatypes.S (k - Datatypes.S i)) by lia. done.
  - destruct IH as [H1 H2].
    + intros k' Hk'. unfold e' in Hk'. destruct e; [by apply He|]. destruct (Z.eqb_spec (i_ref x) 0); [|done].
      injection Hk' as <-. rewrite <- (Nat.add_0_r i). by apply (HP 0%nat x).
    + intros k' y Hy Hr. replace (Datatypes.S i + k')%nat with (i + Datatypes.S k')%nat by lia. by apply (HP _ y).
    + split; [|done]. intros [|k] y Hy Hr [E1 E2]; simpl in Hy; [|by apply (H1 k y)]. simplify_eq.
      rewrite !Z.eqb_refl, (proj2 (Z.ltb_lt _ _)) in E by done. done.
Qed.

Lemma icache_ok_iget l dev inum :
  icache_ok l ->
  match iget_scan l 0 None dev inum with
  | (Some k, _) => icache_ok (alter (fun x => set_i_ref (i_ref x + 1) x) k l)
  | (None, Some k) => icache_ok (alter (set_i_id dev inum 1 0) k l)
  | (None, None) => True
  end.
Proof.
  intros (Hl & Ht & Hu).
  assert (forall k x, l !! k = Some x -> i_ref x = 0 -> forall y, l !! (0 + k)%nat = Some y -> i_ref y = 0) as HP
    by (intros k x Hx Hr y Hy; simpl in Hy; congruence).
  pose proof (iget_scan_spec l 0 None dev inum (fun k => forall x, l !! k = Some x -> i_ref x = 0) ltac:(done) HP) as H.
  destruct (iget_scan l 0 None dev inum) as [[k|] [r|]]; try done.
  1,2: destruct H as (x & _ & Hx & Hr & _ & _); rewrite Nat.sub_0_r in Hx;
    split_and!; [by rewrite length_alter|apply Forall_alter; [done|intros y (? & ? & ? & ? & ? & ?); unfold inode_ok; simpl; split_and!; auto]|].
  1,2: intros i j y z; rewrite !list_lookup_alter; intros Hy Hz Hry Hrz [E1 E2];
    destruct (decide (k = i)) as [<-|], (decide (k = j)) as [<-|]; try done.
  1,4: apply fmap_Some in Hy as (x' & Hx' & ->); simplify_eq; by apply (Hu k j x z).
  1,3: apply fmap_Some in Hz as (x' & Hx' & ->); simplify_eq; by apply (Hu i k y x).
  1,2: by apply (Hu i j y z).
  destruct H as [Hno Hr]. specialize (Hr r eq_refl).
  split_and!; [by rewrite length_alter|apply Forall_alter; [done|]|].
  { intros y (? & ? & ? & ? & ? & ?). unfold inode_ok. simpl. split_and!; auto. }
  intros i j y z. rewrite !list_lookup_alter. intros Hy Hz Hry Hrz [E1 E2].
  destruct (decide (r = i)) as [<-|], (decide (r = j)) as [<-|]; try done.
  - apply fmap_Some in Hy as (x' & _ & ->). simpl in *. by destruct (Hno j z Hz Hrz).
  - apply fmap_Some in Hz as (x' & _ & ->). simpl in *. by destruct (Hno i y Hy Hry).
  - by apply (Hu i j y z).
Qed.

(** *** Any interleaving *)
#[local] Arguments Z.to_nat : simpl never.
#[local] Hint Constants Opaque : kern.
Section interleaving.
Context {S : Type} `{!HasProc S} `{!BlockOps S} `{!HasLog S} `{!HasFs S} `{!DevOps S} (fuel : nat).
Context `{!LensIndep fs_lens proc_lens} `{!LensIndep fs_lens log_lens} `{!BlockSteady fs_lens}.

Definition fs_inv (s : S) : Prop := icache_ok (fs_icache (view fs_lens s)).
Definition sink_inv {A} (dst : sink S A) : Prop := forall a off bs, preserves fs_inv (dst a off bs).
Definition source_inv (src : source S) : Prop := forall off m, preserves fs_inv (src off m).

(** The devices keep the cache well-formed. *)
Class DevSteady : Prop := {
  ds_read : forall maj read A (dst : sink S A) a ip n,
    dev_read maj = Some read -> sink_inv dst -> preserves fs_inv (read A dst a ip n);
  ds_write : forall maj write src ip n,
    dev_write maj = Some write -> source_inv src -> preserves fs_inv (write src ip n)
}.

Lemma inv_steady {A} (m : M S A) : steady fs_lens m -> preserves fs_inv m.
Proof. intros Hm. apply (Hm (fun t => icache_ok (fs_icache t))). Qed.
Lemma inv_ptab {A} (m : M pst A) : preserves fs_inv (ptab m).
Proof. by apply inv_steady, steady_zoom. Qed.
Lemma inv_ino i : preserves fs_inv (ino i).
Proof. apply preserves_getopt. Qed.
Lemma inv_the_sb : preserves fs_inv the_sb.
Proof. apply preserves_gets. Qed.
Lemma inv_sl_get i : preserves fs_inv (sl_get fs_lens (inode_slref i)).
Proof. apply preserves_getopt. Qed.
Lemma inv_bread dev b : preserves fs_inv (bread dev b).
Proof. apply inv_steady, bs_bread. Qed.
Lemma inv_brelse h : preserves fs_inv (brelse h).
Proof. apply inv_steady, bs_brelse. Qed.
Lemma inv_bdata h : preserves fs_inv (bdata h).
Proof. apply inv_steady, bs_bdata. Qed.
Lemma inv_bset h f : preserves fs_inv (bset h f).
Proof. apply inv_steady, bs_bset. Qed.
Hint Resolve inv_ptab inv_ino inv_the_sb inv_sl_get inv_bread inv_brelse inv_bdata inv_bset : kern.

Lemma inv_buf_word h off : preserves fs_inv (buf_word h off).
Proof. unfold buf_word. preserve. Qed.
Lemma inv_buf_set_word h off v : preserves fs_inv (buf_set_word h off v).
Proof. unfold buf_set_word. preserve. Qed.

Lemma steady_log_write h : steady fs_lens (log_write h).
Proof.
  pose proof (fun h => bs_bblockno (L := fs_lens) h). pose proof (fun h => bs_bdirty (L := fs_lens) h).
  assert (forall i, steady fs_lens (lh_at i)) by (intros i; apply steady_getopt).
  assert (forall f, steady fs_lens (log_upd f)) by (intros f; unfold log_upd; hold).
  assert (forall i b, steady fs_lens (lh_put i b)) by (intros i b; unfold lh_put; hold).
  assert (forall k b i, steady fs_lens (absorb_loop k b i)) by (intros k; induction k; simpl; unfold the_log; hold).
  unfold log_write, the_log, ptab. hold.
Qed.
Lemma inv_log_write h : preserves fs_inv (log_write h).
Proof. apply inv_steady, steady_log_write. Qed.

Lemma inv_ino_upd i f : harmless f -> preserves fs_inv (ino_upd i f).
Proof.
  intros Hf. apply preserves_bind; [apply inv_ino|]. intros _. apply preserves_modify.
  intros s Hs. unfold fs_inv. rewrite view_put. by apply icache_ok_alter.
Qed.
Lemma inv_sl_upd i f : preserves fs_inv (sl_upd fs_lens (inode_slref i) f).
Proof.
  apply preserves_bind; [apply inv_sl_get|]. intros _. apply preserves_modify.
  intros s Hs. unfold fs_inv. rewrite view_put. by apply icache_ok_alter.
Qed.
Hint Resolve inv_buf_word inv_buf_set_word inv_log_write inv_sl_upd : kern.

Lemma inv_holdingsleep i : preserves fs_inv (holdingsleep fs_lens (inode_slref i)).
Proof. unfold holdingsleep, curp. preserve. Qed.
Lemma inv_releasesleep i : preserves fs_inv (releasesleep fs_lens (inode_slref i)).
Proof. unfold releasesleep. preserve. Qed.
Lemma inv_acquiresleep i k : preserves fs_inv (acquiresleep fs_lens (inode_slref i) k).
Proof.
  assert (preserves fs_inv (acquiresleep_loop fs_lens (inode_slref i) k)) by (induction k; simpl; preserve).
  unfold acquiresleep, curp. preserve.
Qed.
Hint Resolve inv_holdingsleep inv_releasesleep inv_acquiresleep : kern.

(** The updates the code makes. *)
Ltac harmless_tac :=
  intros x (? & ? & ? & ? & ? & ?); unfold inode_ok; simpl; repeat match goal with |- _ /\ _ => split end;
  auto using s16_short; lia.
Lemma harmless_type z : harmless (set_i_type (s16 z)). Proof. harmless_tac. Qed.
Lemma harmless_type0 : harmless (set_i_type 0). Proof. apply (harmless_type 0). Qed.
Lemma harmless_major z : harmless (set_i_major (s16 z)). Proof. harmless_tac. Qed.
Lemma harmless_minor z : harmless (set_i_minor (s16 z)). Proof. harmless_tac. Qed.
Lemma harmless_nlink z : harmless (set_i_nlink (s16 z)). Proof. harmless_tac. Qed.
Lemma harmless_size z : harmless (set_i_size z). Proof. harmless_tac. Qed.
Lemma harmless_valid0 : harmless (set_i_valid 0). Proof. harmless_tac. Qed.
Lemma harmless_valid1 : harmless (set_i_valid 1). Proof. harmless_tac. Qed.
Lemma harmless_put : harmless (fun x => set_i_ref (i_ref x - 1) x). Proof. harmless_tac. Qed.
Lemma harmless_addrs d off : harmless (set_i_addrs (addrs_at d off)). Proof. harmless_tac. Qed.
Lemma harmless_addr i b : harmless (set_addr i b).
Proof.
  intros x (? & ? & ? & ? & ? & ?). unfold set_addr. split_and!; simpl; [|done..|done].
  unfold inode_ok. simpl. rewrite length_insert. split_and!; auto.
Qed.
Hint Resolve harmless_type harmless_type0 harmless_major harmless_minor harmless_nlink harmless_size harmless_valid0
  harmless_valid1 harmless_put harmless_addrs harmless_addr : kern.

Lemma inv_iget dev inum : preserves fs_inv (iget dev inum).
Proof.
  intros s Hs. apply always_bind_wlp. unfold ptab, kacquire. apply wlp_zoom; [apply straight_zoom, straight_acquire|].
  intros [] t. assert (fs_inv (put proc_lens t s)) as Ht by (unfold fs_inv; by rewrite indep_view_l).
  revert Ht. generalize (put proc_lens t s). clear s Hs. intros s Hs.
  apply always_bind_wlp, wlp_wp, wp_gets. pose proof (icache_ok_iget _ dev inum Hs) as H.
  assert (forall ip f, icache_ok (alter f ip (fs_icache (view fs_lens s))) ->
    always fs_inv ((ino_upd ip f;;; ptab (krelease icache_lock);;; ret ip) s)) as Hok.
  { intros ip f Hf. apply always_bind_wlp. unfold ino_upd. apply wlp_bind. unfold ino, getopt, wlp at 1.
    destruct (_ !! ip); [|done]. apply wlp_wp, wp_modify.
    assert (preserves fs_inv (ptab (krelease icache_lock);;; ret ip)) as Hp by preserve.
    apply Hp. unfold fs_inv. by rewrite view_put. }
  destruct (iget_scan _ 0 None dev inum) as [[k|] [r|]]; first [by apply Hok|done].
Qed.
Hint Resolve inv_iget : kern.
#[local] Hint Extern 1 (preserves fs_inv (ino_upd _ _)) => apply inv_ino_upd; eauto 2 with kern : kern.

Lemma inv_bzero dev b : preserves fs_inv (bzero dev b).
Proof. unfold bzero. preserve. Qed.
Hint Resolve inv_bzero : kern.
Lemma inv_balloc dev : preserves fs_inv (balloc dev).
Proof.
  assert (forall k b, preserves fs_inv (balloc_loop k dev b)).
  { intros k. induction k as [|k IH]; intros b; cbn [balloc_loop]; generalize (Z.to_nat BPB); preserve. }
  unfold balloc. preserve.
Qed.
Lemma inv_bfree dev b : preserves fs_inv (bfree dev b).
Proof. unfold bfree. preserve. Qed.
Lemma inv_iupdate ip : preserves fs_inv (iupdate ip).
Proof. unfold iupdate. preserve. Qed.
Hint Resolve inv_balloc inv_bfree inv_iupdate : kern.
Lemma inv_ialloc dev type : preserves fs_inv (ialloc dev type).
Proof.
  assert (forall k i, preserves fs_inv (ialloc_loop k dev type i)) by (intros k; induction k; simpl; preserve).
  unfold ialloc. preserve.
Qed.
Lemma inv_ilock ip : preserves fs_inv (ilock fuel ip).
Proof. unfold ilock. preserve. Qed.
Lemma inv_iunlock ip : preserves fs_inv (iunlock ip).
Proof. unfold iunlock. preserve. Qed.
Lemma inv_bmap ip bn : preserves fs_inv (bmap ip bn).
Proof. unfold bmap. preserve. Qed.
Lemma inv_itrunc ip : preserves fs_inv (itrunc ip).
Proof. unfold itrunc. preserve. Qed.
Hint Resolve inv_ialloc inv_ilock inv_iunlock inv_bmap inv_itrunc : kern.
Lemma inv_iput ip : preserves fs_inv (iput fuel ip).
Proof. unfold iput. preserve. Qed.
Hint Resolve inv_iput : kern.
Lemma inv_iunlockput ip : preserves fs_inv (iunlockput fuel ip).
Proof. unfold iunlockput. preserve. Qed.
Hint Resolve inv_iunlockput : kern.

Lemma inv_to_var : sink_inv to_var.
Proof. intros a off bs. unfold to_var. preserve. Qed.
Lemma inv_from_var v : source_inv (from_var v).
Proof. intros off m. unfold from_var. preserve. Qed.

Context `{!DevSteady}.

Lemma inv_readi {A} (dst : sink S A) a ip off n : sink_inv dst -> preserves fs_inv (readi dst a ip off n).
Proof.
  intros Hd. assert (forall k a tot off n, preserves fs_inv (readi_loop k dst a ip tot off n))
    by (intros k; induction k; simpl; preserve; apply Hd).
  unfold readi. apply preserves_bind; [apply inv_ino|]. intros x.
  destruct (dev_read (i_major x)) eqn:E; [pose proof (fun n => ds_read _ _ A dst a ip n E Hd)|]; preserve.
Qed.
Lemma inv_writei src ip off n : source_inv src -> preserves fs_inv (writei src ip off n).
Proof.
  intros Hs. assert (forall k tot off n, preserves fs_inv (writei_loop k src ip tot off n))
    by (intros k; induction k; simpl; preserve; apply Hs).
  unfold writei. apply preserves_bind; [apply inv_ino|]. intros x.
  destruct (dev_write (i_major x)) eqn:E; [pose proof (fun n => ds_write _ _ src ip n E Hs)|]; preserve.
Qed.

Lemma inv_read_dirent msg dp de off : preserves fs_inv (read_dirent msg dp de off).
Proof. unfold read_dirent. pose proof (inv_readi to_var de dp off sizeof_dirent inv_to_var). preserve. Qed.
Hint Resolve inv_read_dirent : kern.
Lemma inv_dirlookup dp name : preserves fs_inv (dirlookup dp name).
Proof.
  assert (forall k de off, preserves fs_inv (dirlookup_loop k dp name de off)) by (intros k; induction k; simpl; preserve).
  unfold dirlookup. preserve.
Qed.
Hint Resolve inv_dirlookup : kern.
Lemma inv_dirlink dp name inum : preserves fs_inv (dirlink fuel dp name inum).
Proof.
  assert (forall k de off, preserves fs_inv (dirlink_loop k dp de off)) by (intros k; induction k; simpl; preserve).
  pose proof (fun v off => inv_writei (from_var v) dp off sizeof_dirent (inv_from_var v)).
  unfold dirlink. preserve.
Qed.

(** A path from the root; one from the current directory needs that directory's reference. *)
Lemma inv_namex path parent name : hd 0 path = slash -> preserves fs_inv (namex fuel path parent name).
Proof.
  intros Hp. assert (forall k ip path name, preserves fs_inv (namex_loop fuel k ip path parent name)).
  { clear path name Hp. intros k. induction k; simpl; intros ip path name; destruct (skipelem path name) as [[p n]|]; preserve. }
  unfold namex. rewrite Hp, Z.eqb_refl. preserve.
Qed.
End interleaving.

(** *** Paths

    The components of a path: the non-empty pieces between slashes. *)
Fixpoint split_on (path : list Z) : list (list Z) :=
  match path with
  | [] => [[]]
  | c :: path' =>
      if c =? slash then [] :: split_on path'
      else match split_on path' with e :: r => (c :: e) :: r | [] => [[c]] end
  end.
Definition nonempty (e : list Z) : bool := match e with [] => false | _ => true end.
Definition components (path : list Z) : list (list Z) := filter nonempty (split_on path).

(** The string in a name array, which need not end in a NUL. *)
Fixpoint name_str (name : list Z) : list Z :=
  match name with [] => [] | c :: name' => if c =? 0 then [] else c :: name_str name' end.

(** The names namex() walks along. *)
Fixpoint walk (k : nat) (path name : list Z) : list (list Z) :=
  match skipelem path name with
  | None => []
  | Some (path, name) => match k with O => [] | Datatypes.S k' => name_str name :: walk k' path name end
  end.

Definition cstring (path : list Z) : Prop := Forall (.≠ 0) path.

Lemma split_on_ne path : split_on path <> [].
Proof. destruct path as [|c path]; simpl; [done|]. destruct (c =? slash); [done|]. by destruct (split_on path). Qed.

Lemma components_slash path : components (slash :: path) = components path.
Proof. done. Qed.

Lemma components_skip path : components (skip_slashes path) = components path.
Proof.
  induction path as [|c path IH]; simpl; [done|]. destruct (Z.eqb_spec c slash) as [->|Hc]; [|done].
  by rewrite IH, components_slash.
Qed.

Lemma split_elem_spec path : cstring path ->
  let '(e, r) := split_elem path in
  path = e ++ r /\ Forall (.≠ slash) e /\ (r = [] \/ exists r', r = slash :: r').
Proof.
  induction 1 as [|c path Hc Hp IH]; simpl; [auto|].
  destruct (Z.eqb_spec c slash) as [->|Hs]; simpl; [eauto|]. rewrite (proj2 (Z.eqb_neq _ _)) by done.
  destruct (split_elem path) as [e r]. destruct IH as (-> & He & Hr). split_and!; [done| |done]. by constructor.
Qed.

Lemma split_on_app e r : Forall (.≠ slash) e -> r = [] \/ (exists r', r = slash :: r') ->
  split_on (e ++ r) = e :: tail (split_on r).
Proof.
  intros He Hr. induction He as [|c e Hc He IH]; simpl.
  - destruct Hr as [->|(r' & ->)]; done.
  - rewrite (proj2 (Z.eqb_neq _ _)) by done. by rewrite IH.
Qed.

Lemma components_elem e r : Forall (.≠ slash) e -> e <> [] -> r = [] \/ (exists r', r = slash :: r') ->
  components (e ++ r) = e :: components r.
Proof.
  intros He Hne Hr. unfold components. rewrite split_on_app by done.
  rewrite filter_cons_True by (by destruct e). f_equal. destruct Hr as [->|(r' & ->)]; [done|]. done.
Qed.

Lemma name_str_prefix e l : cstring e -> name_str (e ++ 0 :: l) = e.
Proof. induction 1 as [|c e Hc He IH]; simpl; [done|]. rewrite (proj2 (Z.eqb_neq _ _)) by done. by f_equal. Qed.
Lemma name_str_all e : cstring e -> name_str e = e.
Proof. induction 1 as [|c e Hc He IH]; simpl; [done|]. rewrite (proj2 (Z.eqb_neq _ _)) by done. by f_equal. Qed.

Lemma set_bytes_split bs d : (length bs <= length d)%nat -> set_bytes 0 bs d = bs ++ drop (length bs) d.
Proof.
  revert d. induction bs as [|b bs IH] using rev_ind; intros d Hl; [done|]. rewrite length_app in Hl. simpl in Hl.
  apply list_eq. intros j. unfold set_bytes. rewrite <- app_assoc, length_app. simpl.
  destruct (decide (j < length bs + 1)%nat) as [Hj|Hj].
  - rewrite list_lookup_inserts by (rewrite ?length_app; simpl; lia). rewrite Nat.sub_0_r.
    destruct (decide (j = length bs)) as [->|Hne].
    + by rewrite lookup_app_r, Nat.sub_diag, list_lookup_middle by lia.
    + rewrite lookup_app_l by lia. by rewrite lookup_app_l by lia.
  - rewrite list_lookup_inserts_ge by (rewrite length_app; simpl; lia).
    rewrite lookup_app_r by lia. change (b :: drop (length bs + 1) d) with ([b] ++ drop (length bs + 1) d).
    rewrite lookup_app_r by (simpl; lia). rewrite lookup_drop. f_equal. simpl. lia.
Qed.

Lemma skip_slashes_spec path : cstring path ->
  cstring (skip_slashes path) /\ (length (skip_slashes path) <= length path)%nat /\ hd 0 (skip_slashes path) <> slash /\
  (hd 0 (skip_slashes path) = 0 -> skip_slashes path = []).
Proof.
  induction 1 as [|c path Hc Hp IH]; simpl; [by split_and!; [constructor|lia|..]|].
  destruct (Z.eqb_spec c slash) as [->|Hs]; simpl; [destruct IH as (? & ? & ? & ?); split_and!; [done|lia|done|done]|].
  split_and!; [by constructor|lia|done|done].
Qed.

(** The array [name] after one step of skipelem(). *)
Lemma name_after e name : cstring e -> length name = DIRSIZ ->
  let name' := if (DIRSIZ <=? length e)%nat then set_bytes 0 (take DIRSIZ e) name
               else set_bytes (length e) [0] (set_bytes 0 e name) in
  length name' = DIRSIZ /\ name_str name' = take DIRSIZ e.
Proof.
  intros He Hn. destruct (Nat.leb_spec DIRSIZ (length e)) as [Hl|Hl]; cbv zeta.
  - split; [by rewrite length_set_bytes|]. rewrite set_bytes_split by (rewrite length_take; lia).
    rewrite length_take, Nat.min_l, drop_ge, app_nil_r by lia. apply name_str_all. by apply Forall_take.
  - split; [by rewrite !length_set_bytes|]. rewrite take_ge by lia. rewrite (set_bytes_split e) by lia.
    assert (exists y l, drop (length e) name = y :: l) as (y & l & E).
    { destruct (drop (length e) name) eqn:E; [|by eauto]. apply (f_equal length) in E.
      rewrite length_drop in E. simpl in E. lia. }
    rewrite E. assert (set_bytes (length e) [0] (e ++ y :: l) = e ++ 0 :: l) as ->; [|by apply name_str_prefix].
    unfold set_bytes. simpl. by rewrite insert_app_r_alt, Nat.sub_diag by lia.
Qed.

Lemma skipelem_spec path name : cstring path -> length name = DIRSIZ ->
  match skipelem path name with
  | None => components path = []
  | Some (rest, name') => exists e, components path = e :: components rest /\ name_str name' = take DIRSIZ e /\
      length name' = DIRSIZ /\ cstring rest /\ (length rest < length path)%nat /\
      (hd 0 rest = 0 <-> components rest = [])
  end.
Proof.
  intros Hp Hn. unfold skipelem. destruct (skip_slashes_spec path Hp) as (Hp2 & Hl2 & Hns & Hz).
  rewrite <- (components_skip path). destruct (Z.eqb_spec (hd 0 (skip_slashes path)) 0) as [E|E]; [by rewrite Hz|].
  set (p := skip_slashes path) in *. pose proof (split_elem_spec p Hp2) as Hs. destruct (split_elem p) as [e r].
  destruct Hs as (Ep & He & Hr). rewrite Ep in Hp2. apply Forall_app in Hp2 as [Hpe Hpr].
  assert (e <> []) as Hne.
  { intros ->. simpl in Ep. destruct Hr as [->|(r' & ->)]; rewrite Ep in *; done. }
  destruct (skip_slashes_spec r Hpr) as (Hr2 & Hlr & _ & Hzr). destruct (name_after e name Hpe Hn) as [N1 N2].
  exists e. rewrite Ep, components_elem, (components_skip r) by done. split_and!; try done.
  - apply (f_equal length) in Ep. rewrite length_app in Ep. destruct e; [done|]. simpl in Ep. lia.
  - split; intros H.
    + apply Hzr in H. rewrite <- (components_skip r), H. done.
    + rewrite <- (components_skip r) in H. destruct (skip_slashes r) as [|c q] eqn:Eq; [done|].
      pose proof (skip_slashes_spec r Hpr) as (Hc & _ & Hns2 & _). rewrite Eq in Hc, Hns2. simpl in Hns2.
      unfold components in H. simpl in H. rewrite (proj2 (Z.eqb_neq _ _)) in H by done.
      destruct (split_on q) as [|e' r'] eqn:E'; by rewrite filter_cons_True in H by done.
Qed.

Lemma walk_components k path name : cstring path -> length name = DIRSIZ -> (length path < k)%nat ->
  walk k path name = take DIRSIZ <$> components path.
Proof.
  revert path name. induction k as [|k IH]; intros path name Hp Hn Hk; [lia|]. simpl.
  pose proof (skipelem_spec path name Hp Hn) as H. destruct (skipelem path name) as [[rest name']|]; [|by rewrite H].
  destruct H as (e & -> & E1 & E2 & E3 & E4 & _). simpl. rewrite E1. f_equal. apply IH; [done|done|lia].
Qed.

(** *** Inodes on disk *)
Definition load_dinode (d : list Z) (off : nat) (x : inode) : inode :=
  MkInode (i_dev x) (i_inum x) (i_ref x) (i_lock x) (i_valid x) (s16 (half_at d off)) (s16 (half_at d (off + 2)))
    (s16 (half_at d (off + 4))) (s16 (half_at d (off + 6))) (word_at d (off + 8)) (addrs_at d (off + 12)).
Definition store_dinode (x : inode) (off : nat) (d : list Z) : list Z :=
  set_bytes (off + 12) (addrs_bytes (i_addrs x)) (set_word (off + 8) (i_size x) (set_half (off + 6) (i_nlink x)
    (set_half (off + 4) (i_minor x) (set_half (off + 2) (i_major x) (set_half off (i_type x) d))))).

Lemma half_at_set_half off v d : (off + 2 <= length d)%nat -> short_ok v -> s16 (half_at (set_half off v d) off) = v.
Proof.
  intros Hd Hv. unfold half_at, set_half. rewrite !byte_at_set_in by (simpl; lia). rewrite Nat.sub_diag.
  replace (off + 1 - off)%nat with 1%nat by lia. simpl. unfold short_ok in Hv. unfold u8. rewrite Z.shiftr_div_pow2 by lia.
  assert (v mod 2 ^ 8 + 2 ^ 8 * ((v / 2 ^ 8) mod 2 ^ 8) = v mod 2 ^ 16) as ->.
  { change (2 ^ 16) with (2 ^ 8 * 2 ^ 8). rewrite Z.rem_mul_r by lia. done. }
  unfold s16, u16. rewrite Z.mod_mod by lia. destruct (Z.leb_spec 0 v).
  - rewrite Z.mod_small by lia. destruct (Z.ltb_spec v (2 ^ 15)); lia.
  - rewrite <- (Z_mod_plus_full v 1 (2 ^ 16)), Z.mod_small by lia. destruct (Z.ltb_spec (v + 1 * 2 ^ 16) (2 ^ 15)); lia.
Qed.

Lemma half_at_set_bytes_ne off bs off' d :
  (off' + 2 <= off \/ off + length bs <= off')%nat -> half_at (set_bytes off bs d) off' = half_at d off'.
Proof. intros H. unfold half_at. by rewrite !byte_at_set_out by lia. Qed.
Lemma word_at_set_bytes_ne off bs off' d :
  (off' + 4 <= off \/ off + length bs <= off')%nat -> word_at (set_bytes off bs d) off' = word_at d off'.
Proof. intros H. unfold word_at. by rewrite !byte_at_set_out by lia. Qed.

Lemma length_addrs_bytes a : length (addrs_bytes a) = (4 * length a)%nat.
Proof.
  induction a as [|x a IH]; [done|]. change (addrs_bytes (x :: a)) with (word_bytes x ++ addrs_bytes a).
  rewrite length_app, IH. simpl. lia.
Qed.

Lemma addrs_bytes_at a i j : (i < length a)%nat -> (j < 4)%nat ->
  addrs_bytes a !!! (4 * i + j)%nat = word_bytes (a !!! i) !!! j.
Proof.
  revert i. induction a as [|x a IH]; intros i Hi Hj; simpl in Hi; [lia|].
  change (addrs_bytes (x :: a)) with (word_bytes x ++ addrs_bytes a). destruct i as [|i].
  - rewrite lookup_total_app_l by (simpl; lia). done.
  - rewrite lookup_total_app_r by (simpl; lia). replace (4 * Datatypes.S i + j - length (word_bytes x))%nat with (4 * i + j)%nat by (simpl; lia).
    apply IH; lia.
Qed.

Lemma addrs_at_set off a d :
  (off + 4 * length a <= length d)%nat -> length a = Datatypes.S NDIRECT -> Forall (fun x => 0 <= x < 2 ^ 32) a ->
  addrs_at (set_bytes off (addrs_bytes a) d) off = a.
Proof.
  intros Hd Ha Hr. unfold addrs_at. apply list_eq. intros k. rewrite list_lookup_fmap. rewrite <- Ha.
  destruct (decide (k < length a)%nat) as [Hk|Hk].
  - rewrite lookup_seq_lt by done. cbn [fmap option_fmap option_map]. rewrite Nat.add_0_l.
    rewrite (list_lookup_lookup_total_lt a) by done. f_equal.
    unfold word_at. rewrite !byte_at_set_in by (rewrite ?length_addrs_bytes; lia).
    replace (off + 4 * k - off)%nat with (4 * k + 0)%nat by lia.
    replace (off + 4 * k + 1 - off)%nat with (4 * k + 1)%nat by lia.
    replace (off + 4 * k + 2 - off)%nat with (4 * k + 2)%nat by lia.
    replace (off + 4 * k + 3 - off)%nat with (4 * k + 3)%nat by lia.
    rewrite !addrs_bytes_at by lia. simpl. apply word_bytes_value.
    rewrite Forall_lookup in Hr. apply (Hr k). by apply list_lookup_lookup_total_lt.
  - rewrite lookup_seq_ge by lia. by rewrite lookup_ge_None_2 by lia.
Qed.

(** An inode read back from where it was stored. *)
Lemma load_store_dinode x y off d :
  (off + 64 <= length d)%nat -> inode_ok x -> 0 <= i_size x < 2 ^ 32 -> Forall (fun a => 0 <= a < 2 ^ 32) (i_addrs x) ->
  load_dinode (store_dinode x off d) off y =
  MkInode (i_dev y) (i_inum y) (i_ref y) (i_lock y) (i_valid y) (i_type x) (i_major x) (i_minor x) (i_nlink x) (i_size x) (i_addrs x).
Proof.
  intros Hd (Hl & Ht & Hma & Hmi & Hnl & _) Hs Ha. unfold load_dinode, store_dinode.
  pose proof (length_addrs_bytes (i_addrs x)) as Hab. rewrite Hl in Hab. unfold NDIRECT in Hab.
  assert (forall o v e, length (set_half o v e) = length e) as Lh by (intros; apply length_set_bytes).
  assert (forall o v e, length (set_word o v e) = length e) as Lw by (intros; apply length_set_bytes).
  assert (forall o v e o', (o' + 2 <= o \/ o + 4 <= o')%nat -> half_at (set_word o v e) o' = half_at e o') as Hhw
    by (intros o v e o' Ho; apply half_at_set_bytes_ne; simpl; lia).
  assert (forall o v e o', (o' + 2 <= o \/ o + 2 <= o')%nat -> half_at (set_half o v e) o' = half_at e o') as Hhh
    by (intros o v e o' Ho; apply half_at_set_bytes_ne; simpl; lia).
  f_equal.
  - rewrite half_at_set_bytes_ne, Hhw, 3!Hhh by lia. apply half_at_set_half; [lia|done].
  - rewrite half_at_set_bytes_ne, Hhw, 2!Hhh by lia. apply half_at_set_half; [rewrite ?Lh; lia|done].
  - rewrite half_at_set_bytes_ne, Hhw, 1!Hhh by lia. apply half_at_set_half; [rewrite ?Lh; lia|done].
  - rewrite half_at_set_bytes_ne, Hhw by lia. apply half_at_set_half; [rewrite ?Lh; lia|done].
  - rewrite word_at_set_bytes_ne by lia. apply word_at_set_word; [done|rewrite ?Lh; lia].
  - apply addrs_at_set; [rewrite Lw, !Lh, Hl; unfold NDIRECT; lia|done|done].
Qed.

(** Storing an inode leaves the other bytes of the block alone. *)
Lemma store_dinode_other x off d k :
  length (i_addrs x) = Datatypes.S NDIRECT -> (k < off \/ off + 64 <= k)%nat ->
  byte_at (store_dinode x off d) k = byte_at d k.
Proof.
  intros Hl Hk. unfold store_dinode.
  pose proof (length_addrs_bytes (i_addrs x)) as Hab. rewrite Hl in Hab. unfold NDIRECT in Hab.
  assert (forall o v e, (k < o \/ o + 2 <= k)%nat -> byte_at (set_half o v e) k = byte_at e k) as Hh
    by (intros; by apply byte_at_set_out).
  assert (forall o v e, (k < o \/ o + 4 <= k)%nat -> byte_at (set_word o v e) k = byte_at e k) as Hw
    by (intros; by apply byte_at_set_out).
  rewrite byte_at_set_out by lia. rewrite Hw by lia. by rewrite !Hh by lia.
Qed.

(** *** Inside a transaction

    The steps of one thread that runs a transaction: [tx s v home t] says that the buffer cache
    has the view [v], that the log lists the blocks [home] and has begun a transaction, and that the
    file system's own state is [t].  [env] collects what holds of the machine throughout. *)
Record env (F : list lockid) (size : Z) : Prop := {
  e_bcache : bcache_lock ∈ F;
  e_buf : forall j : nat, (j < NBUF)%nat -> sl_lk (buf_slref j) ∈ F;
  e_log : log_lock ∈ F;
  e_inode : forall j : nat, (j < NINODE)%nat -> sl_lk (inode_slref j) ∈ F;
  e_size : 0 <= size < 2 ^ 31
}.

Section tx.
Context {S : Type} `{!HasProc S} `{!HasBio S} `{!HasMemdisk S} `{!HasLog S} `{!HasFs S}.
Context `{!LensIndep proc_lens bio_lens} `{!LensIndep proc_lens memdisk_lens} `{!LensIndep bio_lens memdisk_lens}.
Context `{!LensIndep log_lens proc_lens} `{!LensIndep log_lens bio_lens} `{!LensIndep log_lens memdisk_lens}.
Context `{!LensIndep fs_lens proc_lens} `{!LensIndep fs_lens bio_lens} `{!LensIndep fs_lens memdisk_lens}.
Context `{!LensIndep fs_lens log_lens} `{!LensIndep proc_lens fs_lens} `{!LensIndep log_lens fs_lens}.
Context `{!DevOps S} (c i : nat) (n : Z) (F : list lockid) (size : Z) (fuel : nat) (Henv : env F size) (st gsize : Z).

#[local] Instance tx_ops : BlockOps S := bio_ops (DiskOps0 := memide_ops) fuel.
#[local] Instance tx_steady : BlockSteady fs_lens := bio_steady fs_lens fuel.
#[local] Instance tx_steady_log : BlockSteady log_lens := bio_steady log_lens fuel.

Definition in_tx (home : list Z) (l : log_st) : Prop :=
  log_is st home l /\ Forall (fun x => 0 <= x < 2 ^ 31) home /\ NoDup home /\ 1 <= lg_outstanding l /\ lg_size l = gsize.
Definition tx (s : S) (v : bview) (home : list Z) (t : fs_st) : Prop :=
  bio_rep c i n F size s v /\ in_tx home (view log_lens s) /\ view fs_lens s = t.

Lemma tx_step {A} (m : M S A) (P : A -> S -> Prop) (Q : A -> S -> Prop) s v home t :
  tx s v home t -> steady fs_lens m -> steady log_lens m -> wp m P s ->
  (forall a s', P a s' -> in_tx home (view log_lens s') -> view fs_lens s' = t -> Q a s') -> wp m Q s.
Proof.
  intros (_ & Hl & Hf) H1 H2 Hm HQ.
  eapply wp_mono; [|apply (wp_leaves fs_lens), (wp_leaves log_lens); [by apply steady_leaves..|exact Hm]].
  intros a s' [[HP El] Ef]. apply HQ; [done|by rewrite El|by rewrite Ef].
Qed.

Lemma tx_bread v home t b (Q : nat -> S -> Prop) s :
  tx s v home t -> 0 <= b < size -> b ∉ held_blocks (v_held v) ->
  (base.size ({[b]} ∪ v_pinned v ∪ held_blocks (v_held v)) <= NBUF)%nat ->
  (forall h s', v_held v !! h = None -> tx s' (v_set_held (<[h := b]> (v_held v)) v) home t -> Q h s') ->
  wp (bread 1 b) Q s.
Proof.
  intros Hs Hb Hh Hsz HQ. pose proof Hs as (Hrep & _). destruct Henv as [E1 E2 _ _ E5].
  eapply tx_step; [exact Hs|apply bs_bread|apply bs_bread|exact (bio_read_run c i n F E1 E2 size E5 fuel s v b Hrep Hb Hh Hsz)|].
  intros h s' [H1 H2] H3 H4. by apply HQ.
Qed.

Lemma tx_brelse v home t h b (Q : unit -> S -> Prop) s :
  tx s v home t -> v_held v !! h = Some b -> b ∈ v_pinned v \/ v_cache v b = v_disk v b ->
  (forall s', tx s' (v_set_held (delete h (v_held v)) v) home t -> Q tt s') -> wp (brelse h) Q s.
Proof.
  intros Hs Hh Hc HQ. pose proof Hs as (Hrep & _). destruct Henv as [E1 E2 _ _ E5].
  eapply tx_step; [exact Hs|apply bs_brelse|apply bs_brelse|exact (bio_relse_run c i n F E1 E2 size E5 s v h b Hrep Hh Hc)|].
  intros [] s' H1 H3 H4. by apply HQ.
Qed.

Lemma tx_bset v home t h b f (Q : unit -> S -> Prop) s :
  tx s v home t -> v_held v !! h = Some b -> (forall d, length (f d) = length d) ->
  (forall s', tx s' (v_store b (f (v_cache v b)) v) home t -> Q tt s') -> wp (bset h f) Q s.
Proof.
  intros Hs Hh Hf HQ. pose proof Hs as (Hrep & _).
  eapply tx_step; [exact Hs|apply bs_bset|apply bs_bset|exact (bset_run c i n F size s v h b f Hrep Hh Hf)|].
  intros [] s' H1 H3 H4. by apply HQ.
Qed.

Lemma tx_bdata v home t h b (Q : list Z -> S -> Prop) s :
  tx s v home t -> v_held v !! h = Some b -> (length (v_cache v b) = BSIZE -> Q (v_cache v b) s) -> wp (bdata h) Q s.
Proof.
  intros (Hrep & _) Hh HQ. destruct (held_buf _ _ _ _ _ _ _ _ _ Hrep Hh) as (_ & _ & _ & _ & _ & E & Hl & _).
  eapply bio_read_field; [exact Hrep|exact Hh|]. rewrite E. by apply HQ.
Qed.

Lemma tx_log_write v home t h b (Q : unit -> S -> Prop) s :
  tx s v home t -> v_held v !! h = Some b ->
  (length home < LOGSIZE)%nat -> Z.of_nat (length home) < gsize - 1 ->
  (forall s', tx s' (v_pin b v) (absorb b home) t -> Q tt s') -> wp (log_write h) Q s.
Proof.
  intros Hs Hh Hn Hg HQ. pose proof Hs as (Hrep & (Hl & Hr & Hnd & Ho & Hgs) & Hf).
  destruct (held_buf _ _ _ _ _ _ _ _ _ Hrep Hh) as (_ & _ & _ & _ & _ & _ & _ & Hb & _).
  pose proof (e_size _ _ Henv) as Hsize.
  eapply wp_mono; [|apply (wp_leaves fs_lens); [|eapply (log_write_run c i n F size fuel st home v h b
    (fun _ s' => bio_rep c i n F size s' (v_pin b v) /\ in_tx (absorb b home) (view log_lens s'))); 
    [exact (e_log _ _ Henv)|exact Hrep|exact Hh|lia|exact Hl|exact Hr|exact Hn|by rewrite Hgs|exact Ho|]]].
  - intros [] s' [[H1 H2] H3]. apply HQ. split_and!; [done|done|]. by rewrite H3.
  - apply steady_leaves, steady_log_write.
  - intros s' H1 H2 H3 H4. split; [done|]. split_and!; [done| |by apply absorb_nodup|by rewrite H4|by rewrite H3].
    unfold absorb. case_decide; [done|]. apply Forall_app. split; [done|]. constructor; [lia|constructor].
Qed.

Lemma tx_ino v home t ip x (Q : inode -> S -> Prop) s :
  tx s v home t -> fs_icache t !! ip = Some x -> Q x s -> wp (ino ip) Q s.
Proof. intros (_ & _ & <-) Hx HQ. by eapply (wp_getopt (fun s => fs_icache (view fs_lens s) !! ip)). Qed.

Lemma tx_sb v home t (Q : superblock -> S -> Prop) s : tx s v home t -> Q (fs_sb t) s -> wp the_sb Q s.
Proof. intros (_ & _ & <-) HQ. by apply wp_gets. Qed.

Lemma tx_put_fs s v home t t' : tx s v home t -> tx (put fs_lens t' s) v home t'.
Proof.
  intros ((H1 & H2 & H3) & Hl & Hf). split; [split_and!|split; [|apply view_put]].
  - by apply (at_base_other c i n F fs_lens).
  - unfold bufs in *. by rewrite (indep_view_r (l := fs_lens) (k := bio_lens)).
  - by rewrite (indep_view_r (l := fs_lens) (k := memdisk_lens)).
  - by rewrite (indep_view_l (l := log_lens) (k := fs_lens)).
Qed.

(** [t] with the entry [ip] of the cache replaced. *)
Definition set_ino (ip : nat) (y : inode) (t : fs_st) : fs_st := set_icache (<[ip := y]> (fs_icache t)) t.

Lemma set_ino_alter ip f t x : fs_icache t !! ip = Some x ->
  set_icache (alter f ip (fs_icache t)) t = set_ino ip (f x) t.
Proof.
  intros Hx. unfold set_ino. f_equal. apply list_eq. intros k. rewrite list_lookup_alter, list_lookup_insert.
  pose proof (lookup_lt_Some _ _ _ Hx). destruct (decide (ip = k)) as [->|Hne].
  - rewrite Hx. by rewrite decide_True.
  - by rewrite decide_False by naive_solver.
Qed.
Lemma lookup_set_ino ip y t x : fs_icache t !! ip = Some x -> fs_icache (set_ino ip y t) !! ip = Some y.
Proof. intros Hx. simpl. apply list_lookup_insert_eq. by eapply lookup_lt_Some. Qed.
Lemma set_ino_twice ip y z t : set_ino ip y (set_ino ip z t) = set_ino ip y t.
Proof. unfold set_ino, set_icache. simpl. by rewrite list_insert_insert_eq. Qed.

Lemma tx_ino_upd v home t ip x f (Q : unit -> S -> Prop) s :
  tx s v home t -> fs_icache t !! ip = Some x ->
  (forall s', tx s' v home (set_ino ip (f x) t) -> Q tt s') -> wp (ino_upd ip f) Q s.
Proof.
  intros Hs Hx HQ. apply wp_bind. eapply tx_ino; [done..|]. apply wp_modify, HQ.
  pose proof Hs as (_ & _ & ->). rewrite (set_ino_alter _ _ _ x) by done. by eapply tx_put_fs.
Qed.

#[local] Instance inode_slref_laws j : SlrefLaws (inode_slref j).
Proof.
  split; intros; unfold inode_slref, sl_mod, sl_sel, set_icache; cbn [fs_sb fs_icache].
  - rewrite list_lookup_alter, decide_True by done. by destruct (_ !! j).
  - by rewrite alter_alter.
  - f_equal. destruct (fs_icache t !! j) as [x|] eqn:Hx.
    + apply (alter_ext_at _ _ _ _ x Hx). rewrite (H (i_lock x)); [done|]. simpl. by rewrite Hx.
    + apply list_eq. intros k. rewrite !list_lookup_alter. destruct (decide (j = k)) as [->|]; [|done].
      by rewrite Hx.
Qed.

Lemma tx_put_pm m s v home t : tx s v home t -> on_cpu c (Some i) 0 [] F m -> tx (put_pm m s) v home t.
Proof.
  intros (Hr & Hl & Hf) Hm. split_and!; [by apply bio_rep_put_pm| |]; unfold put_pm;
    [by rewrite (indep_view_l (l := log_lens) (k := proc_lens))|by rewrite (indep_view_l (l := fs_lens) (k := proc_lens))].
Qed.

(** A free inode is locked at once. *)
Definition lock_ino (x : inode) : inode := set_i_lock (MkSleeplock 1 (sl_name (i_lock x)) n) x.

Lemma tx_acquiresleep v home t ip x k (Q : unit -> S -> Prop) s :
  tx s v home t -> fs_icache t !! ip = Some x -> (ip < NINODE)%nat -> sl_locked (i_lock x) = 0 ->
  (forall s', tx s' v home (set_ino ip (lock_ino x) t) -> Q tt s') ->
  wp (acquiresleep fs_lens (inode_slref ip) k) Q s.
Proof.
  intros Hs Hx Hip Hlk HQ. pose proof Hs as ((Hbase & _) & _ & Hf).
  eapply (wp_acquiresleep c i n F fs_lens (inode_slref ip) k (i_lock x)); [done|by apply (e_inode _ _ Henv)| |done|].
  - rewrite Hf. simpl. by rewrite Hx.
  - intros m Hm. rewrite Hf. apply HQ. cbn [sl_mod inode_slref]. rewrite (set_ino_alter _ _ _ x) by done.
    eapply tx_put_fs. by apply tx_put_pm.
Qed.

(** *** iupdate() and ilock() *)
Definition log_room (home : list Z) : Prop := (length home < LOGSIZE)%nat /\ Z.of_nat (length home) < gsize - 1.

Lemma held_restore' h b v P : v_held v !! h = None ->
  v_set_held (delete h (<[h := b]> (v_held v))) (v_set_held (<[h := b]> (v_held v)) P) = v_set_held (v_held v) P.
Proof. intros Hh. unfold v_set_held. simpl. by rewrite delete_insert_id. Qed.

Lemma iupdate_run v home t ip x (Q : unit -> S -> Prop) s :
  let b := IBLOCK (i_inum x) (fs_sb t) in
  tx s v home t -> fs_icache t !! ip = Some x -> i_dev x = 1 -> log_room home ->
  0 <= b < size -> b ∉ held_blocks (v_held v) ->
  (base.size ({[b]} ∪ v_pinned v ∪ held_blocks (v_held v)) <= NBUF)%nat ->
  (forall s', tx s' (v_pin b (v_store b (store_dinode x (dinode_off (i_inum x)) (v_cache v b)) v)) (absorb b home) t -> Q tt s') ->
  wp (iupdate ip) Q s.
Proof.
  intros b Hs Hx Hdev [Hr1 Hr2] Hb Hh Hsz HQ. apply wp_bind. eapply tx_ino; [done..|].
  apply wp_bind. eapply tx_sb; [done|]. rewrite Hdev. fold b. apply wp_bind.
  eapply tx_bread; [done..|]. intros h s1 Hh1 H1.
  do 6 (apply wp_bind; eapply tx_bset; [eassumption|apply lookup_insert_eq|intros; apply length_set_bytes|];
    clear H1; intros ? H1; rewrite ?v_store_store in H1; cbn [v_cache v_store] in H1; rewrite ?upd_block_eq in H1).
  apply wp_bind. eapply tx_log_write; [done|apply lookup_insert_eq|done|done|]. intros s2 H2.
  eapply tx_brelse; [done|apply lookup_insert_eq|left; simpl; set_solver|]. intros s3 H3. apply HQ.
  unfold v_pin, v_store, v_set_held in H3. cbn [v_disk v_cache v_pinned v_held v_writes] in H3.
  rewrite delete_insert_id in H3 by done. exact H3.
Qed.

(** The inode ilock() makes of [x], given its block. *)
Definition ilocked (d : list Z) (x : inode) : inode := set_i_valid 1 (load_dinode d (dinode_off (i_inum x)) (lock_ino x)).

Lemma ilock_run v home t ip x (Q : unit -> S -> Prop) s :
  let b := IBLOCK (i_inum x) (fs_sb t) in
  let y := ilocked (v_cache v b) x in
  tx s v home t -> fs_icache t !! ip = Some x -> (ip < NINODE)%nat ->
  i_dev x = 1 -> 1 <= i_ref x -> i_valid x = 0 -> sl_locked (i_lock x) = 0 -> i_type y <> 0 ->
  0 <= b < size -> b ∉ held_blocks (v_held v) ->
  (base.size ({[b]} ∪ v_pinned v ∪ held_blocks (v_held v)) <= NBUF)%nat -> b ∈ v_pinned v \/ v_cache v b = v_disk v b ->
  (forall s', tx s' v home (set_ino ip y t) -> Q tt s') ->
  wp (ilock fuel (Some ip)) Q s.
Proof.
  intros b y Hs Hx Hip Hdev Href Hval Hlk Hty Hb Hh Hsz Hclean HQ. unfold ilock.
  apply wp_bind. eapply tx_ino; [done..|]. destruct (Z.ltb_spec (i_ref x) 1); [lia|].
  apply wp_bind. eapply tx_acquiresleep; [done..|]. intros s1 H1.
  pose proof (fun z => lookup_set_ino ip z t x Hx) as Hl.
  apply wp_bind. eapply tx_ino; [exact H1|apply Hl|]. change (i_valid (lock_ino x)) with (i_valid x).
  rewrite Hval, Z.eqb_refl. simpl when. apply wp_bind. eapply tx_sb; [done|].
  change (fs_sb (set_ino _ _ t)) with (fs_sb t). change (i_dev (lock_ino x)) with (i_dev x).
  change (i_inum (lock_ino x)) with (i_inum x). rewrite Hdev. fold b. apply wp_bind.
  eapply tx_bread; [done..|]. intros h s2 Hh2 H2. apply wp_bind.
  eapply tx_bdata; [done|apply lookup_insert_eq|]. intros Hlen. cbn [v_cache v_set_held]. clear s H1 Hs Hlen.
  do 6 (apply wp_bind; eapply tx_ino_upd; [exact H2|apply Hl|]; clear H2; intros ? H2; rewrite set_ino_twice in H2).
  apply wp_bind. eapply tx_brelse; [exact H2|apply lookup_insert_eq|done|]. intros s3 H3.
  apply wp_bind. eapply tx_ino_upd; [exact H3|apply Hl|]. intros s4 H4. rewrite set_ino_twice in H4.
  apply wp_bind. eapply tx_ino; [exact H4|apply Hl|].
  change (set_i_valid 1 _) with y in H4 |- *. rewrite (proj2 (Z.eqb_neq _ _)) by done. apply wp_ret, HQ.
  cbn [v_held v_set_held] in H4. unfold v_set_held in H4. cbn [v_disk v_cache v_pinned v_held v_writes] in H4.
  rewrite delete_insert_id in H4 by done. by destruct v.
Qed.

Lemma dinode_off_lt inum : (dinode_off inum + 64 <= BSIZE)%nat.
Proof. unfold dinode_off, BSIZE, IPB, sizeof_dinode, BSIZE. pose proof (Z.mod_pos_bound inum (Z.of_nat 512 / 64) ltac:(done)). change (Z.of_nat 512 / 64) with 8 in *. lia. Qed.

Lemma inode_roundtrip_run v home t ip x (Q : unit -> S -> Prop) s :
  let b := IBLOCK (i_inum x) (fs_sb t) in
  tx s v home t -> fs_icache t !! ip = Some x -> (ip < NINODE)%nat ->
  inode_ok x -> 0 <= i_size x < 2 ^ 32 -> Forall (fun a => 0 <= a < 2 ^ 32) (i_addrs x) ->
  i_dev x = 1 -> 1 <= i_ref x -> sl_locked (i_lock x) = 0 -> i_type x <> 0 -> log_room home ->
  0 <= b < size -> b ∉ held_blocks (v_held v) ->
  (base.size ({[b]} ∪ v_pinned v ∪ held_blocks (v_held v)) <= NBUF)%nat ->
  (forall s' v', tx s' v' (absorb b home) (set_ino ip (set_i_valid 1 (lock_ino x)) t) ->
     (forall b', b' <> b -> v_cache v' b' = v_cache v b') -> Q tt s') ->
  wp (iupdate ip;;; ino_upd ip (set_i_valid 0);;; ilock fuel (Some ip)) Q s.
Proof.
  intros b Hs Hx Hip Hok Hsz Ha Hdev Href Hlk Hty Hroom Hb Hh Hbuf HQ.
  assert (length (v_cache v b) = BSIZE) as Hlen.
  { destruct Hs as (Hrep & _). destruct Henv as [E1 E2 _ _ E5].
    exact (bc_length (BlockCache := bio_cache c i n F E1 E2 size E5 fuel) s v b Hrep Hb). }
  apply wp_bind. eapply iupdate_run; [done..|]. intros s1 H1.
  apply wp_bind. eapply tx_ino_upd; [done..|]. intros s2 H2.
  pose proof (fun z => lookup_set_ino ip z t x Hx) as Hl.
  pose proof (dinode_off_lt (i_inum x)) as Hoff.
  assert (forall z, i_dev z = i_dev x -> i_inum z = i_inum x -> i_ref z = i_ref x -> i_lock z = i_lock x ->
    ilocked (store_dinode x (dinode_off (i_inum x)) (v_cache v b)) z = set_i_valid 1 (lock_ino x)) as Hload.
  { intros z E1 E2 E3 E4. unfold ilocked. rewrite E2, load_store_dinode by (done || lia).
    unfold set_i_valid, lock_ino, set_i_lock. simpl. by rewrite E1, E2, E3, E4. }
  eapply ilock_run; [exact H2|apply Hl|done..| | | | | |]; cbn [v_cache v_pinned v_held v_disk v_pin v_store]; change (i_inum (set_i_valid 0 x)) with (i_inum x);
    change (fs_sb (set_ino _ _ t)) with (fs_sb t); fold b; rewrite ?upd_block_eq, ?Hload by done; try done.
  - by replace ({[b]} ∪ ({[b]} ∪ v_pinned v)) with ({[b]} ∪ v_pinned v) by set_solver.
  - left. set_solver.
  - intros s3 H3. rewrite set_ino_twice in H3. eapply HQ; [exact H3|]. intros b' Hb'. simpl. by apply upd_block_ne.
Qed.

(** *** Reading a file *)

Lemma MAXFILE_value : MAXFILE = 140.
Proof. reflexivity. Qed.

(** The block that holds block [k] of the file, and byte [q] of the file. *)
Definition file_block (x : inode) (v : bview) (k : Z) : Z :=
  if k <? Z.of_nat NDIRECT then i_addrs x !!! Z.to_nat k
  else word_at (v_cache v (i_addrs x !!! NDIRECT)) (4 * Z.to_nat (k - Z.of_nat NDIRECT)).
Definition file_byte (x : inode) (v : bview) (q : Z) : Z :=
  byte_at (v_cache v (file_block x v (q / Z.of_nat BSIZE))) (Z.to_nat (q mod Z.of_nat BSIZE)).
Definition file_bytes (x : inode) (v : bview) (off n : Z) : list Z :=
  (fun j => file_byte x v (off + Z.of_nat j)) <$> seq 0 (Z.to_nat n).

(** A block of the disk that the thread may read; and block [k] of the file exists. *)
Definition readable (v : bview) (b : Z) : Prop := b <> 0 /\ 0 <= b < size /\ b ∉ held_blocks (v_held v).
Definition mapped (x : inode) (v : bview) (k : Z) : Prop :=
  0 <= k < MAXFILE /\ readable v (file_block x v k) /\
  (Z.of_nat NDIRECT <= k -> readable v (i_addrs x !!! NDIRECT)).
Definition spare (v : bview) : Prop := (base.size (v_pinned v ∪ held_blocks (v_held v)) < NBUF)%nat.

Lemma spare_room v b : spare v -> (base.size ({[b]} ∪ v_pinned v ∪ held_blocks (v_held v)) <= NBUF)%nat.
Proof.
  unfold spare. intros Hs. rewrite <- (assoc_L (∪)), (size_union_alt ({[b]} : gset Z)), size_singleton.
  assert (base.size ((v_pinned v ∪ held_blocks (v_held v)) ∖ {[b]}) <= base.size (v_pinned v ∪ held_blocks (v_held v)))%nat
    by (apply subseteq_size; set_solver). lia.
Qed.

Lemma tx_clean s v home t b : tx s v home t -> 0 <= b < size -> b ∉ held_blocks (v_held v) ->
  b ∈ v_pinned v \/ v_cache v b = v_disk v b.
Proof.
  intros (Hrep & _) Hb Hh. destruct (decide (b ∈ v_pinned v)) as [|Hp]; [by left|right]. destruct Henv as [E1 E2 _ _ E5].
  exact (bc_clean (BlockCache := bio_cache c i n F E1 E2 size E5 fuel) s v b Hrep Hb Hp Hh).
Qed.

(** Reading a block and giving it back. *)
Lemma tx_read_block {A} v home t b (f : nat -> M S A) (Q : A -> S -> Prop) s :
  tx s v home t -> readable v b -> spare v ->
  (forall h s', v_held v !! h = None -> tx s' (v_set_held (<[h := b]> (v_held v)) v) home t -> wp (f h) Q s') ->
  wp (let* h := bread 1 b in f h) Q s.
Proof. intros Hs (_ & Hb & Hh) Hsp HQ. apply wp_bind. eapply tx_bread; [done|done|done|by apply spare_room|done]. Qed.

Lemma tx_give_back v home t h b (Q : unit -> S -> Prop) s s0 :
  tx s (v_set_held (<[h := b]> (v_held v)) v) home t -> tx s0 v home t -> readable v b -> v_held v !! h = None ->
  (forall s', tx s' v home t -> Q tt s') -> wp (brelse h) Q s.
Proof.
  intros Hs Hs0 (_ & Hb & Hh) Hv HQ. eapply tx_brelse; [done|apply lookup_insert_eq|exact (tx_clean _ _ _ _ _ Hs0 Hb Hh)|].
  intros s' H'. apply HQ. unfold v_set_held in H'. cbn [v_disk v_cache v_pinned v_held v_writes] in H'.
  rewrite delete_insert_id in H' by done. by destruct v.
Qed.

Lemma bmap_run v home t ip x k (Q : Z -> S -> Prop) s :
  tx s v home t -> fs_icache t !! ip = Some x -> i_dev x = 1 -> mapped x v k -> spare v ->
  (forall s', tx s' v home t -> Q (file_block x v k) s') -> wp (bmap ip k) Q s.
Proof.
  intros Hs Hx Hdev (Hk & Hb & Hi) Hsp HQ. unfold bmap. apply wp_bind. eapply tx_ino; [done..|].
  unfold file_block in *. destruct (Z.ltb_spec k (Z.of_nat NDIRECT)) as [Hd|Hd].
  - pose proof Hb as (Hb0 & _). rewrite (proj2 (Z.eqb_neq _ _)) by done. apply wp_ret. by apply HQ.
  - specialize (Hi Hd). assert (u32 (k - Z.of_nat NDIRECT) = k - Z.of_nat NDIRECT) as ->.
    { apply u32_small. rewrite MAXFILE_value in Hk. lia. }
    rewrite (proj2 (Z.ltb_lt _ _)) by (unfold MAXFILE in Hk; lia).
    pose proof Hi as (Hi0 & _). rewrite (proj2 (Z.eqb_neq _ _)) by done. rewrite Hdev.
    apply wp_bind, wp_ret. eapply tx_read_block; [done..|]. intros h s1 Hh1 H1.
    apply wp_bind. unfold buf_word. apply wp_bind. eapply tx_bdata; [done|apply lookup_insert_eq|].
    cbn [v_cache v_set_held]. intros Hlen. rewrite Hlen, leb_correct.
    2: { rewrite MAXFILE_value in Hk. unfold BSIZE, NDIRECT in *. lia. }
    apply wp_ret. pose proof Hb as (Hb0 & _). rewrite (proj2 (Z.eqb_neq _ _)) by done.
    apply wp_bind, wp_ret, wp_bind. eapply tx_give_back; [done..|]. intros s2 H2. apply wp_ret. by apply HQ.
Qed.

Lemma length_file_bytes x v off m : length (file_bytes x v off m) = Z.to_nat m.
Proof. unfold file_bytes. by rewrite length_fmap, length_seq. Qed.

(** The piece of a block that one round of the loop moves. *)
Lemma file_chunk x v off m d :
  0 <= off -> 0 <= m -> off mod Z.of_nat BSIZE + m <= Z.of_nat BSIZE ->
  d = v_cache v (file_block x v (off / Z.of_nat BSIZE)) -> length d = BSIZE ->
  bytes_from (Z.to_nat (off mod Z.of_nat BSIZE)) (Z.to_nat m) d = file_bytes x v off m.
Proof.
  intros Ho Hm Hom Hd Hl. apply list_eq. intros j. unfold bytes_from, file_bytes. rewrite list_lookup_fmap.
  change (Z.of_nat BSIZE) with 512 in *. unfold BSIZE in Hl.
  pose proof (Z.mod_pos_bound off 512 ltac:(lia)) as Hmod.
  destruct (decide (j < Z.to_nat m)%nat) as [Hj|Hj].
  - rewrite lookup_take_lt, lookup_drop, lookup_seq_lt by lia. cbn [fmap option_fmap option_map]. rewrite Nat.add_0_l.
    rewrite list_lookup_lookup_total_lt by lia. f_equal. unfold file_byte. change (Z.of_nat BSIZE) with 512.
    assert ((off + Z.of_nat j) / 512 = off / 512 /\ (off + Z.of_nat j) mod 512 = off mod 512 + Z.of_nat j) as [-> ->].
    { pose proof (Z.div_mod off 512 ltac:(lia)) as E. split.
      - symmetry. apply (Z.div_unique_pos _ _ _ (off mod 512 + Z.of_nat j)); lia.
      - symmetry. apply (Z.mod_unique_pos _ _ (off / 512)); lia. }
    rewrite <- Hd. unfold byte_at. f_equal. lia.
  - rewrite lookup_take_ge, lookup_seq_ge by lia. done.
Qed.

Lemma file_bytes_app x v off m m' : 0 <= m -> 0 <= m' ->
  file_bytes x v off (m + m') = file_bytes x v off m ++ file_bytes x v (off + m) m'.
Proof.
  intros Hm Hm'. unfold file_bytes. rewrite Z2Nat.inj_add, seq_app, fmap_app by done. f_equal.
  rewrite Nat.add_0_l. replace (seq (Z.to_nat m) (Z.to_nat m')) with (Nat.add (Z.to_nat m) <$> seq 0 (Z.to_nat m'))
    by (rewrite fmap_add_seq; f_equal; lia). rewrite <- list_fmap_compose.
  apply list_fmap_ext. intros j y _. unfold compose. f_equal. lia.
Qed.

Lemma readi_loop_run k v home t ip x a tot off m (Q : list Z -> S -> Prop) s :
  tx s v home t -> fs_icache t !! ip = Some x -> i_dev x = 1 -> spare v ->
  0 <= tot -> tot + m < 2 ^ 32 -> 0 <= off -> 0 <= m -> off + m <= i_size x < 2 ^ 32 ->
  (forall q, 0 <= q -> q * Z.of_nat BSIZE < i_size x -> mapped x v q) ->
  m = 0 \/ off mod Z.of_nat BSIZE + m <= Z.of_nat BSIZE * Z.of_nat k ->
  (forall s', tx s' v home t -> Q (set_bytes (Z.to_nat tot) (file_bytes x v off m) a) s') ->
  wp (readi_loop k to_var a ip tot off (tot + m)) Q s.
Proof.
  revert a tot off m s. induction k as [|k IH]; intros a tot off m s Hs Hx Hdev Hsp Htot Htm Hoff Hm Hsize Hmap Hk HQ.
  - change (Z.of_nat BSIZE) with 512 in *. pose proof (Z.mod_pos_bound off 512 ltac:(lia)). assert (m = 0) as -> by lia.
    simpl. rewrite Z.add_0_r, Z.ltb_irrefl. simpl. apply wp_ret. by apply HQ.
  - cbn [readi_loop]. destruct (Z.ltb_spec tot (tot + m)) as [Hlt|Hge]; simpl negb; cbv iota.
    2: { assert (m = 0) as -> by lia. apply wp_ret. by apply HQ. }
    apply wp_bind. eapply tx_ino; [done..|]. apply wp_bind.
    change (Z.of_nat BSIZE) with 512 in *. pose proof (Z.mod_pos_bound off 512 ltac:(lia)) as Hmod.
    pose proof (Z.div_mod off 512 ltac:(lia)) as Ediv. assert (0 <= off / 512) by (apply Z.div_pos; lia).
    pose proof (Hmap (off / 512) ltac:(done) ltac:(lia)) as Hb.
    eapply bmap_run; [done..|]. intros s1 H1. rewrite Hdev. pose proof Hb as (_ & Hr & _).
    eapply tx_read_block; [done..|]. intros h s2 Hh H2. apply wp_bind.
    eapply tx_bdata; [done|apply lookup_insert_eq|]. cbn [v_cache v_set_held]. intros Hlen.
    replace (tot + m - tot) with m by lia. rewrite (u32_small m), (u32_small (512 - off mod 512)) by lia.
    set (m1 := Z.min m (512 - off mod 512)). assert (0 < m1 <= m /\ m1 <= 512 - off mod 512) as Hm1 by lia.
    rewrite (file_chunk x v off m1) by (done || change (Z.of_nat BSIZE) with 512; lia).
    unfold to_var at 1. apply wp_bind, wp_ret, wp_bind. eapply tx_give_back; [done..|]. intros s3 H3.
    rewrite (u32_small (tot + m1)), (u32_small (off + m1)) by lia.
    replace (tot + m) with (tot + m1 + (m - m1)) by lia. apply IH; try done; try lia.
    + change (Z.of_nat BSIZE) with 512. destruct (decide (m1 = m)) as [->|Hne]; [left; lia|right].
      assert (m1 = 512 - off mod 512) as -> by lia. replace (off + (512 - off mod 512)) with (0 + (off / 512 + 1) * 512) by lia.
      rewrite Z_mod_plus_full. change (0 mod 512) with 0. lia.
    + intros s4 H4. specialize (HQ s4 H4). replace m with (m1 + (m - m1)) in HQ at 1 by lia.
      rewrite file_bytes_app in HQ by lia. unfold set_bytes in *. rewrite list_inserts_app_l, length_file_bytes in HQ.
      by rewrite Z2Nat.inj_add, Nat.add_comm by lia.
Qed.

Lemma readi_run v home t ip x a off m (Q : Z * list Z -> S -> Prop) s :
  tx s v home t -> fs_icache t !! ip = Some x -> i_dev x = 1 -> i_type x <> T_DEV -> spare v ->
  0 <= off < 2 ^ 32 -> 0 <= m < 2 ^ 32 -> 0 <= i_size x <= MAXFILE * Z.of_nat BSIZE ->
  (forall q, 0 <= q -> q * Z.of_nat BSIZE < i_size x -> mapped x v q) ->
  (forall s', tx s' v home t -> Q (if (i_size x <? off) || (2 ^ 32 <=? off + m) then (-1, a) else
     let r := Z.min m (i_size x - off) in (r, set_bytes 0 (file_bytes x v off r) a)) s') ->
  wp (readi to_var a ip off m) Q s.
Proof.
  intros Hs Hx Hdev Hty Hsp Hoff Hm Hsize Hmap HQ. unfold readi. apply wp_bind. eapply tx_ino; [done..|].
  rewrite (proj2 (Z.eqb_neq _ _)) by done. rewrite MAXFILE_value in Hsize. change (Z.of_nat BSIZE) with 512 in Hsize.
  specialize (HQ s Hs) as HQ0. destruct (Z.ltb_spec (i_size x) off) as [H1|H1]; simpl orb in *; cbv iota in *.
  { by apply wp_ret. }
  destruct (Z.leb_spec (2 ^ 32) (off + m)) as [H2|H2].
  { assert (u32 (off + m) = off + m - 2 ^ 32) as ->.
    { unfold u32. rewrite <- (Z_mod_plus_full _ (-1)), Z.mod_small by lia. lia. }
    rewrite (proj2 (Z.ltb_lt _ _)) by lia. by apply wp_ret. }
  rewrite u32_small by lia. rewrite (proj2 (Z.ltb_ge (off + m) off)) by lia.
  set (r := Z.min m (i_size x - off)) in *.
  assert ((if i_size x <? off + m then u32 (i_size x - off) else m) = r) as ->.
  { destruct (Z.ltb_spec (i_size x) (off + m)); [rewrite u32_small by lia|]; lia. }
  apply wp_bind. replace r with (0 + r) at 2 by lia. eapply readi_loop_run; [done..|lia|lia|lia|lia|lia|done| |].
  - right. unfold rw_fuel. change (Z.of_nat BSIZE) with 512. pose proof (Z.mod_pos_bound off 512 ltac:(lia)).
    pose proof (Z.div_mod r 512 ltac:(lia)). pose proof (Z.mod_pos_bound r 512 ltac:(lia)).
    assert (0 <= r / 512) by (apply Z.div_pos; lia). rewrite Z2Nat.id by lia. lia.
  - intros s' H'. apply wp_ret. rewrite s32_small by lia. by apply HQ.
Qed.
End tx.

(** ** A kernel for the witnesses *)
Definition kern_f : Type := kern_l * fs_st.
#[local] Instance proc_f : HasProc kern_f := {| proc_lens := compose_lens fst_lens (compose_lens fst_lens fst_lens) |}.
#[local] Instance bio_f : HasBio kern_f :=
  {| bio_lens := compose_lens fst_lens (compose_lens fst_lens (compose_lens snd_lens fst_lens)) |}.
#[local] Instance memdisk_f : HasMemdisk kern_f :=
  {| memdisk_lens := compose_lens fst_lens (compose_lens fst_lens (compose_lens snd_lens snd_lens)) |}.
#[local] Instance log_f : HasLog kern_f := {| log_lens := compose_lens fst_lens snd_lens |}.
#[local] Instance fs_f : HasFs kern_f := {| fs_lens := snd_lens |}.
#[local] Instance dev_f : DevOps kern_f := {| dev_read _ := None; dev_write _ := None |}.
Ltac indep_f := by split; intros; try match goal with s : kern_f |- _ => destruct s as [[[? []] ?] ?] end.
#[local] Instance indep_f1 : LensIndep (S := kern_f) proc_lens bio_lens. Proof. indep_f. Qed.
#[local] Instance indep_f2 : LensIndep (S := kern_f) proc_lens memdisk_lens. Proof. indep_f. Qed.
#[local] Instance indep_f3 : LensIndep (S := kern_f) bio_lens memdisk_lens. Proof. indep_f. Qed.
#[local] Instance indep_f4 : LensIndep (S := kern_f) log_lens proc_lens. Proof. indep_f. Qed.
#[local] Instance indep_f5 : LensIndep (S := kern_f) log_lens bio_lens. Proof. indep_f. Qed.
#[local] Instance indep_f6 : LensIndep (S := kern_f) log_lens memdisk_lens. Proof. indep_f. Qed.
#[local] Instance indep_f7 : LensIndep (S := kern_f) fs_lens proc_lens. Proof. indep_f. Qed.
#[local] Instance indep_f8 : LensIndep (S := kern_f) fs_lens bio_lens. Proof. indep_f. Qed.
#[local] Instance indep_f9 : LensIndep (S := kern_f) fs_lens memdisk_lens. Proof. indep_f. Qed.
#[local] Instance indep_f10 : LensIndep (S := kern_f) fs_lens log_lens. Proof. indep_f. Qed.
#[local] Instance indep_f11 : LensIndep (S := kern_f) proc_lens fs_lens. Proof. indep_f. Qed.
#[local] Instance indep_f12 : LensIndep (S := kern_f) log_lens fs_lens. Proof. indep_f. Qed.

Definition locks_f : list lockid := map (fun j => ("inode", Z.of_nat j)) (seq 0 NINODE) ++ icache_lock :: locks_l.
(** An inode of five bytes in block 200, in a file system whose inodes start at block 32. *)
Definition inode_x : inode := MkInode 1 7 1 sleeplock0 1 2 0 0 1 5 (200 :: replicate 12 0).
Definition fs_x : fs_st := MkFs (MkSb 1000 900 200 30 2 32 58) (inode_x :: replicate 49 inode0).
Definition disk_x : Z -> list Z := upd_block 200 (set_bytes 0 [104; 101; 108; 108; 111] (disk_b 200)) disk_b.
Definition kern_f0 : kern_f := (kern_lD disk_x log_y, fs_x).

Lemma disk_x_length b : 0 <= b < FSSIZE -> length (disk_x b) = BSIZE.
Proof.
  intros Hb. unfold disk_x, upd_block. destruct (b =? 200); [apply length_set_bytes|]. by apply disk_b_length.
Qed.

Lemma env_f : env locks_f FSSIZE.
Proof.
  unfold locks_f. split; intros.
  - apply elem_of_app. right. right. apply locks_l_bcache.
  - apply elem_of_app. right. right. by apply locks_l_buf.
  - apply elem_of_app. right. right. by left.
  - apply elem_of_app. left. apply list_elem_of_fmap. exists j. split; [done|]. apply elem_of_seq. lia.
  - unfold FSSIZE. lia.
Qed.

Definition kern_fD (D : Z -> list Z) (t : fs_st) : kern_f := (kern_lD D log_y, t).
Lemma kern_f_base D t : at_base (S := kern_f) 0 0 1 locks_f (kern_fD D t).
Proof.
  split_and!; [apply on_cpu_b|apply elem_of_app; right; right; right; by left|]. by eexists.
Qed.

(** The buffer cache over any disk, and any state of the file system. *)
Lemma binit_fD D t : (forall b, 0 <= b < FSSIZE -> length (D b) = BSIZE) ->
  wp (S := kern_f) binit (fun _ s' => tx 0 0 1 locks_f FSSIZE 2 30 s' (BView D D ∅ ∅ []) [] t) (kern_fD D t).
Proof.
  intros HD. eapply wp_mono; [|apply (wp_leaves fs_lens); [apply steady_leaves, steady_binit; apply _|];
    apply (wp_leaves log_lens); [apply steady_leaves, steady_binit; apply _|
    exact (binit_run (S := kern_f) 0 0 1 locks_f FSSIZE D (kern_fD D t) (kern_f_base D t) eq_refl eq_refl HD)]].
  intros [] s' [[[H _] El] Ef]. split; [exact H|]. split; [|exact Ef]. rewrite El.
  split_and!; try done. apply NoDup_nil_2.
Qed.
Lemma kern_f0_base : at_base (S := kern_f) 0 0 1 locks_f kern_f0.
Proof. exact (kern_f_base disk_x fs_x). Qed.
Lemma binit_f : wp (S := kern_f) binit (fun _ s' =>
  tx 0 0 1 locks_f FSSIZE 2 30 s' (BView disk_x disk_x ∅ ∅ []) [] fs_x) kern_f0.
Proof. exact (binit_fD disk_x fs_x disk_x_length). Qed.

(** ** Theorems *)

(** C27. fs.c, skipelem(): walking along a path with skipelem(), as namex() does, gives exactly the
    components of the path, the non-empty pieces between slashes, each cut off after [DIRSIZ]
    bytes, whatever the name array holds; as many steps as the path has bytes, and one more for
    the end, are enough. *)
Theorem skipelem_components path name :
  cstring path -> length name = DIRSIZ ->
  walk (Datatypes.S (length path)) path name = take DIRSIZ <$> components path /\
  forall rest name', skipelem path name = Some (rest, name') ->
    (length rest < length path)%nat /\ (hd 0 rest = 0 <-> length (components path) = 1%nat).
Proof.
  intros Hp Hn. split; [apply walk_components; [done|done|lia]|]. intros rest name' E.
  pose proof (skipelem_spec path name Hp Hn) as H. rewrite E in H. destruct H as (e & -> & _ & _ & _ & Hl & Hz).
  split; [done|]. rewrite Hz. simpl. split; [by intros ->|]. by destruct (components rest).
Qed.

(** [///a//bcdefghijklmnopq/]. *)
Definition path_x : list Z := [47; 47; 47; 97; 47; 47] ++ ((fun i => 98 + Z.of_nat i) <$> seq 0 16).

Lemma skipelem_components_witness :
  walk 23 path_x name0 = [[97]; (fun i => 98 + Z.of_nat i) <$> seq 0 14].
Proof.
  destruct (skipelem_components path_x name0) as [H _].
  - apply Forall_forall. intros c Hc. unfold path_x in Hc. vm_compute in Hc. set_solver.
  - reflexivity.
  - etrans; [exact H|]. vm_compute. reflexivity.
Defined.

(** C13. fs.c, readi() with bmap(), bread() and brelse(): reading [n] bytes at [off] of a regular file
    whose blocks all exist, direct or through the indirect block, returns -1 and stores nothing
    when [off] lies behind the end or [off + n] overflows, and otherwise returns the number of
    bytes up to the end of the file and stores exactly those bytes; no buffer stays held, nothing
    is written, and the inode is as it was. *)
Theorem readi_reads {S} `{!HasProc S} `{!HasBio S} `{!HasMemdisk S} `{!HasLog S} `{!HasFs S} `{!DevOps S}
    `{!LensIndep proc_lens bio_lens} `{!LensIndep proc_lens memdisk_lens} `{!LensIndep bio_lens memdisk_lens}
    `{!LensIndep log_lens proc_lens} `{!LensIndep log_lens bio_lens} `{!LensIndep log_lens memdisk_lens}
    `{!LensIndep fs_lens proc_lens} `{!LensIndep fs_lens bio_lens} `{!LensIndep fs_lens memdisk_lens}
    `{!LensIndep fs_lens log_lens} `{!LensIndep proc_lens fs_lens} `{!LensIndep log_lens fs_lens}
    c i pid F size fuel st gsize v home t ip x buf off n s :
  env F size -> tx c i pid F size st gsize s v home t -> fs_icache t !! ip = Some x ->
  i_dev x = 1 -> i_type x <> T_DEV -> 0 <= i_size x <= MAXFILE * Z.of_nat BSIZE ->
  (forall q, 0 <= q -> q * Z.of_nat BSIZE < i_size x -> mapped size x v q) ->
  spare v -> 0 <= off < 2 ^ 32 -> 0 <= n < 2 ^ 32 ->
  let ops := bio_ops (DiskOps0 := memide_ops) fuel in
  wp (readi to_var buf ip off n) (fun r s' => tx c i pid F size st gsize s' v home t /\
    r = if (i_size x <? off) || (2 ^ 32 <=? off + n) then (-1, buf)
        else let m := Z.min n (i_size x - off) in (m, set_bytes 0 (file_bytes x v off m) buf)) s.
Proof. intros He Hs Hx Hd Ht Hsz Hmap Hsp Hoff Hn ops. by eapply readi_run. Qed.

Lemma readi_reads_witness :
  wp (S := kern_f) (binit;;; readi (BlockOps0 := bio_ops (DiskOps0 := memide_ops) 0) to_var (replicate 6 0) 0 1 10)
    (fun r _ => r = (4, [101; 108; 108; 111; 0; 0])) kern_f0.
Proof.
  apply wp_bind. eapply wp_mono; [|exact binit_f]. intros [] s Hs.
  assert (forall q, 0 <= q -> q * Z.of_nat BSIZE < i_size inode_x -> mapped FSSIZE inode_x (BView disk_x disk_x ∅ ∅ []) q) as Hm.
  { intros q Hq Hlt. change (Z.of_nat BSIZE) with 512 in Hlt. simpl in Hlt. assert (q = 0) as -> by lia.
    split; [rewrite MAXFILE_value; lia|]. split; [|unfold NDIRECT; lia].
    split; [done|]. split; [unfold file_block, FSSIZE; simpl; lia|apply not_elem_of_empty]. }
  eapply wp_mono; [|exact (readi_reads (S := kern_f) 0 0 1 locks_f FSSIZE 0 2 30 _ [] fs_x 0 inode_x (replicate 6 0) 1 10 s
    env_f Hs eq_refl eq_refl ltac:(done) ltac:(vm_compute; split; discriminate) Hm ltac:(vm_compute; lia) ltac:(lia) ltac:(lia))].
  intros r s' [_ ->]. vm_compute. reflexivity.
Defined.




