(* ===== verification/Pipe.v ===== *)
(** * Pipes (pipe.c)

    A [struct pipe] fills the page that kalloc() returned; here it is an entry of a map, under the
    address of that page, from pipealloc() until the page is freed.  Bytes move between a pipe and
    the memory of the current process.  The functions that allocate the two ends are in File.v. *)
From S2P Require Import Prelude Mmu KString Spinlock Pages Kalloc Vm Sched Process Syscall Sleeplock.

Definition PIPESIZE : Z := 512.

Record pipe := MkPipe {
  p_data : list Z;
  p_nread : Z;         (* number of bytes read *)
  p_nwrite : Z;        (* number of bytes written *)
  p_readopen : Z;      (* read fd is still open *)
  p_writeopen : Z      (* write fd is still open *)
}.
Definition set_p_data (x : list Z) (p : pipe) : pipe :=
  MkPipe x (p_nread p) (p_nwrite p) (p_readopen p) (p_writeopen p).
Definition set_nread (x : Z) (p : pipe) : pipe :=
  MkPipe (p_data p) x (p_nwrite p) (p_readopen p) (p_writeopen p).
Definition set_nwrite (x : Z) (p : pipe) : pipe :=
  MkPipe (p_data p) (p_nread p) x (p_readopen p) (p_writeopen p).
Definition set_readopen (x : Z) (p : pipe) : pipe :=
  MkPipe (p_data p) (p_nread p) (p_nwrite p) x (p_writeopen p).
Definition set_writeopen (x : Z) (p : pipe) : pipe :=
  MkPipe (p_data p) (p_nread p) (p_nwrite p) (p_readopen p) x.

(** [x->data[x->nwrite++ % PIPESIZE] = c]. *)
Definition pipe_push (c : Z) (x : pipe) : pipe := set_nwrite (u32 (p_nwrite x + 1))
  (set_p_data (<[Z.to_nat (p_nwrite x mod PIPESIZE) := c]> (p_data x)) x).

(** The pipes in use, and for each its lock and the two addresses it sleeps on. *)
Class HasPipes (S : Type) := { pipes_lens : lens S (gmap Z pipe); pipes_lens_laws :: LensLaws pipes_lens }.
Definition pipe_lock (p : Z) : lockid := ("pipe", p).
Definition nread_chan (p : Z) : lockid := ("pipe.nread", p).
Definition nwrite_chan (p : Z) : lockid := ("pipe.nwrite", p).

Section pipe.
Context {S : Type} `{PageOps S} `{!HasProc S} `{!HasPipes S} (fuel : nat).

(** The page directory in use: that of the process on this CPU, which switchuvm() loaded. *)
Definition cur_pgdir : M S Z := getopt (fun s =>
  c ← this_cpu (machine s); k ← cpus (machine s) !! c; i ← cproc k;
  p ← ptable (view proc_lens s) !! i; Some (pgdir p)).

(** A byte stored at a user address; CR0_WP is set, so the page must be writable. *)
Definition ustore8 (d va c : Z) : M S unit :=
  let* _ := getopt (fun s => let e := pte_of (memory s) d va in
              if has_flag e PTE_P && has_flag e PTE_W then Some tt else None) in
  modify (fun s => put kmem_lens (st8 (user_addr (memory s) d va) c (memory s)) s).
Definition user_load (va : Z) : M S Z := let* d := cur_pgdir in uload8 d va.
Definition user_store (va c : Z) : M S unit := let* d := cur_pgdir in ustore8 d va c.

Definition pipe_at (p : Z) : M S pipe := getopt (fun s => view pipes_lens s !! p).
Definition pipe_upd (p : Z) (f : pipe -> pipe) : M S unit :=
  let* _ := pipe_at p in modify (fun s => put pipes_lens (alter f p (view pipes_lens s)) s).

Definition pipeclose (p : Z) (writable : bool) : M S unit :=
  ptab (kacquire (pipe_lock p));;;
  (if writable then
    pipe_upd p (set_writeopen 0);;;
    ptab (wakeup (nread_chan p))
  else
    pipe_upd p (set_readopen 0);;;
    ptab (wakeup (nwrite_chan p)));;;
  let* x := pipe_at p in
  if (p_readopen x =? 0) && (p_writeopen x =? 0) then
    ptab (krelease (pipe_lock p));;;
    modify (fun s => put pipes_lens (delete p (view pipes_lens s)) s);;;
    kfree p
  else ptab (krelease (pipe_lock p)).

(** [myproc()->killed]. *)
Definition cur_killed : M S bool := let* q := curp in ret (negb (killed q =? 0)).

(** The inner [while] of pipewrite(), one unit of fuel per wakeup: [false] is [return -1]. *)
Fixpoint pipewrite_wait (k : nat) (p : Z) : M S bool :=
  let* x := pipe_at p in
  if p_nwrite x =? u32 (p_nread x + PIPESIZE) then
    let* stop := (if p_readopen x =? 0 then ret true else cur_killed) in
    if stop then ptab (krelease (pipe_lock p));;; ret false else
    ptab (wakeup (nread_chan p));;;
    ptab (sleep (nwrite_chan p) (Some (pipe_lock p)));;;
    match k with O => nofuel | Datatypes.S k' => pipewrite_wait k' p end
  else ret true.

(** [p->data[p->nwrite++ % PIPESIZE] = c]. *)
Definition pipe_put (p c : Z) : M S unit := pipe_upd p (pipe_push c).

(** The [for] of pipewrite(), with [m] bytes to go. *)
Fixpoint pipewrite_loop (m : nat) (p addr i : Z) : M S bool :=
  match m with
  | O => ret true
  | Datatypes.S m' =>
      let* room := pipewrite_wait fuel p in
      if negb room then ret false else
      let* c := user_load (u32 (addr + i)) in
      pipe_put p c;;;
      pipewrite_loop m' p addr (i + 1)
  end.
Definition pipewrite (p addr n : Z) : M S Z :=
  ptab (kacquire (pipe_lock p));;;
  let* ok := pipewrite_loop (Z.to_nat n) p addr 0 in
  if negb ok then ret (-1) else
  ptab (wakeup (nread_chan p));;;
  ptab (krelease (pipe_lock p));;;
  ret n.

(** The [while] of piperead(). *)
Fixpoint piperead_wait (k : nat) (p : Z) : M S bool :=
  let* x := pipe_at p in
  if (p_nread x =? p_nwrite x) && negb (p_writeopen x =? 0) then
    let* stop := cur_killed in
    if stop then ptab (krelease (pipe_lock p));;; ret false else
    ptab (sleep (nread_chan p) (Some (pipe_lock p)));;;
    match k with O => nofuel | Datatypes.S k' => piperead_wait k' p end
  else ret true.

(** The copying [for], with [m] bytes to go: the number of bytes copied. *)
Fixpoint piperead_loop (m : nat) (p addr i : Z) : M S Z :=
  match m with
  | O => ret i
  | Datatypes.S m' =>
      let* x := pipe_at p in
      if p_nread x =? p_nwrite x then ret i else
      pipe_upd p (set_nread (u32 (p_nread x + 1)));;;
      user_store (u32 (addr + i)) (p_data x !!! Z.to_nat (p_nread x mod PIPESIZE));;;
      piperead_loop m' p addr (i + 1)
  end.
Definition piperead (p addr n : Z) : M S Z :=
  ptab (kacquire (pipe_lock p));;;
  let* ok := piperead_wait fuel p in
  if negb ok then ret (-1) else
  let* i := piperead_loop (Z.to_nat n) p addr 0 in
  ptab (wakeup (nwrite_chan p));;;
  ptab (krelease (pipe_lock p));;;
  ret i.
End pipe.

(** ** Specifications *)

(** The bytes in a pipe, the oldest first. *)
Definition pipe_rep (x : pipe) (q : list Z) : Prop :=
  ring_rep PIPESIZE (p_data x) (p_nread x) q /\ p_nwrite x = u32 (p_nread x + Z.of_nat (length q)).

(** ** Lemmas *)
Lemma PIPESIZE_pos : 0 < PIPESIZE.
Proof. done. Qed.
Lemma PIPESIZE_div : (PIPESIZE | 2 ^ 32).
Proof. by exists (2 ^ 23). Qed.

Lemma pipe_empty x q : pipe_rep x q -> (p_nread x =? p_nwrite x) = bool_decide (q = []).
Proof.
  intros ((_ & Hr & Hl & _) & ->). rewrite <- (u32_small (p_nread x)) at 1 by done.
  rewrite <- (Z.add_0_r (p_nread x)) at 1. rewrite u32_count_eqb by (unfold PIPESIZE in *; lia).
  destruct q; simpl length; [done|]. rewrite bool_decide_false by done. apply Z.eqb_neq. lia.
Qed.

Lemma pipe_full x q : pipe_rep x q ->
  (p_nwrite x =? u32 (p_nread x + PIPESIZE)) = (Z.of_nat (length q) =? PIPESIZE).
Proof. intros ((_ & Hr & Hl & _) & ->). apply u32_count_eqb. unfold PIPESIZE in *. lia. Qed.

Lemma pipe_rep_push x q c : pipe_rep x q -> Z.of_nat (length q) < PIPESIZE -> pipe_rep (pipe_push c x) (q ++ [c]).
Proof.
  intros (Hring & Hw) Hroom. unfold pipe_rep, pipe_push; simpl. rewrite Hw. split.
  - by apply (ring_push _ PIPESIZE_pos PIPESIZE_div).
  - rewrite length_app, u32_add_l. simpl. f_equal. lia.
Qed.

Lemma pipe_rep_pop x b q : pipe_rep x (b :: q) ->
  p_data x !!! Z.to_nat (p_nread x mod PIPESIZE) = b /\ pipe_rep (set_nread (u32 (p_nread x + 1)) x) q.
Proof.
  intros (Hring & Hw). destruct (ring_pop _ PIPESIZE_pos PIPESIZE_div _ _ _ _ Hring) as [Hb Hring'].
  split; [done|]. split; [done|]. simpl in *. rewrite Hw, u32_add_l. f_equal. lia.
Qed.

(** [n] bytes of user memory, of the address space [d], that user code may write. *)
Definition user_buf (m : mem) (d addr n : Z) : Prop :=
  0 <= addr /\ addr + n <= 2 ^ 32 /\ pt_ok m d [] /\ user_pages_ok m d [] /\
  forall i, 0 <= i < n -> user_ok m d (addr + i) /\ has_flag (pte_of m d (addr + i)) PTE_W = true.

(** [m'] is [m] with [bs] stored at the user address [addr]. *)
Definition user_stored (d addr : Z) (bs : list Z) (m m' : mem) : Prop :=
  (forall v, pte_of m' d v = pte_of m d v) /\
  (forall k b, bs !! k = Some b -> m' (user_addr m d (addr + Z.of_nat k)) = u8 b) /\
  (forall a, (forall k, (k < length bs)%nat -> a <> user_addr m d (addr + Z.of_nat k)) -> m' a = m a).

Lemma user_buf_step m d addr n i c : user_buf m d addr n -> 0 <= i < n ->
  let m' := st8 (user_addr m d (addr + i)) c m in
  user_buf m' d addr n /\ forall v, pte_of m' d v = pte_of m d v.
Proof.
  intros (Ha & H32 & Hok & Hup & Hb) Hi m'. destruct (Hb i Hi) as [Hu Hw].
  destruct (user_pages_ext m m' d [] (addr + i)) as (Hok' & Hup' & Hpte & _); [done|done|lia|done| |].
  { intros x Hx. apply st8_ne. intros ->. apply Hx, user_addr_in_page. }
  split; [|done]. split_and!; [done..|]. intros j Hj. unfold user_ok. rewrite Hpte. by apply Hb.
Qed.

Lemma user_stored_cons m d addr n i b bs m' : user_buf m d addr n -> 0 <= i -> i + Z.of_nat (Datatypes.S (length bs)) <= n ->
  user_stored d (addr + (i + 1)) bs (st8 (user_addr m d (addr + i)) b m) m' ->
  user_stored d (addr + i) (b :: bs) m m'.
Proof.
  intros Hbuf Hi Hn (H1 & H2 & H3). destruct (user_buf_step m d addr n i b Hbuf ltac:(lia)) as [_ Hpte].
  set (m1 := st8 _ b m) in *.
  assert (forall v, user_addr m1 d v = user_addr m d v) as Hua by (intros v; unfold user_addr; by rewrite Hpte).
  destruct Hbuf as (Ha & H32 & _ & Hup & Hb). split_and!.
  - intros v. by rewrite H1.
  - intros [|k] c Hc; simpl in Hc.
    + injection Hc as <-. rewrite Z.add_0_r. rewrite H3.
      * unfold m1. apply st8_eq.
      * intros k Hk. rewrite Hua. apply (user_addr_ne _ _ []); [done|lia|lia|apply Hb; lia| |lia].
        replace (addr + (i + 1) + Z.of_nat k) with (addr + (i + 1 + Z.of_nat k)) by lia. apply Hb. lia.
    + rewrite <- (H2 k c) by done. rewrite Hua. do 2 f_equal. lia.
  - intros a Hout. rewrite H3.
    + apply st8_ne. rewrite <- (Z.add_0_r (addr + i)). apply (Hout 0%nat). simpl. lia.
    + intros k Hk. rewrite Hua. replace (addr + (i + 1) + Z.of_nat k) with (addr + i + Z.of_nat (Datatypes.S k)) by lia.
      apply Hout. simpl. lia.
Qed.

(** *** One call, with nobody else taking the CPU *)
Section runs.
Context {S : Type} `{PageOps S} `{!HasProc S} `{!HasPipes S} (fuel : nat).
Context `{!LensLaws (kmem_lens (S := S))} `{!LensIndep proc_lens pipes_lens} `{!LensIndep proc_lens (kmem_lens (S := S))}.
Context `{!LensIndep pipes_lens (kmem_lens (S := S))}.
Context (c i : nat) (F : list lockid) (pr : proc) (p : Z).

(** Process [pr], in slot [i], runs on CPU [c] and holds the locks [L]. *)
Definition user_thread (n : Z) (L : list lockid) (F : list lockid) (s : S) : Prop :=
  on_cpu c (Some i) n L F (machine s) /\ ptable (view proc_lens s) !! i = Some pr.

Lemma user_thread_pipes n L F' P s : user_thread n L F' s -> user_thread n L F' (put pipes_lens P s).
Proof. intros [Hon Hp]. split; [by rewrite machine_put_other|by rewrite indep_view_l]. Qed.
Lemma user_thread_kmem n L F' m s : user_thread n L F' s -> user_thread n L F' (put kmem_lens m s).
Proof. intros [Hon Hp]. split; [by rewrite machine_put_other|by rewrite indep_view_l]. Qed.
Lemma memory_put_pipes P s : memory (put pipes_lens P s) = memory s.
Proof. apply indep_view_r. Qed.
Lemma pipes_put_kmem m s : view pipes_lens (put kmem_lens m s) = view pipes_lens s.
Proof. apply indep_view_l. Qed.
Lemma memory_put_kmem m s : memory (put kmem_lens m s) = m.
Proof. apply view_put. Qed.

Lemma wp_cur_pgdir n L F' (Q : Z -> S -> Prop) s :
  user_thread n L F' s -> Q (pgdir pr) s -> wp cur_pgdir Q s.
Proof.
  intros [(Hc & _ & (k & Hk & _ & Hp) & _) Hpr] HQ. eapply wp_getopt; [|done].
  by rewrite Hc; simpl; rewrite Hk; simpl; rewrite Hp; simpl; rewrite Hpr.
Qed.

Lemma wp_user_load n L F' va (Q : Z -> S -> Prop) s :
  user_thread n L F' s -> has_flag (pte_of (memory s) (pgdir pr) va) PTE_P = true ->
  Q (ubyte (memory s) (pgdir pr) va) s -> wp (user_load va) Q s.
Proof.
  intros Ht HP HQ. apply wp_bind. eapply wp_cur_pgdir; [done|]. eapply wp_getopt; [by rewrite HP|]. done.
Qed.

Lemma wp_user_store n L F' va b (Q : unit -> S -> Prop) s : let d := pgdir pr in
  user_thread n L F' s -> has_flag (pte_of (memory s) d va) PTE_P = true -> has_flag (pte_of (memory s) d va) PTE_W = true ->
  Q tt (put kmem_lens (st8 (user_addr (memory s) d va) b (memory s)) s) -> wp (user_store va b) Q s.
Proof.
  intros d Ht HP HW HQ. apply wp_bind. eapply wp_cur_pgdir; [done|]. apply wp_bind.
  eapply wp_getopt; [cbv beta zeta; unfold d in *; by rewrite HP, HW|]. by apply wp_modify.
Qed.

Lemma wp_pipe_at x (Q : pipe -> S -> Prop) s :
  view pipes_lens s !! p = Some x -> Q x s -> wp (pipe_at p) Q s.
Proof. intros Hx HQ. by eapply (wp_getopt (fun s => view pipes_lens s !! p)). Qed.

Lemma wp_pipe_upd f x (Q : unit -> S -> Prop) s :
  view pipes_lens s !! p = Some x -> Q tt (put pipes_lens (<[p := f x]> (view pipes_lens s)) s) -> wp (pipe_upd p f) Q s.
Proof.
  intros Hx HQ. apply wp_bind. eapply wp_pipe_at; [done|]. apply wp_modify.
  replace (alter f p (view pipes_lens s)) with (<[p := f x]> (view pipes_lens s)); [done|].
  apply map_eq. intros q. destruct (decide (p = q)) as [->|].
  - by rewrite lookup_insert_eq, lookup_alter_eq, Hx.
  - by rewrite lookup_insert_ne, lookup_alter_ne.
Qed.

(** The [for] of pipewrite() when there is room for all the bytes. *)
Lemma pipewrite_loop_run m j addr n L F' x q s : let d := pgdir pr in
  user_thread n L F' s -> view pipes_lens s !! p = Some x -> pipe_rep x q ->
  Z.of_nat (length q + m) <= PIPESIZE -> 0 <= addr + j -> addr + j + Z.of_nat m <= 2 ^ 32 ->
  (forall k, 0 <= k < Z.of_nat m -> has_flag (pte_of (memory s) d (addr + j + k)) PTE_P = true) ->
  wp (pipewrite_loop fuel m p addr j) (fun r s' => r = true /\ exists x',
    s' = put pipes_lens (<[p := x']> (view pipes_lens s)) s /\ p_readopen x' = p_readopen x /\ p_writeopen x' = p_writeopen x /\
    pipe_rep x' (q ++ map (fun k => ubyte (memory s) d (addr + j + Z.of_nat k)) (seq 0 m))) s.
Proof.
  intros d. revert j x q s. induction m as [|m IH]; intros j x q s Ht Hx Hq Hroom Ha H32 HP; simpl pipewrite_loop.
  { apply wp_ret. split; [done|]. exists x. simpl. rewrite app_nil_r. split_and!; try done.
    by rewrite insert_id, put_view by done. }
  apply wp_bind. assert (wp (pipewrite_wait fuel p) (fun r s' => r = true /\ s' = s) s) as Hw.
  { destruct fuel; simpl; apply wp_bind; (eapply wp_pipe_at; [done|]).
    all: rewrite (pipe_full _ _ Hq); destruct (Z.eqb_spec (Z.of_nat (length q)) PIPESIZE); [lia|]; by apply wp_ret. }
  eapply wp_mono; [|exact Hw]. intros r s' [-> ->]. simpl negb. cbv iota. apply wp_bind.
  rewrite u32_small by lia. specialize (HP 0 ltac:(lia)) as HP0. rewrite Z.add_0_r in HP0.
  eapply wp_user_load; [done|done|]. fold d. set (b := ubyte (memory s) d (addr + j)).
  apply wp_bind. eapply wp_pipe_upd; [done|]. set (s1 := put pipes_lens _ s).
  assert (memory s1 = memory s) as Em by apply memory_put_pipes.
  eapply wp_mono; [|apply (IH (j + 1) (pipe_push b x) (q ++ [b]) s1)].
  - intros r s' (-> & x' & -> & Hr & Hwo & Hq'). split; [done|]. exists x'. unfold s1 at 1 2. rewrite view_put, put_put, insert_insert_eq.
    split_and!; [done..|]. rewrite Em, <- app_assoc in Hq'. cbn [app seq map]. rewrite Z.add_0_r.
    rewrite <- seq_shift, map_map. rewrite (map_ext _ (fun k => ubyte (memory s) d (addr + (j + 1) + Z.of_nat k))); [exact Hq'|].
    intros k. f_equal. lia.
  - by apply user_thread_pipes.
  - unfold s1. rewrite view_put. apply lookup_insert_eq.
  - apply pipe_rep_push; [done|lia].
  - rewrite length_app. simpl. lia.
  - lia.
  - lia.
  - intros k Hk. rewrite Em. replace (addr + (j + 1) + k) with (addr + j + (k + 1)) by lia. apply HP. lia.
Qed.

(** The copying [for] of piperead(). *)
Lemma piperead_loop_run m j addr n N L F' x q s : let d := pgdir pr in
  user_thread n L F' s -> view pipes_lens s !! p = Some x -> pipe_rep x q ->
  user_buf (memory s) d addr N -> 0 <= j -> j + Z.of_nat m <= N ->
  wp (piperead_loop m p addr j) (fun r s' => let t := Nat.min m (length q) in r = j + Z.of_nat t /\ exists x' mm,
    s' = put kmem_lens mm (put pipes_lens (<[p := x']> (view pipes_lens s)) s) /\ p_readopen x' = p_readopen x /\ p_writeopen x' = p_writeopen x /\
    pipe_rep x' (drop t q) /\ user_stored d (addr + j) (take t q) (memory s) mm) s.
Proof.
  intros d. revert j x q s. induction m as [|m IH]; intros j x q s Ht Hx Hq Hb Hj HN; simpl piperead_loop.
  all: assert (user_stored d (addr + j) [] (memory s) (memory s)) as Hnil by (split_and!; [done|by intros [|?]|done]).
  all: assert (s = put kmem_lens (memory s) (put pipes_lens (<[p := x]> (view pipes_lens s)) s)) as Es
    by (rewrite insert_id, put_view by done; symmetry; apply put_view).
  { apply wp_ret. simpl. split; [lia|]. exists x, (memory s). by rewrite take_0, drop_0. }
  apply wp_bind. eapply wp_pipe_at; [done|]. rewrite (pipe_empty _ _ Hq). destruct q as [|b q].
  { rewrite bool_decide_true by done. apply wp_ret. simpl. split; [lia|]. by exists x, (memory s). }
  rewrite bool_decide_false by done. destruct (pipe_rep_pop _ _ _ Hq) as [Eb Hq1]. rewrite Eb.
  apply wp_bind. eapply wp_pipe_upd; [done|]. set (x1 := set_nread _ x) in *. set (s1 := put pipes_lens _ s).
  assert (memory s1 = memory s) as Em by apply memory_put_pipes.
  assert (user_thread n L F' s1) as Ht1 by (by apply user_thread_pipes).
  pose proof Hb as (Ha & H32 & _ & _ & Hu). rewrite u32_small by lia. apply wp_bind.
  eapply wp_user_store; [done|rewrite Em; apply (Hu j); lia|rewrite Em; apply (Hu j); lia|]. fold d. rewrite Em.
  set (m1 := st8 _ b (memory s)). set (s2 := put kmem_lens m1 s1).
  eapply wp_mono; [|apply (IH (j + 1) x1 q s2)].
  - intros r s' (-> & x' & mm & -> & Hr & Hwo & Hq' & Hst). cbn [length Nat.min]. split; [lia|]. exists x', mm.
    split_and!; [|done|done|done|].
    + unfold s2, s1. rewrite pipes_put_kmem, view_put, insert_insert_eq.
      rewrite <- (indep_put (l := pipes_lens) (k := kmem_lens)).
      by rewrite !put_put.
    + cbn [take]. apply (user_stored_cons _ _ _ N); [done|done| |].
      * rewrite length_take. lia.
      * unfold s2 in Hst. by rewrite memory_put_kmem in Hst.
  - by apply user_thread_kmem.
  - unfold s2. rewrite pipes_put_kmem. unfold s1. rewrite view_put. apply lookup_insert_eq.
  - done.
  - unfold s2. rewrite memory_put_kmem. by apply user_buf_step; [|lia].
  - lia.
  - lia.
Qed.
End runs.

(** ** Theorems *)
Section theorems.
Context {S : Type} `{PageOps S} `{!HasProc S} `{!HasPipes S} (fuel : nat).
Context `{!LensLaws (kmem_lens (S := S))} `{!LensIndep proc_lens pipes_lens} `{!LensIndep proc_lens (kmem_lens (S := S))}.
Context `{!LensIndep pipes_lens (kmem_lens (S := S))}.
Context (c i : nat) (F : list lockid) (pr : proc) (p : Z).

(** C15. pipe.c, pipewrite(): a pipe is a queue of bytes.  When the [n] bytes at the user address
    [addr] fit, they are added behind those already there, in order and across the wrap-around of
    the ring and of the 32-bit counters; the readers are woken, nothing else changes and the
    result is [n]. *)
Theorem pipewrite_enqueues addr n x q s : let d := pgdir pr in
  user_thread c i pr 0 [] F s -> pipe_lock p ∈ F -> ptable_lock ∈ F ->
  view pipes_lens s !! p = Some x -> pipe_rep x q -> 0 <= n -> Z.of_nat (length q) + n <= PIPESIZE ->
  0 <= addr -> addr + n <= 2 ^ 32 -> (forall k, 0 <= k < n -> has_flag (pte_of (memory s) d (addr + k)) PTE_P = true) ->
  wp (pipewrite fuel p addr n) (fun r s' => r = n /\ exists m x',
    s' = put_woken (nread_chan p) m (put pipes_lens (<[p := x']> (view pipes_lens s)) s) /\
    on_cpu c (Some i) 0 [] F m /\ p_readopen x' = p_readopen x /\ p_writeopen x' = p_writeopen x /\
    pipe_rep x' (q ++ map (fun k => ubyte (memory s) d (addr + Z.of_nat k)) (seq 0 (Z.to_nat n)))) s.
Proof.
  intros d [Hon Hp] HpF HtF Hx Hq Hn Hroom Ha H32 HP. apply wp_bind.
  eapply (wp_lock c (Some i) 0 [] F); [done..|]. intros m1 H1. apply wp_bind.
  eapply wp_mono; [|apply (pipewrite_loop_run fuel c i pr p (Z.to_nat n) 0 addr 1 [pipe_lock p] (without (pipe_lock p) F) x q)].
  - intros r s' (-> & x' & -> & Hr & Hwo & Hq'). simpl negb. cbv iota. rewrite Z.add_0_r in Hq'.
    apply wp_bind. eapply (wp_wakeup c (Some i) 1 [pipe_lock p] (without (pipe_lock p) F));
      [done|set_solver|by apply without_in|by rewrite machine_put_other, machine_put_pm|].
    intros m2 H2. apply wp_bind. eapply (wp_unlock c (Some i) 1 [] F); [done|set_solver|by rewrite machine_put_woken|].
    intros m3 H3. apply wp_ret. split; [done|]. exists m3, x'.
    rewrite put_pm_woken, view_put_pm, <- put_pm_other, put_woken_pm by done. split_and!; [done..|].
    unfold memory in Hq'. by rewrite view_put_pm in Hq' by done.
  - split; [by rewrite machine_put_pm|by rewrite ptable_put_pm].
  - by rewrite view_put_pm.
  - done.
  - lia.
  - lia.
  - lia.
  - intros k Hk. rewrite Z.add_0_r. unfold memory. rewrite view_put_pm by done. apply HP. lia.
Qed.

(** C16. pipe.c, piperead(): when the pipe holds bytes, or nobody can write to it any more, the
    call takes the oldest [min n (length q)] bytes off the queue without waiting, stores exactly
    them, in order, at the user address [addr], wakes the writers, and returns their number: 0 at
    the end of the stream.  Bytes it does not take stay in the pipe. *)
Theorem piperead_dequeues addr n x q s : let d := pgdir pr in
  user_thread c i pr 0 [] F s -> pipe_lock p ∈ F -> ptable_lock ∈ F ->
  view pipes_lens s !! p = Some x -> pipe_rep x q -> (q <> [] \/ p_writeopen x = 0) ->
  0 <= n -> user_buf (memory s) d addr n ->
  wp (piperead fuel p addr n) (fun r s' => let t := Nat.min (Z.to_nat n) (length q) in
    r = Z.of_nat t /\ exists m x' mm,
    s' = put_woken (nwrite_chan p) m (put kmem_lens mm (put pipes_lens (<[p := x']> (view pipes_lens s)) s)) /\
    on_cpu c (Some i) 0 [] F m /\ p_readopen x' = p_readopen x /\ p_writeopen x' = p_writeopen x /\
    pipe_rep x' (drop t q) /\ user_stored d addr (take t q) (memory s) mm) s.
Proof.
  intros d [Hon Hp] HpF HtF Hx Hq Hready Hn Hb. apply wp_bind.
  eapply (wp_lock c (Some i) 0 [] F); [done..|]. intros m1 H1. apply wp_bind.
  assert (view pipes_lens (put_pm m1 s) !! p = Some x) as Hx1 by (by rewrite view_put_pm).
  assert (memory (put_pm m1 s) = memory s) as Em by (by apply view_put_pm).
  assert (wp (piperead_wait fuel p) (fun r s' => r = true /\ s' = put_pm m1 s) (put_pm m1 s)) as Hw.
  { destruct fuel; simpl; apply wp_bind; (eapply wp_pipe_at; [done|]).
    all: rewrite (pipe_empty _ _ Hq); case_bool_decide as Hq0; simpl; [|by apply wp_ret].
    all: destruct Hready as [Hne|E0]; [done|rewrite E0]; by apply wp_ret. }
  eapply wp_mono; [|exact Hw]. intros r s' [-> ->]. simpl negb. cbv iota. apply wp_bind.
  eapply wp_mono; [|apply (piperead_loop_run c i pr p (Z.to_nat n) 0 addr 1 n [pipe_lock p] (without (pipe_lock p) F) x q)].
  - intros r s' (-> & x' & mm & -> & Hr & Hwo & Hq' & Hst). rewrite Z.add_0_r, Em in Hst.
    apply wp_bind. eapply (wp_wakeup c (Some i) 1 [pipe_lock p] (without (pipe_lock p) F));
      [done|set_solver|by apply without_in|by rewrite !machine_put_other, machine_put_pm|].
    intros m2 H2. apply wp_bind. eapply (wp_unlock c (Some i) 1 [] F); [done|set_solver|by rewrite machine_put_woken|].
    intros m3 H3. apply wp_ret. split; [lia|]. exists m3, x', mm.
    rewrite put_pm_woken, view_put_pm, <- !put_pm_other, put_woken_pm by done. done.
  - split; [by rewrite machine_put_pm|by rewrite ptable_put_pm].
  - done.
  - done.
  - by rewrite Em.
  - done.
  - lia.
Qed.
End theorems.

(** *** Witnesses: two bytes in a pipe whose counters are about to wrap *)
Definition kernel_p : Type := kernel_w * gmap Z pipe.
#[local] Existing Instances pages_w.
#[local] Instance pages_p : PageOps kernel_p := {|
  kalloc := zoom fst_lens kalloc; kfree v := zoom fst_lens (kfree v); kmem_lens := compose_lens fst_lens kmem_lens |}.
#[local] Instance proc_p : HasProc kernel_p := {| proc_lens := compose_lens fst_lens fst_lens |}.
#[local] Instance pipes_p : HasPipes kernel_p := {| pipes_lens := snd_lens |}.
#[local] Instance kmem_laws_p : LensLaws (kmem_lens (S := kernel_p)).
Proof. split; [done|by intros [[? []] ?]|done]. Qed.
#[local] Instance indep_p1 : LensIndep (S := kernel_p) proc_lens pipes_lens. Proof. done. Qed.
#[local] Instance indep_p2 : LensIndep (S := kernel_p) proc_lens kmem_lens. Proof. done. Qed.
#[local] Instance indep_p3 : LensIndep (S := kernel_p) pipes_lens kmem_lens. Proof. done. Qed.

Definition pipe_x : pipe := MkPipe (<[510%nat := 7]> (<[511%nat := 8]> (replicate 512 0))) (2 ^ 32 - 2) 0 1 1.
Definition kernel_p0 : kernel_p := (kernel_u, {[0x80205000 := pipe_x]}).

Lemma pipe_rep_x : pipe_rep pipe_x [7; 8].
Proof.
  split; [|reflexivity]. split; [reflexivity|]. split; [done|]. split; [done|].
  intros [|[|k]] b [= <-]; vm_compute; reflexivity.
Qed.

Lemma user_thread_x : user_thread 0 0 proc_u 0 [] [pipe_lock 0x80205000; ptable_lock] kernel_p0.
Proof.
  split; [|reflexivity]. split; [reflexivity|]. split; [lia|].
  split; [by eexists|]. split; repeat constructor.
Qed.

Lemma mem_w_pte va : 0 <= va < 4096 -> pte_of mem_w dir_w va = 0x202007.
Proof. intros Hva. rewrite pte_w by lia. rewrite decide_True; [done|]. apply Z.div_small. unfold PGSIZE. lia. Qed.

Lemma user_buf_x : user_buf mem_w dir_w 100 3.
Proof.
  split; [lia|]. split; [lia|]. split; [eapply pt_ok_sub; [apply pt_ok_w|apply list_subseteq_nil]|].
  split; [eapply user_pages_sub; [apply list_subseteq_nil|apply user_pages_w]|].
  intros i Hi. unfold user_ok. rewrite mem_w_pte by lia. done.
Qed.

Lemma pipewrite_enqueues_witness :
  wp (pipewrite 0 0x80205000 100 3) (fun r s' => r = 3 /\
    exists x, snd s' !! 0x80205000 = Some x /\ pipe_rep x [7; 8; 0; 0; 0]) kernel_p0.
Proof.
  refine (wp_mono _ _ _ _ _ (pipewrite_enqueues 0 0 0 [pipe_lock 0x80205000; ptable_lock] proc_u 0x80205000
    100 3 pipe_x [7; 8] kernel_p0 user_thread_x _ _ eq_refl pipe_rep_x ltac:(lia) _ ltac:(lia) ltac:(lia) _)).
  - intros r s' (-> & m & x' & -> & _ & _ & _ & Hq). split; [done|]. exists x'. split; [apply lookup_insert_eq|].
    assert (forall k, 0 <= k < 3 -> ubyte mem_w dir_w (100 + k) = 0) as E.
    { intros k Hk. unfold ubyte, user_addr. rewrite mem_w_pte by lia. rewrite Z.mod_small by (unfold PGSIZE; lia).
      change (P2V (PTE_ADDR 0x202007)) with 0x80202000. assert (k = 0 \/ k = 1 \/ k = 2) as [->|[->| ->]] by lia; reflexivity. }
    change (memory kernel_p0) with mem_w in Hq. change (pgdir proc_u) with dir_w in Hq. change (Z.to_nat 3) with 3%nat in Hq. cbn [seq map] in Hq.
    rewrite (E (Z.of_nat 0)), (E (Z.of_nat 1)), (E (Z.of_nat 2)) in Hq by lia. exact Hq.
  - by left.
  - by right; left.
  - done.
  - intros k Hk. change (memory kernel_p0) with mem_w. change (pgdir proc_u) with dir_w. by rewrite mem_w_pte by lia.
Defined.

Lemma piperead_dequeues_witness :
  wp (piperead 0 0x80205000 100 3) (fun r s' => r = 2 /\
    exists x, snd s' !! 0x80205000 = Some x /\ pipe_rep x []) kernel_p0.
Proof.
  refine (wp_mono _ _ _ _ _ (piperead_dequeues 0 0 0 [pipe_lock 0x80205000; ptable_lock] proc_u 0x80205000
    100 3 pipe_x [7; 8] kernel_p0 user_thread_x _ _ eq_refl pipe_rep_x _ ltac:(lia) user_buf_x)).
  - intros r s' (-> & m & x' & mm & -> & _ & _ & _ & Hq & _). split; [done|]. exists x'. split; [apply lookup_insert_eq|exact Hq].
  - by left.
  - by right; left.
  - by left.
Defined.
