(* ===== verification/File.v ===== *)
(** * Open files (file.c, file.h, the allocation of pipe.c)

    The table of open files and the operations on one file: a file is an end of a pipe (Pipe.v) or
    an inode with an offset (Fs.v, inside a transaction of Log.v).  A [struct file *] is an index
    into the table.  Data moves between files and the memory of the current process. *)
From S2P Require Import Prelude Mmu KString Spinlock Pages Kalloc Vm Sched Process Syscall Sleeplock Block Bio Log Fs Pipe.

Definition NFILE : nat := 100.

Inductive file_type := FD_NONE | FD_PIPE | FD_INODE.
#[export] Instance file_type_dec : EqDecision file_type.
Proof. solve_decision. Defined.

Record file := MkFile {
  f_type : file_type;
  f_ref : Z;              (* reference count *)
  f_readable : bool;
  f_writable : bool;
  f_pipe : Z;
  f_ip : option nat;
  f_off : Z
}.
Definition file0 : file := MkFile FD_NONE 0 false false 0 None 0.
Definition set_f_ref (x : Z) (f : file) : file :=
  MkFile (f_type f) x (f_readable f) (f_writable f) (f_pipe f) (f_ip f) (f_off f).
Definition set_f_type (x : file_type) (f : file) : file :=
  MkFile x (f_ref f) (f_readable f) (f_writable f) (f_pipe f) (f_ip f) (f_off f).
Definition set_f_readable (x : bool) (f : file) : file :=
  MkFile (f_type f) (f_ref f) x (f_writable f) (f_pipe f) (f_ip f) (f_off f).
Definition set_f_writable (x : bool) (f : file) : file :=
  MkFile (f_type f) (f_ref f) (f_readable f) x (f_pipe f) (f_ip f) (f_off f).
Definition set_f_pipe (x : Z) (f : file) : file :=
  MkFile (f_type f) (f_ref f) (f_readable f) (f_writable f) x (f_ip f) (f_off f).
Definition set_f_ip (x : option nat) (f : file) : file :=
  MkFile (f_type f) (f_ref f) (f_readable f) (f_writable f) (f_pipe f) x (f_off f).
Definition set_f_off (x : Z) (f : file) : file :=
  MkFile (f_type f) (f_ref f) (f_readable f) (f_writable f) (f_pipe f) (f_ip f) x.

(** [ftable]. *)
Definition ftable_lock : lockid := ("ftable", 0).
Class HasFtable (S : Type) := { ftable_lens : lens S (list file); ftable_lens_laws :: LensLaws ftable_lens }.

(** Fields of [struct pipe] in a page just allocated: after the lock's 52 bytes. *)
Definition pipe_of (m : mem) (p : Z) : pipe :=
  MkPipe (map (fun k => m (p + 52 + Z.of_nat k)) (seq 0 (Z.to_nat PIPESIZE)))
    (ld32 m (p + 564)) (ld32 m (p + 568)) (s32 (ld32 m (p + 572))) (s32 (ld32 m (p + 576))).

Definition sizeof_stat : Z := 20.

Section file.
Context {S : Type} `{PageOps S} `{ConsoleOps S} `{!HasProc S} `{!BlockOps S} `{!HasLog S} `{!HasFs S} `{!DevOps S}.
Context `{!HasPipes S} `{!HasFtable S} (fuel : nat).

Definition file_at (f : nat) : M S file := getopt (fun s => view ftable_lens s !! f).
Definition file_upd (f : nat) (g : file -> file) : M S unit :=
  let* _ := file_at f in modify (fun s => put ftable_lens (alter g f (view ftable_lens s)) s).

Definition fileinit : M S unit := ptab (kinitlock ftable_lock "ftable").

Definition filealloc : M S (option nat) :=
  ptab (kacquire ftable_lock);;;
  let* t := gets (view ftable_lens) in
  match find_index (fun f => f_ref f =? 0) t with
  | Some f =>
      file_upd f (set_f_ref 1);;;
      ptab (krelease ftable_lock);;;
      ret (Some f)
  | None => ptab (krelease ftable_lock);;; ret None
  end.

Definition filedup (f : nat) : M S nat :=
  ptab (kacquire ftable_lock);;;
  let* x := file_at f in
  if f_ref x <? 1 then panic "filedup" else
  file_upd f (fun x => set_f_ref (s32 (f_ref x + 1)) x);;;
  ptab (krelease ftable_lock);;;
  ret f.

(** [ip->f] through a pointer that may be null. *)
Definition deref {A} (o : option nat) (m : nat -> M S A) : M S A :=
  match o with Some i => m i | None => undef end.

Definition fileclose (f : nat) : M S unit :=
  ptab (kacquire ftable_lock);;;
  let* x := file_at f in
  if f_ref x <? 1 then panic "fileclose" else
  file_upd f (fun x => set_f_ref (f_ref x - 1) x);;;
  let* x := file_at f in
  if 0 <? f_ref x then ptab (krelease ftable_lock) else
  let ff := x in
  file_upd f (set_f_ref 0);;;
  file_upd f (set_f_type FD_NONE);;;
  ptab (krelease ftable_lock);;;
  match f_type ff with
  | FD_PIPE => pipeclose (f_pipe ff) (f_writable ff)
  | FD_INODE =>
      begin_op fuel;;;
      deref (f_ip ff) (iput fuel);;;
      end_op
  | FD_NONE => ret tt
  end.

(** Bytes stored one after the other at a user address, and bytes read there. *)
Fixpoint user_stores (va : Z) (bs : list Z) : M S unit :=
  match bs with
  | [] => ret tt
  | b :: bs' => user_store va b;;; user_stores (u32 (va + 1)) bs'
  end.
Fixpoint user_loads (va : Z) (m : nat) : M S (list Z) :=
  match m with
  | O => ret []
  | Datatypes.S m' =>
      let* b := user_load va in
      let* bs := user_loads (u32 (va + 1)) m' in
      ret (b :: bs)
  end.
Definition user_sink (addr : Z) : sink S unit := fun _ off bs => user_stores (u32 (addr + off)) bs.
Definition user_source (addr : Z) : source S := fun off m => user_loads (u32 (addr + off)) (Z.to_nat m).

(** The stores of stati() through [st]. *)
Definition stat_out (st : Z) (x : stat) : M S unit :=
  user_stores (u32 (st + 4)) (word_bytes (st_dev x));;;
  user_stores (u32 (st + 8)) (word_bytes (st_ino x));;;
  user_stores st (half_bytes (st_type x));;;
  user_stores (u32 (st + 12)) (half_bytes (st_nlink x));;;
  user_stores (u32 (st + 16)) (word_bytes (st_size x)).

Definition filestat (f : nat) (st : Z) : M S Z :=
  let* x := file_at f in
  if decide (f_type x = FD_INODE) then
    ilock fuel (f_ip x);;;
    let* s := deref (f_ip x) stati in
    stat_out st s;;;
    iunlock (f_ip x);;;
    ret 0
  else ret (-1).

Definition fileread (f : nat) (addr n : Z) : M S Z :=
  let* x := file_at f in
  if negb (f_readable x) then ret (-1) else
  match f_type x with
  | FD_PIPE => piperead fuel (f_pipe x) addr n
  | FD_INODE =>
      ilock fuel (f_ip x);;;
      let* x := file_at f in
      let* r := deref (f_ip x) (fun ip => readi (user_sink addr) tt ip (f_off x) (u32 n)) in
      when (0 <? fst r) (file_upd f (fun x => set_f_off (u32 (f_off x + fst r)) x));;;
      iunlock (f_ip x);;;
      ret (fst r)
  | FD_NONE => panic "fileread"
  end.

(** [max] of filewrite(). *)
Definition write_max : Z := (MAXOPBLOCKS - 1 - 1 - 2) / 2 * 512.

(** The loop of filewrite(): the value of [i] after it. *)
Fixpoint filewrite_loop (k : nat) (f : nat) (addr n i : Z) : M S Z :=
  if negb (i <? n) then ret i else
  match k with
  | O => nofuel
  | Datatypes.S k' =>
      let n1 := if write_max <? n - i then write_max else n - i in
      begin_op fuel;;;
      let* x := file_at f in
      ilock fuel (f_ip x);;;
      let* x := file_at f in
      let* r := deref (f_ip x) (fun ip => writei (user_source (u32 (addr + i))) ip (f_off x) n1) in
      when (0 <? r) (file_upd f (fun x => set_f_off (u32 (f_off x + r)) x));;;
      iunlock (f_ip x);;;
      end_op;;;
      if r <? 0 then ret i else
      if negb (r =? n1) then panic "short filewrite" else
      filewrite_loop k' f addr n (i + r)
  end.
Definition filewrite (f : nat) (addr n : Z) : M S Z :=
  let* x := file_at f in
  if negb (f_writable x) then ret (-1) else
  match f_type x with
  | FD_PIPE => pipewrite fuel (f_pipe x) addr n
  | FD_INODE =>
      let* i := filewrite_loop (Z.to_nat (n / write_max + 1)) f addr n 0 in
      ret (if i =? n then n else -1)
  | FD_NONE => panic "filewrite"
  end.

(** The label [bad] of pipealloc(). *)
Definition pipealloc_bad (p : Z) (f0 f1 : option nat) : M S (option (nat * nat)) :=
  when (negb (p =? 0)) (kfree p);;;
  (match f0 with Some f => fileclose f | None => ret tt end);;;
  (match f1 with Some f => fileclose f | None => ret tt end);;;
  ret None.

(** [Some (f0, f1)] are the reading and the writing end, [None] the result -1. *)
Definition pipealloc : M S (option (nat * nat)) :=
  let* f0 := filealloc in
  match f0 with
  | None => pipealloc_bad 0 None None
  | Some r =>
      let* f1 := filealloc in
      match f1 with
      | None => pipealloc_bad 0 (Some r) None
      | Some w =>
          let* p := kalloc in
          if p =? 0 then pipealloc_bad 0 (Some r) (Some w) else
          modify (fun s => put pipes_lens (<[p := pipe_of (memory s) p]> (view pipes_lens s)) s);;;
          pipe_upd p (set_readopen 1);;;
          pipe_upd p (set_writeopen 1);;;
          pipe_upd p (set_nwrite 0);;;
          pipe_upd p (set_nread 0);;;
          ptab (kinitlock (pipe_lock p) "pipe");;;
          file_upd r (set_f_type FD_PIPE);;;
          file_upd r (set_f_readable true);;;
          file_upd r (set_f_writable false);;;
          file_upd r (set_f_pipe p);;;
          file_upd w (set_f_type FD_PIPE);;;
          file_upd w (set_f_readable false);;;
          file_upd w (set_f_writable true);;;
          file_upd w (set_f_pipe p);;;
          ret (Some (r, w))
      end
  end.
End file.

(** ** Specifications *)

(** The page allocator neither depends on a component nor touches it. *)
Class PagesApart {S T} `{PageAllocator S} (L : lens S T) : Prop := {
  ap_put : forall t s l, pa_rep s l -> pa_rep (put L t s) l;
  ap_kfree : forall v, leaves L (kfree v)
}.

(** A pipe after one of its ends is closed. *)
Definition close_end (writable : bool) (y : pipe) : pipe :=
  if writable then set_writeopen 0 y else set_readopen 0 y.
Definition both_closed (y : pipe) : bool := (p_readopen y =? 0) && (p_writeopen y =? 0).

(** ** Lemmas *)
Section runs.
Context {S : Type} `{PageAllocator S} `{!HasProc S} `{!HasPipes S} `{!HasFtable S}.
Context `{!LensIndep proc_lens pipes_lens} `{!LensIndep proc_lens ftable_lens} `{!LensIndep pipes_lens ftable_lens}.
Context (rep_proc : forall t s l, pa_rep s l -> pa_rep (put proc_lens t s) l).
Context (c : nat) (o : option nat) (F : list lockid).

Lemma wp_file_at f x (Q : file -> S -> Prop) s :
  view ftable_lens s !! f = Some x -> Q x s -> wp (file_at f) Q s.
Proof. intros Hx HQ. by eapply (wp_getopt (fun s => view ftable_lens s !! f)). Qed.

Lemma wp_file_upd f g x (Q : unit -> S -> Prop) s :
  view ftable_lens s !! f = Some x -> Q tt (put ftable_lens (<[f := g x]> (view ftable_lens s)) s) -> wp (file_upd f g) Q s.
Proof.
  intros Hx HQ. apply wp_bind. eapply wp_file_at; [done|]. apply wp_modify.
  replace (alter g f (view ftable_lens s)) with (<[f := g x]> (view ftable_lens s)); [done|].
  apply list_eq. intros k. destruct (decide (f = k)) as [->|].
  - rewrite list_lookup_alter_eq, Hx. apply list_lookup_insert_eq. by eapply lookup_lt_Some.
  - by rewrite list_lookup_alter_ne, list_lookup_insert_ne.
Qed.

Context `{!PagesApart pipes_lens} `{!PagesApart ftable_lens}.

Lemma wp_pipeclose p (w : bool) y l s (Q : unit -> S -> Prop) :
  on_cpu c o 0 [] F (machine s) -> pipe_lock p ∈ F -> ptable_lock ∈ F -> pa_rep s l ->
  page_ok pa_end p -> p ∉ l -> view pipes_lens s !! p = Some y ->
  (forall s', view ftable_lens s' = view ftable_lens s ->
     (if both_closed (close_end w y) then view pipes_lens s' = delete p (view pipes_lens s) /\ pa_rep s' (p :: l)
      else view pipes_lens s' = <[p := close_end w y]> (view pipes_lens s) /\ pa_rep s' l) -> Q tt s') ->
  wp (pipeclose p w) Q s.
Proof.
  intros Hon HpF HtF Hrep Hpg Hpl Hy HQ. apply wp_bind.
  eapply (wp_lock c o 0 [] F); [done..|]. intros m1 H1. apply wp_bind.
  set (P := <[p := close_end w y]> (view pipes_lens s)).
  assert (wp (if w then pipe_upd p (set_writeopen 0);;; ptab (wakeup (nread_chan p))
              else pipe_upd p (set_readopen 0);;; ptab (wakeup (nwrite_chan p)))
    (fun _ s' => exists ch m, on_cpu c o 1 [pipe_lock p] (without (pipe_lock p) F) m /\
       s' = put_woken ch m (put pipes_lens P s)) (put_pm m1 s)) as Hmid.
  { destruct w; apply wp_bind; (eapply wp_pipe_upd; [by rewrite view_put_pm|]).
    all: rewrite view_put_pm, <- put_pm_other by done.
    all: eapply (wp_wakeup c o 1 [pipe_lock p] (without (pipe_lock p) F));
      [done|set_solver|by apply without_in|by rewrite machine_put_pm|].
    all: intros m2 H2; rewrite put_woken_pm; by eexists _, m2. }
  eapply wp_mono; [|exact Hmid]. intros [] s2 (ch & m2 & H2 & ->). apply wp_bind.
  assert (view pipes_lens (put_woken ch m2 (put pipes_lens P s)) = P) as EP by (by rewrite view_put_woken, view_put).
  eapply wp_pipe_at; [rewrite EP; apply lookup_insert_eq|]. fold (both_closed (close_end w y)).
  assert (forall m, view ftable_lens (put_pm m (put_woken ch m2 (put pipes_lens P s))) = view ftable_lens s) as EF
    by (intros m; rewrite view_put_pm, view_put_woken by done; apply indep_view_r).
  destruct (both_closed (close_end w y)).
  - apply wp_bind. eapply (wp_unlock c o 1 [] F); [done|set_solver|by rewrite machine_put_woken|].
    intros m3 H3. apply wp_bind, wp_modify. rewrite view_put_pm, EP by done. set (s3 := put pipes_lens _ _).
    assert (pa_rep s3 l) as Hrep3 by (apply ap_put, rep_proc, rep_proc, ap_put, Hrep).
    eapply wp_mono; [|apply (wp_leaves pipes_lens); [apply ap_kfree|];
      apply (wp_leaves ftable_lens); [apply ap_kfree|by apply (pa_kfree s3 l p)]].
    intros [] s4 [[[_ Hr4] E4] E5]. apply HQ.
    + rewrite E4. unfold s3. rewrite indep_view_r. by apply EF.
    + rewrite E5. unfold s3. rewrite view_put. unfold P. by rewrite delete_insert_eq.
  - eapply (wp_unlock c o 1 [] F); [done|set_solver|by rewrite machine_put_woken|].
    intros m3 H3. apply HQ; [by apply EF|]. rewrite view_put_pm, EP by done. split; [done|].
    apply rep_proc, rep_proc, ap_put, Hrep.
Qed.
End runs.

(** ** Theorems *)

(** C25. file.c, fileclose(), with pipe.c and the page allocator: references are counted.  Closing a
    file that is referenced elsewhere only drops the count.  Closing the last reference to an end
    of a pipe frees the table entry and closes that end; the pipe stays for the other end as long
    as it is open, and with the second end its page goes back to the free pages, exactly once. *)
Theorem fileclose_pipe {S} `{PageAllocator S} `{!HasProc S} `{!BlockOps S} `{!HasLog S} `{!HasFs S} `{!HasPipes S}
    `{!HasFtable S} `{!LensIndep proc_lens pipes_lens} `{!LensIndep proc_lens ftable_lens}
    `{!LensIndep pipes_lens ftable_lens} `{!PagesApart pipes_lens} `{!PagesApart ftable_lens}
    fuel c o F f x y l s :
  (forall t s l, pa_rep s l -> pa_rep (put proc_lens t s) l) ->
  on_cpu c o 0 [] F (machine s) -> ftable_lock ∈ F -> pipe_lock (f_pipe x) ∈ F -> ptable_lock ∈ F -> pa_rep s l ->
  view ftable_lens s !! f = Some x -> f_type x = FD_PIPE -> 1 <= f_ref x ->
  view pipes_lens s !! f_pipe x = Some y -> page_ok pa_end (f_pipe x) -> f_pipe x ∉ l ->
  let y' := close_end (f_writable x) y in
  wp (fileclose fuel f) (fun _ s' =>
    if 1 <? f_ref x then
      view ftable_lens s' = <[f := set_f_ref (f_ref x - 1) x]> (view ftable_lens s) /\
      view pipes_lens s' = view pipes_lens s /\ pa_rep s' l
    else
      view ftable_lens s' = <[f := set_f_type FD_NONE (set_f_ref 0 x)]> (view ftable_lens s) /\
      if both_closed y' then view pipes_lens s' = delete (f_pipe x) (view pipes_lens s) /\ pa_rep s' (f_pipe x :: l)
      else view pipes_lens s' = <[f_pipe x := y']> (view pipes_lens s) /\ pa_rep s' l) s.
Proof.
  intros rep_proc Hon HfF HpF HtF Hrep Hx Hty Href Hy Hpg Hpl y'. unfold fileclose. apply wp_bind.
  eapply (wp_lock c o 0 [] F); [done..|]. intros m1 Hm1. apply wp_bind.
  eapply wp_file_at; [by rewrite view_put_pm|]. destruct (Z.ltb_spec (f_ref x) 1); [lia|]. apply wp_bind.
  eapply wp_file_upd; [by rewrite view_put_pm|]. rewrite view_put_pm by done.
  set (t1 := <[f := _]> (view ftable_lens s)). apply wp_bind.
  assert (f < length (view ftable_lens s))%nat as Hlt by (by eapply lookup_lt_Some).
  assert (view ftable_lens (put ftable_lens t1 (put_pm m1 s)) = t1) as E1 by apply view_put.
  assert (t1 !! f = Some (set_f_ref (f_ref x - 1) x)) as Et1 by (by apply list_lookup_insert_eq).
  eapply wp_file_at; [by rewrite E1|]. simpl f_ref. destruct (Z.ltb_spec 1 (f_ref x)), (Z.ltb_spec 0 (f_ref x - 1)); try lia.
  - eapply (wp_unlock c o 1 [] F); [done|set_solver|by rewrite machine_put_other, machine_put_pm|].
    intros m2 Hm2. rewrite !view_put_pm by done. split_and!; [done| |].
    + rewrite indep_view_l. by apply view_put_pm.
    + apply rep_proc, ap_put, rep_proc, Hrep.
  - apply wp_bind. eapply wp_file_upd; [by rewrite E1|]. rewrite E1, put_put. apply wp_bind.
    eapply wp_file_upd; [rewrite view_put; apply list_lookup_insert_eq; unfold t1; by rewrite length_insert|].
    rewrite view_put, put_put. set (t2 := <[f := set_f_type FD_NONE (set_f_ref 0 (set_f_ref (f_ref x - 1) x))]> _).
    assert (t2 = <[f := set_f_type FD_NONE (set_f_ref 0 x)]> (view ftable_lens s)) as <-
      by (unfold t2, t1; by rewrite !list_insert_insert_eq).
    apply wp_bind. eapply (wp_unlock c o 1 [] F); [done|set_solver|by rewrite machine_put_other, machine_put_pm|].
    intros m2 Hm2. simpl f_type. rewrite Hty. set (s2 := put_pm m2 _).
    assert (view pipes_lens s2 = view pipes_lens s) as EP
      by (unfold s2; rewrite view_put_pm, indep_view_l by done; by apply view_put_pm).
    assert (view ftable_lens s2 = t2) as EF by (unfold s2; rewrite view_put_pm by done; apply view_put).
    eapply (wp_pipeclose rep_proc c o F _ _ y l); [by unfold s2; rewrite machine_put_pm|done|done|
      apply rep_proc, ap_put, rep_proc, Hrep|done|done|by rewrite EP|].
    intros s' Ef Hres. rewrite EP in Hres. rewrite <- EF. done.
Qed.

(** *** Witness: closing the last end of a pipe in a whole kernel *)

(** The file system's kernel (processes, buffer cache, disk, log, inodes), kernel memory with its
    allocator, the pipes and the table of files. *)
Definition kernel_s : Type := kern_f * (kst * (gmap Z pipe * list file)).
#[export] Instance proc_s : HasProc kernel_s :=
  {| proc_lens := compose_lens fst_lens (compose_lens fst_lens (compose_lens fst_lens fst_lens)) |}.
#[export] Instance bio_s : HasBio kernel_s :=
  {| bio_lens := compose_lens fst_lens (compose_lens fst_lens (compose_lens fst_lens (compose_lens snd_lens fst_lens))) |}.
#[export] Instance memdisk_s : HasMemdisk kernel_s :=
  {| memdisk_lens := compose_lens fst_lens (compose_lens fst_lens (compose_lens fst_lens (compose_lens snd_lens snd_lens))) |}.
#[export] Instance log_s : HasLog kernel_s := {| log_lens := compose_lens fst_lens (compose_lens fst_lens snd_lens) |}.
#[export] Instance fs_s : HasFs kernel_s := {| fs_lens := compose_lens fst_lens snd_lens |}.
#[export] Instance pipes_s : HasPipes kernel_s := {| pipes_lens := compose_lens snd_lens (compose_lens snd_lens fst_lens) |}.
#[export] Instance ftable_s : HasFtable kernel_s := {| ftable_lens := compose_lens snd_lens (compose_lens snd_lens snd_lens) |}.
#[export] Instance ops_s : BlockOps kernel_s := bio_ops (DiskOps0 := memide_ops) 0.
Definition kst_lens : lens kernel_s kst := compose_lens snd_lens fst_lens.
#[export] Instance kst_lens_laws : LensLaws kst_lens. Proof. apply _. Qed.
#[export] Instance pages_s : PageOps kernel_s := zoom_pages (H := bestfit_ops 0x80200000) kst_lens.
#[export] Instance allocator_s : PageAllocator kernel_s :=
  zoom_allocator (H := bestfit_ops 0x80200000) (H0 := bestfit_allocator 0x80200000 0 None 0 [] []) kst_lens.

#[export] Instance indep_s1 : LensIndep (S := kernel_s) proc_lens pipes_lens. Proof. done. Qed.
#[export] Instance indep_s2 : LensIndep (S := kernel_s) proc_lens ftable_lens. Proof. done. Qed.
#[export] Instance indep_s3 : LensIndep (S := kernel_s) pipes_lens ftable_lens. Proof. done. Qed.
#[export] Instance indep_s4 : LensIndep (S := kernel_s) pipes_lens kst_lens. Proof. done. Qed.
#[export] Instance indep_s5 : LensIndep (S := kernel_s) ftable_lens kst_lens. Proof. done. Qed.
#[export] Instance apart_s1 : PagesApart (S := kernel_s) pipes_lens.
Proof. split; [done|]. intros v. by apply steady_leaves, steady_zoom. Qed.
#[export] Instance apart_s2 : PagesApart (S := kernel_s) ftable_lens.
Proof. split; [done|]. intros v. by apply steady_leaves, steady_zoom. Qed.

(** File 0 is the writing end of the pipe at 0x80206000, whose reading end is closed. *)
Definition file_x : file := MkFile FD_PIPE 1 false true 0x80206000 None 0.
Definition kernel_s0 : kernel_s :=
  ((((fst kernel_u, snd (fst (fst kern_f0))), snd (fst kern_f0)), snd kern_f0),
   (kst_v, ({[0x80206000 := set_readopen 0 pipe_x]}, file_x :: replicate 99 file0))).

Lemma fileclose_pipe_witness :
  wp (S := kernel_s) (fileclose 0 0) (fun _ s' => view pipes_lens s' = ∅ /\
    head (view ftable_lens s') = Some (MkFile FD_NONE 0 false true 0x80206000 None 0) /\
    pa_rep s' [0x80206000; 0x80204000]) kernel_s0.
Proof.
  refine (wp_mono _ _ _ _ _ (fileclose_pipe (S := kernel_s) 0 0 (Some 0%nat)
    [ftable_lock; pipe_lock 0x80206000; ptable_lock] 0 file_x (set_readopen 0 pipe_x) [0x80204000] kernel_s0
    _ _ _ _ _ rep_w eq_refl eq_refl _ eq_refl _ _)).
  - intros [] s' (E1 & E2 & E3). split; [rewrite E2; reflexivity|]. split; [rewrite E1; reflexivity|exact E3].
  - done.
  - split; [reflexivity|]. split; [lia|]. split; [by eexists|]. split; repeat constructor.
  - by left.
  - by right; left.
  - by right; right; left.
  - done.
  - vm_compute. split_and!; congruence.
  - intros [E|[]%elem_of_nil]%elem_of_cons. discriminate E.
Defined.
