(* ===== verification/Exec.v ===== *)
(** * Running a program (exec.c, elf.h)

    [exec] reads an ELF file, builds a new address space with the program and its arguments, and
    gives it to the current process.  The path and the arguments are strings in the memory of the
    process that calls it, read through its own page table until the new one replaces it. *)
From S2P Require Import Prelude Mmu KString Spinlock Pages Kalloc Vm Sched Process Syscall Sleeplock Block Bio Log Fs Pipe File.

Definition MAXARG : nat := 32.
Definition ELF_MAGIC : Z := 0x464C457F.
Definition ELF_PROG_LOAD : Z := 1.

(** [struct elfhdr] and [struct proghdr] as bytes, and the fields exec() uses. *)
Definition sizeof_elfhdr : Z := 52.
Definition elf_magic (d : list Z) : Z := word_at d 0.
Definition elf_entry (d : list Z) : Z := word_at d 24.
Definition elf_phoff (d : list Z) : Z := word_at d 28.
Definition elf_phnum (d : list Z) : Z := half_at d 44.
Definition sizeof_proghdr : Z := 32.
Definition ph_type (d : list Z) : Z := word_at d 0.
Definition ph_off (d : list Z) : Z := word_at d 4.
Definition ph_vaddr (d : list Z) : Z := word_at d 8.
Definition ph_paddr (d : list Z) : Z := word_at d 12.
Definition ph_filesz (d : list Z) : Z := word_at d 16.
Definition ph_memsz (d : list Z) : Z := word_at d 20.

Definition set_tf_start (eip esp : Z) (t : trapframe) : trapframe :=
  MkTf (tf_edi t) (tf_esi t) (tf_ebp t) (tf_oesp t) (tf_ebx t) (tf_edx t) (tf_ecx t) (tf_eax t)
    (tf_gs t) (tf_fs t) (tf_es t) (tf_ds t) (tf_trapno t) (tf_err t) eip (tf_cs t)
    (tf_eflags t) esp (tf_ss t).

(** The bytes [bs] stored at the kernel address [a]. *)
Fixpoint store_bytes (a : Z) (bs : list Z) (m : mem) : mem :=
  match bs with [] => m | b :: bs' => store_bytes (a + 1) bs' (st8 a b m) end.

(** The loop that finds the last component of the path; [s] is what is left of it. *)
Fixpoint last_name (s last : list Z) : list Z :=
  match s with
  | [] => last
  | c :: s' => if c =? 0 then last else last_name s' (if c =? slash then s' else last)
  end.

Section exec.
Context {S : Type} `{PageOps S} `{ConsoleOps S} `{!HasProc S} `{!BlockOps S} `{!HasLog S} `{!HasFs S} `{!DevOps S}.
Context (fuel : nat) (syms : proc_symbols).

(** A string of user memory.  The kernel only follows strings that fetchstr() has found to end
    inside the process' memory, whose size bounds the walk. *)
Fixpoint user_str_loop (k : nat) (va : Z) : M S (list Z) :=
  let* c := user_load va in
  if c =? 0 then ret [] else
  match k with
  | O => nofuel
  | Datatypes.S k' => let* t := user_str_loop k' (u32 (va + 1)) in ret (c :: t)
  end.
Definition user_str (va : Z) : M S (list Z) := let* p := curp in user_str_loop (Z.to_nat (sz p)) va.

(** copyout() (vm.c) from a source that need not be kernel memory. *)
Fixpoint copyout_src_loop (k : nat) (pgdir va : Z) (src : source S) (off len : Z) : M S Z :=
  if len <=? 0 then ret 0 else
  match k with
  | O => nofuel
  | Datatypes.S k' =>
      let va0 := PGROUNDDOWN va in
      let* pa0 := uva2ka pgdir va0 in
      if pa0 =? 0 then ret (-1) else
      let n := u32 (PGSIZE - (va - va0)) in
      let n := if len <? n then len else n in
      let* bs := src off n in
      pokes (pa0 + (va - va0)) (store_bytes (pa0 + (va - va0)) bs);;;
      copyout_src_loop k' pgdir (u32 (va0 + PGSIZE)) src (off + n) (u32 (len - n))
  end.
Definition copyout_src (pgdir va : Z) (src : source S) (len : Z) : M S Z :=
  copyout_src_loop (Z.to_nat (len / PGSIZE + 2)) pgdir va src 0 len.

(** readi() into kernel memory, as loaduvm() calls it. *)
Definition kmem_sink (dst : Z) : sink S unit := fun _ off bs => pokes (dst + off) (store_bytes (dst + off) bs).
Definition readi_kmem (ip : nat) (dst off n : Z) : M S Z :=
  let* r := readi (kmem_sink dst) tt ip off n in ret (fst r).

(** The label [bad]. *)
Definition exec_bad (pgdir : Z) (ip : option nat) : M S Z :=
  when (negb (pgdir =? 0)) (freevm pgdir);;;
  (match ip with Some i => iunlockput fuel i;;; end_op | None => ret tt end);;;
  ret (-1).

(** The loop over the program headers, with [k] to go: the new size, or [None] for [goto bad]. *)
Fixpoint exec_load (k : nat) (pgdir : Z) (ip : nat) (ph : list Z) (off sz : Z) : M S (option Z) :=
  match k with
  | O => ret (Some sz)
  | Datatypes.S k' =>
      let* r := readi to_var ph ip (u32 off) sizeof_proghdr in
      let ph := snd r in
      if negb (fst r =? sizeof_proghdr) then ret None else
      let next := s32 (off + sizeof_proghdr) in
      if negb (ph_type ph =? ELF_PROG_LOAD) then exec_load k' pgdir ip ph next sz else
      if ph_memsz ph <? ph_filesz ph then ret None else
      if u32 (ph_vaddr ph + ph_memsz ph) <? ph_vaddr ph then ret None else
      let* sz := allocuvm pgdir sz (u32 (ph_vaddr ph + ph_memsz ph)) in
      if sz =? 0 then ret None else
      if negb (ph_vaddr ph mod PGSIZE =? 0) then ret None else
      let* r := loaduvm (readi_kmem ip) pgdir (ph_vaddr ph) (ph_off ph) (ph_filesz ph) in
      if r <? 0 then ret None else exec_load k' pgdir ip ph next sz
  end.

(** The loop that pushes the argument strings: the stack pointer and the pointers pushed. *)
Fixpoint exec_args (argv : list Z) (pgdir sp : Z) (ptrs : list Z) : M S (option (Z * list Z)) :=
  match argv with
  | [] => ret (Some (sp, ptrs))
  | a :: argv' =>
      if (MAXARG <=? length ptrs)%nat then ret None else
      let* s := user_str a in
      let len := Z.of_nat (length s) + 1 in
      let sp := Z.land (u32 (sp - len)) (u32 (Z.lnot 3)) in
      let* r := copyout_src pgdir sp (fun off m => ret (bytes_from (Z.to_nat off) (Z.to_nat m) (s ++ [0]))) len in
      if r <? 0 then ret None else exec_args argv' pgdir sp (ptrs ++ [sp])
  end.

(** The rest of exec(), from the allocation of the stack on. *)
Definition exec_image (cur : nat) (path : Z) (argv : list Z) (pgdir entry sz : Z) : M S Z :=
  let sz := PGROUNDUP sz in
  let* sz := allocuvm pgdir sz (u32 (sz + 2 * PGSIZE)) in
  if sz =? 0 then exec_bad pgdir None else
  clearpteu pgdir (u32 (sz - 2 * PGSIZE));;;
  let* args := exec_args argv pgdir sz [] in
  match args with
  | None => exec_bad pgdir None
  | Some (sp, ptrs) =>
      let argc := Z.of_nat (length ptrs) in
      let ustack := [0xffffffff; argc; u32 (sp - (argc + 1) * 4)] ++ ptrs ++ [0] in
      let sp := u32 (sp - (3 + argc + 1) * 4) in
      let* r := copyout_src pgdir sp (from_var (mbind word_bytes ustack)) ((3 + argc + 1) * 4) in
      if r <? 0 then exec_bad pgdir None else
      let* s := user_str path in
      ptab (proc_upd cur (fun p => set_name (safestrcpy_name (name p) (last_name s s ++ [0]) 16) p));;;
      let* p := ptab (proc_at cur) in
      let oldpgdir := Sched.pgdir p in
      ptab (proc_upd cur (set_pgdir pgdir));;;
      ptab (proc_upd cur (set_sz sz));;;
      ptab (proc_upd cur (fun p => set_tf (set_tf_start entry sp (tf p)) p));;;
      ptab (switchuvm (Some cur));;;
      freevm oldpgdir;;;
      ret 0
  end.

(** [argv] holds the addresses before the null pointer. *)
Definition exec (path : Z) (argv : list Z) : M S Z :=
  let* cur := ptab curproc in
  begin_op fuel;;;
  let* s := user_str path in
  let* ip := namei fuel s in
  match ip with
  | None =>
      end_op;;;
      cprintf ("exec: fail" +:+ nl) [];;;
      ret (-1)
  | Some ip =>
      ilock fuel (Some ip);;;
      let* r := readi to_var (replicate (Z.to_nat sizeof_elfhdr) 0) ip 0 sizeof_elfhdr in
      let elf := snd r in
      if negb (fst r =? sizeof_elfhdr) then exec_bad 0 (Some ip) else
      if negb (elf_magic elf =? ELF_MAGIC) then exec_bad 0 (Some ip) else
      let* pgdir := setupkvm (data_sym syms) in
      if pgdir =? 0 then exec_bad 0 (Some ip) else
      let* sz := exec_load (Z.to_nat (elf_phnum elf)) pgdir ip (replicate (Z.to_nat sizeof_proghdr) 0)
        (s32 (elf_phoff elf)) 0 in
      match sz with
      | None => exec_bad pgdir (Some ip)
      | Some sz =>
          iunlockput fuel ip;;;
          end_op;;;
          exec_image cur path argv pgdir (elf_entry elf) sz
      end
  end.
End exec.
