(* ===== verification/Sysfile.v ===== *)
(** * File-system system calls (sysfile.c)

    Argument checking and calls into File.v, Fs.v, Log.v and Exec.v.  A path argument is the user
    address that argstr() returned; its bytes are read where the C code follows the pointer.  The
    last part makes these functions, and those of File.v, Fs.v and Log.v that proc.c calls, into
    the instances [SysFile] and [ProcFs] of the interfaces of Syscall.v and Process.v. *)
From S2P Require Import Prelude Mmu KString Spinlock Pages Kalloc Vm Sched Process Syscall Sleeplock Block Bio Log Fs Pipe File Exec.

Definition O_RDONLY : Z := 0x000.
Definition O_WRONLY : Z := 0x001.
Definition O_RDWR : Z := 0x002.
Definition O_CREATE : Z := 0x200.

(** The strings "." and "..". *)
Definition dot : list Z := [46].
Definition dotdot : list Z := [46; 46].

Section sysfile.
Context {S : Type} `{PageOps S} `{ConsoleOps S} `{!HasProc S} `{!BlockOps S} `{!HasLog S} `{!HasFs S} `{!DevOps S}.
Context `{!HasPipes S} `{!HasFtable S} (fuel : nat) (syms : proc_symbols).

(** The descriptor and the file, or [None] for -1. *)
Definition argfd (n : Z) : M S (option (nat * nat)) :=
  let* a := argint n in
  match a with
  | None => ret None
  | Some fd =>
      if (fd <? 0) || (Z.of_nat NOFILE <=? fd) then ret None else
      let* p := curp in
      match ofile p !!! Z.to_nat fd with
      | None => ret None
      | Some f => ret (Some (Z.to_nat fd, f))
      end
  end.

(** The lowest free descriptor takes the file. *)
Definition fdalloc (f : nat) : M S (option nat) :=
  let* i := ptab curproc in
  let* p := ptab (proc_at i) in
  match find_index (fun o => bool_decide (o = None)) (ofile p) with
  | Some fd =>
      ptab (proc_upd i (fun p => set_ofile (<[fd := Some f]> (ofile p)) p));;;
      ret (Some fd)
  | None => ret None
  end.

(** [myproc()->ofile[fd] = 0]. *)
Definition fdclear (fd : nat) : M S unit :=
  let* i := ptab curproc in ptab (proc_upd i (fun p => set_ofile (<[fd := None]> (ofile p)) p)).

Definition sys_dup : M S Z :=
  let* a := argfd 0 in
  match a with
  | None => ret (-1)
  | Some (_, f) =>
      let* fd := fdalloc f in
      match fd with
      | None => ret (-1)
      | Some fd => let* _ := filedup f in ret (Z.of_nat fd)
      end
  end.

(** The arguments of sys_read() and sys_write(). *)
Definition rw_args : M S (option (nat * Z * Z)) :=
  let* a := argfd 0 in
  match a with
  | None => ret None
  | Some (_, f) =>
      let* n := argint 2 in
      match n with
      | None => ret None
      | Some n =>
          let* p := argptr 1 n in
          ret (match p with Some p => Some (f, p, n) | None => None end)
      end
  end.
Definition sys_read : M S Z :=
  let* a := rw_args in
  match a with Some (f, p, n) => fileread fuel f p n | None => ret (-1) end.
Definition sys_write : M S Z :=
  let* a := rw_args in
  match a with Some (f, p, n) => filewrite fuel f p n | None => ret (-1) end.

Definition sys_close : M S Z :=
  let* a := argfd 0 in
  match a with
  | None => ret (-1)
  | Some (fd, f) =>
      fdclear fd;;;
      fileclose fuel f;;;
      ret 0
  end.

Definition sys_fstat : M S Z :=
  let* a := argfd 0 in
  match a with
  | None => ret (-1)
  | Some (_, f) =>
      let* st := argptr 1 sizeof_stat in
      match st with Some st => filestat fuel f st | None => ret (-1) end
  end.

(** [ip->nlink++] and [ip->nlink--] on a short. *)
Definition add_nlink (k : Z) (x : inode) : inode := set_i_nlink (s16 (i_nlink x + k)) x.

(** The label [bad] of sys_link(). *)
Definition link_bad (ip : nat) : M S Z :=
  ilock fuel (Some ip);;;
  ino_upd ip (add_nlink (-1));;;
  iupdate ip;;;
  iunlockput fuel ip;;;
  end_op;;;
  ret (-1).

Definition sys_link : M S Z :=
  let* old := argstr 0 in
  match old with
  | None => ret (-1)
  | Some (old, _) =>
      let* new := argstr 1 in
      match new with
      | None => ret (-1)
      | Some (new, _) =>
          begin_op fuel;;;
          let* path := user_str old in
          let* ip := namei fuel path in
          match ip with
          | None => end_op;;; ret (-1)
          | Some ip =>
              ilock fuel (Some ip);;;
              let* x := ino ip in
              if i_type x =? T_DIR then iunlockput fuel ip;;; end_op;;; ret (-1) else
              ino_upd ip (add_nlink 1);;;
              iupdate ip;;;
              iunlock (Some ip);;;
              let* path := user_str new in
              let* r := nameiparent fuel path name0 in
              match fst r with
              | None => link_bad ip
              | Some dp =>
                  ilock fuel (Some dp);;;
                  let* y := ino dp in
                  let* x := ino ip in
                  let* bad := (if negb (i_dev y =? i_dev x) then ret true
                               else let* e := dirlink fuel dp (snd r) (i_inum x) in ret (e <? 0)) in
                  if bad then iunlockput fuel dp;;; link_bad ip else
                  iunlockput fuel dp;;;
                  iput fuel ip;;;
                  end_op;;;
                  ret 0
              end
          end
      end
  end.

(** The loop of isdirempty(), from the third entry on. *)
Fixpoint isdirempty_loop (k : nat) (dp : nat) (de : list Z) (off : Z) : M S bool :=
  let* x := ino dp in
  if negb (u32 off <? i_size x) then ret true else
  match k with
  | O => nofuel
  | Datatypes.S k' =>
      let* de := read_dirent "isdirempty: readi" dp de (u32 off) in
      if negb (de_inum de =? 0) then ret false else isdirempty_loop k' dp de (off + sizeof_dirent)
  end.
Definition isdirempty (dp : nat) : M S bool :=
  let* x := ino dp in isdirempty_loop (dir_fuel (i_size x)) dp dirent0 (2 * sizeof_dirent).

Definition unlink_bad (dp : nat) : M S Z :=
  iunlockput fuel dp;;;
  end_op;;;
  ret (-1).

Definition sys_unlink : M S Z :=
  let* path := argstr 0 in
  match path with
  | None => ret (-1)
  | Some (path, _) =>
      begin_op fuel;;;
      let* path := user_str path in
      let* r := nameiparent fuel path name0 in
      let name := snd r in
      match fst r with
      | None => end_op;;; ret (-1)
      | Some dp =>
          ilock fuel (Some dp);;;
          if (namecmp name dot =? 0) || (namecmp name dotdot =? 0) then unlink_bad dp else
          let* e := dirlookup dp name in
          match e with
          | None => unlink_bad dp
          | Some (ip, off) =>
              ilock fuel (Some ip);;;
              let* x := ino ip in
              if i_nlink x <? 1 then panic "unlink: nlink < 1" else
              let* full := (if i_type x =? T_DIR then let* b := isdirempty ip in ret (negb b) else ret false) in
              if full then iunlockput fuel ip;;; unlink_bad dp else
              let* r := writei (from_var dirent0) dp off sizeof_dirent in
              if negb (r =? sizeof_dirent) then panic "unlink: writei" else
              let* x := ino ip in
              when (i_type x =? T_DIR) (
                ino_upd dp (add_nlink (-1));;;
                iupdate dp);;;
              iunlockput fuel dp;;;
              ino_upd ip (add_nlink (-1));;;
              iupdate ip;;;
              iunlockput fuel ip;;;
              end_op;;;
              ret 0
          end
      end
  end.

(** The new (or existing) inode, locked; ialloc() never returns null. *)
Definition create (path : Z) (type major minor : Z) : M S (option nat) :=
  let* path := user_str path in
  let* r := nameiparent fuel path name0 in
  let name := snd r in
  match fst r with
  | None => ret None
  | Some dp =>
      ilock fuel (Some dp);;;
      let* e := dirlookup dp name in
      match e with
      | Some (ip, _) =>
          iunlockput fuel dp;;;
          ilock fuel (Some ip);;;
          let* x := ino ip in
          if (type =? T_FILE) && (i_type x =? T_FILE) then ret (Some ip) else
          iunlockput fuel ip;;;
          ret None
      | None =>
          let* y := ino dp in
          let* ip := ialloc (i_dev y) type in
          ilock fuel (Some ip);;;
          ino_upd ip (set_i_major major);;;
          ino_upd ip (set_i_minor minor);;;
          ino_upd ip (set_i_nlink 1);;;
          iupdate ip;;;
          when (type =? T_DIR) (
            ino_upd dp (add_nlink 1);;;
            iupdate dp;;;
            let* x := ino ip in
            let* e := dirlink fuel ip dot (i_inum x) in
            if e <? 0 then panic "create dots" else
            let* y := ino dp in
            let* e := dirlink fuel ip dotdot (i_inum y) in
            if e <? 0 then panic "create dots" else ret tt);;;
          let* x := ino ip in
          let* e := dirlink fuel dp name (i_inum x) in
          if e <? 0 then panic "create: dirlink" else
          iunlockput fuel dp;;;
          ret (Some ip)
      end
  end.

(** The inode that sys_open() opens, locked. *)
Definition open_inode (path omode : Z) : M S (option nat) :=
  if negb (Z.land (u32 omode) O_CREATE =? 0) then create path T_FILE 0 0 else
  let* s := user_str path in
  let* ip := namei fuel s in
  match ip with
  | None => ret None
  | Some ip =>
      ilock fuel (Some ip);;;
      let* x := ino ip in
      if (i_type x =? T_DIR) && negb (omode =? O_RDONLY) then iunlockput fuel ip;;; ret None
      else ret (Some ip)
  end.

Definition sys_open : M S Z :=
  let* path := argstr 0 in
  match path with
  | None => ret (-1)
  | Some (path, _) =>
      let* omode := argint 1 in
      match omode with
      | None => ret (-1)
      | Some omode =>
          begin_op fuel;;;
          let* ip := open_inode path omode in
          match ip with
          | None => end_op;;; ret (-1)
          | Some ip =>
              let* f := filealloc in
              let* fd := (match f with Some f => fdalloc f | None => ret None end) in
              match f, fd with
              | Some f, Some fd =>
                  iunlock (Some ip);;;
                  end_op;;;
                  file_upd f (set_f_type FD_INODE);;;
                  file_upd f (set_f_ip (Some ip));;;
                  file_upd f (set_f_off 0);;;
                  file_upd f (set_f_readable (Z.land (u32 omode) O_WRONLY =? 0));;;
                  file_upd f (set_f_writable (negb (Z.land (u32 omode) O_WRONLY =? 0) || negb (Z.land (u32 omode) O_RDWR =? 0)));;;
                  ret (Z.of_nat fd)
              | _, _ =>
                  (match f with Some f => fileclose fuel f | None => ret tt end);;;
                  iunlockput fuel ip;;;
                  end_op;;;
                  ret (-1)
              end
          end
      end
  end.

(** The end of sys_mkdir() and sys_mknod(). *)
Definition created (ip : option nat) : M S Z :=
  match ip with
  | None => end_op;;; ret (-1)
  | Some ip =>
      iunlockput fuel ip;;;
      end_op;;;
      ret 0
  end.

Definition sys_mkdir : M S Z :=
  begin_op fuel;;;
  let* path := argstr 0 in
  let* ip := (match path with Some (path, _) => create path T_DIR 0 0 | None => ret None end) in
  created ip.

Definition sys_mknod : M S Z :=
  begin_op fuel;;;
  let* path := argstr 0 in
  let* ip := (match path with
    | None => ret None
    | Some (path, _) =>
        let* major := argint 1 in
        match major with
        | None => ret None
        | Some major =>
            let* minor := argint 2 in
            match minor with
            | None => ret None
            | Some minor => create path T_DEV (s16 major) (s16 minor)
            end
        end
    end) in
  created ip.

Definition sys_chdir : M S Z :=
  let* cur := ptab curproc in
  begin_op fuel;;;
  let* path := argstr 0 in
  let* ip := (match path with
    | Some (path, _) => let* s := user_str path in namei fuel s
    | None => ret None
    end) in
  match ip with
  | None => end_op;;; ret (-1)
  | Some ip =>
      ilock fuel (Some ip);;;
      let* x := ino ip in
      if negb (i_type x =? T_DIR) then iunlockput fuel ip;;; end_op;;; ret (-1) else
      iunlock (Some ip);;;
      let* p := ptab (proc_at cur) in
      deref (cwd p) (iput fuel);;;
      end_op;;;
      ptab (proc_upd cur (set_cwd (Some ip)));;;
      ret 0
  end.

(** The loop of sys_exec(): [Some argv] at the null pointer, [None] for -1. *)
Fixpoint exec_argv (k : nat) (uargv : Z) (argv : list Z) : M S (option (list Z)) :=
  match k with
  | O => ret None
  | Datatypes.S k' =>
      let* uarg := fetchint (u32 (uargv + 4 * Z.of_nat (length argv))) in
      match uarg with
      | None => ret None
      | Some uarg =>
          if uarg =? 0 then ret (Some argv) else
          let* len := fetchstr (u32 uarg) in
          if len <? 0 then ret None else exec_argv k' uargv (argv ++ [u32 uarg])
      end
  end.
Definition sys_exec : M S Z :=
  let* path := argstr 0 in
  match path with
  | None => ret (-1)
  | Some (path, _) =>
      let* uargv := argint 1 in
      match uargv with
      | None => ret (-1)
      | Some uargv =>
          let* argv := exec_argv MAXARG (u32 uargv) [] in
          match argv with None => ret (-1) | Some argv => exec fuel syms path argv end
      end
  end.

Definition sys_pipe : M S Z :=
  let* fd := argptr 0 8 in
  match fd with
  | None => ret (-1)
  | Some fd =>
      let* r := pipealloc fuel in
      match r with
      | None => ret (-1)
      | Some (rf, wf) =>
          let* fd0 := fdalloc rf in
          let* fd1 := (match fd0 with Some _ => fdalloc wf | None => ret None end) in
          match fd0, fd1 with
          | Some fd0, Some fd1 =>
              user_stores fd (word_bytes (Z.of_nat fd0));;;
              user_stores (u32 (fd + 4)) (word_bytes (Z.of_nat fd1));;;
              ret 0
          | _, _ =>
              (match fd0 with Some fd0 => fdclear fd0 | None => ret tt end);;;
              fileclose fuel rf;;;
              fileclose fuel wf;;;
              ret (-1)
          end
      end
  end.

(** *** The interfaces of Process.v and Syscall.v *)
Definition file_sys : ProcFs S := {|
  Process.filedup := File.filedup;
  Process.fileclose := File.fileclose fuel;
  Process.idup := Fs.idup;
  Process.iput := Fs.iput fuel;
  Process.begin_op := Log.begin_op fuel;
  Process.end_op := Log.end_op;
  Process.namei s := Fs.namei fuel (bytes_of s);
  Process.iinit := Fs.iinit;
  Process.initlog := Log.initlog
|}.
Definition file_calls : SysFile S := {|
  Syscall.sys_pipe := sys_pipe; Syscall.sys_read := sys_read; Syscall.sys_exec := sys_exec;
  Syscall.sys_fstat := sys_fstat; Syscall.sys_chdir := sys_chdir; Syscall.sys_dup := sys_dup;
  Syscall.sys_open := sys_open; Syscall.sys_write := sys_write; Syscall.sys_mknod := sys_mknod;
  Syscall.sys_unlink := sys_unlink; Syscall.sys_link := sys_link; Syscall.sys_mkdir := sys_mkdir;
  Syscall.sys_close := sys_close
|}.
End sysfile.

(** ** Lemmas *)
Section runs.
Context {S : Type} `{PageOps S} `{!HasProc S} `{!ProcMem S} `{!HasFtable S} `{!LensIndep proc_lens ftable_lens}.
Context (c i : nat) (F : list lockid) (p : proc).

Lemma steady_argint n : steady ftable_lens (argint (S := S) n).
Proof. unfold argint, fetchint, curp, uload32, uload8, ptab. hold. Qed.

(** What argfd() finds for a valid descriptor. *)
Lemma argfd_run n fd f s (Q : option (nat * nat) -> S -> Prop) :
  running c i [] F 0 p s -> Syscall.mapped (memory s) p -> 0 <= sz p <= KERNBASE -> length (ofile p) = NOFILE ->
  let a := u32 (tf_esp (tf p) + 4 + 4 * n) in
  a + 4 <= sz p -> s32 (uword (memory s) (pgdir p) a) = Z.of_nat fd -> ofile p !! fd = Some (Some f) ->
  (forall s', running c i [] F 0 p s' -> view ftable_lens s' = view ftable_lens s -> Q (Some (fd, f)) s') ->
  wp (argfd n) Q s.
Proof.
  intros Hr Hm Hsz Hlen a Ha Hfd Hf HQ. apply wp_bind. eapply wp_mono; [|apply (wp_leaves ftable_lens);
    [apply steady_leaves, steady_argint|apply (argint_run c i [] F 0 p n s
      (fun r s' => r = Some (Z.of_nat fd) /\ running c i [] F 0 p s')); try done]].
  2:{ intros s' Hr' _. fold a. rewrite <- Hfd. destruct (Z.leb_spec (a + 4) (sz p)); [done|lia]. }
  intros r s1 [[-> Hr1] E1]. assert (fd < NOFILE)%nat by (rewrite <- Hlen; by eapply lookup_lt_Some).
  destruct (Z.ltb_spec (Z.of_nat fd) 0), (Z.leb_spec (Z.of_nat NOFILE) (Z.of_nat fd)); try lia. simpl.
  apply wp_bind. destruct Hr1 as (_ & Hon & Hp). eapply (wp_curp c i 0 [] F p); [done|exact Hon|done|].
  intros m Hm1. rewrite Nat2Z.id, (list_lookup_total_correct _ _ _ Hf). apply wp_ret, HQ.
  - split; [done|]. split; [by rewrite <- (machine_put_pm m s1) in Hm1|by rewrite ptable_put_pm].
  - by rewrite view_put_pm.
Qed.
End runs.

(** ** Theorems *)

(** C26. sysfile.c, sys_dup(), with argfd(), fdalloc() and filedup(): a valid descriptor is
    duplicated in the lowest free slot of the process' table, both then name the same open file,
    and the file has one more reference.  When the process has no free slot the call returns -1
    and changes neither table. *)
Theorem sys_dup_lowest {S} `{PageOps S} `{!HasProc S} `{!ProcMem S} `{!HasFtable S} `{!LensIndep proc_lens ftable_lens}
    c i F p fd f x s :
  running c i [] F 0 p s -> Syscall.mapped (memory s) p -> 0 <= sz p <= KERNBASE -> length (ofile p) = NOFILE ->
  ftable_lock ∈ F -> view ftable_lens s !! f = Some x -> 1 <= f_ref x < 2 ^ 31 - 1 ->
  let a := u32 (tf_esp (tf p) + 4) in
  a + 4 <= sz p -> s32 (uword (memory s) (pgdir p) a) = Z.of_nat fd -> ofile p !! fd = Some (Some f) ->
  wp sys_dup (fun r s' =>
    (exists k, r = Z.of_nat k /\ ofile p !! k = Some None /\ (forall j, (j < k)%nat -> ofile p !! j <> Some None) /\
       ptable (view proc_lens s') !! i = Some (set_ofile (<[k := Some f]> (ofile p)) p) /\
       view ftable_lens s' = <[f := set_f_ref (f_ref x + 1) x]> (view ftable_lens s))
    \/ r = -1 /\ (forall j, ofile p !! j <> Some None) /\
       ptable (view proc_lens s') !! i = Some p /\ view ftable_lens s' = view ftable_lens s) s.
Proof.
  intros Hr Hm Hsz Hlen HF Hx Href a Ha Hfd Hf. apply wp_bind.
  apply (argfd_run c i F p 0 fd f); rewrite ?Z.add_0_r; try done.
  intros s1 (_ & Hon1 & Hp1) E1. apply wp_bind. unfold fdalloc. apply wp_bind, wp_ptab.
  eapply wp_mono; [|by apply (curproc_run c i 0 [] F)]. intros r t (-> & m & -> & Hm1). apply wp_bind, wp_ptab.
  eapply (wp_getopt _ _ p); [by rewrite view_put|]. rewrite view_put, put_put. fold (put_pm m s1).
  destruct (find_index _ (ofile p)) as [k|] eqn:Hk.
  - apply find_index_Some in Hk as (o & Ho & Hnone%bool_decide_eq_true & Hmin). subst o.
    apply wp_bind, wp_ptab. eapply (wp_proc_upd i _ _ p); [by rewrite ptable_put_pm|].
    set (s2 := put proc_lens _ _). apply wp_ret, wp_bind.
    assert (on_cpu c (Some i) 0 [] F (machine s2)) as Hon2 by (unfold s2, machine; rewrite view_put; simpl; fold (machine (put_pm m s1)); by rewrite machine_put_pm).
    assert (ptable (view proc_lens s2) !! i = Some (set_ofile (<[k := Some f]> (ofile p)) p)) as Hp2.
    { unfold s2. rewrite view_put. simpl. rewrite ptable_put_pm, list_lookup_alter_eq, Hp1. done. }
    assert (view ftable_lens s2 = view ftable_lens s) as E2 by (unfold s2; by rewrite indep_view_r, view_put_pm).
    unfold filedup. apply wp_bind. eapply (wp_lock c (Some i) 0 [] F); [done..|]. intros m3 Hm3. apply wp_bind.
    eapply wp_file_at; [by rewrite view_put_pm, E2 by done|]. destruct (Z.ltb_spec (f_ref x) 1); [lia|].
    apply wp_bind. eapply wp_file_upd; [by rewrite view_put_pm, E2 by done|].
    rewrite s32_small by lia. apply wp_bind.
    eapply (wp_unlock c (Some i) 1 [] F); [done|set_solver|by rewrite machine_put_other, machine_put_pm|].
    intros m4 Hm4. apply wp_ret, wp_ret. left. exists k. split_and!; [done|done| | |].
    + intros j Hj Ej. specialize (Hmin j None Hj Ej). by rewrite bool_decide_eq_false in Hmin.
    + rewrite ptable_put_pm, indep_view_l, ptable_put_pm. done.
    + rewrite view_put_pm, view_put, view_put_pm, E2 by done. done.
  - apply wp_ret, wp_ret. right. rewrite find_index_None in Hk. split_and!; [done| | |].
    + intros j Hj. specialize (Hk j None Hj). by rewrite bool_decide_eq_false in Hk.
    + by rewrite ptable_put_pm.
    + by rewrite view_put_pm.
Qed.

(** Descriptor 0 of the process is file 0; the argument on its stack is 0. *)
Definition proc_d : proc := set_ofile (<[0%nat := Some 0%nat]> (replicate NOFILE None)) proc_u.
Definition kernel_d : kernel_s :=
  put proc_lens (set_ptable [proc_d] (view proc_lens kernel_s0)) kernel_s0.
#[local] Instance mem_proc_s : ProcMem kernel_s. Proof. done. Qed.

Lemma sys_dup_lowest_witness :
  wp (S := kernel_s) sys_dup (fun r s' => r = 1 /\ f_ref <$> (view ftable_lens s' !! 0%nat) = Some 2) kernel_d.
Proof.
  refine (wp_mono _ _ _ _ _ (sys_dup_lowest (S := kernel_s) 0 0 [ftable_lock] proc_d 0 0 file_x kernel_d
    _ _ _ eq_refl _ eq_refl _ _ _ eq_refl)).
  - intros r s' [(k & -> & Hk & Hmin & _ & Ef)|(_ & Hno & _)]; [|by destruct (Hno 1%nat)].
    rewrite Ef. split; [|reflexivity]. destruct k as [|[|k]]; [done|done|]. by destruct (Hmin 1%nat ltac:(lia)).
  - split; [lia|]. split; [|reflexivity]. split; [reflexivity|]. split; [lia|]. split; [by eexists|]. split; repeat constructor.
  - exact mapped_u.
  - vm_compute. split; congruence.
  - by left.
  - simpl. lia.
  - vm_compute. congruence.
  - vm_compute. reflexivity.
Defined.
