(* ===== verification/Device.v ===== *)
(** * Ports and devices (uart.c, kbd.c, kbd.h, ioapic.c)

    The I/O ports and the memory-mapped registers are the class [Ports]; the drivers of the serial
    line, the keyboard and the I/O APIC are programs over it. *)
From S2P Require Import Prelude Mmu Pages Trap.

(** The instructions of x86.h that talk to devices, and accesses to device registers in memory. *)
Class Ports (S : Type) := {
  inb : Z -> M S Z;
  outb : Z -> Z -> M S unit;
  insl : Z -> nat -> M S (list Z);       (* [insl port n]: the bytes of [n] words *)
  outsl : Z -> list Z -> M S unit;
  reg_read : Z -> M S Z;
  reg_write : Z -> Z -> M S unit
}.

(** The static variables of uart.c and kbd.c, and [ioapicid] of mp.c. *)
Record drivers := MkDrivers { dr_uart : Z; dr_shift : Z; dr_ioapicid : Z }.
Definition set_uart (x : Z) (d : drivers) : drivers := MkDrivers x (dr_shift d) (dr_ioapicid d).
Definition set_shift (x : Z) (d : drivers) : drivers := MkDrivers (dr_uart d) x (dr_ioapicid d).
Definition set_ioapicid (x : Z) (d : drivers) : drivers := MkDrivers (dr_uart d) (dr_shift d) x.
Class HasDrivers (S : Type) := { drivers_lens : lens S drivers; drivers_lens_laws :: LensLaws drivers_lens }.

(** ** kbd.h *)
Definition KBSTATP : Z := 0x64.
Definition KBS_DIB : Z := 0x01.
Definition KBDATAP : Z := 0x60.
Definition SHIFT : Z := 1.
Definition CTL : Z := 2.
Definition CAPSLOCK : Z := 8.
Definition E0ESC : Z := 64.

(** An initialised array of 256 bytes: the first ones, and those with a designator. *)
Definition table256 (l : list Z) (des : list (Z * Z)) : list Z :=
  fold_left (fun t iv => <[Z.to_nat (fst iv) := snd iv]> t) des (l ++ replicate (256 - length l) 0).
Definition shiftcode : list Z := table256
  []
  [(0x1D, 2); (0x2A, 1); (0x36, 1); (0x38, 4); (0x9D, 2); (0xB8, 4)].
Definition togglecode : list Z := table256
  []
  [(0x3A, 8); (0x45, 16); (0x46, 32)].
Definition normalmap : list Z := table256
  [0; 27; 49; 50; 51; 52; 53; 54; 55; 56; 57; 48; 45; 61; 8; 9;
   113; 119; 101; 114; 116; 121; 117; 105; 111; 112; 91; 93; 10; 0; 97; 115;
   100; 102; 103; 104; 106; 107; 108; 59; 39; 96; 0; 92; 122; 120; 99; 118;
   98; 110; 109; 44; 46; 47; 0; 42; 0; 32; 0; 0; 0; 0; 0; 0;
   0; 0; 0; 0; 0; 0; 0; 55; 56; 57; 45; 52; 53; 54; 43; 49;
   50; 51; 48; 46; 0; 0; 0; 0]
  [(0x9C, 10); (0xB5, 47); (0xC8, 0xe2); (0xD0, 0xe3); (0xC9, 0xe6); (0xD1, 0xe7); (0xCB, 0xe4); (0xCD, 0xe5); (0x97, 0xe0); (0xCF, 0xe1); (0xD2, 0xe8); (0xD3, 0xe9)].
Definition shiftmap : list Z := table256
  [0; 27; 33; 64; 35; 36; 37; 94; 38; 42; 40; 41; 95; 43; 8; 9;
   81; 87; 69; 82; 84; 89; 85; 73; 79; 80; 123; 125; 10; 0; 65; 83;
   68; 70; 71; 72; 74; 75; 76; 58; 34; 126; 0; 124; 90; 88; 67; 86;
   66; 78; 77; 60; 62; 63; 0; 42; 0; 32; 0; 0; 0; 0; 0; 0;
   0; 0; 0; 0; 0; 0; 0; 55; 56; 57; 45; 52; 53; 54; 43; 49;
   50; 51; 48; 46; 0; 0; 0; 0]
  [(0x9C, 10); (0xB5, 47); (0xC8, 0xe2); (0xD0, 0xe3); (0xC9, 0xe6); (0xD1, 0xe7); (0xCB, 0xe4); (0xCD, 0xe5); (0x97, 0xe0); (0xCF, 0xe1); (0xD2, 0xe8); (0xD3, 0xe9)].
Definition ctlmap : list Z := table256
  [0; 0; 0; 0; 0; 0; 0; 0; 0; 0; 0; 0; 0; 0; 0; 0;
   17; 23; 5; 18; 20; 25; 21; 9; 15; 16; 0; 0; 13; 0; 1; 19;
   4; 6; 7; 8; 10; 11; 12; 0; 0; 0; 0; 28; 26; 24; 3; 22;
   2; 14; 13; 0; 0; 239; 0; 0]
  [(0x9C, 13); (0xB5, 0xef); (0xC8, 0xe2); (0xD0, 0xe3); (0xC9, 0xe6); (0xD1, 0xe7); (0xCB, 0xe4); (0xCD, 0xe5); (0x97, 0xe0); (0xCF, 0xe1); (0xD2, 0xe8); (0xD3, 0xe9)].
Definition charcode (i : Z) : list Z := nth (Z.to_nat i) [normalmap; shiftmap; ctlmap; ctlmap] [].

Definition COM1 : Z := 0x3f8.
Definition IOAPIC : Z := 0xFEC00000.
Definition REG_ID : Z := 0x00.
Definition REG_VER : Z := 0x01.
Definition REG_TABLE : Z := 0x10.
Definition INT_DISABLED : Z := 0x00010000.

Section devices.
Context {S : Type} `{!Ports S} `{!HasDrivers S} `{ConsoleOps S}.

Definition drv : M S drivers := gets (view drivers_lens).
Definition drv_upd (f : drivers -> drivers) : M S unit :=
  modify (fun s => put drivers_lens (f (view drivers_lens s)) s).

(** *** ioapic.c *)
Definition ioapicread (reg : Z) : M S Z :=
  reg_write IOAPIC reg;;;
  reg_read (IOAPIC + 16).
Definition ioapicwrite (reg data : Z) : M S unit :=
  reg_write IOAPIC reg;;;
  reg_write (IOAPIC + 16) (u32 data).
Definition ioapicinit : M S unit :=
  let* v := ioapicread REG_VER in
  let maxintr := Z.land (Z.shiftr v 16) 0xFF in
  let* id := ioapicread REG_ID in
  let id := Z.shiftr id 24 in
  let* d := drv in
  when (negb (id =? dr_ioapicid d)) (cprintf ("ioapicinit: id isn't equal to ioapicid; not a MP" +:+ nl) []);;;
  for_each (seqZ 0 (maxintr + 1)) (fun i =>
    ioapicwrite (REG_TABLE + 2 * i) (Z.lor INT_DISABLED (T_IRQ0 + i));;;
    ioapicwrite (REG_TABLE + 2 * i + 1) 0).
Definition ioapicenable (irq cpunum : Z) : M S unit :=
  ioapicwrite (REG_TABLE + 2 * irq) (T_IRQ0 + irq);;;
  ioapicwrite (REG_TABLE + 2 * irq + 1) (Z.shiftl cpunum 24).

(** *** uart.c *)

(** microdelay() (lapic.c) does nothing. *)
Definition microdelay (us : Z) : M S unit := ret tt.

(** The wait of uartputc(), at most [k] rounds. *)
Fixpoint uart_wait (k : nat) : M S unit :=
  match k with
  | O => ret tt
  | Datatypes.S k' =>
      let* st := inb (COM1 + 5) in
      if negb (Z.land st 0x20 =? 0) then ret tt else microdelay 10;;; uart_wait k'
  end.
Definition uartputc (c : Z) : M S unit :=
  let* d := drv in
  if dr_uart d =? 0 then ret tt else
  uart_wait 128;;;
  outb (COM1 + 0) (u8 c).

Definition uartgetc : M S Z :=
  let* d := drv in
  if dr_uart d =? 0 then ret (-1) else
  let* st := inb (COM1 + 5) in
  if Z.land st 0x01 =? 0 then ret (-1) else inb (COM1 + 0).

Definition uartinit : M S unit :=
  outb (COM1 + 2) 0;;;
  outb (COM1 + 3) 0x80;;;
  outb (COM1 + 0) (115200 / 9600);;;
  outb (COM1 + 1) 0;;;
  outb (COM1 + 3) 0x03;;;
  outb (COM1 + 4) 0;;;
  outb (COM1 + 1) 0x01;;;
  let* st := inb (COM1 + 5) in
  if st =? 0xFF then ret tt else
  drv_upd (set_uart 1);;;
  let* _ := inb (COM1 + 2) in
  let* _ := inb (COM1 + 0) in
  ioapicenable IRQ_COM1 0;;;
  for_each [120; 118; 54; 46; 46; 46; 10] uartputc.

(** *** kbd.c *)

(** The letter [c] with CAPSLOCK. *)
Definition caps (c : Z) : Z :=
  if (97 <=? c) && (c <=? 122) then c + (65 - 97)
  else if (65 <=? c) && (c <=? 90) then c + (97 - 65) else c.

(** The part of kbdgetc() after the E0 escape has been dealt with: the new [shift] and [c]. *)
Definition kbd_decode (shift data : Z) : Z * Z :=
  let shift := Z.lor shift (shiftcode !!! Z.to_nat data) in
  let shift := Z.lxor shift (togglecode !!! Z.to_nat data) in
  let c := charcode (Z.land shift (Z.lor CTL SHIFT)) !!! Z.to_nat data in
  (shift, if negb (Z.land shift CAPSLOCK =? 0) then caps c else c).

Definition kbdgetc : M S Z :=
  let* st := inb KBSTATP in
  if Z.land st KBS_DIB =? 0 then ret (-1) else
  let* data := inb KBDATAP in
  let* d := drv in
  let shift := dr_shift d in
  let esc := negb (Z.land shift E0ESC =? 0) in
  if data =? 0xE0 then
    drv_upd (set_shift (Z.lor shift E0ESC));;;
    ret 0
  else if negb (Z.land data 0x80 =? 0) then
    let data := if esc then data else Z.land data 0x7F in
    drv_upd (set_shift (Z.land shift (u32 (Z.lnot (Z.lor (shiftcode !!! Z.to_nat data) E0ESC)))));;;
    ret 0
  else
    let data := if esc then Z.lor data 0x80 else data in
    let shift := if esc then Z.land shift (u32 (Z.lnot E0ESC)) else shift in
    let '(shift, c) := kbd_decode shift data in
    drv_upd (set_shift shift);;;
    ret c.
End devices.
