(* ===== verification/Ide.v ===== *)
(** * The IDE disk (ide.c)

    Requests wait in a queue linked through [qnext]; the disk works on the first one.  iderw()
    puts a buffer at the end and sleeps until the interrupt handler, ideintr(), has dealt with
    it.  The kernel that the Makefile builds uses this driver; kernelmemfs uses memide.c. *)
From S2P Require Import Prelude Mmu Spinlock Pages Sched Process Syscall Trap Sleeplock Block Bio Log Device.

Definition SECTOR_SIZE : Z := 512.
Definition IDE_BSY : Z := 0x80.
Definition IDE_DRDY : Z := 0x40.
Definition IDE_DF : Z := 0x20.
Definition IDE_ERR : Z := 0x01.
Definition IDE_CMD_READ : Z := 0x20.
Definition IDE_CMD_WRITE : Z := 0x30.
Definition IDE_CMD_RDMUL : Z := 0xc4.
Definition IDE_CMD_WRMUL : Z := 0xc5.

Record ide_st := MkIde { id_queue : option nat; id_havedisk1 : Z }.
Definition set_idequeue (q : option nat) (d : ide_st) : ide_st := MkIde q (id_havedisk1 d).
Definition set_havedisk1 (x : Z) (d : ide_st) : ide_st := MkIde (id_queue d) x.
Definition ide_lock : lockid := ("ide", 0).
(** The channel of the processes that wait for the buffer [i]. *)
Definition buf_chan (i : nat) : lockid := ("buf", Z.of_nat i).
Class HasIde (S : Type) := { ide_lens : lens S ide_st; ide_lens_laws :: LensLaws ide_lens }.

Section ide.
Context {S : Type} `{!Ports S} `{!HasProc S} `{!HasBio S} `{!HasIde S} (fuel : nat).

Definition ide : M S ide_st := gets (view ide_lens).
Definition ide_upd (f : ide_st -> ide_st) : M S unit := modify (fun s => put ide_lens (f (view ide_lens s)) s).

(** The busy wait of idewait(), one unit of fuel per read of the status. *)
Fixpoint idewait_loop (k : nat) (checkerr : bool) : M S Z :=
  match k with
  | O => nofuel
  | Datatypes.S k' =>
      let* r := inb 0x1f7 in
      if negb (Z.land r (Z.lor IDE_BSY IDE_DRDY) =? IDE_DRDY) then idewait_loop k' checkerr
      else ret (if checkerr && negb (Z.land r (Z.lor IDE_DF IDE_ERR) =? 0) then -1 else 0)
  end.
Definition idewait (checkerr : bool) : M S Z := idewait_loop fuel checkerr.

(** The loop of ideinit() that looks for disk 1, with [k] reads left. *)
Fixpoint find_disk1 (k : nat) : M S unit :=
  match k with
  | O => ret tt
  | Datatypes.S k' =>
      let* r := inb 0x1f7 in
      if negb (r =? 0) then ide_upd (set_havedisk1 1) else find_disk1 k'
  end.
Definition ide_init (ncpu : Z) : M S unit :=
  ptab (kinitlock ide_lock "ide");;;
  ioapicenable IRQ_IDE (ncpu - 1);;;
  let* _ := idewait false in
  outb 0x1f6 (Z.lor 0xe0 (Z.shiftl 1 4));;;
  find_disk1 1000;;;
  outb 0x1f6 (Z.lor 0xe0 (Z.shiftl 0 4)).

Definition idestart (b : option nat) : M S unit :=
  match b with
  | None => panic "idestart"
  | Some i =>
      let* b := buf_at i in
      if FSSIZE <=? b_blockno b then panic "incorrect blockno" else
      let sector_per_block := Z.of_nat BSIZE / SECTOR_SIZE in
      let sector := b_blockno b * sector_per_block in
      let read_cmd := if sector_per_block =? 1 then IDE_CMD_READ else IDE_CMD_RDMUL in
      let write_cmd := if sector_per_block =? 1 then IDE_CMD_WRITE else IDE_CMD_WRMUL in
      if 7 <? sector_per_block then panic "idestart" else
      let* _ := idewait false in
      outb 0x3f6 0;;;
      outb 0x1f2 sector_per_block;;;
      outb 0x1f3 (Z.land sector 0xff);;;
      outb 0x1f4 (Z.land (Z.shiftr sector 8) 0xff);;;
      outb 0x1f5 (Z.land (Z.shiftr sector 16) 0xff);;;
      outb 0x1f6 (Z.lor (Z.lor 0xe0 (Z.shiftl (Z.land (b_dev b) 1) 4)) (Z.land (Z.shiftr sector 24) 0x0f));;;
      if negb (clean (b_flags b)) then
        outb 0x1f7 write_cmd;;;
        outsl 0x1f0 (b_data b)
      else outb 0x1f7 read_cmd
  end.

Definition ide_intr : M S unit :=
  ptab (kacquire ide_lock);;;
  let* d := ide in
  match id_queue d with
  | None => ptab (krelease ide_lock)
  | Some i =>
      let* b := buf_at i in
      ide_upd (set_idequeue (b_qnext b));;;
      (if clean (b_flags b) then
         let* r := idewait true in
         if 0 <=? r then
           let* data := insl 0x1f0 (BSIZE / 4) in
           buf_upd i (set_data data)
         else ret tt
       else ret tt);;;
      buf_upd i (fun b => set_flags (Z.lor (b_flags b) B_VALID) b);;;
      buf_upd i (fun b => set_flags (Z.land (b_flags b) (Z.lnot B_DIRTY)) b);;;
      ptab (wakeup (buf_chan i));;;
      let* d := ide in
      (match id_queue d with
       | None => ret tt
       | Some j => idestart (Some j)
       end);;;
      ptab (krelease ide_lock)
  end.

(** [*pp = b], where [pp] is [&idequeue] ([None]) or the address of a [qnext] field. *)
Definition store_pp (pp : option nat) (i : nat) : M S unit :=
  match pp with
  | None => ide_upd (set_idequeue (Some i))
  | Some j => buf_upd j (set_qnext (Some i))
  end.
Fixpoint queue_end (k : nat) (pp next : option nat) : M S (option nat) :=
  match next with
  | None => ret pp
  | Some j =>
      match k with
      | O => nofuel
      | Datatypes.S k' => let* b := buf_at j in queue_end k' (Some j) (b_qnext b)
      end
  end.

(** The wait for the request, one unit of fuel per wakeup. *)
Fixpoint ide_sleep (k : nat) (i : nat) : M S unit :=
  let* b := buf_at i in
  if Z.land (b_flags b) (Z.lor B_VALID B_DIRTY) =? B_VALID then ret tt else
  ptab (sleep (buf_chan i) (Some ide_lock));;;
  match k with O => nofuel | Datatypes.S k' => ide_sleep k' i end.

Definition ide_rw (i : nat) : M S unit :=
  let* h := holdingsleep bio_lens (buf_slref i) in
  if negb h then panic "iderw: buf not locked" else
  let* b := buf_at i in
  if Z.land (b_flags b) (Z.lor B_VALID B_DIRTY) =? B_VALID then panic "iderw: nothing to do" else
  let* d := ide in
  if negb (b_dev b =? 0) && (id_havedisk1 d =? 0) then panic "iderw: ide disk 1 not present" else
  ptab (kacquire ide_lock);;;
  buf_upd i (set_qnext None);;;
  let* d := ide in
  let* pp := queue_end NBUF None (id_queue d) in
  store_pp pp i;;;
  let* d := ide in
  when (bool_decide (id_queue d = Some i)) (idestart (Some i));;;
  ide_sleep fuel i;;;
  ptab (krelease ide_lock).
Definition ide_ops : DiskOps S := {| iderw := ide_rw |}.
End ide.

(** ** Specifications *)

(** The queue: the buffers [l], in the order of their requests. *)
Fixpoint queue_rep (bs : list buf) (q : option nat) (l : list nat) : Prop :=
  match l with
  | [] => q = None
  | i :: l' => q = Some i /\ exists b, bs !! i = Some b /\ queue_rep bs (b_qnext b) l'
  end.

(** A sector: the disk (0 or 1) and the block; what the command for a buffer does to the disk. *)
Definition sector : Type := Z * Z.
Definition sector_of (b : buf) : sector := (Z.land (b_dev b) 1, b_blockno b).
Definition run_command (b : buf) (D : sector -> list Z) : sector -> list Z :=
  if clean (b_flags b) then D else fun k => if decide (k = sector_of b) then b_data b else D k.

(** What the interrupt handler makes of the buffer: [e] tells that the disk reports an error. *)
Definition completed (D : sector -> list Z) (e : bool) (b : buf) : buf :=
  set_flags (Z.land (Z.lor (b_flags b) B_VALID) (Z.lnot B_DIRTY))
    (if clean (b_flags b) && negb e then set_data (D (sector_of b)) b else b).

Section controller.
Context {S : Type} `{!Ports S} `{!HasProc S} `{!HasBio S} `{!HasIde S} (fuel : nat).
Context `{!LensIndep proc_lens bio_lens} `{!LensIndep proc_lens ide_lens} `{!LensIndep bio_lens ide_lens}.

Definition quiet (s s' : S) : Prop :=
  view proc_lens s' = view proc_lens s /\ view bio_lens s' = view bio_lens s /\ view ide_lens s' = view ide_lens s.

(** The disk, as the driver relies on it: [R D w s], its contents are [D], and it is idle or has
    run a command on a sector, with or without an error. *)
Class Controller (R : (sector -> list Z) -> option (sector * bool) -> S -> Prop) := {
  ct_start : forall D s i b, R D None s -> view bio_lens s !! i = Some b -> 0 <= b_blockno b < FSSIZE ->
    wp (idestart fuel (Some i)) (fun _ s' => exists e, R (run_command b D) (Some (sector_of b, e)) s' /\ quiet s s') s;
  ct_wait : forall D k e s, R D (Some (k, e)) s ->
    wp (idewait fuel true) (fun r s' => r = (if e then -1 else 0) /\ R D (Some (k, e)) s' /\ quiet s s') s;
  ct_data : forall D k s, R D (Some (k, false)) s ->
    wp (insl 0x1f0 128) (fun data s' => data = D k /\ R D (Some (k, false)) s' /\ quiet s s') s;
  ct_done : forall D w s, R D w s -> R D None s;
  ct_proc : forall D w p s, R D w s -> R D w (put proc_lens p s);
  ct_bio : forall D w bs s, R D w s -> R D w (put bio_lens bs s);
  ct_ide : forall D w d s, R D w s -> R D w (put ide_lens d s)
}.
Context (R : (sector -> list Z) -> option (sector * bool) -> S -> Prop) `{!Controller R}.

(** The whole state of the driver. *)
Definition driver (D : sector -> list Z) (w : option (sector * bool)) (bs : list buf) (q : option nat) (pt : list proc)
    (c : nat) (o : option nat) (n : Z) (L F : list lockid) (s : S) : Prop :=
  R D w s /\ view bio_lens s = bs /\ id_queue (view ide_lens s) = q /\ ptable (view proc_lens s) = pt /\
  on_cpu c o n L F (machine s).

Lemma driver_quiet D w D' w' bs q pt c o n L F s s' : driver D w bs q pt c o n L F s -> R D' w' s' -> quiet s s' ->
  driver D' w' bs q pt c o n L F s'.
Proof. intros (_ & Hbs & Hq & Hpt & Hon) HR (Ep & Eb & Ei). unfold driver, machine. rewrite Ep, Eb, Ei. done. Qed.

Lemma driver_buf D w bs q pt c o n L F i b f (Q : unit -> S -> Prop) s : driver D w bs q pt c o n L F s -> bs !! i = Some b ->
  (forall s', driver D w (<[i := f b]> bs) q pt c o n L F s' -> Q tt s') -> wp (buf_upd i f) Q s.
Proof.
  intros (HR & Hbs & Hq & Hpt & Hon) Hb HQ. apply wp_bind. eapply wp_getopt; [by rewrite Hbs|]. apply wp_modify, HQ.
  assert (alter f i bs = <[i := f b]> bs) as Ealt.
  { apply list_eq. intros j. destruct (decide (j = i)) as [->|Hne].
    - rewrite list_lookup_alter_eq, Hb. by rewrite list_lookup_insert_eq by (by eapply lookup_lt_Some).
    - by rewrite list_lookup_alter_ne, list_lookup_insert_ne. }
  split; [by apply ct_bio|]. rewrite view_put, Hbs, Ealt. split; [done|]. unfold machine. by rewrite !indep_view_l.
Qed.

Lemma driver_ide D w bs q pt c o n L F q' (Q : unit -> S -> Prop) s : driver D w bs q pt c o n L F s ->
  (forall s', driver D w bs q' pt c o n L F s' -> Q tt s') -> wp (ide_upd (set_idequeue q')) Q s.
Proof.
  intros (HR & Hbs & Hq & Hpt & Hon) HQ. apply wp_modify, HQ. split; [by apply ct_ide|]. rewrite view_put.
  unfold machine. rewrite !indep_view_l. done.
Qed.

Lemma driver_lock D w bs q pt c o F (Q : unit -> S -> Prop) s : ide_lock ∈ F -> driver D w bs q pt c o 0 [] F s ->
  (forall s', driver D w bs q pt c o 1 [ide_lock] (without ide_lock F) s' -> Q tt s') -> wp (ptab (kacquire ide_lock)) Q s.
Proof.
  intros HF (HR & Hbs & Hq & Hpt & Hon) HQ. eapply (wp_lock c o 0 [] F); [done..|]. intros m Hm. apply HQ.
  split; [by apply ct_proc|]. rewrite ptable_put_pm, machine_put_pm, (view_put_pm bio_lens), (view_put_pm ide_lens). done.
Qed.

Lemma driver_unlock D w bs q pt c o F (Q : unit -> S -> Prop) s :
  driver D w bs q pt c o 1 [ide_lock] (without ide_lock F) s ->
  (forall s', driver D w bs q pt c o 0 [] F s' -> Q tt s') -> wp (ptab (krelease ide_lock)) Q s.
Proof.
  intros (HR & Hbs & Hq & Hpt & Hon) HQ. eapply (wp_unlock c o 1 [] F); [done|apply not_elem_of_nil|done|]. intros m Hm. apply HQ.
  split; [by apply ct_proc|]. rewrite ptable_put_pm, machine_put_pm, (view_put_pm bio_lens), (view_put_pm ide_lens). done.
Qed.

Lemma driver_wakeup D w bs q pt c o F ch (Q : unit -> S -> Prop) s : ptable_lock ∈ without ide_lock F ->
  driver D w bs q pt c o 1 [ide_lock] (without ide_lock F) s ->
  (forall s', driver D w bs q (map (wake (Some ch)) pt) c o 1 [ide_lock] (without ide_lock F) s' -> Q tt s') ->
  wp (ptab (wakeup ch)) Q s.
Proof.
  intros HF (HR & Hbs & Hq & Hpt & Hon) HQ. eapply (wp_wakeup c o 1 [ide_lock] (without ide_lock F)); [done| |done|done|].
  { intros [E|[]%elem_of_nil]%elem_of_cons. discriminate E. }
  intros m Hm. apply HQ. split; [by apply ct_proc|]. rewrite machine_put_woken, (view_put_woken bio_lens), (view_put_woken ide_lens).
  split; [done|]. split; [done|]. split; [|done]. unfold put_woken. rewrite view_put. simpl. by rewrite Hpt.
Qed.

Lemma driver_start D w bs j pt c o n L F b (Q : unit -> S -> Prop) s : bs !! j = Some b -> 0 <= b_blockno b < FSSIZE ->
  driver D w bs (Some j) pt c o n L F s ->
  (forall s' e, driver (run_command b D) (Some (sector_of b, e)) bs (Some j) pt c o n L F s' -> Q tt s') ->
  wp (idestart fuel (Some j)) Q s.
Proof.
  intros Hb Hno Hd HQ. pose proof Hd as (HR & Hbs & _). eapply wp_mono; [|apply (ct_start D s j b); [by eapply ct_done|by rewrite Hbs|done]].
  intros [] s' (e & HR' & Hqt). eapply HQ, driver_quiet; [exact Hd|exact HR'|exact Hqt].
Qed.

(** A buffer that the queue does not hold can change. *)
Lemma queue_rep_insert bs q l i b : queue_rep bs q l -> i ∉ l -> queue_rep (<[i := b]> bs) q l.
Proof.
  revert q. induction l as [|j l IH]; intros q; simpl; [done|]. intros (-> & b' & Hb' & Hl) [Hne Hi]%not_elem_of_cons.
  split; [done|]. exists b'. split; [|by apply IH]. by rewrite list_lookup_insert_ne.
Qed.

(** The read of the data, when there is one. *)
Lemma fetch_buf D e bs q pt c o n L F i b (Q : unit -> S -> Prop) s :
  driver D (Some (sector_of b, e)) bs q pt c o n L F s -> bs !! i = Some b ->
  (forall s', driver D (Some (sector_of b, e)) (<[i := if clean (b_flags b) && negb e then set_data (D (sector_of b)) b else b]> bs) q pt c o n L F s' -> Q tt s') ->
  wp (if clean (b_flags b) then
        let* r := idewait fuel true in
        if 0 <=? r then let* data := insl 0x1f0 (BSIZE / 4) in buf_upd i (set_data data) else ret tt
      else ret tt) Q s.
Proof.
  intros Hd Hb HQ. destruct (clean (b_flags b)); cbn [andb] in HQ; [|apply wp_ret, HQ; by rewrite list_insert_id].
  apply wp_bind. pose proof Hd as (HR & _). eapply wp_mono; [|by apply (ct_wait D (sector_of b) e)]. intros r s1 (-> & HR1 & Hq1).
  eapply driver_quiet in Hd; [|exact HR1|exact Hq1]. destruct e; cbn [negb] in HQ.
  - apply wp_ret, HQ. by rewrite list_insert_id.
  - apply wp_bind. eapply wp_mono; [|by apply (ct_data D (sector_of b))]. intros data s2 (-> & HR2 & Hq2).
    eapply driver_quiet in Hd; [|exact HR2|exact Hq2]. eapply driver_buf; [exact Hd|exact Hb|done].
Qed.

End controller.

(** *** Witness: a disk *)

(** The controller's address registers and the sectors. *)
Record controller := MkController { dk_lo : Z; dk_mid : Z; dk_hi : Z; dk_drive : Z; dk_disk : sector -> list Z }.
Definition addressed (h : controller) : sector :=
  (Z.land (Z.shiftr (dk_drive h) 4) 1,
   dk_lo h + 2 ^ 8 * dk_mid h + 2 ^ 16 * dk_hi h + 2 ^ 24 * Z.land (dk_drive h) 0x0f).
Definition kernel_d : Type := pst * (bcache * (ide_st * controller)).
#[local] Instance proc_d : HasProc kernel_d := {| proc_lens := fst_lens |}.
#[local] Instance bio_d : HasBio kernel_d := {| bio_lens := compose_lens snd_lens fst_lens |}.
#[local] Instance ide_d : HasIde kernel_d := {| ide_lens := compose_lens snd_lens (compose_lens snd_lens fst_lens) |}.
Definition dk_lens : lens kernel_d controller := compose_lens snd_lens (compose_lens snd_lens snd_lens).
#[local] Instance ports_d : Ports kernel_d := {|
  inb p := ret (if p =? 0x1f7 then IDE_DRDY else 0);
  outb p v := modify (fun s => let h := view dk_lens s in put dk_lens
    (if p =? 0x1f3 then MkController v (dk_mid h) (dk_hi h) (dk_drive h) (dk_disk h)
     else if p =? 0x1f4 then MkController (dk_lo h) v (dk_hi h) (dk_drive h) (dk_disk h)
     else if p =? 0x1f5 then MkController (dk_lo h) (dk_mid h) v (dk_drive h) (dk_disk h)
     else if p =? 0x1f6 then MkController (dk_lo h) (dk_mid h) (dk_hi h) v (dk_disk h) else h) s);
  insl p n := gets (fun s => dk_disk (view dk_lens s) (addressed (view dk_lens s)));
  outsl p l := modify (fun s => let h := view dk_lens s in put dk_lens
    (MkController (dk_lo h) (dk_mid h) (dk_hi h) (dk_drive h)
      (fun k => if decide (k = addressed h) then l else dk_disk h k)) s);
  reg_read _ := ret 0; reg_write _ _ := ret tt
|}.
#[local] Instance indep_d1 : LensIndep (S := kernel_d) proc_lens bio_lens. Proof. done. Qed.
#[local] Instance indep_d2 : LensIndep (S := kernel_d) proc_lens ide_lens. Proof. done. Qed.
#[local] Instance indep_d3 : LensIndep (S := kernel_d) bio_lens ide_lens. Proof. done. Qed.

(** The bytes that idestart() writes address the buffer's sector. *)
Lemma addressed_sector n dev D : 0 <= n < FSSIZE ->
  addressed (MkController (Z.land n 0xff) (Z.land (Z.shiftr n 8) 0xff) (Z.land (Z.shiftr n 16) 0xff)
    (Z.lor (Z.lor 0xe0 (Z.shiftl (Z.land dev 1) 4)) (Z.land (Z.shiftr n 24) 0x0f)) D) = (Z.land dev 1, n).
Proof.
  intros Hn. assert (Z.land dev 1 = 0 \/ Z.land dev 1 = 1) as Hdev.
  { pose proof (Z.land_ones dev 1 ltac:(lia)) as E. change (Z.ones 1) with 1 in E. rewrite E.
    pose proof (Z.mod_pos_bound dev (2 ^ 1) ltac:(lia)). lia. }
  generalize dependent (Z.land dev 1). intros d Hd. unfold addressed. simpl dk_lo. simpl dk_mid. simpl dk_hi. simpl dk_drive.
  assert (n ∈ seqZ 0 1000) as Hin by (apply elem_of_seqZ; unfold FSSIZE in Hn; lia). clear Hn. revert n Hin.
  apply (Forall_forall (fun n => _ = (d, n))), (bool_decide_unpack _). destruct Hd as [->| ->]; by vm_compute.
Qed.

Definition disk_d (D : sector -> list Z) (w : option (sector * bool)) (s : kernel_d) : Prop :=
  dk_disk (view dk_lens s) = D /\ match w with Some (k, e) => e = false /\ addressed (view dk_lens s) = k | None => True end.
#[local] Instance controller_d : Controller (S := kernel_d) 1 disk_d.
Proof.
  split.
  - intros D s i b [HD _] Hb Hno. unfold idestart. apply wp_bind. eapply wp_getopt; [exact Hb|].
    destruct (Z.leb_spec FSSIZE (b_blockno b)); [lia|]. change (Z.of_nat BSIZE / SECTOR_SIZE) with 1. cbn [Z.eqb Z.ltb].
    rewrite Z.mul_1_r. destruct s as [p [bs [d h]]]. simpl in HD. subst D.
    pose proof (addressed_sector (b_blockno b) (b_dev b) (dk_disk h) Hno) as Hk. unfold run_command.
    destruct (clean (b_flags b)); unfold wp; simpl; exists false; unfold disk_d, quiet; simpl; rewrite Hk; done.
  - intros D k e s [HD [-> Hk]]. unfold wp. simpl. done.
  - intros D k [p [bs [d h]]] [HD [_ Hk]]. simpl in HD, Hk. unfold wp, disk_d. simpl. by rewrite HD, Hk.
  - by intros D w s [HD _].
  - by intros D w p [p' [bs [d h]]].
  - by intros D w bs' [p' [bs [d h]]].
  - by intros D w d' [p' [bs [d h]]].
Qed.

(** Two requests wait: the read of block 5 into buffer 0, which the disk has done, and a write of
    buffer 1 to block 6. *)
Definition disk_5 : sector -> list Z := fun k => if decide (k = (0, 5)) then [1; 2; 3] else [].
Definition buf_r : buf := MkBuf 0 0 5 sleeplock0 1 0 0 (Some 1%nat) [].
Definition buf_w : buf := MkBuf (Z.lor B_VALID B_DIRTY) 0 6 sleeplock0 1 0 0 None [7; 7].
Definition sleeper : proc := set_chan (Some (buf_chan 0)) (proc_x 1 SLEEPING 2).
Definition kernel_d0 : kernel_d :=
  (set_pm mach_b (pst_x [proc_x 0 RUNNING 1; sleeper]),
   ([buf_r; buf_w], (MkIde (Some 0%nat) 0, MkController 5 0 0 0xe0 disk_5))).
