(* ===== verification/Console.v ===== *)
(** * The console (console.c, procdump of proc.c)

    Output: printint, cprintf, the serial line and the screen.  Input: the line editor that
    consoleintr() runs on every character, and consoleread(), which hands finished lines to
    processes.  [input] is a ring of 128 bytes with three unsigned counters: [r] where the next
    byte is read, [w] the end of the finished input, [e] the end of the line being edited. *)
From S2P Require Import Prelude Mmu KString Spinlock Pages Kalloc Vm Sched Process Syscall Trap Sleeplock Block Bio Log Fs Device.

Definition CONSOLE : Z := 1.
Definition BACKSPACE : Z := 0x100.
Definition CRTPORT : Z := 0x3d4.
Definition INPUT_BUF : Z := 128.
(** [C(x)]: Control-x. *)
Definition ctl_D : Z := 4.
Definition ctl_H : Z := 8.
Definition ctl_P : Z := 16.
Definition ctl_U : Z := 21.
Definition newline : Z := 10.

Record input_st := MkInput { in_buf : list Z; in_r : Z; in_w : Z; in_e : Z }.
Definition set_in_buf (x : list Z) (i : input_st) : input_st := MkInput x (in_r i) (in_w i) (in_e i).
Definition set_in_r (x : Z) (i : input_st) : input_st := MkInput (in_buf i) x (in_w i) (in_e i).
Definition set_in_w (x : Z) (i : input_st) : input_st := MkInput (in_buf i) (in_r i) x (in_e i).
Definition set_in_e (x : Z) (i : input_st) : input_st := MkInput (in_buf i) (in_r i) (in_w i) x.

(** [input.buf[input.e++ % INPUT_BUF] = c]. *)
Definition in_push (c : Z) (i : input_st) : input_st :=
  set_in_e (u32 (in_e i + 1)) (set_in_buf (<[Z.to_nat (in_e i mod INPUT_BUF) := c]> (in_buf i)) i).

(** The static variables and the screen's memory. *)
Record cons_st := MkCons { cn_panicked : Z; cn_locking : Z; cn_crt : Z -> Z; cn_input : input_st }.
Definition set_panicked (x : Z) (c : cons_st) : cons_st := MkCons x (cn_locking c) (cn_crt c) (cn_input c).
Definition set_locking (x : Z) (c : cons_st) : cons_st := MkCons (cn_panicked c) x (cn_crt c) (cn_input c).
Definition set_crt (x : Z -> Z) (c : cons_st) : cons_st := MkCons (cn_panicked c) (cn_locking c) x (cn_input c).
Definition set_input (x : input_st) (c : cons_st) : cons_st := MkCons (cn_panicked c) (cn_locking c) (cn_crt c) x.
Definition cons_lock : lockid := ("cons", 0).
Definition input_chan : lockid := ("input.r", 0).
Class HasCons (S : Type) := { cons_lens : lens S cons_st; cons_lens_laws :: LensLaws cons_lens }.

(** *** Numbers *)

(** The [do] loop of printint(), writing [buf[i]], [buf[i+1]], ...; [None] when the [k] bytes left
    in the buffer are not enough. *)
Fixpoint int_digits (k : nat) (digits : list Z) (base x : Z) : option (list Z) :=
  match k with
  | O => None
  | Datatypes.S k' =>
      let d := digits !!! Z.to_nat (x mod base) in
      if x / base =? 0 then Some [d] else ds ← int_digits k' digits base (x / base); Some (d :: ds)
  end.

(** "0123456789abcdef". *)
Definition hex_digits : list Z := [48; 49; 50; 51; 52; 53; 54; 55; 56; 57; 97; 98; 99; 100; 101; 102].

(** The contents of [buf] in printint(); the digits are printed from the last to the first. *)
Definition int_buf (digits : list Z) (xx base : Z) (sign : bool) : option (list Z) :=
  let neg := sign && (xx <? 0) in
  let x := if neg then u32 (- xx) else u32 xx in
  ds ← int_digits 16 digits base x;
  if neg then if (length ds <? 16)%nat then Some (ds ++ [45]) else None else Some ds.

(** The characters of a string, and "(null)". *)
Definition chars (s : string) : list Z := map (fun c => Z.of_nat (Ascii.nat_of_ascii c)) (String.list_ascii_of_string s).
Fixpoint cstr (l : list Z) : list Z :=
  match l with c :: l' => if c =? 0 then [] else c :: cstr l' | [] => [] end.

Section console.
Context {S : Type} `{!Ports S} `{!HasProc S} `{!HasDrivers S} `{!HasCons S}.

Definition cons : M S cons_st := gets (view cons_lens).
Definition cons_upd (f : cons_st -> cons_st) : M S unit :=
  modify (fun s => put cons_lens (f (view cons_lens s)) s).
Definition input_upd (f : input_st -> input_st) : M S unit := cons_upd (fun c => set_input (f (cn_input c)) c).

(** The stores into the screen's memory; cells are 16-bit words. *)
Definition crt_set (pos v : Z) : M S unit :=
  cons_upd (fun c => set_crt (fun p => if p =? pos then v else cn_crt c p) c).
Definition crt_scroll (pos : Z) : M S unit :=
  cons_upd (fun c => set_crt (fun p => if (0 <=? p) && (p <? 23 * 80) then cn_crt c (p + 80) else cn_crt c p) c);;;
  cons_upd (fun c => set_crt (fun p => if (pos <=? p) && (p <? 24 * 80) then 0 else cn_crt c p) c).

Definition cgaputc (c : Z) : M S unit :=
  outb CRTPORT 14;;;
  let* hi := inb (CRTPORT + 1) in
  outb CRTPORT 15;;;
  let* lo := inb (CRTPORT + 1) in
  let pos := Z.lor (Z.shiftl hi 8) lo in
  let* pos := (if c =? newline then ret (pos + (80 - pos mod 80))
    else if c =? BACKSPACE then ret (if 0 <? pos then pos - 1 else pos)
    else crt_set pos (Z.lor (Z.land c 0xff) 0x0700);;; ret (pos + 1)) in
  if (pos <? 0) || (25 * 80 <? pos) then panic "pos under/overflow" else
  let* pos := (if 24 <=? pos / 80 then crt_scroll (pos - 80);;; ret (pos - 80) else ret pos) in
  outb CRTPORT 14;;;
  outb (CRTPORT + 1) (u8 (Z.shiftr pos 8));;;
  outb CRTPORT 15;;;
  outb (CRTPORT + 1) (u8 pos);;;
  crt_set pos (Z.lor 32 0x0700).

(** A CPU that finds [panicked] set stops. *)
Definition consputc (c : Z) : M S unit :=
  let* k := cons in
  if negb (cn_panicked k =? 0) then ptab (zoom pm_lens cli);;; spin else
  (if c =? BACKSPACE then uartputc 8;;; uartputc 32;;; uartputc 8 else uartputc c);;;
  cgaputc c.

Definition printint (xx base : Z) (sign : bool) : M S unit :=
  match int_buf hex_digits xx base sign with
  | Some buf => for_each (rev buf) consputc
  | None => undef
  end.

(** The loop of cprintf(); an argument of the wrong kind, or a missing one, is undefined in C. *)
Fixpoint cprintf_loop (fmt : list Z) (args : list karg) : M S unit :=
  match fmt with
  | [] => ret tt
  | c :: fmt =>
      if c =? 0 then ret tt else
      if negb (c =? 37) then consputc c;;; cprintf_loop fmt args else
      match fmt with
      | [] => ret tt
      | c :: fmt =>
          if c =? 0 then ret tt else
          if c =? 100 then
            match args with
            | KNum x :: args => printint (s32 x) 10 true;;; cprintf_loop fmt args
            | _ => undef
            end
          else if (c =? 120) || (c =? 112) then
            match args with
            | KNum x :: args => printint (s32 x) 16 false;;; cprintf_loop fmt args
            | _ => undef
            end
          else if c =? 115 then
            match args with
            | KStr s :: args => for_each (cstr s) consputc;;; cprintf_loop fmt args
            | KNum x :: args => if x =? 0 then for_each (chars "(null)") consputc;;; cprintf_loop fmt args else undef
            | [] => undef
            end
          else if c =? 37 then consputc 37;;; cprintf_loop fmt args
          else consputc 37;;; consputc c;;; cprintf_loop fmt args
      end
  end.
Definition console_printf (fmt : string) (args : list karg) : M S unit :=
  let* k := cons in
  let locking := negb (cn_locking k =? 0) in
  when locking (ptab (kacquire cons_lock));;;
  cprintf_loop (chars fmt) args;;;
  when locking (ptab (krelease cons_lock)).
Definition console_ops : ConsoleOps S := {| cprintf := console_printf |}.

(** panic(): what it prints before it stops. *)
Definition console_panic (s : string) : M S unit :=
  ptab (zoom pm_lens cli);;;
  cons_upd (set_locking 0);;;
  let* m := gets machine in
  console_printf "lapicid %d: panic: " [KNum (lapicid m)];;;
  console_printf s [];;;
  console_printf nl [];;;
  let* m := gets machine in
  for_each (getcallerpcs (kread m) (argp m)) (fun pc => console_printf " %p" [KNum pc]);;;
  cons_upd (set_panicked 1);;;
  panic s.

(** *** procdump() (proc.c) *)
Definition state_name (st : procstate) : string :=
  match st with
  | UNUSED => "unused" | EMBRYO => "embryo" | SLEEPING => "sleep " | RUNNABLE => "runble"
  | RUNNING => "run   " | ZOMBIE => "zombie"
  end.
Fixpoint dump_pcs (pcs : list Z) : M S unit :=
  match pcs with
  | pc :: pcs' => if pc =? 0 then ret tt else console_printf " %p" [KNum pc];;; dump_pcs pcs'
  | [] => ret tt
  end.
Definition procdump : M S unit :=
  for_each (seq 0 NPROC) (fun i =>
    let* p := ptab (proc_at i) in
    when (negb (bool_decide (state p = UNUSED))) (
      console_printf "%d %s %s" [KNum (pid p); KStr (chars (state_name (state p))); KStr (name p)];;;
      when (bool_decide (state p = SLEEPING)) (
        let* m := gets machine in
        dump_pcs (getcallerpcs (kread m) (u32 (cx_ebp (context p) + 8))));;;
      console_printf nl [])).

(** *** Input *)

(** Control-U, at most [k] characters. *)
Fixpoint kill_line (k : nat) : M S unit :=
  let* c := cons in
  let i := cn_input c in
  if negb (in_e i =? in_w i) && negb (in_buf i !!! Z.to_nat (u32 (in_e i - 1) mod INPUT_BUF) =? newline) then
    match k with
    | O => nofuel
    | Datatypes.S k' =>
        input_upd (set_in_e (u32 (in_e i - 1)));;;
        consputc BACKSPACE;;;
        kill_line k'
    end
  else ret tt.

(** The switch of consoleintr() on [c], except Control-P. *)
Definition console_char (c : Z) : M S unit :=
  let* k := cons in
  let i := cn_input k in
  if c =? ctl_U then kill_line (Z.to_nat (u32 (in_e i - in_w i)))
  else if (c =? ctl_H) || (c =? 0x7f) then
    when (negb (in_e i =? in_w i)) (
      input_upd (set_in_e (u32 (in_e i - 1)));;;
      consputc BACKSPACE)
  else
    when (negb (c =? 0) && (u32 (in_e i - in_r i) <? INPUT_BUF)) (
      let c := if c =? 13 then newline else c in
      input_upd (in_push (u8 c));;;
      consputc c;;;
      let* k := cons in
      let i := cn_input k in
      when ((c =? newline) || (c =? ctl_D) || (in_e i =? u32 (in_r i + INPUT_BUF))) (
        input_upd (set_in_w (in_e i));;;
        ptab (wakeup input_chan))).

(** The [while], one unit of fuel per character; the result is [doprocdump]. *)
Fixpoint consoleintr_loop (k : nat) (getc : M S Z) (doprocdump : bool) : M S bool :=
  let* c := getc in
  if c <? 0 then ret doprocdump else
  match k with
  | O => nofuel
  | Datatypes.S k' =>
      if c =? ctl_P then consoleintr_loop k' getc true
      else console_char c;;; consoleintr_loop k' getc doprocdump
  end.
Definition consoleintr (k : nat) (getc : M S Z) : M S unit :=
  ptab (kacquire cons_lock);;;
  let* doprocdump := consoleintr_loop k getc false in
  ptab (krelease cons_lock);;;
  when doprocdump procdump.
Definition console_uartintr (k : nat) : M S unit := consoleintr k uartgetc.
Definition console_kbdintr (k : nat) : M S unit := consoleintr k kbdgetc.

(** The inner [while] of consoleread(): [false] when the process was killed. *)
Fixpoint consoleread_wait (k : nat) : M S bool :=
  let* c := cons in
  if in_r (cn_input c) =? in_w (cn_input c) then
    let* p := curp in
    if negb (killed p =? 0) then ptab (krelease cons_lock);;; ret false else
    ptab (sleep input_chan (Some cons_lock));;;
    match k with O => nofuel | Datatypes.S k' => consoleread_wait k' end
  else ret true.
Context `{!BlockOps S} `{!HasFs S} (fuel : nat).

(** The outer [while], with [n] bytes to go: how many are left at the end, [None] if killed. *)
Fixpoint consoleread_loop {A} (n : nat) (dst : sink S A) (a : A) (target : Z) : M S (option nat * A) :=
  match n with
  | O => ret (Some 0%nat, a)
  | Datatypes.S n' =>
      let* ok := consoleread_wait fuel in
      if negb ok then ret (None, a) else
      let* k := cons in
      let i := cn_input k in
      let c := in_buf i !!! Z.to_nat (in_r i mod INPUT_BUF) in
      input_upd (set_in_r (u32 (in_r i + 1)));;;
      if c =? ctl_D then
        when (Z.of_nat n <? target) (input_upd (fun i => set_in_r (u32 (in_r i - 1)) i));;;
        ret (Some n, a)
      else
        let* a := dst a (target - Z.of_nat n) [c] in
        if c =? newline then ret (Some n', a) else consoleread_loop n' dst a target
  end.
Definition consoleread {A} (dst : sink S A) (a : A) (ip : nat) (n : Z) : M S (Z * A) :=
  iunlock (Some ip);;;
  let target := u32 n in
  ptab (kacquire cons_lock);;;
  let* r := consoleread_loop (Z.to_nat n) dst a target in
  match r with
  | (None, a) => ilock fuel (Some ip);;; ret (-1, a)
  | (Some rest, a) =>
      ptab (krelease cons_lock);;;
      ilock fuel (Some ip);;;
      ret (if 0 <=? n then s32 (target - Z.of_nat rest) else 0, a)
  end.

Definition consolewrite (src : source S) (ip : nat) (n : Z) : M S Z :=
  iunlock (Some ip);;;
  ptab (kacquire cons_lock);;;
  for_each (seqZ 0 n) (fun i => let* bs := src i 1 in consputc (hd 0 bs));;;
  ptab (krelease cons_lock);;;
  ilock fuel (Some ip);;;
  ret n.

(** [devsw], after consoleinit(). *)
Definition console_dev : DevOps S := {|
  dev_read maj := if maj =? CONSOLE then Some (fun A dst a ip n => consoleread dst a ip n) else None;
  dev_write maj := if maj =? CONSOLE then Some consolewrite else None
|}.
Definition consoleinit : M S unit :=
  ptab (kinitlock cons_lock "console");;;
  cons_upd (set_locking 1);;;
  ioapicenable IRQ_KBD 0.
End console.

(** ** Specifications *)

(** The value of a string of decimal digits, the last one first. *)
Fixpoint dec_rev (ds : list Z) : Z :=
  match ds with d :: ds' => d - 48 + 10 * dec_rev ds' | [] => 0 end.

(** The line editor: the finished input [C] and the line being typed [E], and what a character
    does to them. *)
Definition edit (c : Z) (CE : list Z * list Z) : list Z * list Z :=
  let '(C, E) := CE in
  if c =? ctl_U then (C, [])
  else if (c =? ctl_H) || (c =? 0x7f) then (C, removelast E)
  else if negb (c =? 0) && (Z.of_nat (length (C ++ E)) <? INPUT_BUF) then
    let c := if c =? 13 then newline else c in
    let E := E ++ [c] in
    if (c =? newline) || (c =? ctl_D) || (Z.of_nat (length (C ++ E)) =? INPUT_BUF) then (C ++ E, [])
    else (C, E)
  else (C, E).

(** The ring holds [C], then [E]; a line being typed has no newline. *)
Definition input_rep (i : input_st) (C E : list Z) : Prop :=
  ring_rep INPUT_BUF (in_buf i) (in_r i) (C ++ E) /\ in_w i = u32 (in_r i + Z.of_nat (length C)) /\
  in_e i = u32 (in_r i + Z.of_nat (length (C ++ E))) /\ newline ∉ E.

(** ** Lemmas *)

(** Ten digits are enough for 32 bits, and they are those of the number. *)
Lemma int_digits_dec digits k x :
  (forall v, 0 <= v < 10 -> digits !!! Z.to_nat v = 48 + v) -> 0 <= x < 10 ^ Z.of_nat k ->
  (0 < k)%nat -> exists ds, int_digits k digits 10 x = Some ds /\ dec_rev ds = x /\ (0 < length ds <= k)%nat /\
    Forall (fun d => 48 <= d <= 57) ds.
Proof.
  intros Hdig. revert x. induction k as [|k IH]; intros x Hx Hk; [lia|]. simpl int_digits.
  pose proof (Z.mod_pos_bound x 10 ltac:(lia)). rewrite Hdig by done.
  destruct (Z.eqb_spec (x / 10) 0) as [E|E].
  - eexists. split; [done|]. cbn [dec_rev length]. split; [Z.to_euclidean_division_equations; lia|].
    split; [lia|]. apply Forall_singleton. lia.
  - assert (0 < k)%nat. { destruct k; [|lia]. change (10 ^ Z.of_nat 1) with 10 in Hx. Z.to_euclidean_division_equations. lia. }
    destruct (IH (x / 10)) as (ds & -> & Hv & Hl & Hf); [|done|].
    { rewrite Nat2Z.inj_succ, Z.pow_succ_r in Hx by lia. generalize dependent (10 ^ Z.of_nat k). intros.
      Z.to_euclidean_division_equations. lia. }
    exists (48 + x mod 10 :: ds). split; [done|]. cbn [dec_rev length]. rewrite Hv.
    split; [Z.to_euclidean_division_equations; lia|]. split; [lia|]. constructor; [lia|done].
Qed.

Lemma INPUT_BUF_pos : 0 < INPUT_BUF.
Proof. done. Qed.
Lemma INPUT_BUF_div : (INPUT_BUF | 2 ^ 32).
Proof. by exists (2 ^ 25). Qed.

Lemma input_pending i C E : input_rep i C E -> (in_e i =? in_w i) = bool_decide (E = []) /\
  u32 (in_e i - in_w i) = Z.of_nat (length E) /\ u32 (in_e i - in_r i) = Z.of_nat (length (C ++ E)).
Proof.
  intros ((_ & Hr & Hl & _) & -> & -> & _). unfold INPUT_BUF in *. rewrite length_app in *. split_and!.
  - rewrite u32_count_eqb by lia. destruct E; [rewrite bool_decide_true by done|rewrite bool_decide_false by done];
      simpl length; [apply Z.eqb_eq|apply Z.eqb_neq]; lia.
  - rewrite u32_sub_l, u32_sub_r, u32_small by lia. lia.
  - rewrite u32_sub_l, u32_small by lia. lia.
Qed.

(** Rubbing out the last character. *)
Lemma input_drop i C E b : input_rep i C (E ++ [b]) ->
  in_buf i !!! Z.to_nat (u32 (in_e i - 1) mod INPUT_BUF) = b /\ input_rep (set_in_e (u32 (in_e i - 1)) i) C E.
Proof.
  intros (Hring & Hw & He & Hnl). rewrite He, u32_sub_l, app_assoc, length_app in *. simpl length in *.
  replace (in_r i + Z.of_nat (length (C ++ E) + 1) - 1) with (in_r i + Z.of_nat (length (C ++ E))) by lia. split.
  - apply list_lookup_total_correct. rewrite (u32_mod_ring _ INPUT_BUF_pos INPUT_BUF_div).
    apply Hring. by apply list_lookup_middle.
  - split; [by apply (ring_prefix _ INPUT_BUF_pos _ _ _ [b])|]. split_and!; [done|done|].
    intros HE. apply Hnl. apply elem_of_app. by left.
Qed.

Lemma input_push i C E c : input_rep i C E -> Z.of_nat (length (C ++ E)) < INPUT_BUF ->
  let i' := in_push c i in
  ring_rep INPUT_BUF (in_buf i') (in_r i') (C ++ E ++ [c]) /\ in_w i' = in_w i /\
  in_e i' = u32 (in_r i' + Z.of_nat (length (C ++ E ++ [c]))).
Proof.
  intros (Hring & Hw & He & Hnl) Hroom i'. unfold i', in_push. simpl. rewrite He. split_and!; [|done|].
  - rewrite app_assoc. by apply (ring_push _ INPUT_BUF_pos INPUT_BUF_div).
  - rewrite app_assoc, (length_app (C ++ E)), u32_add_l. simpl. f_equal. lia.
Qed.

(** A terminal: [R cs] says that the characters [cs] are about to be typed.  Showing a character
    leaves the input and the processes alone, and so on. *)
Section terminal.
Context {S : Type} `{!Ports S} `{!HasProc S} `{!HasDrivers S} `{!HasCons S} `{!LensIndep proc_lens cons_lens}.
Context (R : list Z -> S -> Prop) (getc : M S Z).

Class Terminal : Prop := {
  tm_putc : forall cs c s, R cs s -> wp (consputc c) (fun _ s' =>
    R cs s' /\ cn_input (view cons_lens s') = cn_input (view cons_lens s) /\ view proc_lens s' = view proc_lens s) s;
  tm_input : forall cs f s, R cs s -> R cs (put cons_lens (set_input (f (cn_input (view cons_lens s))) (view cons_lens s)) s);
  tm_proc : forall cs t s, R cs s -> R cs (put proc_lens t s);
  tm_getc : forall cs s, R cs s -> wp getc (fun c s' =>
    match cs with [] => c < 0 /\ R [] s' | c' :: cs' => c = c' /\ R cs' s' end /\
    cn_input (view cons_lens s') = cn_input (view cons_lens s) /\ view proc_lens s' = view proc_lens s) s
}.
Context `{!Terminal} (cpu : nat) (o : option nat) (F : list lockid).

(** The state inside consoleintr(). *)
Definition editing (cs C E : list Z) (s : S) : Prop :=
  R cs s /\ on_cpu cpu o 1 [cons_lock] (without cons_lock F) (machine s) /\ input_rep (cn_input (view cons_lens s)) C E.

Lemma wp_input_upd f (Q : unit -> S -> Prop) s :
  Q tt (put cons_lens (set_input (f (cn_input (view cons_lens s))) (view cons_lens s)) s) -> wp (input_upd f) Q s.
Proof. intros HQ. by apply wp_modify. Qed.

Lemma editing_input cs C E C' E' f s : editing cs C E s -> input_rep (f (cn_input (view cons_lens s))) C' E' ->
  editing cs C' E' (put cons_lens (set_input (f (cn_input (view cons_lens s))) (view cons_lens s)) s).
Proof.
  intros (HR & Hon & _) Hi. split_and!; [by apply tm_input|by rewrite machine_put_other|by rewrite view_put].
Qed.

Lemma editing_putc cs C E c s (Q : unit -> S -> Prop) :
  editing cs C E s -> (forall s', editing cs C E s' -> cn_input (view cons_lens s') = cn_input (view cons_lens s) -> Q tt s') ->
  wp (consputc c) Q s.
Proof.
  intros (HR & Hon & Hi) HQ. eapply wp_mono; [|by apply (tm_putc cs)]. intros [] s' (HR' & Ei & Ep). apply HQ; [|done].
  split_and!; [done|unfold machine; by rewrite Ep|by rewrite Ei].
Qed.

Lemma kill_line_run cs C E s :
  editing cs C E s -> wp (kill_line (length E)) (fun _ => editing cs C []) s.
Proof using All.
  revert s. induction E as [|b E IH] using rev_ind; intros s He; pose proof He as (_ & _ & Hi).
  - simpl. apply wp_bind, wp_gets. destruct (input_pending _ _ _ Hi) as [-> _]. by apply wp_ret.
  - rewrite length_app, Nat.add_comm. simpl kill_line. apply wp_bind, wp_gets.
    destruct (input_pending _ _ _ Hi) as [-> _]. rewrite bool_decide_false by (by intros []%app_eq_nil).
    destruct (input_drop _ _ _ _ Hi) as [-> Hi']. destruct (Z.eqb_spec b newline) as [->|Hb].
    { destruct Hi as (_ & _ & _ & Hnl). destruct Hnl. apply elem_of_app. right. by left. }
    simpl. apply wp_bind, wp_input_upd. apply wp_bind.
    eapply editing_putc; [by eapply editing_input|]. intros s' Hs' _. by apply IH.
Qed.

Lemma console_char_run c cs C E s : ptable_lock ∈ without cons_lock F -> 0 <= c < 2 ^ 8 ->
  editing cs C E s -> wp (console_char c) (fun _ => editing cs (fst (edit c (C, E))) (snd (edit c (C, E)))) s.
Proof using All.
  intros HF Hc He. pose proof He as (_ & _ & Hi). destruct (input_pending _ _ _ Hi) as (Eew & Ek & Er).
  unfold console_char, edit. apply wp_bind, wp_gets. destruct (c =? ctl_U).
  { rewrite Ek, Nat2Z.id. by apply kill_line_run. }
  destruct ((c =? ctl_H) || (c =? 0x7f)).
  { rewrite Eew. destruct E as [|b E _] using rev_ind; [by rewrite bool_decide_true; [apply wp_ret|]|].
    rewrite bool_decide_false by (by intros []%app_eq_nil). simpl. rewrite removelast_last.
    apply wp_bind, wp_input_upd. destruct (input_drop _ _ _ _ Hi) as [_ Hi'].
    eapply editing_putc; [by eapply editing_input|]. by intros s' Hs' _. }
  rewrite Er. destruct (Z.eqb_spec c 0) as [|Hc0]; [by apply wp_ret|].
  destruct (Z.ltb_spec (Z.of_nat (length (C ++ E))) INPUT_BUF) as [Hroom|]; [|by apply wp_ret].
  set (c' := if c =? 13 then newline else c). simpl negb. cbn [andb when].
  assert (0 <= c' < 2 ^ 8) as Hc' by (unfold c', newline; destruct (c =? 13); lia).
  apply wp_bind, wp_input_upd. rewrite u8_small by done.
  destruct (input_push _ _ _ c' Hi Hroom) as (Hring & Hw & He'). set (i' := in_push c' _) in *.
  destruct He as (HR & Hon & _). apply wp_bind.
  eapply wp_mono; [|apply (tm_putc cs), (tm_input cs (fun _ => i')), HR].
  intros [] s1 (HR1 & Ei & Ep). rewrite view_put in Ei. change (cn_input (view cons_lens s1) = i') in Ei.
  apply wp_bind, wp_gets. rewrite Ei.
  assert (on_cpu cpu o 1 [cons_lock] (without cons_lock F) (machine s1)) as Hon1
    by (unfold machine; rewrite Ep, indep_view_l; exact Hon).
  assert ((in_e i' =? u32 (in_r i' + INPUT_BUF)) = (Z.of_nat (length (C ++ E ++ [c'])) =? INPUT_BUF)) as Efull.
  { rewrite He'. apply u32_count_eqb. destruct Hring as (_ & _ & Hl & _). unfold INPUT_BUF in *. lia. }
  rewrite Efull. destruct (_ || _ || _) eqn:Hend; simpl.
  - apply wp_bind, wp_input_upd. set (s2 := put cons_lens _ s1).
    assert (R cs s2) as HR2 by (apply (tm_input cs (set_in_w (in_e i'))), HR1).
    eapply (wp_wakeup cpu o 1 [cons_lock] (without cons_lock F)); [done| |done|unfold s2; by rewrite machine_put_other|].
    { intros [E0|[]%elem_of_nil]%elem_of_cons. discriminate E0. }
    intros m2 Hm2. split_and!; [by apply tm_proc|by rewrite machine_put_woken|].
    rewrite view_put_woken by done. unfold s2. rewrite view_put. simpl. rewrite Ei. split_and!.
    + by rewrite app_nil_r.
    + exact He'.
    + rewrite app_nil_r. exact He'.
    + by intros []%elem_of_nil.
  - apply wp_ret. split_and!; [done|done|]. rewrite Ei. destruct Hi as (_ & Hw0 & _ & Hnl). split_and!; [done| |done|].
    + rewrite Hw. exact Hw0.
    + apply orb_false_iff in Hend as [[Hn%Z.eqb_neq _]%orb_false_iff _].
      intros [HE|HE%list_elem_of_singleton]%elem_of_app; [done|]. by symmetry in HE.
Qed.
End terminal.

(** ** Theorems *)

(** C17. console.c, consoleintr(): the interrupt handler is a line editor.  Typing the characters
    [cs] (other than Control-P) does to the finished input and to the line being typed what
    folding [edit] over them says: erasing stops at the start of the line, a full buffer takes no
    more, the line is finished by a newline, Control-D or a full buffer; the ring and its three
    wrapping counters represent the result, and the lock is free again. *)
Theorem consoleintr_edits {S} `{!Ports S} `{!HasProc S} `{!HasDrivers S} `{!HasCons S} `{!LensIndep proc_lens cons_lens}
    (R : list Z -> S -> Prop) getc `{!Terminal R getc} cpu o F k cs C E s :
  R cs s -> on_cpu cpu o 0 [] F (machine s) -> cons_lock ∈ F -> ptable_lock ∈ F ->
  Forall (fun c => 0 <= c < 2 ^ 8) cs -> ctl_P ∉ cs -> (length cs <= k)%nat ->
  input_rep (cn_input (view cons_lens s)) C E ->
  wp (consoleintr k getc) (fun _ s' => R [] s' /\ on_cpu cpu o 0 [] F (machine s') /\
    let CE := foldl (fun CE c => edit c CE) (C, E) cs in
    input_rep (cn_input (view cons_lens s')) (fst CE) (snd CE)) s.
Proof.
  intros HR Hon HcF HtF Hcs HP Hk Hi. unfold consoleintr. apply wp_bind.
  eapply (wp_lock cpu o 0 [] F); [done..|]. intros m1 Hm1. apply wp_bind.
  assert (editing R cpu o F cs C E (put_pm m1 s)) as He
    by (split; [by apply (tm_proc R getc)|split; [by rewrite machine_put_pm|by rewrite view_put_pm]]).
  assert (ptable_lock ∈ without cons_lock F) as HtF' by (by apply without_in).
  eapply wp_mono with (Q := fun r s' => r = false /\ let CE := foldl (fun CE c => edit c CE) (C, E) cs in
    editing R cpu o F [] (fst CE) (snd CE) s').
  { intros r s' (-> & HR' & Hon' & Hi'). apply wp_bind.
    eapply (wp_unlock cpu o 1 [] F); [done|set_solver|done|]. intros m2 Hm2. apply wp_ret.
    split; [by apply (tm_proc R getc)|split; [by rewrite machine_put_pm|by rewrite view_put_pm]]. }
  clear HR Hon Hi. generalize dependent (put_pm m1 s). revert cs C E Hcs HP Hk. induction k as [|k IH]; intros cs C E Hcs HP Hk t He.
  all: simpl consoleintr_loop; apply wp_bind; pose proof He as (HR & Hon & Hi).
  all: eapply wp_mono; [|by apply (tm_getc R getc cs)]; intros c t' (Hc & Ei & Ep).
  all: assert (forall cs', R cs' t' -> editing R cpu o F cs' C E t') as He'
    by (intros cs' HR'; split; [done|split; [unfold machine; by rewrite Ep|by rewrite Ei]]).
  all: destruct cs as [|c' cs]; [destruct Hc as [Hneg HR']; destruct (Z.ltb_spec c 0); [|lia]; apply wp_ret; split; [done|by apply He']|].
  { simpl in Hk. lia. }
  destruct Hc as [-> HR']. apply Forall_cons in Hcs as [Hc' Hcs]. destruct (Z.ltb_spec c' 0); [lia|].
  apply not_elem_of_cons in HP as [Hne HP]. destruct (Z.eqb_spec c' ctl_P) as [->|_]; [done|].
  apply wp_bind. eapply wp_mono; [|apply (console_char_run R getc cpu o F c' cs C E); [done|done|by apply He']].
  intros [] t2 He2. simpl foldl. specialize (IH cs (fst (edit c' (C, E))) (snd (edit c' (C, E))) Hcs HP).
  rewrite <- surjective_pairing in IH. apply IH; [simpl in Hk; lia|done].
Qed.

(** *** Witness: a serial line and a screen *)

(** The cursor registers of the screen, the register selected, and the bytes that wait on the
    serial line. *)
Record hardware := MkHw { hw_sel : Z; hw_hi : Z; hw_lo : Z; hw_line : list Z }.
Definition kernel_c : Type := (pst * drivers) * (cons_st * hardware).
#[local] Instance proc_c : HasProc kernel_c := {| proc_lens := compose_lens fst_lens fst_lens |}.
#[local] Instance drivers_c : HasDrivers kernel_c := {| drivers_lens := compose_lens fst_lens snd_lens |}.
#[local] Instance cons_c : HasCons kernel_c := {| cons_lens := compose_lens snd_lens fst_lens |}.
Definition hw_lens : lens kernel_c hardware := compose_lens snd_lens snd_lens.
#[local] Instance ports_c : Ports kernel_c := {|
  inb p := fun s => let h := view hw_lens s in
    if p =? CRTPORT + 1 then Done (if hw_sel h =? 14 then hw_hi h else hw_lo h) s
    else if p =? COM1 + 5 then Done (if bool_decide (hw_line h = []) then 0x20 else 0x21) s
    else if p =? COM1 then Done (hd 0 (hw_line h)) (put hw_lens (MkHw (hw_sel h) (hw_hi h) (hw_lo h) (tail (hw_line h))) s)
    else Done 0 s;
  outb p v := fun s => let h := view hw_lens s in
    if p =? CRTPORT then Done tt (put hw_lens (MkHw v (hw_hi h) (hw_lo h) (hw_line h)) s)
    else if p =? CRTPORT + 1 then
      Done tt (put hw_lens (if hw_sel h =? 14 then MkHw 14 v (hw_lo h) (hw_line h) else MkHw (hw_sel h) (hw_hi h) v (hw_line h)) s)
    else Done tt s;
  insl _ n := ret (replicate (4 * n) 0); outsl _ _ := ret tt; reg_read _ := ret 0; reg_write _ _ := ret tt
|}.
#[local] Instance indep_c1 : LensIndep (S := kernel_c) proc_lens cons_lens. Proof. done. Qed.

Definition screen_ok (cs : list Z) (s : kernel_c) : Prop :=
  let h := view hw_lens s in
  cn_panicked (view cons_lens s) = 0 /\ dr_uart (view drivers_lens s) = 1 /\ hw_line h = cs /\
  0 <= hw_lo h < 2 ^ 8 /\ 0 <= hw_hi h /\ hw_hi h * 2 ^ 8 + hw_lo h < 24 * 80.

Lemma cursor_value hi lo : 0 <= lo < 2 ^ 8 -> Z.lor (Z.shiftl hi 8) lo = hi * 2 ^ 8 + lo.
Proof.
  intros Hlo. rewrite Z.shiftl_mul_pow2 by lia. apply (lor_disjoint_add _ _ 8); [lia|done|]. apply Z.mod_mul. lia.
Qed.

(** One access to a port. *)
Ltac io := apply wp_bind; unfold wp at 1; simpl.

(** The screen takes any character: the cursor stays on it. *)
Lemma cgaputc_c cs c s : screen_ok cs s -> wp (S := kernel_c) (cgaputc c) (fun _ s' =>
  screen_ok cs s' /\ cn_input (view cons_lens s') = cn_input (view cons_lens s) /\ view proc_lens s' = view proc_lens s) s.
Proof.
  destruct s as [[p d] [k [sel hi lo line]]]. intros (Hp & Hu & Hline & Hlo & Hhi & Hpos). simpl in *.
  unfold cgaputc. do 4 io. rewrite cursor_value by done.
  set (pos := hi * 2 ^ 8 + lo) in *. apply wp_bind.
  match goal with |- wp ?m ?Q ?st => assert (exists pos' crt, m st = Done pos' (put cons_lens (set_crt crt k) st) /\ 0 <= pos' <= 24 * 80)
    as (pos' & crt & Em & Hpos') end.
  { assert (forall st : kernel_c, view cons_lens st = k -> st = put cons_lens (set_crt (cn_crt k) k) st) as Hid
      by (intros [[? ?] [? ?]]; simpl; intros ->; by destruct k).
    destruct (c =? newline).
    - exists (pos + (80 - pos mod 80)), (cn_crt k). split; [unfold ret; f_equal; by apply Hid|].
      Z.to_euclidean_division_equations. lia.
    - destruct (c =? BACKSPACE).
      + exists (if 0 <? pos then pos - 1 else pos), (cn_crt k). split; [unfold ret; f_equal; by apply Hid|].
        destruct (Z.ltb_spec 0 pos); lia.
      + eexists (pos + 1), _. split; [reflexivity|]. lia. }
  unfold wp at 1. rewrite Em. destruct (Z.ltb_spec pos' 0), (Z.ltb_spec (25 * 80) pos'); try lia. cbn [orb].
  apply wp_bind. clear Em.
  match goal with |- wp ?m ?Q ?st => assert (exists pos'' crt', m st = Done pos'' (put cons_lens (set_crt crt' k) st) /\ 0 <= pos'' < 24 * 80)
    as (pos'' & crt' & Em & Hpos'') end.
  { destruct (Z.leb_spec 24 (pos' / 80)).
    - eexists (pos' - 80), _. split; [reflexivity|]. Z.to_euclidean_division_equations. lia.
    - exists pos', crt. split; [reflexivity|]. Z.to_euclidean_division_equations. lia. }
  unfold wp at 1. rewrite Em. do 4 io. apply wp_modify. simpl.
  unfold screen_ok. simpl. rewrite Z.shiftr_div_pow2 by lia. unfold u8 in *.
  assert (0 <= pos'' / 2 ^ 8 < 8) by (Z.to_euclidean_division_equations; lia).
  rewrite (Z.mod_small (pos'' / 2 ^ 8)) by lia. split_and!; try done; try (Z.to_euclidean_division_equations; lia).
Qed.

Lemma uartputc_c cs c s : screen_ok cs s -> wp (S := kernel_c) (uartputc c) (fun _ s' => s' = s) s.
Proof.
  destruct s as [[p d] [k [sel hi lo line]]]. intros (Hp & Hu & Hline & _). simpl in *.
  unfold uartputc. apply wp_bind, wp_gets. simpl. rewrite Hu. simpl. apply wp_bind. simpl uart_wait. io.
  by case_bool_decide.
Qed.

#[local] Instance terminal_c : Terminal (S := kernel_c) screen_ok uartgetc.
Proof.
  split.
  - intros cs c s Hs. unfold consputc. apply wp_bind, wp_gets. rewrite (proj1 Hs). simpl. apply wp_bind.
    assert (forall A (m : M kernel_c A) Q, wp m (fun _ s' => s' = s) s -> (forall a, Q a s) -> wp m Q s) as Hm.
    { intros A m Q Hw HQ. eapply wp_mono; [|exact Hw]. by intros a s' ->. }
    apply Hm.
    + destruct (c =? BACKSPACE); [|by apply (uartputc_c cs)].
      apply wp_bind, Hm; [by apply (uartputc_c cs)|]. intros _. apply wp_bind, Hm; [by apply (uartputc_c cs)|].
      intros _. by apply (uartputc_c cs).
    + intros _. by apply cgaputc_c.
  - by intros cs f [[p d] [k h]] Hs.
  - by intros cs t [[p d] [k h]] Hs.
  - intros cs [[p d] [k [sel hi lo line]]] (Hp & Hu & Hline & Hlo & Hhi & Hpos). simpl in *. subst line.
    unfold uartgetc. apply wp_bind, wp_gets. simpl. rewrite Hu. simpl. io. destruct cs as [|c cs].
    + rewrite bool_decide_true by done. apply wp_ret. split; [split; [lia|]|done]. exact (conj Hp (conj Hu (conj eq_refl (conj Hlo (conj Hhi Hpos))))).
    + rewrite bool_decide_false by done. simpl. unfold wp. simpl. split; [split; [done|]|done].
      exact (conj Hp (conj Hu (conj eq_refl (conj Hlo (conj Hhi Hpos))))).
Qed.

(** "lx", backspace, "s", newline. *)
Definition kernel_c0 : kernel_c :=
  ((fst kernel_u, MkDrivers 1 0 0),
   (MkCons 0 1 (fun _ => 0) (MkInput (replicate 128 0) (2 ^ 32 - 2) (2 ^ 32 - 2) (2 ^ 32 - 2)), MkHw 0 0 0 [108; 120; 8; 115; 10])).

Lemma consoleintr_edits_witness :
  wp (S := kernel_c) (consoleintr 5 uartgetc) (fun _ s' =>
    input_rep (cn_input (view cons_lens s')) [108; 115; 10] []) kernel_c0.
Proof.
  refine (wp_mono _ _ _ _ _ (consoleintr_edits (S := kernel_c) screen_ok uartgetc 0 (Some 0%nat) [cons_lock; ptable_lock]
    5 [108; 120; 8; 115; 10] [] [] kernel_c0 _ _ _ _ _ _ _ _)).
  - intros [] s' (_ & _ & Hi). exact Hi.
  - split_and!; simpl; try done; lia.
  - split; [reflexivity|]. split; [lia|]. split; [by eexists|]. split; repeat constructor.
  - by left.
  - by right; left.
  - repeat constructor; lia.
  - vm_compute. intros H. repeat (apply elem_of_cons in H as [H|H]; [discriminate H|]). by apply elem_of_nil in H.
  - simpl. lia.
  - split; [split; [reflexivity|split; [done|split; [done|by intros [|?]]]]|]. split; [reflexivity|]. split; [reflexivity|].
    by intros []%elem_of_nil.
Defined.
