(* ===== verification/User.v ===== *)
(** * User programs (user.h, ulib.c, printf.c, cat.c, echo.c, wc.c, ls.c, ln.c, mkdir.c, rm.c, kill.c, init.c, zombie.c)

    A program sees the kernel through the class [Usys]: the system calls as user.h declares them.
    A buffer that a system call fills is a value it returns; a C string is the list of its bytes,
    without the NUL.  exit() does not return. *)
From S2P Require Import Prelude KString Pages Fs Sysfile Console.

Class Usys (S : Type) := {
  u_fork : M S Z;
  u_exit : forall {A}, M S A;
  u_wait : M S Z;
  u_pipe : M S (option (Z * Z));
  u_write : Z -> list Z -> M S Z;
  u_read : Z -> Z -> M S (option (list Z));     (* [None]: -1 *)
  u_close : Z -> M S Z;
  u_kill : Z -> M S Z;
  u_exec : list Z -> list (list Z) -> M S Z;
  u_open : list Z -> Z -> M S Z;
  u_mknod : list Z -> Z -> Z -> M S Z;
  u_unlink : list Z -> M S Z;
  u_fstat : Z -> M S (option stat);
  u_link : list Z -> list Z -> M S Z;
  u_mkdir : list Z -> M S Z;
  u_chdir : list Z -> M S Z;
  u_dup : Z -> M S Z;
  u_sbrk : Z -> M S Z;
  u_sleep : Z -> M S Z;
  u_uptime : M S Z
}.

(** ** ulib.c on lists of bytes *)

(** [strchr(s, c) != 0]. *)
Definition in_str (s : list Z) (c : Z) : bool := existsb (Z.eqb c) s.
#[global] Arguments in_str : simpl never.

(** The same as [Ulib.atoi], on the bytes of the string. *)
Fixpoint atoi_digits (n : Z) (s : list Z) : Z :=
  match s with
  | c :: s' => if (48 <=? c) && (c <=? 57) then atoi_digits (s32 (n * 10 + c - 48)) s' else n
  | [] => n
  end.
Definition atoi (s : list Z) : Z := atoi_digits 0 s.

(** "0123456789ABCDEF". *)
Definition HEX_digits : list Z := [48; 49; 50; 51; 52; 53; 54; 55; 56; 57; 65; 66; 67; 68; 69; 70].

Section user.
Context {S : Type} `{!Usys S}.

Fixpoint gets_loop (k : nat) (buf : list Z) : M S (list Z) :=
  match k with
  | O => ret buf
  | Datatypes.S k' =>
      let* cc := u_read 0 1 in
      match cc with
      | Some (c :: _) =>
          let buf := buf ++ [c] in
          if (c =? 10) || (c =? 13) then ret buf else gets_loop k' buf
      | _ => ret buf
      end
  end.
Definition gets (max : Z) : M S (list Z) := gets_loop (Z.to_nat (max - 1)) [].

(** stat() of ulib.c. *)
Definition ustat (n : list Z) : M S (option stat) :=
  let* fd := u_open n O_RDONLY in
  if fd <? 0 then ret None else
  let* r := u_fstat fd in
  let* _ := u_close fd in
  ret r.

(** *** printf.c *)
Definition putc (fd c : Z) : M S unit :=
  let* _ := u_write fd [u8 c] in ret tt.

Definition uprintint (fd xx base : Z) (sgn : bool) : M S unit :=
  match int_buf HEX_digits xx base sgn with
  | Some buf => for_each (rev buf) (putc fd)
  | None => undef
  end.

(** The loop of printf(); [state] is true after a '%'.  An argument of the wrong kind, or a
    missing one, is undefined in C. *)
Fixpoint printf_loop (fd : Z) (fmt : list Z) (args : list karg) (state : bool) : M S unit :=
  match fmt with
  | [] => ret tt
  | c :: fmt =>
      if negb state then
        if c =? 37 then printf_loop fd fmt args true else putc fd c;;; printf_loop fd fmt args false
      else if c =? 100 then
        match args with
        | KNum x :: args => uprintint fd (s32 x) 10 true;;; printf_loop fd fmt args false
        | _ => undef
        end
      else if (c =? 120) || (c =? 112) then
        match args with
        | KNum x :: args => uprintint fd (s32 x) 16 false;;; printf_loop fd fmt args false
        | _ => undef
        end
      else if c =? 115 then
        match args with
        | KStr s :: args => for_each s (putc fd);;; printf_loop fd fmt args false
        | KNum x :: args =>
            if x =? 0 then for_each (chars "(null)") (putc fd);;; printf_loop fd fmt args false else undef
        | [] => undef
        end
      else if c =? 99 then
        match args with
        | KNum x :: args => putc fd x;;; printf_loop fd fmt args false
        | _ => undef
        end
      else if c =? 37 then putc fd c;;; printf_loop fd fmt args false
      else putc fd 37;;; putc fd c;;; printf_loop fd fmt args false
  end.
Definition printf (fd : Z) (fmt : string) (args : list karg) : M S unit :=
  printf_loop fd (chars fmt) args false.

(** *** cat.c *)
Fixpoint cat (k : nat) (fd : Z) : M S unit :=
  match k with
  | O => nofuel
  | Datatypes.S k' =>
      let* r := u_read fd 512 in
      match r with
      | None => printf 1 ("cat: read error" +:+ nl) [];;; u_exit
      | Some [] => ret tt
      | Some l =>
          let* n := u_write 1 l in
          if n =? Z.of_nat (length l) then cat k' fd
          else printf 1 ("cat: write error" +:+ nl) [];;; u_exit
      end
  end.

(** A program that runs [body] on the standard input or on each file named. *)
Definition each_file (prog : string) (body : Z -> list Z -> M S unit) (files : list (list Z)) : M S unit :=
  for_each files (fun f =>
    let* fd := u_open f 0 in
    if fd <? 0 then printf 1 (prog +:+ ": cannot open %s" +:+ nl) [KStr f];;; u_exit else
    body fd f;;;
    let* _ := u_close fd in
    ret tt).

Definition cat_main (k : nat) (argv : list (list Z)) : M S unit :=
  if (length argv <=? 1)%nat then cat k 0;;; u_exit else
  each_file "cat" (fun fd _ => cat k fd) (tail argv);;;
  u_exit.

(** *** echo.c *)
Fixpoint echo_loop (args : list (list Z)) : M S unit :=
  match args with
  | [] => ret tt
  | a :: args =>
      printf 1 "%s%s" [KStr a; KStr (if (0 <? length args)%nat then [32] else [10])];;;
      echo_loop args
  end.
Definition echo_main (argv : list (list Z)) : M S unit :=
  echo_loop (tail argv);;;
  u_exit.

(** *** wc.c *)
Record counts := MkCounts { wc_l : Z; wc_w : Z; wc_c : Z; wc_inword : bool }.

(** " \r\t\n\v" *)
Definition wc_white : list Z := [32; 13; 9; 10; 11].
Definition wc_step (n : counts) (b : Z) : counts :=
  let l := if b =? 10 then wc_l n + 1 else wc_l n in
  if in_str wc_white b then MkCounts l (wc_w n) (wc_c n + 1) false
  else if negb (wc_inword n) then MkCounts l (wc_w n + 1) (wc_c n + 1) true
  else MkCounts l (wc_w n) (wc_c n + 1) true.
Fixpoint wc_loop (k : nat) (fd : Z) (n : counts) : M S (option counts) :=
  match k with
  | O => nofuel
  | Datatypes.S k' =>
      let* r := u_read fd 512 in
      match r with
      | None => ret None
      | Some [] => ret (Some n)
      | Some l => wc_loop k' fd (fold_left wc_step l n)
      end
  end.
Definition wc (k : nat) (fd : Z) (name : list Z) : M S unit :=
  let* r := wc_loop k fd (MkCounts 0 0 0 false) in
  match r with
  | None => printf 1 ("wc: read error" +:+ nl) [];;; u_exit
  | Some n => printf 1 ("%d %d %d %s" +:+ nl) [KNum (wc_l n); KNum (wc_w n); KNum (wc_c n); KStr name]
  end.
Definition wc_main (k : nat) (argv : list (list Z)) : M S unit :=
  if (length argv <=? 1)%nat then wc k 0 [];;; u_exit else
  each_file "wc" (wc k) (tail argv);;;
  u_exit.

(** *** ls.c *)

(** What follows the last slash. *)
Fixpoint base_name (path : list Z) : list Z :=
  match path with
  | [] => []
  | c :: path' => if in_str path' 47 then base_name path' else if c =? 47 then path' else path
  end.
Definition fmtname (path : list Z) : list Z :=
  let p := base_name path in
  if (DIRSIZ <=? length p)%nat then p else p ++ replicate (DIRSIZ - length p) 32.

Definition ls_line (name : list Z) (st : stat) : M S unit :=
  printf 1 ("%s %d %d %d" +:+ nl) [KStr (fmtname name); KNum (st_type st); KNum (st_ino st); KNum (st_size st)].
Fixpoint ls_dir (k : nat) (fd : Z) (path : list Z) : M S unit :=
  match k with
  | O => nofuel
  | Datatypes.S k' =>
      let* r := u_read fd sizeof_dirent in
      match r with
      | Some de =>
          if negb (Z.of_nat (length de) =? sizeof_dirent) then ret tt else
          if de_inum de =? 0 then ls_dir k' fd path else
          let buf := path ++ [47] ++ Console.cstr (de_name de) in
          let* st := ustat buf in
          match st with
          | None => printf 1 ("ls: cannot stat %s" +:+ nl) [KStr buf];;; ls_dir k' fd path
          | Some st => ls_line buf st;;; ls_dir k' fd path
          end
      | None => ret tt
      end
  end.
Definition ls (k : nat) (path : list Z) : M S unit :=
  let* fd := u_open path 0 in
  if fd <? 0 then printf 2 ("ls: cannot open %s" +:+ nl) [KStr path] else
  let* r := u_fstat fd in
  match r with
  | None =>
      printf 2 ("ls: cannot stat %s" +:+ nl) [KStr path];;;
      let* _ := u_close fd in ret tt
  | Some st =>
      (if st_type st =? T_FILE then ls_line path st
       else if st_type st =? T_DIR then
         if (512 <? length path + 1 + DIRSIZ + 1)%nat then printf 1 ("ls: path too long" +:+ nl) []
         else ls_dir k fd path
       else ret tt);;;
      let* _ := u_close fd in ret tt
  end.
Definition ls_main (k : nat) (argv : list (list Z)) : M S unit :=
  if (length argv <? 2)%nat then ls k dot;;; u_exit else
  for_each (tail argv) (ls k);;;
  u_exit.

(** *** ln.c, mkdir.c, rm.c, kill.c *)
Definition ln_main (argv : list (list Z)) : M S unit :=
  match argv with
  | [_; old; new] =>
      let* r := u_link old new in
      when (r <? 0) (printf 2 ("link %s %s: failed" +:+ nl) [KStr old; KStr new]);;;
      u_exit
  | _ => printf 2 ("Usage: ln old new" +:+ nl) [];;; u_exit
  end.

(** The loops of mkdir.c and rm.c: stop at the first name that fails. *)
Fixpoint until_fails (op : list Z -> M S Z) (msg : string) (names : list (list Z)) : M S unit :=
  match names with
  | [] => ret tt
  | n :: names =>
      let* r := op n in
      if r <? 0 then printf 2 msg [KStr n] else until_fails op msg names
  end.
Definition mkdir_main (argv : list (list Z)) : M S unit :=
  if (length argv <? 2)%nat then printf 2 ("Usage: mkdir files..." +:+ nl) [];;; u_exit else
  until_fails u_mkdir ("mkdir: %s failed to create" +:+ nl) (tail argv);;;
  u_exit.
Definition rm_main (argv : list (list Z)) : M S unit :=
  if (length argv <? 2)%nat then printf 2 ("Usage: rm files..." +:+ nl) [];;; u_exit else
  until_fails u_unlink ("rm: %s failed to delete" +:+ nl) (tail argv);;;
  u_exit.
Definition kill_main (argv : list (list Z)) : M S unit :=
  if (length argv <? 2)%nat then printf 2 ("usage: kill pid..." +:+ nl) [];;; u_exit else
  for_each (tail argv) (fun a => let* _ := u_kill (atoi a) in ret tt);;;
  u_exit.

(** *** init.c, zombie.c *)

(** "console" and "sh". *)
Definition console_name : list Z := chars "console".
Definition sh_name : list Z := chars "sh".
Fixpoint init_wait (k : nat) (pid : Z) : M S unit :=
  match k with
  | O => nofuel
  | Datatypes.S k' =>
      let* wpid := u_wait in
      if (0 <=? wpid) && negb (wpid =? pid) then printf 1 ("zombie!" +:+ nl) [];;; init_wait k' pid else ret tt
  end.
Fixpoint init_loop (k : nat) : M S unit :=
  match k with
  | O => nofuel
  | Datatypes.S k' =>
      printf 1 ("init: starting sh" +:+ nl) [];;;
      let* pid := u_fork in
      if pid <? 0 then printf 1 ("init: fork failed" +:+ nl) [];;; u_exit else
      if pid =? 0 then
        let* _ := u_exec sh_name [sh_name] in
        printf 1 ("init: exec sh failed" +:+ nl) [];;; u_exit
      else init_wait k' pid;;; init_loop k'
  end.
Definition init_main (k : nat) : M S unit :=
  let* fd := u_open console_name O_RDWR in
  (if fd <? 0 then
     let* _ := u_mknod console_name 1 1 in
     let* _ := u_open console_name O_RDWR in ret tt
   else ret tt);;;
  let* _ := u_dup 0 in
  let* _ := u_dup 0 in
  init_loop k.

Definition zombie_main : M S unit :=
  let* pid := u_fork in
  (if 0 <? pid then let* _ := u_sleep 5 in ret tt else ret tt);;;
  u_exit.
End user.

(** ** Output of numbers *)

(** The descriptor [fd] takes all it is given: [R l s], what has been written so far is [l]. *)
Class Output {S} `{!Usys S} (fd : Z) (R : list Z -> S -> Prop) :=
  out_write : forall l bs s, R l s ->
    wp (u_write fd bs) (fun n s' => n = Z.of_nat (length bs) /\ R (l ++ bs) s') s.

Section output.
Context {S : Type} `{!Usys S} (fd : Z) (R : list Z -> S -> Prop) `{!Output fd R}.

Lemma putc_out l c s : 0 <= c < 2 ^ 8 -> R l s -> wp (putc fd c) (fun _ => R (l ++ [c])) s.
Proof.
  intros Hc HR. apply wp_bind. rewrite u8_small by done.
  eapply wp_mono; [|by apply out_write]. by intros n s' [_ HR'].
Qed.

Lemma puts_out cs l s : Forall (fun c => 0 <= c < 2 ^ 8) cs -> R l s ->
  wp (for_each cs (putc fd)) (fun _ => R (l ++ cs)) s.
Proof.
  revert l s. induction cs as [|c cs IH]; intros l s Hcs HR; [by rewrite app_nil_r|].
  apply Forall_cons in Hcs as [Hc Hcs]. cbn [for_each]. apply wp_bind.
  eapply wp_mono; [|by apply putc_out]. intros [] s' HR'.
  rewrite (app_assoc l [c] cs : l ++ c :: cs = _). by apply IH.
Qed.
End output.

Lemma s32_add_mul a b c : s32 (s32 a * b + c) = s32 (a * b + c).
Proof.
  unfold s32. assert (u32 (s32 a * b + c) = u32 (a * b + c)) as E; [|by rewrite <- E].
  unfold s32, u32. destruct (Z.ltb_spec (a mod 2 ^ 32) (2 ^ 31)).
  - rewrite <- Zplus_mod_idemp_l, Zmult_mod_idemp_l, Zplus_mod_idemp_l. done.
  - replace ((a mod 2 ^ 32 - 2 ^ 32) * b + c) with (a mod 2 ^ 32 * b + c + - b * 2 ^ 32) by ring.
    rewrite Z.mod_add by done. rewrite <- Zplus_mod_idemp_l, Zmult_mod_idemp_l, Zplus_mod_idemp_l. done.
Qed.

Lemma dec_rev_snoc ds c : dec_rev (ds ++ [c]) = dec_rev ds + 10 ^ Z.of_nat (length ds) * (c - 48).
Proof.
  induction ds as [|d ds IH]; simpl; [lia|].
  rewrite IH, Nat2Z.inj_succ, Z.pow_succ_r by lia. ring.
Qed.

(** atoi() reads the number that the digits stand for, modulo 2^32. *)
Lemma atoi_digits_dec ds n : Forall (fun d => 48 <= d <= 57) ds ->
  atoi_digits (s32 n) ds = s32 (n * 10 ^ Z.of_nat (length ds) + dec_rev (rev ds)).
Proof.
  revert n. induction ds as [|c ds IH]; intros n Hds; simpl; [f_equal; lia|].
  apply Forall_cons in Hds as [Hc Hds]. destruct (Z.leb_spec 48 c), (Z.leb_spec c 57); try lia. simpl.
  replace (s32 n * 10 + c - 48) with (s32 n * 10 + (c - 48)) by ring. rewrite s32_add_mul, IH by done. f_equal.
  rewrite dec_rev_snoc, length_rev, Nat2Z.inj_succ, Z.pow_succ_r by lia. ring.
Qed.

Lemma atoi_cstr ds n m a : Forall (fun d => 48 <= d <= 57) ds -> KString.cstr m a ds ->
  Ulib.atoi_loop (Datatypes.S (length ds)) a n m = Some (atoi_digits n ds).
Proof.
  revert a n. induction ds as [|c ds IH]; intros a n Hds.
  - simpl. intros ->. done.
  - apply Forall_cons in Hds as [Hc Hds]. simpl KString.cstr. intros (Ha & Hn & Hm).
    cbn [length]. cbn [Ulib.atoi_loop atoi_digits]. rewrite Ha. destruct ((48 <=? c) && (c <=? 57)); [|done]. by apply IH.
Qed.

(** More room in the buffer changes nothing. *)
Lemma int_digits_more k j digits base x ds :
  int_digits k digits base x = Some ds -> int_digits (k + j) digits base x = Some ds.
Proof.
  revert x ds. induction k as [|k IH]; intros x ds; simpl; [done|]. destruct (x / base =? 0); [done|].
  destruct (int_digits k digits base (x / base)) as [ds'|] eqn:E; [|done]. by rewrite (IH _ _ E).
Qed.


(** A kernel that only reads, writes and gives memory: every other call fails or does nothing. *)
Definition io_kernel {S} (rd : Z -> Z -> M S (option (list Z))) (wr : Z -> list Z -> M S Z) (sb : Z -> M S Z) : Usys S := {|
  u_fork := ret (-1); u_exit _ := undef; u_wait := ret (-1); u_pipe := ret None;
  u_write := wr; u_read := rd; u_close _ := ret 0; u_kill _ := ret (-1); u_exec _ _ := ret (-1); u_open _ _ := ret 0;
  u_mknod _ _ _ := ret (-1); u_unlink _ := ret (-1); u_fstat _ := ret None; u_link _ _ := ret (-1);
  u_mkdir _ := ret (-1); u_chdir _ := ret (-1); u_dup _ := ret (-1); u_sbrk := sb; u_sleep _ := ret 0; u_uptime := ret 0
|}.

(** A terminal that keeps what is written to it. *)
#[local] Instance tty : Usys (list Z) :=
  io_kernel (fun _ _ => ret None) (fun _ bs => modify (fun l => l ++ bs);;; ret (Z.of_nat (length bs)))
    (fun _ => ret (-1)).
#[local] Instance tty_output : Output 1 (fun l s : list Z => s = l).
Proof. intros l bs s ->. by apply wp_bind, wp_modify, wp_ret. Qed.

