(* ===== verification/Grep.v ===== *)
(** * grep (grep.c)

    The matcher works on C strings, lists of bytes without the NUL; grep() reads a file through a
    buffer of 1024 bytes and writes the lines that match. *)
From S2P Require Import Prelude KString Pages Fs Sysfile Console User.

(** ** The matcher *)

(** matchstar(): search for [c*re] at the beginning of [text]; [here] is matchhere() of [re]. *)
Fixpoint matchstar (here : list Z -> bool) (c : Z) (text : list Z) : bool :=
  here text ||
  match text with
  | [] => false
  | t :: text' => ((t =? c) || (c =? 46)) && matchstar here c text'
  end.

(** matchhere(): search for [re] at the beginning of [text]. *)
Fixpoint matchhere (re text : list Z) : bool :=
  match re with
  | [] => true
  | r :: re' =>
      let next :=
        match text with
        | t :: text' => ((r =? 46) || (r =? t)) && matchhere re' text'
        | [] => false
        end in
      match re' with
      | [] => if r =? 36 then match text with [] => true | _ => false end else next
      | x :: re'' => if x =? 42 then matchstar (matchhere re'') r text else next
      end
  end.

(** The loop of match(). *)
Fixpoint match_any (here : list Z -> bool) (text : list Z) : bool :=
  here text ||
  match text with
  | [] => false
  | _ :: text' => match_any here text'
  end.
Definition match_re (re text : list Z) : bool :=
  match re with
  | r :: re' => if r =? 94 then matchhere re' text else match_any (matchhere re) text
  | [] => match_any (matchhere re) text
  end.

(** ** grep() *)

(** The line up to the first newline that strchr() finds, and what follows it. *)
Fixpoint split_line (p : list Z) : option (list Z * list Z) :=
  match p with
  | [] => None
  | c :: p' =>
      if c =? 0 then None else
      if c =? 10 then Some ([], p') else
      '(line, rest) ← split_line p'; Some (c :: line, rest)
  end.

(** [sizeof(buf)]. *)
Definition grep_size : Z := 1024.

Section grep.
Context {S : Type} `{!Usys S}.

(** The inner loop, at [p]; what is left after the last newline. *)
Fixpoint grep_lines (k : nat) (pattern p : list Z) : M S (list Z) :=
  match k with
  | O => nofuel
  | Datatypes.S k' =>
      match split_line p with
      | None => ret p
      | Some (line, rest) =>
          (if match_re pattern line then let* _ := u_write 1 (line ++ [10]) in ret tt else ret tt);;;
          grep_lines k' pattern rest
      end
  end.

(** grep(): [buf] is the first [m] bytes of the buffer. *)
Fixpoint grep_loop (k : nat) (pattern : list Z) (fd : Z) (buf : list Z) : M S unit :=
  match k with
  | O => nofuel
  | Datatypes.S k' =>
      let* r := u_read fd (grep_size - Z.of_nat (length buf) - 1) in
      match r with
      | None | Some [] => ret tt
      | Some l =>
          let buf := buf ++ l in
          let* p := grep_lines (Datatypes.S (length buf)) pattern buf in
          grep_loop k' pattern fd (if (length p =? length buf)%nat then [] else p)
      end
  end.
Definition grep (k : nat) (pattern : list Z) (fd : Z) : M S unit := grep_loop k pattern fd [].

Definition grep_main (k : nat) (argv : list (list Z)) : M S unit :=
  match argv with
  | _ :: pattern :: files =>
      match files with
      | [] => grep k pattern 0;;; u_exit
      | _ => each_file "grep" (fun fd _ => grep k pattern fd) files;;; u_exit
      end
  | _ => printf 2 ("usage: grep pattern [file ...]" +:+ nl) [];;; u_exit
  end.
End grep.

(** ** Specifications *)

(** A pattern: what each piece of it stands for, and whether it is tied to the ends of the line. *)
Inductive atom := AnyChar | Char (c : Z).
Inductive piece := One (a : atom) | Star (a : atom).
Record pattern := MkPattern { p_start : bool; p_pieces : list piece; p_stop : bool }.

Definition to_atom (r : Z) : atom := if r =? 46 then AnyChar else Char r.
Fixpoint pieces (re : list Z) : list piece * bool :=
  match re with
  | [] => ([], false)
  | r :: re' =>
      match re' with
      | [] => if r =? 36 then ([], true) else ([One (to_atom r)], false)
      | x :: re'' =>
          if x =? 42 then let '(ps, stop) := pieces re'' in (Star (to_atom r) :: ps, stop)
          else let '(ps, stop) := pieces re' in (One (to_atom r) :: ps, stop)
      end
  end.
Definition to_pattern (re : list Z) : pattern :=
  match re with
  | r :: re' => if r =? 94 then let '(ps, stop) := pieces re' in MkPattern true ps stop
                else let '(ps, stop) := pieces re in MkPattern false ps stop
  | [] => MkPattern false [] false
  end.

(** The language of a sequence of pieces. *)
Definition is_char (a : atom) (c : Z) : Prop := match a with AnyChar => True | Char d => c = d end.
Inductive lang : list piece -> list Z -> Prop :=
| lang_nil : lang [] []
| lang_one a ps c t : is_char a c -> lang ps t -> lang (One a :: ps) (c :: t)
| lang_star a ps u t : Forall (is_char a) u -> lang ps t -> lang (Star a :: ps) (u ++ t).

(** Some part of the line is in the language: the first part, and the last, if the pattern says so. *)
Definition matches (p : pattern) (text : list Z) : Prop :=
  exists before part after, text = before ++ part ++ after /\ lang (p_pieces p) part /\
    (p_start p = true -> before = []) /\ (p_stop p = true -> after = []).

(** The lines of a text, without their newlines; what follows the last newline is not a line. *)
Fixpoint lines (text : list Z) : list (list Z) :=
  match text with
  | [] => []
  | c :: text' =>
      if c =? 10 then [] :: lines text'
      else match lines text' with l :: ls => (c :: l) :: ls | [] => [] end
  end.

Definition matching (re : list Z) (text : list Z) : list Z :=
  concat (map (fun l => l ++ [10]) (filter (fun l => match_re re l = true) (lines text))).

(** ** Lemmas *)
Lemma to_atom_char r t : is_char (to_atom r) t <-> (r =? 46) || (r =? t) = true.
Proof.
  unfold to_atom. destruct (Z.eqb_spec r 46); simpl; [done|].
  destruct (Z.eqb_spec r t); split; congruence.
Qed.

(** What follows the part of [text] that matches from its start. *)
Definition here (ps : list piece) (stop : bool) (text : list Z) : Prop :=
  exists part after, text = part ++ after /\ lang ps part /\ (stop = true -> after = []).

Lemma here_one a ps stop text :
  here (One a :: ps) stop text <-> exists c t, text = c :: t /\ is_char a c /\ here ps stop t.
Proof.
  split.
  - intros (part & after & -> & Hl & Hs). inversion Hl as [|? ? c t Hc Hl'|]; subst.
    exists c, (t ++ after). split; [done|]. split; [done|]. by exists t, after.
  - intros (c & t & -> & Hc & part & after & -> & Hl & Hs). exists (c :: part), after.
    split; [done|]. split; [by constructor|done].
Qed.

Lemma here_star a ps stop text :
  here (Star a :: ps) stop text <-> exists u t, text = u ++ t /\ Forall (is_char a) u /\ here ps stop t.
Proof.
  split.
  - intros (part & after & -> & Hl & Hs). inversion Hl as [| |? ? u t Hu Hl']; subst.
    exists u, (t ++ after). split; [by rewrite app_assoc|]. split; [done|]. by exists t, after.
  - intros (u & t & -> & Hu & part & after & -> & Hl & Hs). exists (u ++ part), after.
    split; [by rewrite app_assoc|]. split; [by constructor|done].
Qed.

Lemma matchstar_spec h r text :
  matchstar h r text = true <-> exists u t, text = u ++ t /\ Forall (is_char (to_atom r)) u /\ h t = true.
Proof.
  induction text as [|c text IH]; simpl; rewrite orb_true_iff.
  - split.
    + intros [Hh|]; [by exists [], []|done].
    + intros (u & t & E & Hu & Hh). symmetry in E. apply app_eq_nil in E as [-> ->]. by left.
  - rewrite andb_true_iff, IH. split.
    + intros [Hh|[Hc (u & t & -> & Hu & Hh)]]; [by exists [], (c :: text)|].
      exists (c :: u), t. split; [done|]. split; [constructor; [|done]|done].
      apply to_atom_char. by rewrite orb_comm, (Z.eqb_sym r c).
    + intros ([|c' u] & t & E & Hu & Hh); [left; by simpl in E; subst t|].
      simpl in E. injection E as <- ->. apply Forall_cons in Hu as [Hc Hu]. right. split; [|eauto].
      apply to_atom_char in Hc. by rewrite orb_comm, (Z.eqb_sym c r).
Qed.

Lemma next_spec ps stop h r text : (forall t, h t = true <-> here ps stop t) ->
  match text with t :: text' => ((r =? 46) || (r =? t)) && h text' | [] => false end = true <->
  here (One (to_atom r) :: ps) stop text.
Proof.
  intros Hh. rewrite here_one. destruct text as [|t text].
  - split; [done|]. by intros (? & ? & ? & _).
  - rewrite andb_true_iff, <- to_atom_char, Hh. split; [by intros []; exists t, text|].
    by intros (? & ? & [= <- <-] & ?).
Qed.

Lemma matchhere_spec re text :
  matchhere re text = true <-> here (fst (pieces re)) (snd (pieces re)) text.
Proof.
  remember (length re) as n eqn:En. revert re text En.
  induction (lt_wf n) as [n _ IH]. intros re text ->.
  destruct re as [|r [|x re]].
  - split; [|done]. intros _. exists [], text. by repeat constructor.
  - assert (forall t, true = true <-> here [] false t) as Hnil
      by (split; [intros _; exists [], t; by repeat constructor|done]).
    simpl. destruct (Z.eqb_spec r 36) as [->|Hr]; simpl.
    + destruct text as [|t text]; split; try done.
      * intros _. exists [], []. by repeat constructor.
      * intros (part & after & E & Hl & Hs). inversion Hl; subst. by rewrite Hs in E.
    + apply (next_spec [] false (fun _ => true)). done.
  - change (matchhere (r :: x :: re) text) with
      (if x =? 42 then matchstar (matchhere re) r text
       else match text with t :: text' => ((r =? 46) || (r =? t)) && matchhere (x :: re) text' | [] => false end).
    change (pieces (r :: x :: re)) with
      (if x =? 42 then let '(ps, stop) := pieces re in (Star (to_atom r) :: ps, stop)
       else let '(ps, stop) := pieces (x :: re) in (One (to_atom r) :: ps, stop)).
    destruct (Z.eqb_spec x 42) as [->|Hx].
    + rewrite matchstar_spec. specialize (IH (length re) ltac:(simpl; lia) re).
      destruct (pieces re) as [ps stop]. simpl in *. rewrite here_star.
      split; intros (u & t & -> & Hu & Ht); exists u, t; (split; [done|]); (split; [done|]); by apply (IH t).
    + specialize (IH (length (x :: re)) ltac:(simpl; lia) (x :: re)).
      pose proof (next_spec (fst (pieces (x :: re))) (snd (pieces (x :: re))) (matchhere (x :: re)) r text (fun t => IH t eq_refl)) as E.
      destruct (pieces (x :: re)) as [ps stop]. exact E.
Qed.

Lemma match_any_spec h text : match_any h text = true <-> exists before t, text = before ++ t /\ h t = true.
Proof.
  induction text as [|c text IH]; simpl; rewrite orb_true_iff.
  - split; [intros [Hh|]; [by exists [], []|done]|]. intros (before & t & E & Hh).
    symmetry in E. apply app_eq_nil in E as [-> ->]. by left.
  - rewrite IH. split.
    + intros [Hh|(before & t & -> & Hh)]; [by exists [], (c :: text)|by exists (c :: before), t].
    + intros ([|c' before] & t & E & Hh); [left; by simpl in E; subst t|].
      injection E as <- ->. right. by exists before, t.
Qed.

(** C23. The matcher of grep.c decides exactly the language of its patterns: match() answers
    whether some part of the line (the beginning for '^', the end for '$') is a sequence of
    characters and starred characters that the pattern describes. *)
Theorem match_language re text : match_re re text = true <-> matches (to_pattern re) text.
Proof.
  assert (forall re', match_any (matchhere re') text = true <->
    matches (MkPattern false (fst (pieces re')) (snd (pieces re'))) text) as Hany.
  { intros re'. rewrite match_any_spec. unfold matches. simpl. split.
    - intros (before & t & -> & Hh). apply matchhere_spec in Hh as (part & after & -> & Hl & Hs).
      by exists before, part, after.
    - intros (before & part & after & -> & Hl & _ & Hs). exists before, (part ++ after).
      split; [done|]. apply matchhere_spec. by exists part, after. }
  destruct re as [|r re]; [apply (Hany [])|]. unfold match_re, to_pattern.
  destruct (r =? 94); [|rewrite Hany; by destruct (pieces (r :: re))].
  rewrite matchhere_spec. destruct (pieces re) as [ps stop]. unfold matches, here. simpl. split.
  - intros (part & after & -> & Hl & Hs). by exists [], part, after.
  - intros (before & part & after & -> & Hl & Hb & Hs). rewrite (Hb eq_refl). by exists part, after.
Qed.

Lemma split_line_Some p line rest : split_line p = Some (line, rest) -> p = line ++ 10 :: rest /\ 10 ∉ line.
Proof.
  revert line. induction p as [|c p IH]; intros line; simpl; [done|].
  destruct (c =? 0); [done|]. destruct (Z.eqb_spec c 10) as [->|Hc]; [intros [= <- <-]; split; [done|apply not_elem_of_nil]|].
  destruct (split_line p) as [[line' rest']|]; [|done]. simpl. intros [= <- <-].
  destruct (IH line' eq_refl) as [-> Hn]. split; [done|]. apply not_elem_of_cons. split; [congruence|done].
Qed.

Lemma split_line_None p : 0 ∉ p -> split_line p = None -> 10 ∉ p.
Proof.
  induction p as [|c p IH]; [intros _ _; apply not_elem_of_nil|]. intros [H0 Hp]%not_elem_of_cons. simpl.
  destruct (Z.eqb_spec c 0); [congruence|]. destruct (Z.eqb_spec c 10) as [->|Hc]; [done|].
  destruct (split_line p) as [[line rest]|]; [done|]. intros _. apply not_elem_of_cons. split; [congruence|auto].
Qed.

Lemma lines_line line rest : 10 ∉ line -> lines (line ++ 10 :: rest) = line :: lines rest.
Proof.
  induction line as [|c line IH]; [done|]. intros [Hc Hl]%not_elem_of_cons. simpl.
  destruct (Z.eqb_spec c 10); [congruence|]. by rewrite IH.
Qed.

Lemma lines_none p : 10 ∉ p -> lines p = [].
Proof.
  induction p as [|c p IH]; [done|]. intros [Hc Hp]%not_elem_of_cons. simpl.
  destruct (Z.eqb_spec c 10); [congruence|]. by rewrite IH.
Qed.

Lemma matching_line re line rest : 10 ∉ line ->
  matching re (line ++ 10 :: rest) = (if match_re re line then line ++ [10] else []) ++ matching re rest.
Proof.
  intros Hl. unfold matching. rewrite lines_line, filter_cons by done.
  by destruct (match_re re line) eqn:E; [rewrite decide_True|rewrite decide_False].
Qed.

(** ** Reading a file *)

(** [R T out s]: [T] is what the file open as [fd] still has to give, [out] what has been written. *)
Class FileInput {S} `{!Usys S} (fd : Z) (R : list Z -> list Z -> S -> Prop) := {
  fi_read : forall T out n s, R T out s -> 0 < n ->
    wp (u_read fd n) (fun r s' => r = Some (take (Z.to_nat n) T) /\ R (drop (Z.to_nat n) T) out s') s;
  fi_write : forall T out bs s, R T out s -> wp (u_write 1 bs) (fun _ s' => R T (out ++ bs) s') s
}.

Section reading.
Context {S : Type} `{!Usys S} (fd : Z) (R : list Z -> list Z -> S -> Prop) `{!FileInput fd R}.

Lemma grep_lines_run k re p T out s : (length p < k)%nat -> 0 ∉ p -> R T out s ->
  wp (grep_lines k re p) (fun q s' => exists l, p = l ++ q /\ (10 ∉ q) /\ (forall rest, exists ls, lines (p ++ rest) = ls ++ lines (q ++ rest)) /\
    exists pr, R T (out ++ pr) s' /\ forall rest, matching re (p ++ rest) = pr ++ matching re (q ++ rest)) s.
Proof.
  revert p out s. induction k as [|k IH]; intros p out s Hk H0 HR; [lia|]. cbn [grep_lines].
  destruct (split_line p) as [[line rest]|] eqn:E.
  - apply split_line_Some in E as [-> Hl]. apply wp_bind.
    apply (wp_mono _ (fun _ => R T (out ++ if match_re re line then line ++ [10] else []))).
    + intros [] s' HR'. rewrite length_app in Hk. cbn [length] in Hk.
      eapply wp_mono; [|eapply (IH rest); [lia|set_solver|exact HR']].
      intros q s2 (l & -> & Hq & Hs & pr & HR2 & Hpr). exists (line ++ 10 :: l).
      split; [by rewrite <- app_assoc|]. split; [done|].
      split; [intros rest; destruct (Hs rest) as [ls Els]; exists (line :: ls);
        by rewrite <- app_assoc, <- app_comm_cons, lines_line, Els|].
      rewrite <- app_assoc in HR2. eexists. split; [exact HR2|]. intros rest.
      rewrite <- app_assoc, <- app_comm_cons, matching_line, Hpr by done. by rewrite app_assoc.
    + destruct (match_re re line); [|by apply wp_ret; rewrite app_nil_r].
      apply wp_bind. eapply wp_mono; [|by apply (fi_write T out)]. intros n s' HR'. by apply wp_ret.
  - apply wp_ret. exists []. split; [done|]. apply split_line_None in E; [|done]. split; [done|]. split; [by intros; exists []|]. exists []. rewrite app_nil_r. done.
Qed.

(** A buffer without a newline is full or holds the end of the file; then no line is left. *)
Lemma no_newline_left buf T : (10 ∉ buf) -> T = [] \/ length buf = 1023%nat ->
  Forall (fun l => (length l < 1023)%nat) (lines (buf ++ T)) -> 10 ∉ buf ++ T.
Proof.
  intros Hn Hfull Hlines. destruct (decide (10 ∈ T)) as [(T1 & T2 & -> & HT1)%list_elem_of_split_l|HT]; [|set_solver].
  rewrite app_assoc, lines_line in Hlines by set_solver. apply Forall_cons in Hlines as [Hl _].
  rewrite length_app in Hl. destruct Hfull as [HT|]; [by destruct T1|lia].
Qed.

Lemma matching_none re p : (10 ∉ p) -> matching re p = [].
Proof. intros H. unfold matching. by rewrite lines_none. Qed.

Lemma grep_loop_run k re buf T out s : (length T < k)%nat -> (length buf < 1023)%nat -> (10 ∉ buf) -> (0 ∉ buf ++ T) ->
  Forall (fun l => (length l < 1023)%nat) (lines (buf ++ T)) -> R T out s ->
  wp (grep_loop k re fd buf) (fun _ s' => R [] (out ++ matching re (buf ++ T)) s') s.
Proof.
  revert buf T out s. induction k as [|k IH]; intros buf T out s Hk Hb Hn H0 Hlines HR; [lia|].
  cbn [grep_loop]. apply wp_bind. eapply wp_mono; [|apply (fi_read T out _ _ HR); unfold grep_size; lia].
  intros r s' [-> HR']. set (n := Z.to_nat (grep_size - Z.of_nat (length buf) - 1)) in *.
  assert (n = (1023 - length buf)%nat) as En by (unfold n, grep_size; lia).
  destruct (take n T) as [|c l] eqn:El.
  - assert (T = []) as -> by (destruct T; [done|]; by replace n with (Datatypes.S (n - 1)) in El by lia).
    apply wp_ret. rewrite drop_nil in HR'. by rewrite app_nil_r, matching_none, app_nil_r.
  - rewrite <- El. assert (buf ++ T = (buf ++ take n T) ++ drop n T) as ET by (by rewrite <- app_assoc, take_drop).
    assert (length (drop n T) < k)%nat as Hk' by (rewrite length_drop; destruct T; simpl in *; [by rewrite take_nil in El|lia]).
    assert (drop n T = [] \/ length (buf ++ take n T) = 1023%nat) as Hfull.
    { destruct (Nat.le_gt_cases (length T) n); [left; by apply drop_ge|right].
      rewrite length_app, length_take. lia. }
    assert (length (buf ++ take n T) <= 1023)%nat as Hb' by (rewrite length_app, length_take; lia).
    rewrite ET in Hlines, H0. rewrite ET. clear ET. set (b := buf ++ take n T) in *. set (T' := drop n T) in *. clearbody b T'.
    clear El En Hk Hb Hn HR. apply not_elem_of_app in H0 as [H0b H0T].
    apply wp_bind. eapply wp_mono; [|apply (grep_lines_run _ re b T' out); [lia|done|done]].
    intros q s2 (d & -> & Hq & Hsuf & pr & HR2 & Hpr). rewrite Hpr, app_assoc. apply not_elem_of_app in H0b as [_ H0q].
    rewrite length_app in *. destruct (Nat.eqb_spec (length q) (length d + length q)) as [E|E].
    + destruct d as [|]; [|simpl in E; lia]. pose proof (no_newline_left q T' Hq Hfull Hlines) as Hno.
      assert (10 ∉ T') as HnT by (by apply not_elem_of_app in Hno as [_ ?]).
      eapply wp_mono; [|apply (IH [] T' (out ++ pr)); [done|simpl; lia|apply not_elem_of_nil|done|by rewrite lines_none|done]].
      intros [] s3. by rewrite (matching_none re (q ++ T')), (matching_none re ([] ++ T')).
    + apply IH; [done|lia|done|by apply not_elem_of_app| |done].
      destruct (Hsuf T') as [ls Els]. rewrite Els in Hlines. by apply Forall_app in Hlines as [_ Hlines].
Qed.
End reading.

(** C24. grep() prints, in order, the lines of the file that match the pattern, and no other: for a
    file of any length, without NULs, whose lines are shorter than 1023 bytes, however the lines
    lie across the reads of the buffer; what follows the last newline is not a line. *)
Theorem grep_prints_matching_lines {S} `{!Usys S} fd (R : list Z -> list Z -> S -> Prop) `{!FileInput fd R} k re T out s :
  (length T < k)%nat -> (0 ∉ T) -> Forall (fun l => (length l < 1023)%nat) (lines T) -> R T out s ->
  wp (grep k re fd) (fun _ s' =>
    R [] (out ++ concat (map (fun l => l ++ [10]) (filter (fun l => match_re re l = true) (lines T)))) s') s.
Proof.
  intros Hk H0 Hlines HR. by apply (grep_loop_run fd R k re [] T out s); [|simpl; lia|apply not_elem_of_nil|..].
Qed.

(** A kernel with one file and a screen. *)
#[local] Instance file_tty : Usys (list Z * list Z) :=
  io_kernel (fun _ n s => Done (Some (take (Z.to_nat n) s.1)) (drop (Z.to_nat n) s.1, s.2))
    (fun _ bs => modify (fun s => (s.1, s.2 ++ bs));;; ret (Z.of_nat (length bs))) (fun _ => ret (-1)).
#[local] Instance file_tty_input : FileInput 0 (fun T out s => s = (T, out) : Prop).
Proof.
  split; [by intros T out n s -> _|]. intros T out bs s ->. by apply wp_bind, wp_modify, wp_ret.
Qed.

(** The pattern "h*i$" on the lines "hhi", "his", "i". *)
Lemma grep_prints_matching_lines_witness :
  let T := [104; 104; 105; 10; 104; 105; 115; 10; 105; 10] in
  wp (grep 20 [104; 42; 105; 36] 0) (fun _ s' => s' = ([], [104; 104; 105; 10; 105; 10])) (T, []).
Proof.
  intros T. eapply wp_mono; [|apply (grep_prints_matching_lines 0 (fun T out s => s = (T, out) : Prop) 20 _ T []); [| | |reflexivity]].
  - intros [] s' ->. vm_compute. reflexivity.
  - vm_compute. lia.
  - apply (bool_decide_unpack _). vm_compute. exact I.
  - apply (bool_decide_unpack _). vm_compute. exact I.
Defined.

(** Two reads that cut a line (a pipe gives what it holds): the part read first is dropped, and the
    line is not found, although the whole text matches. *)
#[local] Instance pipe_tty : Usys (list (list Z) * list Z) :=
  io_kernel (fun _ n s => Done (Some (hd [] s.1)) (tail s.1, s.2))
    (fun _ bs => modify (fun s => (s.1, s.2 ++ bs));;; ret (Z.of_nat (length bs))) (fun _ => ret (-1)).
Example grep_loses_partial_line :
  grep 9 [104; 105] 0 ([[104]; [105; 10]], []) = Done tt ([], []) /\
  grep 9 [104; 105] 0 ([[104; 105; 10]], []) = Done tt ([], [104; 105; 10]).
Proof. split; reflexivity. Qed.
