(* ===== verification/Umalloc.v ===== *)
(** * The user-level allocator (umalloc.c)

    malloc() and free() of Kernighan and Ritchie: the free blocks form a ring through the headers
    in front of them, in the order of their addresses, with a block of size 0, [base], as the
    lowest.  A [Header] is eight bytes: the pointer to the next block and the block's size, counted
    in headers; both are read and written in the byte memory of the process. *)
From S2P Require Import Prelude KString User.

(** [p->s.ptr], [p->s.size], [p + n] on a pointer to headers. *)
Definition hptr (m : mem) (p : Z) : Z := ld32 m p.
Definition hsize (m : mem) (p : Z) : Z := ld32 m (p + 4).
Definition set_hptr (p v : Z) (m : mem) : mem := st32 p v m.
Definition set_hsize (p v : Z) (m : mem) : mem := st32 (p + 4) (u32 v) m.
Definition hadd (p n : Z) : Z := u32 (p + 8 * n).

(** The memory and [freep]. *)
Record heap := MkHeap { hp_mem : mem; hp_freep : Z }.
Class HasHeap (S : Type) := { heap_lens : lens S heap; heap_lens_laws :: LensLaws heap_lens }.

(** ** free() *)

(** The loop of free(): the block after which [bp] goes; [None] when [k] rounds are not enough. *)
Fixpoint free_find (k : nat) (m : mem) (bp p : Z) : option Z :=
  match k with
  | O => None
  | Datatypes.S k' =>
      let nx := hptr m p in
      if (p <? bp) && (bp <? nx) then Some p
      else if (nx <=? p) && ((p <? bp) || (bp <? nx)) then Some p
      else free_find k' m bp nx
  end.

(** Joining to the next block, then to the one before. *)
Definition join_next (bp p : Z) (m : mem) : mem :=
  if hadd bp (hsize m bp) =? hptr m p then
    let m := set_hsize bp (hsize m bp + hsize m (hptr m p)) m in
    set_hptr bp (hptr m (hptr m p)) m
  else set_hptr bp (hptr m p) m.
Definition join_prev (bp p : Z) (m : mem) : mem :=
  if hadd p (hsize m p) =? bp then
    let m := set_hsize p (hsize m p + hsize m bp) m in
    set_hptr p (hptr m bp) m
  else set_hptr p bp m.

(** [nunits] of malloc(), computed in unsigned 32-bit arithmetic. *)
Definition nunits_of (nbytes : Z) : Z := u32 (nbytes + 8 - 1) / 8 + 1.

Section malloc.
Context {S : Type} `{!Usys S} `{!HasHeap S} (base : Z).

Definition the_heap : M S heap := Prelude.gets (view heap_lens).
Definition heap_upd (f : heap -> heap) : M S unit := modify (fun s => put heap_lens (f (view heap_lens s)) s).
Definition mem_upd (f : mem -> mem) : M S unit := heap_upd (fun h => MkHeap (f (hp_mem h)) (hp_freep h)).
Definition set_freep (p : Z) : M S unit := heap_upd (fun h => MkHeap (hp_mem h) p).

Definition free (k : nat) (ap : Z) : M S unit :=
  let bp := ap - 8 in
  let* h := the_heap in
  match free_find k (hp_mem h) bp (hp_freep h) with
  | None => nofuel
  | Some p =>
      mem_upd (join_next bp p);;;
      mem_upd (join_prev bp p);;;
      set_freep p
  end.

Definition morecore (k : nat) (nu : Z) : M S Z :=
  let nu := if nu <? 4096 then 4096 else nu in
  let* p := u_sbrk (s32 (nu * 8)) in
  if u32 p =? 2 ^ 32 - 1 then ret 0 else
  let hp := u32 p in
  mem_upd (set_hsize hp nu);;;
  free k (hp + 8);;;
  let* h := the_heap in
  ret (hp_freep h).

(** The block [p] is taken, whole or its end. *)
Definition take_block (nunits prevp p : Z) : M S Z :=
  let* h := the_heap in
  let size := hsize (hp_mem h) p in
  let* q :=
    (if size =? nunits then mem_upd (set_hptr prevp (hptr (hp_mem h) p));;; ret p
     else
       mem_upd (set_hsize p (size - nunits));;;
       let p := hadd p (size - nunits) in
       mem_upd (set_hsize p nunits);;; ret p) in
  set_freep prevp;;;
  ret (q + 8).

Fixpoint malloc_loop (k : nat) (nunits prevp p : Z) : M S Z :=
  match k with
  | O => nofuel
  | Datatypes.S k' =>
      let* h := the_heap in
      if nunits <=? hsize (hp_mem h) p then take_block nunits prevp p
      else if p =? hp_freep h then
        let* p := morecore k nunits in
        if p =? 0 then ret 0 else
        let* h := the_heap in
        malloc_loop k' nunits p (hptr (hp_mem h) p)
      else malloc_loop k' nunits p (hptr (hp_mem h) p)
  end.

Definition malloc (k : nat) (nbytes : Z) : M S Z :=
  let nunits := nunits_of nbytes in
  let* h := the_heap in
  (if hp_freep h =? 0 then
     mem_upd (set_hptr base base);;;
     set_freep base;;;
     mem_upd (set_hsize base 0)
   else ret tt);;;
  let* h := the_heap in
  malloc_loop k nunits (hp_freep h) (hptr (hp_mem h) (hp_freep h)).
End malloc.

(** ** The ring of free blocks *)

(** The ring, from the pointer [p] through the blocks (address and size) [l] to the pointer [q]. *)
Fixpoint chain (m : mem) (p : Z) (l : list (Z * Z)) (q : Z) : Prop :=
  match l with
  | [] => p = q
  | (a, n) :: l' => p = a /\ hsize m a = n /\ chain m (hptr m a) l' q
  end.

(** Where the block after [(a, n)] can start: beyond the header of [base], which has size 0, and
    not right at the end of a real block, since free() would have joined the two. *)
Definition above (a n : Z) : Z := if n =? 0 then a + 7 else a + 8 * n.
Fixpoint sorted (lo : Z) (l : list (Z * Z)) : Prop :=
  match l with
  | [] => True
  | (a, n) :: l' => lo < a /\ 0 <= n /\ sorted (above a n) l'
  end.
Fixpoint top (lo : Z) (l : list (Z * Z)) : Z :=
  match l with
  | [] => lo
  | (a, n) :: l' => top (above a n) l'
  end.

(** The free blocks below [brk] are [l]. *)
Record heap_ok (base brk : Z) (l : list (Z * Z)) (h : heap) : Prop := {
  ok_pos : Forall (fun b => 0 < b.2) l;
  ok_sorted : sorted 0 ((base, 0) :: l);
  ok_top : top 0 ((base, 0) :: l) <= brk <= 2 ^ 31;
  ok_chain : chain (hp_mem h) base ((base, 0) :: l) base;
  ok_freep : exists n, (hp_freep h, n) ∈ (base, 0) :: l;
  ok_base : base + 8 <= brk
}.

(** The bytes of the free blocks. *)
Definition free_at (l : list (Z * Z)) (x : Z) : Prop := exists a n, (a, n) ∈ l /\ a <= x < a + 8 * n.

(** ** Lemmas *)
Lemma chain_app m p l1 a n l2 q :
  chain m p (l1 ++ (a, n) :: l2) q <-> chain m p l1 a /\ hsize m a = n /\ chain m (hptr m a) l2 q.
Proof.
  revert p. induction l1 as [|[b k] l1 IH]; intros p; simpl; [by split; intros (-> & ? & ?)|].
  rewrite IH. tauto.
Qed.

Lemma top_app lo l1 l2 : top lo (l1 ++ l2) = top (top lo l1) l2.
Proof. revert lo. induction l1 as [|[a n] l1 IH]; intros lo; [done|]. apply IH. Qed.

Lemma sorted_app lo l1 l2 : sorted lo (l1 ++ l2) <-> sorted lo l1 /\ sorted (top lo l1) l2.
Proof. revert lo. induction l1 as [|[a n] l1 IH]; intros lo; simpl; [tauto|]. rewrite IH. tauto. Qed.

Lemma above_ge a n : 0 <= n -> a + 7 <= above a n /\ a + 8 * n <= above a n.
Proof. unfold above. destruct (Z.eqb_spec n 0); lia. Qed.

Lemma above_pos a n : 0 < n -> above a n = a + 8 * n.
Proof. unfold above. destruct (Z.eqb_spec n 0); lia. Qed.

Lemma top_ge lo l : sorted lo l -> lo <= top lo l.
Proof.
  revert lo. induction l as [|[a n] l IH]; intros lo; simpl; [lia|]. intros (Ha & Hn & Hl).
  pose proof (IH _ Hl). pose proof (above_ge a n Hn). lia.
Qed.

Lemma sorted_bounds lo l a n : sorted lo l -> (a, n) ∈ l -> lo < a /\ 0 <= n /\ above a n <= top lo l.
Proof.
  revert lo. induction l as [|[b k] l IH]; intros lo; [by intros _ ?%elem_of_nil|].
  simpl. intros (Ha & Hn & Hl) [[= -> ->]|Hin]%elem_of_cons.
  - pose proof (top_ge _ _ Hl). lia.
  - destruct (IH _ Hl Hin) as (? & ? & ?). pose proof (above_ge b k Hn). lia.
Qed.

(** Memory that agrees on a header. *)
Definition same_header (m m' : mem) (a : Z) : Prop := hptr m' a = hptr m a /\ hsize m' a = hsize m a.

Lemma frame_header m m' a : (forall x, a <= x < a + 8 -> m' x = m x) -> same_header m m' a.
Proof. intros H. split; apply ld32_ext; intros x Hx; apply H; lia. Qed.

(** A change of one header leaves the others. *)
Lemma frame_away c m m' (l : list (Z * Z)) : Forall (fun b => b.1 + 8 <= c \/ c + 8 <= b.1) l ->
  (forall x, ~ (c <= x < c + 8) -> m' x = m x) -> Forall (fun b => same_header m m' b.1) l.
Proof.
  intros Hl Hm. eapply Forall_impl; [exact Hl|]. simpl. intros b Hb. apply frame_header. intros x Hx. apply Hm. lia.
Qed.

Lemma chain_frame m m' p l q : Forall (fun b => same_header m m' b.1) l -> chain m p l q -> chain m' p l q.
Proof.
  revert p. induction l as [|[a n] l IH]; intros p; [done|]. intros [[Hp Hs] Hl]%Forall_cons. simpl in *.
  rewrite Hp, Hs. intros (-> & ? & ?). auto.
Qed.

Lemma hptr_set_hptr p v m : 0 <= v < 2 ^ 32 -> hptr (set_hptr p v m) p = v.
Proof. apply ld32_st32. Qed.
Lemma hsize_set_hsize p v m : 0 <= v < 2 ^ 32 -> hsize (set_hsize p v m) p = v.
Proof. intros Hv. unfold hsize, set_hsize. rewrite u32_small by done. by apply ld32_st32. Qed.
Lemma hsize_set_hptr p v m : hsize (set_hptr p v m) p = hsize m p.
Proof. apply ld32_st32_ne. lia. Qed.
Lemma hptr_set_hsize p v m : hptr (set_hsize p v m) p = hptr m p.
Proof. apply ld32_st32_ne. lia. Qed.
Lemma hptr_set_hsize_ne p v m a : a + 8 <= p \/ p + 8 <= a -> hptr (set_hsize p v m) a = hptr m a.
Proof. intros H. apply ld32_st32_ne. lia. Qed.
Lemma set_hptr_ne p v m x : ~ (p <= x < p + 8) -> set_hptr p v m x = m x.
Proof. intros H. apply st32_ne. lia. Qed.
Lemma set_hsize_ne p v m x : ~ (p <= x < p + 8) -> set_hsize p v m x = m x.
Proof. intros H. apply st32_ne. lia. Qed.

Lemma chain_start m p l q lo : sorted lo l -> chain m p l q -> 0 <= lo -> top lo l <= 2 ^ 31 -> 0 <= q < 2 ^ 32 -> 0 <= p < 2 ^ 32.
Proof.
  destruct l as [|[a n] l]; simpl; [by intros _ ->|]. intros (Ha & Hn & Hl) (-> & _ & _) Hlo Ht _.
  pose proof (top_ge _ _ Hl). pose proof (above_ge a n Hn). lia.
Qed.

(** *** free() *)

(** The list with the block [(bp, n)] put after [(p, s)], joined to its neighbours where they touch. *)
Definition put_next (bp n : Z) (l : list (Z * Z)) : list (Z * Z) :=
  match l with
  | (a, t) :: r => if bp + 8 * n =? a then (bp, n + t) :: r else (bp, n) :: l
  | [] => [(bp, n)]
  end.
Definition put_prev (p s : Z) (l : list (Z * Z)) : list (Z * Z) :=
  match l with
  | (b, n) :: r => if p + 8 * s =? b then (p, s + n) :: r else (p, s) :: l
  | [] => [(p, s)]
  end.

Lemma put_next_ok lo bp n l2 : sorted lo l2 -> Forall (fun b => 0 < b.2) l2 -> 0 < n ->
  Forall (fun b => bp + 8 * n <= b.1) l2 ->
  exists n' r, put_next bp n l2 = (bp, n') :: r /\ n <= n' /\ Forall (fun b => 0 < b.2) r /\
    sorted (bp - 1) ((bp, n') :: r) /\ top 0 ((bp, n') :: r) <= Z.max (bp + 8 * n) (top lo l2).
Proof.
  destruct l2 as [|[a t] l2]; simpl put_next.
  - intros _ _ Hn _. exists n, []. simpl. rewrite above_pos by lia. by repeat split; try lia.
  - intros (Ha & Ht & Hs) [Htpos Hpos]%Forall_cons Hn [Hle Hall]%Forall_cons. simpl in Htpos, Hle.
    simpl top. rewrite (above_pos a t) in * by lia. destruct (Z.eqb_spec (bp + 8 * n) a) as [E|E].
    + exists (n + t), l2. simpl. rewrite above_pos by lia.
      replace (bp + 8 * (n + t)) with (a + 8 * t) by lia. repeat split; try done; lia.
    + exists n, ((a, t) :: l2). simpl. rewrite !above_pos by lia. split; [done|]. split; [done|].
      split; [by constructor|]. repeat split; try done; lia.
Qed.

Lemma put_prev_ok lo p s b n r : lo < p -> 0 <= s -> p + 8 <= b -> p + 8 * s <= b -> 0 < n -> sorted (b - 1) ((b, n) :: r) ->
  sorted lo (put_prev p s ((b, n) :: r)) /\ top lo (put_prev p s ((b, n) :: r)) = top 0 ((b, n) :: r).
Proof.
  intros Hlo Hs H8 Hle Hn (_ & _ & Hr). simpl put_prev.
  rewrite above_pos in Hr by done. destruct (Z.eqb_spec (p + 8 * s) b) as [E|E]; simpl.
  - rewrite !above_pos by lia. replace (p + 8 * (s + n)) with (b + 8 * n) by lia. by repeat split; try lia.
  - rewrite (above_pos b n) by lia. unfold above. destruct (Z.eqb_spec s 0); by repeat split; try lia.
Qed.

Lemma join_next_chain m bp p n l2 base lo n' r :
  chain m (hptr m p) l2 base -> sorted lo l2 -> 0 <= lo -> top lo l2 <= 2 ^ 31 ->
  0 <= base < bp -> 0 < n -> hsize m bp = n -> bp + 8 * n <= 2 ^ 31 -> p + 8 <= bp ->
  Forall (fun b => bp + 8 * n <= b.1) l2 -> put_next bp n l2 = (bp, n') :: r ->
  chain (join_next bp p m) (hptr (join_next bp p m) bp) r base /\ hsize (join_next bp p m) bp = n' /\
  (forall x, ~ (bp <= x < bp + 8) -> join_next bp p m x = m x).
Proof.
  intros Hc Hs Hlo Ht Hb Hn Hsz Htop Hp Hl2 Hput. unfold join_next, hadd. rewrite Hsz, u32_small by lia.
  pose proof (chain_start _ _ _ _ _ Hs Hc Hlo Ht ltac:(lia)) as Hrange.
  assert (forall l : list (Z * Z), Forall (fun b => bp + 8 * n <= b.1) l -> Forall (fun b => b.1 + 8 <= bp \/ bp + 8 <= b.1) l)
    as Haway by (intros l Hl; eapply Forall_impl; [exact Hl|]; simpl; lia).
  assert (hptr m p <> bp + 8 * n -> (bp, n') :: r = (bp, n) :: l2) as Hno.
  { intros Hne. destruct l2 as [|[a t] l2]; simpl in Hput; [congruence|]. destruct Hc as [Ea _].
    destruct (Z.eqb_spec (bp + 8 * n) a); congruence. }
  destruct (Z.eqb_spec (bp + 8 * n) (hptr m p)) as [E|E].
  - destruct l2 as [|[a t] l2]; [simpl in Hc; lia|]. simpl in Hput, Hc. destruct Hc as (Ea & Hta & Hc).
    destruct (Z.eqb_spec (bp + 8 * n) a); [|lia]. injection Hput as <- <-. simpl in Hs. destruct Hs as (Ha & Ht0 & Hs).
    simpl in Ht. pose proof (above_ge a t Ht0). pose proof (top_ge _ _ Hs). apply Forall_cons in Hl2 as [_ Hl2].
    pose proof (chain_start _ _ _ _ _ Hs Hc ltac:(lia) Ht ltac:(lia)) as Hrange2.
    rewrite Ea, Hta, (hptr_set_hsize_ne _ _ _ p), Ea, (hptr_set_hsize_ne _ _ _ a) by lia. set (v := hptr m a) in *.
    assert (forall x, ~ (bp <= x < bp + 8) -> set_hptr bp v (set_hsize bp (n + t) m) x = m x) as Hm
      by (intros x Hx; by rewrite set_hptr_ne, set_hsize_ne).
    rewrite hptr_set_hptr by done. split; [eapply chain_frame; [by eapply frame_away; [apply Haway|]|done]|].
    rewrite hsize_set_hptr, hsize_set_hsize by lia. done.
  - specialize (Hno ltac:(congruence)). injection Hno as <- ->.
    assert (forall x, ~ (bp <= x < bp + 8) -> set_hptr bp (hptr m p) m x = m x) as Hm by (intros x Hx; by rewrite set_hptr_ne).
    rewrite hptr_set_hptr by done. split; [eapply chain_frame; [by eapply frame_away; [apply Haway|]|done]|]. by rewrite hsize_set_hptr.
Qed.

Lemma join_prev_chain m bp p s n r q : hsize m bp = n -> hsize m p = s -> 0 <= s -> 0 < n -> p + 8 <= bp -> p + 8 * s <= bp ->
  0 <= p -> bp + 8 * n <= 2 ^ 31 -> 0 <= hptr m bp < 2 ^ 32 -> chain m (hptr m bp) r q -> Forall (fun b => bp + 8 <= b.1) r ->
  chain (join_prev bp p m) p (put_prev p s ((bp, n) :: r)) q /\
  (forall x, ~ (p <= x < p + 8) -> join_prev bp p m x = m x).
Proof.
  intros Hn Hs Hs0 Hn0 H8 Hle Hp Htop Hv Hc Hr. unfold join_prev, hadd. rewrite Hs, u32_small by lia. simpl put_prev.
  assert (Forall (fun b : Z * Z => b.1 + 8 <= p \/ p + 8 <= b.1) ((bp, n) :: r)) as Haway
    by (constructor; [simpl; lia|eapply Forall_impl; [exact Hr|]; simpl; lia]).
  destruct (Z.eqb_spec (p + 8 * s) bp) as [E|E].
  - rewrite Hn, hptr_set_hsize_ne by lia.
    assert (forall x, ~ (p <= x < p + 8) -> set_hptr p (hptr m bp) (set_hsize p (s + n) m) x = m x) as Hm
      by (intros x Hx; by rewrite set_hptr_ne, set_hsize_ne).
    split; [|done]. simpl. rewrite hsize_set_hptr, hsize_set_hsize, hptr_set_hptr by lia. split; [done|]. split; [done|].
    eapply chain_frame; [|done]. by apply (frame_away p m _ _ Haway), Forall_cons in Hm as [_ Hm].
  - assert (forall x, ~ (p <= x < p + 8) -> set_hptr p bp m x = m x) as Hm by (intros x Hx; by rewrite set_hptr_ne).
    split; [|done]. simpl. rewrite hsize_set_hptr, hptr_set_hptr by lia. split; [done|]. split; [done|].
    by apply (chain_frame m _ bp ((bp, n) :: r) q (frame_away p m _ _ Haway Hm)).
Qed.

Lemma free_at_cons a n l x : free_at ((a, n) :: l) x <-> a <= x < a + 8 * n \/ free_at l x.
Proof.
  unfold free_at. split.
  - intros (b & k & [[= -> ->]|Hin]%elem_of_cons & Hx); [by left|right; eauto].
  - intros [Hx|(b & k & Hin & Hx)]; [exists a, n|exists b, k]; (split; [|done]); apply elem_of_cons; auto.
Qed.

Lemma free_at_nil x : free_at [] x <-> False.
Proof. split; [|done]. by intros (? & ? & ?%elem_of_nil & _). Qed.

Lemma free_at_app l1 l2 x : free_at (l1 ++ l2) x <-> free_at l1 x \/ free_at l2 x.
Proof.
  induction l1 as [|[a n] l1 IH]; simpl; [by rewrite free_at_nil; split; [right|intros [[]|]]|].
  rewrite !free_at_cons, IH. tauto.
Qed.

Lemma free_at_put_next bp n l x : 0 <= n -> Forall (fun b => 0 < b.2) l ->
  free_at (put_next bp n l) x <-> bp <= x < bp + 8 * n \/ free_at l x.
Proof.
  intros Hn. destruct l as [|[a t] l]; simpl; [by rewrite free_at_cons|]. intros [Ht _]%Forall_cons. simpl in Ht.
  destruct (Z.eqb_spec (bp + 8 * n) a); rewrite !free_at_cons; [|done].
  split; [intros [?|?]|intros [?|[?|?]]]; try (by right; right); try (by right); try (left; lia).
  destruct (decide (x < bp + 8 * n)); [left; lia|right; left; lia].
Qed.

Lemma free_at_put_prev p s bp n r x : 0 <= s -> 0 <= n ->
  free_at (put_prev p s ((bp, n) :: r)) x <-> p <= x < p + 8 * s \/ free_at ((bp, n) :: r) x.
Proof.
  intros Hs Hn. simpl. destruct (Z.eqb_spec (p + 8 * s) bp); rewrite !free_at_cons; [|done].
  split; [intros [?|?]|intros [?|[?|?]]]; try (by right; right); try (by right); try (left; lia).
  destruct (decide (x < p + 8 * s)); [left; lia|right; left; lia].
Qed.

(** The loop of free() goes up to the last block below [bp], ... *)
Lemma free_find_low m bp base p s l2 k d x lo :
  chain m x (d ++ (p, s) :: l2) base -> sorted lo (d ++ (p, s) :: l2) -> base <= p -> p < bp ->
  Forall (fun b => bp < b.1) l2 -> free_find (k + 1 + length d) m bp x = Some p.
Proof.
  revert x lo. induction d as [|[a t] d IH]; intros x lo Hc Hs Hb Hp Hl2.
  - simpl in Hc. destruct Hc as (-> & _ & Hc). replace (k + 1 + length [])%nat with (Datatypes.S k) by (simpl; lia). simpl.
    destruct (Z.ltb_spec p bp); [|lia]. simpl. destruct l2 as [|[a t] l2]; simpl in Hc.
    + rewrite Hc. destruct (Z.ltb_spec bp base); [lia|]. simpl. by destruct (Z.leb_spec base p); [|lia].
    + destruct Hc as (-> & _). apply Forall_cons in Hl2 as [Ha _]. simpl in Ha. by destruct (Z.ltb_spec bp a); [|lia].
  - simpl in Hc, Hs. destruct Hc as (-> & _ & Hc), Hs as (Ha & Ht & Hs). pose proof (above_ge a t Ht).
    assert (a < hptr m a <= p) as Hnx.
    { pose proof (sorted_bounds _ _ p s Hs ltac:(set_solver)). destruct d as [|[a' t'] d]; simpl in Hc, Hs.
      - destruct Hc as (-> & _). lia.
      - destruct Hc as (-> & _), Hs as (? & ? & Hs). pose proof (above_ge a' t' ltac:(done)).
        pose proof (sorted_bounds _ _ p s Hs ltac:(set_solver)). lia. }
    replace (k + 1 + length ((a, t) :: d))%nat with (Datatypes.S (k + 1 + length d)) by (simpl; lia). cbn [free_find].
    destruct (Z.ltb_spec bp (hptr m a)), (Z.leb_spec (hptr m a) a); try lia. rewrite andb_false_r. simpl. by apply (IH _ (above a t)).
Qed.

(** ... after going round to [base] if it started above [bp]. *)
Lemma free_find_high m bp base k d x lo :
  chain m x d base -> sorted lo d -> base < bp -> Forall (fun b => bp < b.1) d ->
  free_find (k + length d) m bp x = free_find k m bp base.
Proof.
  revert x lo. induction d as [|[a t] d IH]; intros x lo Hc Hs Hb Hd; simpl in Hc.
  - rewrite Hc. f_equal. simpl. lia.
  - simpl in Hs. destruct Hc as (-> & _ & Hc), Hs as (Ha & Ht & Hs). apply Forall_cons in Hd as [Hbp Hd]. simpl in Hbp.
    pose proof (above_ge a t Ht). rewrite <- (IH _ _ Hc Hs Hb Hd).
    replace (k + length ((a, t) :: d))%nat with (Datatypes.S (k + length d)) by (simpl; lia). cbn [free_find].
    destruct (Z.ltb_spec a bp); [lia|]. simpl. destruct d as [|[a' t'] d]; simpl in Hc, Hs.
    + rewrite Hc. destruct (Z.ltb_spec bp base); [lia|]. by rewrite andb_false_r.
    + destruct Hc as (-> & _). by destruct (Z.leb_spec a' a); [lia|].
Qed.

Lemma free_find_ring m bp base k K p s l2 x n :
  chain m base (K ++ (p, s) :: l2) base -> sorted 0 (K ++ (p, s) :: l2) -> base <= p -> p < bp ->
  Forall (fun b => bp < b.1) l2 -> (x, n) ∈ K ++ (p, s) :: l2 -> (length (K ++ (p, s) :: l2) <= k)%nat ->
  free_find k m bp x = Some p.
Proof.
  intros Hc Hs Hb Hp Hl2 Hin Hk. rewrite length_app in Hk. cbn [length] in Hk.
  assert (forall k', (length K + 1 <= k')%nat -> free_find k' m bp base = Some p) as Hlow.
  { intros k' Hk'. replace k' with (k' - 1 - length K + 1 + length K)%nat by lia. by eapply free_find_low. }
  apply elem_of_app in Hin as [(A & C & ->)%list_elem_of_split|[[= -> ->]|(A & C & ->)%list_elem_of_split]%elem_of_cons].
  - rewrite <- app_assoc in *. simpl in Hc, Hs. apply chain_app in Hc as (_ & Hn & Hc). apply sorted_app in Hs as [_ Hs].
    rewrite length_app in Hk. cbn [length] in Hk.
    replace k with (k - 2 - length C + 1 + length ((x, n) :: C))%nat by (simpl; lia).
    eapply (free_find_low _ _ base p s l2 _ ((x, n) :: C)); [|exact Hs|done..]. by split_and!.
  - apply chain_app in Hc as (_ & Hn & Hc). apply sorted_app in Hs as [_ Hs].
    replace k with (k - 1 + 1 + length (@nil (Z * Z)))%nat by (simpl; lia).
    eapply (free_find_low _ _ base p s l2 _ []); [|exact Hs|done..]. by split_and!.
  - apply chain_app in Hc as (_ & _ & Hc). apply chain_app in Hc as (_ & Hn & Hc).
    apply sorted_app in Hs as [_ (_ & _ & Hs)]. apply sorted_app in Hs as [_ Hs].
    apply Forall_app in Hl2 as [_ Hl2]. rewrite length_app in Hk. cbn [length] in Hk.
    replace k with (k - 1 - length C + length ((x, n) :: C))%nat by (simpl; lia).
    rewrite (free_find_high m bp base _ ((x, n) :: C) x _ ltac:(by split_and!) Hs ltac:(lia) Hl2). apply Hlow. lia.
Qed.

(** A block apart from the free ones has its place between two of them. *)
Lemma split_at_block bp n p0 s0 l : sorted (above p0 s0) l -> p0 + 8 <= bp -> p0 + 8 * s0 <= bp -> Forall (fun b => 0 < b.2) l ->
  Forall (fun b => b.1 + 8 * b.2 <= bp \/ bp + 8 * n <= b.1) l ->
  exists K p s l2, (p0, s0) :: l = K ++ (p, s) :: l2 /\ p + 8 <= bp /\ p + 8 * s <= bp /\ Forall (fun b => bp + 8 * n <= b.1) l2.
Proof.
  revert p0 s0. induction l as [|[a t] l IH]; intros p0 s0 Hs Hp0 Hs0 Hpos Hd; [by exists [], p0, s0, []|].
  apply Forall_cons in Hpos as [Ht Hpos], Hd as [Ha Hd]. simpl in Ht, Ha, Hs. destruct Hs as (Hlo & Ht0 & Hs).
  destruct (Z.le_gt_cases (a + 8 * t) bp) as [Hle|Hgt].
  - destruct (IH a t) as (K & p & s & l2 & -> & H); [done|lia|done|done|done|]. by exists ((p0, s0) :: K), p, s, l2.
  - exists [], p0, s0, ((a, t) :: l). split; [done|]. split; [done|]. split; [done|]. constructor; [simpl; lia|].
    apply Forall_forall. intros [a' t'] Hin. pose proof (sorted_bounds _ _ _ _ Hs Hin). pose proof (above_ge a t Ht0). simpl. lia.
Qed.

(** The block that free() is given: [n] headers at [bp], below [brk], apart from the free ones. *)
Record block_ok (base brk : Z) (l : list (Z * Z)) (m : mem) (bp n : Z) : Prop := {
  blk_pos : 0 < n;
  blk_low : base + 8 <= bp;
  blk_high : bp + 8 * n <= brk;
  blk_size : hsize m bp = n;
  blk_apart : Forall (fun b => b.1 + 8 * b.2 <= bp \/ bp + 8 * n <= b.1) l
}.

Lemma put_prev_shape p s r : exists n r', put_prev p s r = (p, n) :: r'.
Proof. destruct r as [|[b n] r]; simpl; [by eexists _, _|]. destruct (_ =? _); by eexists _, _. Qed.

Lemma put_length p s bp n l : (length (put_prev p s (put_next bp n l)) <= length l + 2)%nat.
Proof.
  destruct l as [|[a t] l]; simpl; [by destruct (_ =? bp); simpl; lia|].
  destruct (_ =? a); simpl; destruct (_ =? bp); simpl; lia.
Qed.

Lemma free_ring base brk l m f bp n k :
  heap_ok base brk l (MkHeap m f) -> block_ok base brk l m bp n -> (length l < k)%nat ->
  exists p l', free_find k m bp f = Some p /\
    heap_ok base brk l' (MkHeap (join_prev bp p (join_next bp p m)) p) /\
    (forall x, free_at l' x <-> free_at l x \/ bp <= x < bp + 8 * n) /\
    (forall x, ~ free_at l x -> ~ bp <= x < bp + 8 * n -> ~ base <= x < base + 8 -> join_prev bp p (join_next bp p m) x = m x) /\
    (length l' <= length l + 1)%nat /\ Exists (fun b => n <= b.2) l'.
Proof.
  intros [Hpos Hs Ht Hc [nf Hf] Hbrk] [Hn Hlow Hhigh Hsz Hd] Hk. simpl hp_mem in *. simpl hp_freep in *.
  pose proof Hs as (Hb0 & _ & Hs0l).
  destruct (split_at_block bp n base 0 l) as (K & p & s & l2 & EL & Hp8 & Hps & Hl2);
    [exact Hs0l|lia|lia|done|done|].
  assert (length (K ++ (p, s) :: l2) <= k)%nat as Hk' by (rewrite <- EL; simpl; lia). rewrite EL in Hs, Ht, Hc, Hf.
  pose proof Hs as HsL. apply sorted_app in Hs as [HsK Hs]. simpl in Hs. destruct Hs as (HKp & Hs0 & Hs2).
  rewrite top_app in Ht. simpl in Ht. pose proof (above_ge p s Hs0) as Hab. pose proof (top_ge _ _ HsK) as HK0.
  pose proof Hc as HcL. apply chain_app in HcL as (HcK & Hsp & Hc2).
  assert (base <= p) as Hbp. { destruct K as [|[a t] K]; simpl in EL; injection EL as <- <- _; [lia|].
    simpl in HsK, HKp. destruct HsK as (_ & _ & HsK). pose proof (top_ge _ _ HsK). pose proof (above_ge base 0 ltac:(lia)). lia. }
  assert (Forall (fun b => 0 < b.2) l2) as Hpos2.
  { destruct K as [|[a t] K]; simpl in EL; injection EL as _ _ ->; [done|]. apply Forall_app in Hpos as [_ Hpos].
    by apply Forall_cons in Hpos as [_ Hpos]. }
  assert (Forall (fun b => bp < b.1) l2) as Hbpl2 by (eapply Forall_impl; [exact Hl2|]; simpl; lia).
  exists p. destruct (put_next_ok _ bp n l2 Hs2 Hpos2 Hn Hl2) as (n' & r & Eput & Hnn & Hpr & Hsr & Htr).
  assert (0 < n') as Hn' by lia.
  destruct (join_next_chain m bp p n l2 base (above p s) n' r) as (Hc1 & Hsz1 & Hm1); try done; try lia.
  assert (Forall (fun b => bp + 8 <= b.1) r) as Hr8.
  { simpl in Hsr. destruct Hsr as (_ & _ & Hsr). apply Forall_forall. intros [a t] Hin.
    pose proof (sorted_bounds _ _ _ _ Hsr Hin). rewrite above_pos in * by done. simpl. lia. }
  set (m1 := join_next bp p m) in *.
  assert (hptr m1 p = hptr m p /\ hsize m1 p = s) as [_ Hsp1].
  { destruct (frame_header m m1 p) as [E1 E2]; [intros x Hx; apply Hm1; lia|]. by rewrite E1, E2. }
  assert (bp + 8 * n' <= 2 ^ 31) as Htop1.
  { simpl in Hsr, Htr. rewrite above_pos in * by done. destruct Hsr as (_ & _ & Hsr). pose proof (top_ge _ _ Hsr). lia. }
  destruct (join_prev_chain m1 bp p s n' r base) as [Hc2' Hm2]; try done; try lia.
  { simpl in Hsr. destruct Hsr as (_ & _ & Hsr). eapply (chain_start _ _ _ _ _ Hsr Hc1); [|simpl in Htr; lia|lia].
    rewrite above_pos by done. lia. }
  set (m2 := join_prev bp p m1) in *.
  assert (chain m2 base K p) as HcK2.
  { assert (Forall (fun b : Z * Z => b.1 + 8 <= p) K) as HK by (apply Forall_forall; intros [a t] Hin;
      pose proof (sorted_bounds _ _ _ _ HsK Hin); pose proof (above_ge a t ltac:(lia)); simpl; lia).
    eapply chain_frame; [eapply (frame_away p m1); [|exact Hm2]|eapply chain_frame; [eapply (frame_away bp m); [|exact Hm1]|done]].
    all: eapply Forall_impl; [exact HK|]; simpl; lia. }
  assert (exists l', K ++ put_prev p s ((bp, n') :: r) = (base, 0) :: l' /\ Forall (fun b => 0 < b.2) l') as (l' & EL' & Hpos').
  { assert (Forall (fun b => 0 < b.2) (put_prev p s ((bp, n') :: r)) \/ s = 0) as Hpp.
    { destruct (Z.eqb_spec s 0); [by right|left]. simpl. destruct (_ =? bp); repeat constructor; simpl; try done; lia. }
    destruct K as [|[a t] K]; simpl in EL; injection EL as <- <- El.
    - exists ((bp, n') :: r). simpl. destruct (Z.eqb_spec (base + 8 * 0) bp); [lia|]. split; [done|]. by constructor.
    - exists (K ++ put_prev p s ((bp, n') :: r)). split; [done|]. rewrite El in Hpos.
      apply Forall_app in Hpos as [HposK [Hs' _]%Forall_cons]. apply Forall_app. split; [done|].
      destruct Hpp as [Hpp|Hpp]; [done|]. simpl in Hs'. lia. }
  destruct (put_prev_ok (top 0 K) p s bp n' r) as [HsP HtP]; [lia..|done|].
  exists l'. split; [eapply free_find_ring; try done; lia|].
  assert (forall x, free_at l x <-> free_at ((base, 0) :: l) x) as Hbase by (intros x; rewrite free_at_cons; split; [by right|intros [?|?]; [lia|done]]).
  assert (forall x, free_at l' x <-> free_at ((base, 0) :: l') x) as Hbase' by (intros x; rewrite free_at_cons; split; [by right|intros [?|?]; [lia|done]]).
  split_and!.
  - constructor; simpl hp_mem; simpl hp_freep; rewrite <- ?EL'; [done|by apply sorted_app|rewrite top_app, HtP; lia| | |done].
    + destruct (put_prev_shape p s ((bp, n') :: r)) as (t & r' & E). rewrite E in *. apply chain_app.
      destruct Hc2' as (_ & ? & ?). done.
    + destruct (put_prev_shape p s ((bp, n') :: r)) as (t & r' & E). exists t. rewrite E. set_solver.
  - intros x. rewrite Hbase', <- EL', Hbase, EL, !free_at_app, free_at_put_prev, <- Eput, free_at_put_next, (free_at_cons p) by (done || lia). tauto.
  - intros x Hx1 Hx2 Hx3. rewrite Hm2; [apply Hm1; lia|]. intros Hx. apply Hx1, Hbase. rewrite EL.
    apply free_at_app. right. apply free_at_cons. left. enough (0 < s) by lia.
    destruct K as [|[a t] K]; simpl in EL; injection EL as <- <- El; [lia|]. rewrite El in Hpos.
    by apply Forall_app in Hpos as [_ [? _]%Forall_cons].
  - enough (length ((base, 0%Z) :: l') <= length ((base, 0%Z) :: l) + 1)%nat by (simpl in *; lia).
    rewrite <- EL', EL, <- Eput, !length_app. pose proof (put_length p s bp n l2). simpl. lia.
  - assert (Exists (fun b => n <= b.2) ((base, 0) :: l')) as [?|?]%Exists_cons; [|simpl in *; lia|done].
    rewrite <- EL'. apply Exists_app. right. simpl. destruct (_ =? bp); [left; simpl; lia|right; by left].
Qed.

Section heap.
Context {S : Type} `{!Usys S} `{!HasHeap S} (base : Z).
Implicit Types s : S.

Lemma wp_mem_upd (f : mem -> mem) (Q : unit -> S -> Prop) m p s :
  Q tt (put heap_lens (MkHeap (f m) p) s) -> wp (mem_upd f) Q (put heap_lens (MkHeap m p) s).
Proof. intros HQ. apply wp_modify. by rewrite view_put, put_put. Qed.

Lemma wp_set_freep (Q : unit -> S -> Prop) m p q s :
  Q tt (put heap_lens (MkHeap m q) s) -> wp (set_freep q) Q (put heap_lens (MkHeap m p) s).
Proof. intros HQ. apply wp_modify. by rewrite view_put, put_put. Qed.

Lemma free_run brk l m f ap n k s :
  heap_ok base brk l (MkHeap m f) -> block_ok base brk l m (ap - 8) n -> (length l < k)%nat ->
  wp (free k ap) (fun _ s' => exists l' m' p, s' = put heap_lens (MkHeap m' p) s /\ heap_ok base brk l' (MkHeap m' p) /\
    (forall x, free_at l' x <-> free_at l x \/ ap - 8 <= x < ap - 8 + 8 * n) /\
    (forall x, ~ free_at l x -> ~ ap - 8 <= x < ap - 8 + 8 * n -> ~ base <= x < base + 8 -> m' x = m x) /\
    (length l' <= length l + 1)%nat /\ Exists (fun b => n <= b.2) l') (put heap_lens (MkHeap m f) s).
Proof.
  intros Hok Hb Hk. destruct (free_ring base brk l m f (ap - 8) n k Hok Hb Hk) as (p & l' & Hfind & Hok' & H).
  unfold free. apply wp_bind, wp_gets. rewrite view_put. simpl. rewrite Hfind.
  apply wp_bind, wp_mem_upd, wp_bind, wp_mem_upd, wp_set_freep. by eexists l', _, p.
Qed.

Lemma chain_size m p l q a n : chain m p l q -> (a, n) ∈ l -> hsize m a = n.
Proof. intros Hc (l1 & l2 & ->)%list_elem_of_split. apply chain_app in Hc. tauto. Qed.

Lemma chain_concat m p l1 q l2 r : chain m p l1 q -> chain m q l2 r -> chain m p (l1 ++ l2) r.
Proof. revert p. induction l1 as [|[a n] l1 IH]; intros p; simpl; [by intros -> | intros (? & ? & ?) ?]. split_and!; auto. Qed.

(** The block that the pointer of the block [pv] leads to is next to it in the list. *)
Lemma next_block brk l m f pv q sq : heap_ok base brk l (MkHeap m f) -> (exists t, (pv, t) ∈ (base, 0) :: l) -> hptr m pv = q ->
  (q, sq) ∈ (base, 0) :: l -> 0 < sq -> exists X t Y, (base, 0) :: l = X ++ (pv, t) :: (q, sq) :: Y.
Proof.
  intros [_ Hs _ Hc _ _] [t Hpv] Hq Hin Hsq. simpl hp_mem in Hc. pose proof (chain_size _ base _ _ _ _ Hc Hin) as Hsz.
  pose proof Hpv as (X & Z & EL)%list_elem_of_split. exists X, t. rewrite EL in Hc. apply chain_app in Hc as (_ & _ & Hc).
  rewrite Hq in Hc. destruct Z as [|[a n] Y]; simpl in Hc.
  - simpl in Hs. destruct Hs as (_ & _ & Hs). apply elem_of_cons in Hin as [[= -> ->]|Hin]; [lia|].
    pose proof (sorted_bounds _ _ _ _ Hs Hin). pose proof (above_ge base 0 ltac:(lia)). lia.
  - destruct Hc as (-> & Hn & _). exists Y. rewrite EL. by rewrite <- Hsz, Hn.
Qed.

(** What malloc() takes from the free blocks [l]: [nu] headers at [q]. *)
Record taken (brk : Z) (l l' : list (Z * Z)) (m' : mem) (q nu : Z) : Prop := {
  tk_size : hsize m' q = nu;
  tk_low : base + 8 <= q;
  tk_high : q + 8 * nu <= brk;
  tk_split : forall x, free_at l x <-> free_at l' x \/ q <= x < q + 8 * nu;
  tk_apart : forall x, q <= x < q + 8 * nu -> ~ free_at l' x
}.

Lemma sorted_weaken lo lo' l : lo' <= lo -> sorted lo l -> sorted lo' l /\ top lo' l <= top lo l.
Proof. destruct l as [|[a n] l]; simpl; [done|]. intros Hle (? & ? & ?). by repeat split; try lia. Qed.

(** The ring after the block [pv], replaced. *)
Lemma replace_tail brk l m f X pv t R R' m' :
  heap_ok base brk l (MkHeap m f) -> (base, 0) :: l = X ++ (pv, t) :: R ->
  sorted (above pv t) R' -> top (above pv t) R' <= brk -> Forall (fun b => 0 < b.2) R' ->
  chain m' (hptr m' pv) R' base -> hsize m' pv = t -> Forall (fun b => same_header m m' b.1) X ->
  exists l', (base, 0) :: l' = X ++ (pv, t) :: R' /\ heap_ok base brk l' (MkHeap m' pv).
Proof.
  intros [Hpos Hs Ht Hc _ Hbrk] EL HsR HtR HposR HcR Ht' HX. simpl hp_mem in *. rewrite EL in Hs, Ht, Hc.
  apply sorted_app in Hs as [HsX (Hlo & Ht0 & _)]. apply chain_app in Hc as (HcX & _ & _).
  assert (exists l', (base, 0) :: l' = X ++ (pv, t) :: R' /\ Forall (fun b => 0 < b.2) l') as (l' & EL' & Hpos').
  { destruct X as [|b X]; simpl in EL; [injection EL as <- <- _; by exists R'|injection EL as <- El].
    exists (X ++ (pv, t) :: R'). split; [done|]. rewrite El in Hpos. apply Forall_app in Hpos as [? [? _]%Forall_cons].
    apply Forall_app. split; [done|]. by constructor. }
  exists l'. split; [done|]. constructor; simpl hp_mem; simpl hp_freep; rewrite ?EL'; [done| | | | |done].
  - apply sorted_app. by split_and!.
  - rewrite top_app. simpl. lia.
  - apply chain_app. split; [by eapply chain_frame|done].
  - exists t. set_solver.
Qed.

Lemma take_ring brk l m f X pv t q sq Y nu : heap_ok base brk l (MkHeap m f) ->
  (base, 0) :: l = X ++ (pv, t) :: (q, sq) :: Y -> 0 < nu <= sq ->
  let '(q', m') := if sq =? nu then (q, set_hptr pv (hptr m q) m)
                   else (hadd q (sq - nu), set_hsize (hadd q (sq - nu)) nu (set_hsize q (sq - nu) m)) in
  exists l', heap_ok base brk l' (MkHeap m' pv) /\ taken brk l l' m' q' nu /\
    (forall x, ~ free_at l x -> ~ base <= x < base + 8 -> m' x = m x).
Proof.
  intros Hok EL Hnu. pose proof Hok as [Hpos Hs Ht Hc _ _]. simpl hp_mem in *. pose proof Hs as (Hb0 & _ & Hs0).
  assert ((q, sq) ∈ l /\ Forall (fun b => 0 < b.2) Y /\ (pv = base \/ (pv, t) ∈ l)) as (Hin & HposY & Hpv).
  { destruct X as [|b X]; simpl in EL; [injection EL as Eb _ El|injection EL as Eb El]; rewrite El in *.
    - apply Forall_cons in Hpos as [_ ?]. split; [by left|]. split; [done|]. by left.
    - apply Forall_app in Hpos as [_ [_ [_ ?]%Forall_cons]%Forall_cons]. split; [set_solver|]. split; [done|]. right. set_solver. }
  rewrite EL in Hs, Ht, Hc. pose proof (above_ge base 0 ltac:(lia)) as Hab0.
  pose proof (sorted_bounds _ _ _ _ Hs0 Hin) as (Hq & _ & _).
  apply sorted_app in Hs as [HsX (Hlo & Ht0 & Hlo' & Hsq & HsY)]. pose proof (above_ge pv t Ht0) as Habp.
  rewrite top_app in Ht. simpl in Ht. apply chain_app in Hc as (HcX & Hszp & (Hqp & Hszq & HcY)).
  rewrite above_pos in HsY, Ht by lia. pose proof (top_ge _ _ HsY) as HtY. pose proof (top_ge _ _ HsX) as HtX.
  assert (0 <= hptr m q < 2 ^ 32) as Hv by (eapply (chain_start m _ Y base _ HsY); [done|lia|lia|lia]).
  assert (forall a u, (a, u) ∈ X -> a + 8 <= pv /\ a + 8 * u <= pv) as HX.
  { intros a u HaX. pose proof (sorted_bounds _ _ _ _ HsX HaX). pose proof (above_ge a u ltac:(lia)). lia. }
  assert (forall a u, (a, u) ∈ Y -> q + 8 * sq < a) as HY by (intros a u HaY; pose proof (sorted_bounds _ _ _ _ HsY HaY); lia).
  assert (forall m', (forall x, ~ (pv <= x < pv + 8) -> ~ (q <= x < q + 8 * sq) -> m' x = m x) ->
    Forall (fun b => same_header m m' b.1) X /\ Forall (fun b => same_header m m' b.1) Y) as Hframe.
  { intros m' Hm. split; apply Forall_forall; intros [a u] Ha; apply frame_header; intros x Hx; simpl in Hx; apply Hm.
    all: first [pose proof (HX a u Ha)|pose proof (HY a u Ha)]; lia. }
  assert (forall l' R' x, (base, 0) :: l' = X ++ (pv, t) :: R' -> free_at l' x <-> free_at X x \/ pv <= x < pv + 8 * t \/ free_at R' x) as Hfree.
  { intros l' R' x E. rewrite <- free_at_cons, <- free_at_app, <- E, free_at_cons. split; [by right|intros [?|?]; [lia|done]]. }
  assert (forall x, free_at X x -> x < pv) as HXx by (intros x (a & u & Ha & Hx); pose proof (HX a u Ha); lia).
  assert (forall x, free_at Y x -> q + 8 * sq < x) as HYx by (intros x (a & u & Ha & Hx); pose proof (HY a u Ha); lia).
  assert (forall m', (forall x, ~ (pv <= x < pv + 8) -> ~ (q <= x < q + 8 * sq) -> m' x = m x) ->
    forall x, ~ free_at l x -> ~ base <= x < base + 8 -> m' x = m x) as Hout.
  { intros m' Hm x Hx Hbx. apply Hm.
    - intros Hp. destruct Hpv as [->|Hpv]; [lia|]. apply Hx. exists pv, t. split; [done|]. rewrite Forall_forall in Hpos.
      specialize (Hpos _ Hpv). simpl in Hpos. lia.
    - intros Hxq. apply Hx. by exists q, sq. }
  destruct (Z.eqb_spec sq nu) as [E|E].
  - assert (forall x, ~ (pv <= x < pv + 8) -> ~ (q <= x < q + 8 * sq) -> set_hptr pv (hptr m q) m x = m x) as Hm
      by (intros x Hx _; by apply set_hptr_ne).
    destruct (Hframe _ Hm) as [HfX HfY]. destruct (sorted_weaken (q + 8 * sq) (above pv t) Y ltac:(lia) HsY) as [HsY' HtY'].
    destruct (replace_tail brk l m f X pv t _ Y (set_hptr pv (hptr m q) m) Hok EL) as (l' & EL' & Hok'); try done; try lia.
    { rewrite hptr_set_hptr by done. by eapply chain_frame. }
    { by rewrite hsize_set_hptr. }
    exists l'. split; [done|]. split; [|by apply Hout]. constructor; try lia.
    + destruct (frame_header m (set_hptr pv (hptr m q) m) q) as [_ ->]; [|lia]. intros x Hx. apply set_hptr_ne. lia.
    + intros x. rewrite (Hfree l _ x EL), (Hfree l' _ x EL'), free_at_cons, E. tauto.
    + intros x Hx. rewrite (Hfree l' _ x EL'). intros [?%HXx|[?|?%HYx]]; lia.
  - unfold hadd. rewrite u32_small by lia. set (q' := q + 8 * (sq - nu)).
    set (m' := set_hsize q' nu (set_hsize q (sq - nu) m)).
    assert (forall x, ~ (q <= x < q + 8 * sq) -> m' x = m x) as Hm'
      by (intros x Hx; unfold m'; rewrite !set_hsize_ne by lia; done).
    destruct (Hframe m') as [HfX HfY]; [by intros x _; apply Hm'|].
    destruct (frame_header m m' pv) as [Epp Eps]; [intros x Hx; apply Hm'; lia|].
    assert (hptr m' q = hptr m q /\ hsize m' q = sq - nu) as [Eq Es].
    { split; [by unfold m'; rewrite hptr_set_hsize_ne, hptr_set_hsize by lia|].
      destruct (frame_header (set_hsize q (sq - nu) m) m' q) as [_ ->]; [intros x Hx; apply set_hsize_ne; lia|].
      apply hsize_set_hsize. lia. }
    destruct (sorted_weaken (q + 8 * sq) (q + 8 * (sq - nu)) Y ltac:(lia) HsY) as [HsY' HtY'].
    destruct (replace_tail brk l m f X pv t _ ((q, sq - nu) :: Y) m' Hok EL) as (l' & EL' & Hok'); try done; try lia.
    { simpl. rewrite (above_pos q) by lia. by split_and!; try lia. }
    { simpl. rewrite (above_pos q) by lia. lia. }
    { constructor; [simpl; lia|done]. }
    { rewrite Epp. simpl. rewrite Es, Eq. split_and!; try done; try lia. by eapply chain_frame. }
    exists l'. split; [done|]. split; [|by apply Hout; intros x _; apply Hm']. constructor; try lia.
    + apply hsize_set_hsize. lia.
    + intros x. rewrite (Hfree l _ x EL), (Hfree l' _ x EL'), !free_at_cons.
      assert (q <= x < q + 8 * sq <-> q <= x < q + 8 * (sq - nu) \/ q' <= x < q' + 8 * nu) as -> by lia. tauto.
    + intros x Hx. rewrite (Hfree l' _ x EL'), free_at_cons. intros [?%HXx|[?|[?|?%HYx]]]; lia.
Qed.

Lemma take_run brk l m f X pv t q sq Y nu s : heap_ok base brk l (MkHeap m f) ->
  (base, 0) :: l = X ++ (pv, t) :: (q, sq) :: Y -> 0 < nu <= sq ->
  wp (take_block nu pv q) (fun r s' => exists l' m' q', r = q' + 8 /\ s' = put heap_lens (MkHeap m' pv) s /\
    heap_ok base brk l' (MkHeap m' pv) /\ taken brk l l' m' q' nu /\
    (forall x, ~ free_at l x -> ~ base <= x < base + 8 -> m' x = m x)) (put heap_lens (MkHeap m f) s).
Proof.
  intros Hok EL Hnu. pose proof (take_ring brk l m f X pv t q sq Y nu Hok EL Hnu) as Ht.
  assert (hsize m q = sq) as Hsz by (eapply chain_size; [apply (ok_chain _ _ _ _ Hok)|rewrite EL; set_solver]).
  unfold take_block. apply wp_bind, wp_gets. rewrite view_put. simpl. rewrite Hsz. apply wp_bind.
  destruct (sq =? nu); destruct Ht as (l' & Hok' & Htk & Hout).
  - apply wp_bind, wp_mem_upd, wp_ret, wp_bind, wp_set_freep, wp_ret. by eexists l', _, q.
  - apply wp_bind, wp_mem_upd, wp_bind, wp_mem_upd, wp_ret, wp_bind, wp_set_freep, wp_ret. by eexists l', _, _.
Qed.

Definition more (k : nat) (nu : Z) : M S Z :=
  let* p := morecore (Datatypes.S k) nu in
  if p =? 0 then ret 0 else
  let* h := the_heap in
  malloc_loop k nu p (hptr (hp_mem h) p).

Lemma bind_the_heap {A} (g : heap -> M S A) h s : bind the_heap g (put heap_lens h s) = g h (put heap_lens h s).
Proof. unfold bind, the_heap, Prelude.gets. simpl. by rewrite view_put. Qed.

(** A round of the ring: a block that is large enough is taken, or there is none. *)
Lemma scan brk l m f sf nu k s W pv p : heap_ok base brk l (MkHeap m f) -> 0 < nu -> (f, sf) ∈ (base, 0) :: l ->
  (exists t, (pv, t) ∈ (base, 0) :: l) -> hptr m pv = p -> chain m p W f ->
  Forall (fun b => b ∈ (base, 0) :: l /\ b.1 <> f) W ->
  let st := put heap_lens (MkHeap m f) s in
  (exists X pv' t q sq Y, (base, 0) :: l = X ++ (pv', t) :: (q, sq) :: Y /\ nu <= sq /\
     malloc_loop (k + length W + 1) nu pv p st = take_block nu pv' q st) \/
  (Forall (fun b => b.2 < nu) W /\ sf < nu /\ malloc_loop (k + length W + 1) nu pv p st = more k nu st).
Proof.
  intros Hok Hnu Hf. pose proof (ok_chain _ _ _ _ Hok) as Hc. simpl hp_mem in Hc.
  revert pv p. induction W as [|[a n] W IH]; intros pv p Hpv Hp HcW HW st.
  - simpl in HcW. subst st. rewrite HcW in Hp. rewrite HcW. replace (k + length [] + 1)%nat with (Datatypes.S k) by (simpl; lia).
    pose proof (chain_size _ _ _ _ _ _ Hc Hf) as Hsz. unfold more. cbn [malloc_loop].
    rewrite bind_the_heap. cbn [hp_mem hp_freep]. rewrite Hsz, Z.eqb_refl.
    destruct (Z.leb_spec nu sf).
    + left. destruct (next_block brk l m f pv f sf Hok Hpv Hp Hf ltac:(lia)) as (X & t & Y & EL). by exists X, pv, t, f, sf, Y.
    + right. split; [constructor|]. done.
  - simpl in HcW. destruct HcW as (-> & Hsz & HcW). apply Forall_cons in HW as [[Ha Hne] HW]. simpl in Hne.
    replace (k + length ((a, n) :: W) + 1)%nat with (Datatypes.S (k + length W + 1)) by (simpl; lia). cbn [malloc_loop].
    destruct (IH a (hptr m a) ltac:(eauto) eq_refl HcW HW) as [(X & pv' & t & q & sq & Y & EL & Hle & E)|(HW' & Hsf & E)].
    all: subst st; rewrite bind_the_heap; cbn [hp_mem hp_freep]; rewrite Hsz.
    all: destruct (Z.leb_spec nu n); [|destruct (Z.eqb_spec a f); [done|]; rewrite E].
    1,3: left; destruct (next_block brk l m f pv a n Hok Hpv Hp Ha ltac:(lia)) as (X' & t' & Y' & EL'); by exists X', pv, t', a, n, Y'.
    + left. by exists X, pv', t, q, sq, Y.
    + right. split; [by constructor|]. done.
Qed.

(** What malloc() relies on of sbrk(): it fails and changes nothing, or it gives [n] bytes more
    from [brk] on (their contents are not known); the break stays below 2^31 (KERNBASE). *)
Class Sbrk (R : Z -> S -> Prop) := {
  sbrk_run : forall brk n m f s, R brk (put heap_lens (MkHeap m f) s) -> 0 < n < 2 ^ 31 ->
    wp (u_sbrk n) (fun r s' => exists m' s2, s' = put heap_lens (MkHeap m' f) s2 /\ 
      (u32 r = 2 ^ 32 - 1 /\ m' = m /\ R brk s' \/
       r = brk /\ brk + n <= 2 ^ 31 /\ (forall x, ~ brk <= x < brk + n -> m' x = m x) /\ R (brk + n) s'))
      (put heap_lens (MkHeap m f) s);
  sbrk_heap : forall brk h s, R brk s -> R brk (put heap_lens h s)
}.
Context (R : Z -> S -> Prop) `{!Sbrk R}.

Lemma heap_ok_grow brk brk' l m m' f : heap_ok base brk l (MkHeap m f) -> brk <= brk' <= 2 ^ 31 ->
  (forall x, x < brk -> m' x = m x) -> heap_ok base brk' l (MkHeap m' f).
Proof.
  intros [Hpos Hs Ht Hc Hf Hb] Hle Hm. simpl hp_mem in *. constructor; try done; try lia.
  eapply chain_frame; [|exact Hc]. apply Forall_forall. intros [a n] Hin. apply frame_header. intros x Hx. apply Hm. simpl in Hx.
  pose proof (sorted_bounds _ _ _ _ Hs Hin). apply elem_of_cons in Hin as [[= -> ->]|Hin]; [lia|].
  rewrite Forall_forall in Hpos. specialize (Hpos _ Hin). simpl in Hpos. rewrite above_pos in * by done. lia.
Qed.

(** The size that morecore() asks for. *)
Definition more_units (nu : Z) : Z := if nu <? 4096 then 4096 else nu.

Lemma morecore_run brk l m f nu k s : heap_ok base brk l (MkHeap m f) -> R brk (put heap_lens (MkHeap m f) s) ->
  (length l < k)%nat -> 0 < nu -> 8 * nu < 2 ^ 31 ->
  wp (morecore k nu) (fun p s' => exists m' f' s2, s' = put heap_lens (MkHeap m' f') s2 /\
    (p = 0 /\ m' = m /\ f' = f /\ R brk s' \/
     exists l' brk', p <> 0 /\ f' = p /\ brk' = brk + 8 * more_units nu /\ R brk' s' /\ heap_ok base brk' l' (MkHeap m' p) /\
       (forall x, free_at l' x <-> free_at l x \/ brk <= x < brk') /\
       (forall x, ~ free_at l x -> ~ brk <= x < brk' -> ~ base <= x < base + 8 -> m' x = m x) /\
       (length l' <= length l + 1)%nat /\ Exists (fun b => nu <= b.2) l')) (put heap_lens (MkHeap m f) s).
Proof.
  intros Hok HR Hk Hnu Hmax. unfold morecore. fold (more_units nu). set (n := more_units nu).
  assert (0 < n /\ nu <= n /\ 8 * n < 2 ^ 31) as (Hn & Hnn & Hn8) by (unfold n, more_units; destruct (Z.ltb_spec nu 4096); lia).
  rewrite s32_small by lia. apply wp_bind. eapply wp_mono; [|apply (sbrk_run brk (n * 8) m f s HR); lia].
  intros r s' (m1 & s2 & -> & [(Er & -> & HR')|(-> & Hbrk & Hm1 & HR')]).
  - rewrite Er, Z.eqb_refl. apply wp_ret. exists m, f, s2. split; [done|]. by left.
  - pose proof (ok_base _ _ _ _ Hok) as Hb. pose proof (proj1 (ok_sorted _ _ _ _ Hok)) as Hb0.
    rewrite (u32_small brk) by lia. destruct (Z.eqb_spec brk (2 ^ 32 - 1)); [lia|]. apply wp_bind, wp_mem_upd, wp_bind.
    set (m2 := set_hsize brk n m1).
    assert (heap_ok base (brk + n * 8) l (MkHeap m2 f)) as Hok2.
    { eapply heap_ok_grow; [exact Hok|lia|]. intros x Hx. unfold m2. rewrite set_hsize_ne by lia. apply Hm1. lia. }
    assert (block_ok base (brk + n * 8) l m2 (brk + 8 - 8) n) as Hblk.
    { rewrite Z.add_simpl_r. constructor; try lia; [by apply hsize_set_hsize; lia|]. apply Forall_forall. intros [a t] Hin. left. simpl.
      pose proof (sorted_bounds _ _ a t (ok_sorted _ _ _ _ Hok) ltac:(set_solver)).
      pose proof (ok_top _ _ _ _ Hok). pose proof (above_ge a t ltac:(lia)). lia. }
    eapply wp_mono; [|by apply (free_run _ _ _ _ _ _ _ _ Hok2 Hblk)].
    intros [] s3 (l' & m' & p & -> & Hok' & Hfree & Hout & Hlen & Hex). rewrite Z.add_simpl_r in *.
    apply wp_bind, wp_gets, wp_ret. rewrite view_put. simpl. exists m', p, s2. split; [done|]. right.
    exists l', (brk + n * 8). replace (8 * n) with (n * 8) in * by lia. split_and!; try done.
    + destruct (ok_freep _ _ _ _ Hok') as [t Hin]. simpl in Hin.
      pose proof (sorted_bounds _ _ _ _ (ok_sorted _ _ _ _ Hok') Hin). lia.
    + apply (sbrk_heap _ (MkHeap m' p)) in HR'. by rewrite put_put in HR'.
    + intros x Hx1 Hx2 Hx3. rewrite Hout by done. unfold m2. rewrite set_hsize_ne by lia. by apply Hm1.
    + eapply Exists_impl; [exact Hex|]. simpl. lia.
Qed.

(** The heap before the first call, or later. *)
Definition heap_inv (brk : Z) (l : list (Z * Z)) (h : heap) : Prop :=
  heap_ok base brk l h \/ hp_freep h = 0 /\ l = [] /\ 0 < base /\ base + 8 <= brk <= 2 ^ 31.

(** [r] is a block of [nbytes] bytes with its header; its bytes were free, or are new from sbrk(),
    and are free no longer; no other byte changed hands. *)
Definition allocated (brk : Z) (l : list (Z * Z)) (brk' : Z) (l' : list (Z * Z)) (m' : mem) (r nbytes : Z) : Prop :=
  let nu := nunits_of nbytes in
  hsize m' (r - 8) = nu /\ base + 8 <= r - 8 /\ r + nbytes <= r - 8 + 8 * nu <= brk' /\
  forall x, (free_at l' x \/ r - 8 <= x < r - 8 + 8 * nu <-> free_at l x \/ brk <= x < brk') /\
    ~ (free_at l' x /\ r - 8 <= x < r - 8 + 8 * nu).

Lemma ring_walk brk l m f : heap_ok base brk l (MkHeap m f) -> exists sf W, (f, sf) ∈ (base, 0) :: l /\
  chain m (hptr m f) W f /\ Forall (fun b => b ∈ (base, 0) :: l /\ b.1 <> f) W /\ length W = length l /\
  (forall b, b ∈ l -> b ∈ W \/ b = (f, sf)).
Proof.
  intros [_ Hs _ Hc [sf Hf] _]. simpl hp_mem in *. simpl hp_freep in *. pose proof Hf as (A & C & EL)%list_elem_of_split.
  exists sf, (C ++ A). rewrite EL in Hs, Hc. apply chain_app in Hc as (HcA & _ & HcC). apply sorted_app in Hs as [HsA (Hlo & Hsf & HsC)].
  split; [done|]. split; [by eapply chain_concat|]. split; [|split].
  - apply Forall_forall. intros [a n] Hin. split; [rewrite EL; set_solver|]. simpl. apply elem_of_app in Hin as [Hin|Hin].
    + pose proof (sorted_bounds _ _ _ _ HsC Hin). pose proof (above_ge f sf Hsf). lia.
    + pose proof (sorted_bounds _ _ _ _ HsA Hin). pose proof (above_ge a n ltac:(lia)). lia.
  - apply (f_equal length) in EL. rewrite length_app in *. simpl in EL. lia.
  - intros b Hb. assert (b ∈ (base, 0) :: l) as Hb' by set_solver. rewrite EL in Hb'. set_solver.
Qed.

Lemma nunits_bound nbytes : 0 <= nbytes < 2 ^ 31 - 16 -> 0 < nunits_of nbytes /\ 8 * nunits_of nbytes < 2 ^ 31 /\
  nbytes <= 8 * nunits_of nbytes - 8.
Proof. intros Hn. unfold nunits_of. rewrite u32_small by lia. Z.to_euclidean_division_equations. lia. Qed.

(** The outcome of a take in the heap [l1] that the new bytes are part of. *)
Lemma taken_allocated brk l brk' l1 l' m' q nbytes : 0 <= nbytes < 2 ^ 31 - 16 ->
  (forall x, free_at l1 x <-> free_at l x \/ brk <= x < brk') -> taken brk' l1 l' m' q (nunits_of nbytes) ->
  allocated brk l brk' l' m' (q + 8) nbytes.
Proof.
  intros Hn Hl1 [Hsz Hlow Hhigh Hsplit Hapart]. pose proof (nunits_bound nbytes Hn). unfold allocated.
  rewrite Z.add_simpl_r. split; [done|]. split; [done|]. split; [lia|]. intros x. rewrite <- Hl1, Hsplit. split; [done|].
  intros [? ?]. by apply (Hapart x).
Qed.

Definition malloc_post (brk : Z) (l : list (Z * Z)) (m : mem) (nbytes r : Z) (s' : S) : Prop :=
  exists m' f' s2 brk' l', s' = put heap_lens (MkHeap m' f') s2 /\ R brk' s' /\ heap_ok base brk' l' (MkHeap m' f') /\
    (forall x, ~ free_at l x -> ~ brk <= x < brk' -> ~ base <= x < base + 8 -> m' x = m x) /\
    (r = 0 /\ brk' = brk /\ l' = l /\ Forall (fun b => b.2 < nunits_of nbytes) l \/
     allocated brk l brk' l' m' r nbytes).

Lemma malloc_loop_run brk l m f nbytes k s : heap_ok base brk l (MkHeap m f) -> R brk (put heap_lens (MkHeap m f) s) ->
  0 <= nbytes < 2 ^ 31 - 16 -> (2 * length l + 3 <= k)%nat ->
  wp (malloc_loop k (nunits_of nbytes) f (hptr m f)) (malloc_post brk l m nbytes) (put heap_lens (MkHeap m f) s).
Proof.
  intros Hok HR Hn Hk. pose proof (nunits_bound nbytes Hn) as (Hnu & Hmax & _). set (nu := nunits_of nbytes) in *.
  destruct (ring_walk brk l m f Hok) as (sf & W & Hf & HcW & HW & Hlen & Hall).
  replace k with (k - length W - 1 + length W + 1)%nat by lia. set (k0 := (k - length W - 1)%nat).
  destruct (scan brk l m f sf nu k0 s W f (hptr m f) Hok Hnu Hf (ex_intro _ sf Hf) eq_refl HcW HW)
    as [(X & pv & t & q & sq & Y & EL & Hle & E)|(HWs & Hsf & E)]; unfold wp; rewrite E.
  - eapply wp_mono; [|by eapply (take_run brk l m f X pv t q sq Y nu s Hok EL)].
    intros r s' (l' & m' & q' & -> & -> & Hok' & Htk & Hout). exists m', pv, s, brk, l'. split; [done|].
    apply (sbrk_heap _ (MkHeap m' pv)) in HR. rewrite put_put in HR. split; [done|]. split; [done|].
    split; [by intros x Hx _; apply Hout|]. right. eapply (taken_allocated brk l brk l); [done|intros x; split; [by left|intros [?|?]; [done|lia]]|done].
  - unfold more. apply wp_bind. eapply wp_mono; [|by apply (morecore_run brk l m f nu (Datatypes.S k0) s Hok HR); lia].
    intros p s' (m1 & f1 & s2 & -> & [(-> & -> & -> & HR1)|(l1 & brk1 & Hp & -> & Eb & HR1 & Hok1 & Hfree & Hout1 & Hlen1 & Hex)]).
    + apply wp_ret. exists m, f, s2, brk, l. split; [done|]. split; [done|]. split; [done|]. split; [done|]. left.
      split; [done|]. split; [done|]. split; [done|]. apply Forall_forall. intros b Hb.
      destruct (Hall b Hb) as [HbW| ->]; [|done]. rewrite Forall_forall in HWs. by apply HWs.
    + destruct (Z.eqb_spec p 0); [done|]. unfold wp. rewrite bind_the_heap. cbn [hp_mem].
      destruct (ring_walk brk1 l1 m1 p Hok1) as (sf1 & W1 & Hf1 & HcW1 & HW1 & HlenW1 & Hall1).
      replace k0 with (k0 - length W1 - 1 + length W1 + 1)%nat by (unfold k0; lia).
      destruct (scan brk1 l1 m1 p sf1 nu (k0 - length W1 - 1) s2 W1 p (hptr m1 p) Hok1 Hnu Hf1 (ex_intro _ sf1 Hf1) eq_refl HcW1 HW1)
        as [(X & pv & t & q & sq & Y & EL & Hle & E1)|(HWs1 & Hsf1 & _)].
      * rewrite E1. eapply wp_mono; [|by eapply (take_run brk1 l1 m1 p X pv t q sq Y nu s2 Hok1 EL)].
        intros r s' (l' & m' & q' & -> & -> & Hok' & Htk & Hout). exists m', pv, s2, brk1, l'. split; [done|].
        apply (sbrk_heap _ (MkHeap m' pv)) in HR1. rewrite put_put in HR1. split; [done|]. split; [done|]. split.
        { intros x Hx1 Hx2 Hx3. rewrite Hout; [by apply Hout1| |done]. rewrite Hfree. tauto. }
        right. by eapply (taken_allocated brk l brk1 l1).
      * exfalso. apply Exists_exists in Hex as (b & Hb & Hbn). destruct (Hall1 b Hb) as [HbW| ->]; [|simpl in Hbn; lia].
        rewrite Forall_forall in HWs1. specialize (HWs1 _ HbW). simpl in HWs1. lia.
Qed.
End heap.


(** C22. free() ends, within one round of the ring, and gives back exactly the bytes of the block: the
    ring stays sorted and circular, neighbouring free blocks are joined, and no byte outside the
    free blocks is written. *)
Theorem free_gives_back {S} `{!Usys S} `{!HasHeap S} base brk l m f ap n k s :
  heap_ok base brk l (MkHeap m f) -> block_ok base brk l m (ap - 8) n -> (length l < k)%nat ->
  wp (free k ap) (fun _ s' => exists l' m' p, s' = put heap_lens (MkHeap m' p) s /\ heap_ok base brk l' (MkHeap m' p) /\
    (forall x, free_at l' x <-> free_at l x \/ ap - 8 <= x < ap - 8 + 8 * n) /\
    (forall x, ~ free_at l x -> ~ ap - 8 <= x < ap - 8 + 8 * n -> ~ base <= x < base + 8 -> m' x = m x))
    (put heap_lens (MkHeap m f) s).
Proof.
  intros Hok Hb Hk. eapply wp_mono; [|by apply (free_run base brk l m f ap n k s)].
  intros [] s' (l' & m' & p & -> & Hok' & Hfree & Hout & _). by exists l', m', p.
Qed.

(** *** Witness: a process with 64 KB to grow *)
Definition process : Type := heap * Z.
#[local] Instance process_heap : HasHeap process := {| heap_lens := fst_lens |}.
#[local] Instance process_sys : Usys process := io_kernel (fun _ _ => ret None) (fun _ _ => ret (-1))
  (fun n s => if s.2 + n <=? 65536 then Done s.2 (s.1, s.2 + n) else Done (-1) s).
#[local] Instance process_sbrk : Sbrk (fun brk (s : process) => s.2 = brk /\ brk <= 65536).
Proof.
  split; [|by intros brk h [h' b]]. intros brk n m f [h b] [Hb Hle] Hn. simpl in Hb. subst b. unfold wp. simpl.
  destruct (Z.leb_spec (brk + n) 65536).
  - exists m, (h, brk + n). split; [done|]. right. repeat split; try done; simpl; lia.
  - exists m, (h, brk). split; [done|]. left. done.
Qed.


(** A free block at 4096 and the one right after it, which is given back: they are joined. *)
Definition mem_two : mem := set_hptr 8 4096 (set_hsize 8 0 (set_hptr 4096 8 (set_hsize 4096 2 (set_hsize 4112 3 (fun _ => 0))))).
Lemma free_gives_back_witness :
  wp (S := process) (free 2 4120) (fun _ s' => hsize (hp_mem s'.1) 4096 = 5) (MkHeap mem_two 8, 16384) /\
  wp (S := process) (free 2 4120) (fun _ s' => exists l' m' p, s' = (MkHeap m' p, 16384) /\ heap_ok 8 16384 l' (MkHeap m' p) /\
    free_at l' 4130) (put heap_lens (MkHeap mem_two 8) (MkHeap mem_two 8, 16384)).
Proof.
  split; [by vm_compute|]. eapply wp_mono; [|apply (free_gives_back 8 16384 [(4096, 2)] mem_two 8 4120 3 2 (MkHeap mem_two 8, 16384))].
  - intros [] s' (l' & m' & p & -> & Hok & Hfree & _). exists l', m', p. split; [done|]. split; [done|]. apply Hfree. lia.
  - constructor; simpl; try done; try lia.
    + repeat constructor; lia.
    + exists 0. by left.
  - constructor; simpl; try done; try lia. repeat constructor; simpl; lia.
  - simpl. lia.
Defined.

(** [nbytes + 7] wraps: a request for 2^32 - 1 bytes gets a block of its header alone. *)
Example malloc_wraps : nunits_of (2 ^ 32 - 1) = 1.
Proof. reflexivity. Qed.
