(* ===== verification/Memtest.v ===== *)
(** * The memory test (memtest.c)

    memtest runs four tests of the page allocator through sbrk().  The memory of the process is
    byte memory, as in Umalloc.v; an array of page pointers is the list of its elements, each the
    value sbrk() returned.  Differences of times wrap as int does. *)
From S2P Require Import Prelude KString Pages Console User.

Class HasUmem (S : Type) := { umem_lens : lens S mem; umem_lens_laws :: LensLaws umem_lens }.

Definition NUM_ALLOCS : nat := 50.
Definition MAX_CONCURRENT : nat := 30.
Definition STRESS_ITERATIONS : Z := 100.

(** [for(i = 0; i < 4096; i += 4)] *)
Definition offsets : list Z := Z.mul 4 <$> seqZ 0 1024.
Definition fill (ptr pattern : Z) (m : mem) : mem :=
  fold_left (fun m i => st32 (ptr + i) (u32 pattern) m) offsets m.
Definition filled (ptr pattern : Z) (m : mem) : bool :=
  forallb (fun i => s32 (ld32 m (ptr + i)) =? pattern) offsets.

(** The counters of test_stress(). *)
Record stress := MkStress { st_pages : list Z; st_allocs : Z; st_frees : Z; st_failed : Z }.

Section memtest.
Context {S : Type} `{!Usys S} `{!HasUmem S}.

Definition umem : M S mem := Prelude.gets (view umem_lens).
Definition umem_upd (f : mem -> mem) : M S unit := modify (fun s => put umem_lens (f (view umem_lens s)) s).

Definition gettime : M S Z := u_uptime.
Definition write_pattern (ptr pattern : Z) : M S unit := umem_upd (fill ptr pattern).
Definition verify_pattern (ptr pattern : Z) : M S bool := let* m := umem in ret (filled ptr pattern m).

(** [printf(1, s "\n", ...)], and the frames around the texts. *)
Definition line (s : string) (args : list karg) : M S unit := printf 1 (s +:+ nl) args.
Definition rule : string := "========================================".
Definition wide_rule : string := "================================================".
Definition says (texts : list string) : M S unit := for_each texts (fun s => line s []).
Definition shrink : M S unit := let* _ := u_sbrk (-4096) in ret tt.

(** ** Test 1 *)
Fixpoint seq_alloc (k : nat) (pages : list Z) : M S (list Z) :=
  match k with
  | O => ret pages
  | Datatypes.S k' =>
      let i := Z.of_nat (length pages) in
      let* p := u_sbrk 4096 in
      if p =? -1 then line "[ERROR] Fallo asignacion en iteracion %d" [KNum i];;; ret pages else
      write_pattern p (i + 100);;;
      seq_alloc k' (pages ++ [p])
  end.
Fixpoint seq_verify (i : Z) (pages : list Z) (errors : Z) : M S Z :=
  match pages with
  | [] => ret errors
  | p :: pages' =>
      let* ok := verify_pattern p (i + 100) in
      if ok : bool then seq_verify (i + 1) pages' errors else
      line "[ERROR] Verificacion fallo en pagina %d" [KNum i];;;
      seq_verify (i + 1) pages' (errors + 1)
  end.
Definition test_sequential_alloc : M S unit :=
  says [""; rule; "PRUEBA 1: ASIGNACION SECUENCIAL"; rule];;;
  line "Asignando %d paginas secuencialmente..." [KNum (Z.of_nat NUM_ALLOCS)];;;
  let* start := gettime in
  let* pages := seq_alloc NUM_ALLOCS [] in
  let n := Z.of_nat (length pages) in
  let* stop := gettime in
  let alloc_time := s32 (stop - start) in
  line "Asignaciones exitosas: %d/%d" [KNum n; KNum (Z.of_nat NUM_ALLOCS)];;;
  line "Tiempo de asignacion: %d ticks" [KNum alloc_time];;;
  says [""; "Verificando integridad de memoria..."];;;
  let* errors := seq_verify 0 pages 0 in
  line "Errores de verificacion: %d" [KNum errors];;;
  says [""; "Liberando memoria..."];;;
  let* start := gettime in
  for_each pages (fun _ => shrink);;;
  let* stop := gettime in
  let free_time := s32 (stop - start) in
  let per_page t := if 0 <? n then Z.quot t n else 0 in
  line "Tiempo de liberacion: %d ticks" [KNum free_time];;;
  says [""; "RESUMEN PRUEBA 1:"];;;
  line "  Asignacion: %d ticks (%d ticks/pagina)" [KNum alloc_time; KNum (per_page alloc_time)];;;
  line "  Liberacion: %d ticks (%d ticks/pagina)" [KNum free_time; KNum (per_page free_time)];;;
  line "  Total: %d ticks" [KNum (s32 (alloc_time + free_time))];;;
  says [rule].

(** ** Test 2 *)

(** [for(i = 1; i < MAX_CONCURRENT; i += 2)] *)
Definition odds : list nat := (fun k => 2 * k + 1)%nat <$> seq 0 (MAX_CONCURRENT / 2).

Fixpoint alt_alloc (k : nat) (pages : list Z) (operations : Z) : M S (list Z * Z) :=
  match k with
  | O => ret (pages, operations)
  | Datatypes.S k' =>
      let i := Z.of_nat (length pages) in
      let* p := u_sbrk 4096 in
      if p =? -1 then alt_alloc k' (pages ++ [p]) operations else
      write_pattern p (i + 200);;;
      alt_alloc k' (pages ++ [p]) (operations + 1)
  end.
Fixpoint alt_free (ix : list nat) (pages : list Z) (freed : Z) : M S (list Z * Z) :=
  match ix with
  | [] => ret (pages, freed)
  | i :: ix =>
      if pages !!! i =? -1 then alt_free ix pages freed else
      shrink;;;
      alt_free ix (<[i := 0]> pages) (freed + 1)
  end.
Fixpoint alt_realloc (ix : list nat) (pages : list Z) (n : Z) : M S (list Z * Z) :=
  match ix with
  | [] => ret (pages, n)
  | i :: ix =>
      let* p := u_sbrk 4096 in
      if p =? -1 then alt_realloc ix (<[i := p]> pages) n else
      write_pattern p (Z.of_nat i + 300);;;
      alt_realloc ix (<[i := p]> pages) (n + 1)
  end.
Definition expected (i : nat) : Z := if Nat.even i then Z.of_nat i + 200 else Z.of_nat i + 300.
Fixpoint alt_verify (ix : list nat) (pages : list Z) (ok : Z) : M S Z :=
  match ix with
  | [] => ret ok
  | i :: ix =>
      if pages !!! i =? -1 then alt_verify ix pages ok else
      let* b := verify_pattern (pages !!! i) (expected i) in
      alt_verify ix pages (if b : bool then ok + 1 else ok)
  end.
(** Phases 1 to 4, with the numbers they report. *)
Definition alt_phases : M S (list Z * (Z * Z * Z * Z)) :=
  let* r1 := alt_alloc MAX_CONCURRENT [] 0 in
  line "Fase 1: %d bloques asignados" [KNum (snd r1)];;;
  let* r2 := alt_free odds (fst r1) 0 in
  line "Fase 2: %d bloques liberados (impares)" [KNum (snd r2)];;;
  let* r3 := alt_realloc odds (fst r2) 0 in
  line "Fase 3: %d bloques reasignados" [KNum (snd r3)];;;
  says [""; "Verificando integridad..."];;;
  let* ok := alt_verify (seq 0 MAX_CONCURRENT) (fst r3) 0 in
  line "Bloques verificados correctamente: %d" [KNum ok];;;
  ret (fst r3, (snd r1, snd r2, snd r3, ok)).
Definition test_alternating_pattern : M S unit :=
  says [""; rule; "PRUEBA 2: PATRON ALTERNADO"; rule; "Probando fragmentacion de memoria..."];;;
  let* start := gettime in
  let* r := alt_phases in
  let '(pages, (operations, _, reallocated, _)) := r in
  for_each pages (fun p => when (negb (p =? -1)) shrink);;;
  let* stop := gettime in
  says [""; "RESUMEN PRUEBA 2:"];;;
  line "  Tiempo total: %d ticks" [KNum (s32 (stop - start))];;;
  line "  Operaciones exitosas: asignar=%d, reasignar=%d" [KNum operations; KNum reallocated];;;
  says [rule].

(** ** Test 3 *)
Definition stress_alloc (i : Z) (x : stress) : M S stress :=
  let idx := Z.to_nat ((i * 13) mod Z.of_nat MAX_CONCURRENT) in
  let p := st_pages x !!! idx in
  if (p =? -1) || (p =? 0) then
    let* p := u_sbrk 4096 in
    if p =? -1 then ret (MkStress (<[idx := 0]> (st_pages x)) (st_allocs x) (st_frees x) (st_failed x + 1)) else
    write_pattern p i;;;
    ret (MkStress (<[idx := p]> (st_pages x)) (st_allocs x + 1) (st_frees x) (st_failed x))
  else ret x.
Definition stress_free (i : Z) (x : stress) : M S stress :=
  let idx := Z.to_nat ((i * 17) mod Z.of_nat MAX_CONCURRENT) in
  let p := st_pages x !!! idx in
  if negb (p =? -1) && negb (p =? 0) then
    shrink;;;
    ret (MkStress (<[idx := 0]> (st_pages x)) (st_allocs x) (st_frees x + 1) (st_failed x))
  else ret x.
Fixpoint stress_loop (ix : list Z) (x : stress) : M S stress :=
  match ix with
  | [] => ret x
  | i :: ix =>
      let op := (i * 7) mod 3 in
      let* x := (if (op =? 0) || (op =? 2) then stress_alloc i x else ret x) in
      let* x := (if (op =? 1) || (op =? 2) then stress_free i x else ret x) in
      when ((i mod 20 =? 0) && (0 <? i))
        (line "  Iteracion %d: asignadas=%d liberadas=%d" [KNum i; KNum (st_allocs x); KNum (st_frees x)]);;;
      stress_loop ix x
  end.
Definition stress_live (p : Z) : bool := negb (p =? -1) && negb (p =? 0).
Definition test_stress : M S unit :=
  says [""; rule; "PRUEBA 3: ESTRES DE MEMORIA"; rule];;;
  line "Realizando %d iteraciones de asignar/liberar..." [KNum STRESS_ITERATIONS];;;
  let* start := gettime in
  let* x := stress_loop (seqZ 0 STRESS_ITERATIONS) (MkStress (replicate MAX_CONCURRENT 0) 0 0 0) in
  let remaining := filter (fun p => stress_live p = true) (st_pages x) in
  for_each remaining (fun _ => shrink);;;
  let* stop := gettime in
  let time := s32 (stop - start) in
  says [""; "RESUMEN PRUEBA 3:"];;;
  line "  Tiempo total: %d ticks" [KNum time];;;
  line "  Tiempo promedio por iteracion: %d ticks" [KNum (Z.quot time STRESS_ITERATIONS)];;;
  line "  Asignaciones exitosas: %d" [KNum (st_allocs x)];;;
  line "  Asignaciones fallidas: %d" [KNum (st_failed x)];;;
  line "  Liberaciones: %d" [KNum (st_frees x)];;;
  line "  Bloques no liberados: %d" [KNum (Z.of_nat (length remaining))];;;
  says [rule].

(** ** Test 4 *)
Fixpoint child_alloc (k : nat) (id : Z) (pages : list Z) (allocs : Z) : M S (list Z * Z) :=
  match k with
  | O => ret (pages, allocs)
  | Datatypes.S k' =>
      let j := Z.of_nat (length pages) in
      let* p := u_sbrk 4096 in
      let* n := (if p =? -1 then ret allocs else write_pattern p (id * 100 + j);;; ret (allocs + 1)) in
      let* _ := u_sleep 1 in
      child_alloc k' id (pages ++ [p]) n
  end.
Fixpoint child_verify (j : Z) (id : Z) (pages : list Z) (n : Z) : M S Z :=
  match pages with
  | [] => ret n
  | p :: pages' =>
      let* ok := verify_pattern p (id * 100 + j) in
      child_verify (j + 1) id pages' (if ok : bool then n + 1 else n)
  end.
Definition child (id : Z) : M S unit :=
  line "[HIJO-%d] Iniciando..." [KNum id];;;
  let* r := child_alloc 15 id [] 0 in
  let allocs := snd r in
  line "[HIJO-%d] Asignaciones: %d/15" [KNum id; KNum allocs];;;
  let* verified := child_verify 0 id (take (Z.to_nat allocs) (fst r)) 0 in
  line "[HIJO-%d] Verificaciones OK: %d/%d" [KNum id; KNum verified; KNum allocs];;;
  for_each (seqZ 0 allocs) (fun _ => shrink);;;
  line "[HIJO-%d] Finalizado" [KNum id];;;
  u_exit.
Definition test_multiprocess : M S unit :=
  let num_children := 3%nat in
  says [""; rule; "PRUEBA 4: MULTIPLE PROCESOS"; rule];;;
  line "Creando %d procesos que asignan memoria simultaneamente..." [KNum (Z.of_nat num_children)];;;
  let* start := gettime in
  for_each (seqZ 0 (Z.of_nat num_children)) (fun i =>
    let* pid := u_fork in
    if pid <? 0 then line "[ERROR] Fork fallo" [];;; u_exit else
    when (pid =? 0) (child (i + 1)));;;
  for_each (seq 0 num_children) (fun _ => let* _ := u_wait in ret tt);;;
  let* stop := gettime in
  says [""; "RESUMEN PRUEBA 4:"];;;
  line "  Tiempo total: %d ticks" [KNum (s32 (stop - start))];;;
  says ["  Todos los procesos completados"; rule].

Definition pause : M S unit := let* _ := u_sleep 10 in ret tt.
Definition main : M S unit :=
  says [""; wide_rule; "    SUITE DE PRUEBAS DE MEMORIA - xv6"; wide_rule; "";
    "Esta suite compara el rendimiento de:"; "  - FREELIST (original): First Fit simple";
    "  - BST BEST FIT: Arbol binario con Best Fit"; ""; "Ejecutando 4 pruebas diferentes..."; wide_rule];;;
  let* start := gettime in
  test_sequential_alloc;;; pause;;;
  test_alternating_pattern;;; pause;;;
  test_stress;;; pause;;;
  test_multiprocess;;;
  let* stop := gettime in
  says [""; wide_rule; "    RESUMEN FINAL"; wide_rule];;;
  line "Tiempo total de todas las pruebas: %d ticks" [KNum (s32 (stop - start))];;;
  says [""; "INTERPRETACION:"; "------------------------------------------------"; "FREELIST (original):";
    "  + Mas rapido en asignaciones simples"; "  - Fragmentacion externa alta"; "  - Busqueda lineal O(n)"; "";
    "BST BEST FIT (modificado):"; "  + Reduce fragmentacion externa"; "  + Busqueda logaritmica O(log n)";
    "  + Mejor con cargas fragmentadas"; "  - Overhead de arbol"; wide_rule; ""];;;
  u_exit.
End memtest.

(** ** Specifications *)

(** The arguments that a format asks for are there. *)
Fixpoint args_ok (fmt : list Z) (args : list karg) (state : bool) : bool :=
  match fmt with
  | [] => true
  | c :: fmt =>
      if negb state then args_ok fmt args (c =? 37)
      else if c =? 100 then match args with KNum _ :: args => args_ok fmt args false | _ => false end
      else if (c =? 120) || (c =? 112) || (c =? 115) || (c =? 99) then false
      else args_ok fmt args false
  end.

(** Every word of a page. *)
Definition page_ok (m : mem) (p v : Z) : Prop := forall k, 0 <= k < 1024 -> ld32 m (p + 4 * k) = u32 v.

(** sbrk() as the kernel documents it, up to the limit [L]: the break moves by the argument, the old
    one is the result, and the memory below both breaks is kept; the other calls change neither. *)
Class Growth {S} `{!Usys S} `{!HasUmem S} (L : Z) (R : Z -> S -> Prop) : Prop := {
  gr_write : forall brk fd bs s, R brk s -> wp (u_write fd bs) (fun _ s' => R brk s' /\ view umem_lens s' = view umem_lens s) s;
  gr_grow : forall brk s, R brk s -> brk + 4096 <= L ->
    wp (u_sbrk 4096) (fun r s' => r = brk /\ R (brk + 4096) s' /\ forall x, x < brk -> view umem_lens s' x = view umem_lens s x) s;
  gr_shrink : forall brk s, R brk s ->
    wp (u_sbrk (-4096)) (fun _ s' => R (brk - 4096) s' /\ forall x, x < brk - 4096 -> view umem_lens s' x = view umem_lens s x) s;
  gr_store : forall brk m s, R brk s -> R brk (put umem_lens m s)
}.

(** ** Lemmas *)
Lemma u32_bound10 x : 0 <= u32 x < 10 ^ Z.of_nat 10.
Proof. pose proof (u32_range x). change (10 ^ Z.of_nat 10) with 10000000000. lia. Qed.

Lemma printf_quiet {S} `{!Usys S} (J : S -> Prop) fd fmt args state s :
  (forall fd bs s, J s -> wp (u_write fd bs) (fun _ => J) s) -> args_ok fmt args state = true -> J s ->
  wp (printf_loop fd fmt args state) (fun _ => J) s.
Proof.
  intros HJ. assert (forall c s, J s -> wp (putc fd c) (fun _ => J) s) as Hputc.
  { intros c s0 Hs. apply wp_bind. eapply wp_mono; [|by apply HJ]. intros n s' Hs'. by apply wp_ret. }
  revert args state s. induction fmt as [|c fmt IH]; intros args state s Hok Hs; [by apply wp_ret|].
  cbn [args_ok printf_loop] in *. destruct state; cbn [negb] in *.
  - destruct (c =? 100).
    + destruct args as [|[x|] args]; try done. apply wp_bind. unfold uprintint, int_buf.
      set (neg := true && (s32 x <? 0)). set (y := if neg then u32 (- s32 x) else u32 (s32 x)).
      destruct (int_digits_dec HEX_digits 10 y) as (ds & Eds & _ & Hl & _); [|subst y; destruct neg; apply u32_bound10|lia|].
      { intros v Hv. assert (v ∈ seqZ 0 10) as Hi by (apply elem_of_seqZ; lia).
        clear Hv. revert v Hi. apply (Forall_forall (fun v => HEX_digits !!! Z.to_nat v = 48 + v)). by repeat constructor. }
      rewrite (int_digits_more 10 6 HEX_digits 10 y ds Eds : int_digits 16 HEX_digits 10 y = Some ds). cbn [mbind option_bind].
      assert (forall l s0, J s0 -> wp (for_each l (putc fd)) (fun _ => J) s0) as Hl'
        by (intros l s0 H0; apply (wp_for_each _ _ (fun _ => J)); [intros z l' s'; apply Hputc|done|done]).
      assert (exists buf, (if neg then if (length ds <? 16)%nat then Some (ds ++ [45]) else None else Some ds) = Some buf) as [buf ->].
      { destruct neg; [|by eexists]. rewrite (proj2 (Nat.ltb_lt _ _)) by lia. by eexists. }
      eapply wp_mono; [|by apply Hl']. intros [] s' Hs'. by apply IH.
    + destruct (c =? 120), (c =? 112), (c =? 115), (c =? 99); cbn [orb] in *; try done.
      destruct (c =? 37); [|apply wp_bind; eapply wp_mono; [|by apply Hputc]; intros [] s1 Hs1];
        (apply wp_bind; eapply wp_mono; [|by apply Hputc]; intros [] s' Hs'; by apply IH).
  - destruct (c =? 37); [by apply IH|]. apply wp_bind. eapply wp_mono; [|by apply Hputc]. intros [] s' Hs'. by apply IH.
Qed.

Lemma fill_spec p v m : page_ok (fill p v m) p v /\ forall x, x < p -> fill p v m x = m x.
Proof.
  assert (forall n : nat, let m' := fold_left (fun m i => st32 (p + i) (u32 v) m) (Z.mul 4 <$> seqZ 0 (Z.of_nat n)) m in
    (forall k, 0 <= k < Z.of_nat n -> ld32 m' (p + 4 * k) = u32 v) /\ forall x, x < p -> m' x = m x) as H.
  { induction n as [|n IH]; [split; [lia|done]|]. rewrite seqZ_S, fmap_app, fold_left_app. cbn zeta in *. destruct IH as [IH1 IH2].
    cbn [fmap list_fmap fold_left]. split.
    - intros k Hk. destruct (decide (k = Z.of_nat n)) as [->|Hne].
      + rewrite Z.add_0_l. apply ld32_st32, u32_range.
      + rewrite ld32_st32_ne by lia. apply IH1. lia.
    - intros x Hx. rewrite st32_ne by lia. by apply IH2. }
  apply (H 1024%nat).
Qed.
Lemma page_ok_ext m m' p v : page_ok m p v -> (forall x, p <= x < p + 4096 -> m' x = m x) -> page_ok m' p v.
Proof. intros H Hx k Hk. rewrite <- (H k Hk). apply ld32_ext. intros x Hr. apply Hx. lia. Qed.
Lemma filled_page m p v w : page_ok m p v -> - 2 ^ 31 <= v < 2 ^ 31 -> filled p w m = (v =? w).
Proof.
  intros H Hv. assert (forall k, 0 <= k < 1024 -> s32 (ld32 m (p + 4 * k)) = v) as Hk.
  { intros k Hk. rewrite H by done. unfold s32. rewrite u32_idemp. by apply s32_small. }
  unfold filled. destruct (Z.eqb_spec v w) as [->|Hne].
  - apply forallb_forall. intros i Hi. apply list_elem_of_In, list_elem_of_fmap in Hi as (k & -> & Hi).
    apply elem_of_seqZ in Hi. apply Z.eqb_eq, Hk. lia.
  - apply not_true_iff_false. rewrite forallb_forall. intros Hall. apply Hne. rewrite <- (Hk 0) by lia.
    apply Z.eqb_eq. apply (Hall (4 * 0)). apply list_elem_of_In, list_elem_of_fmap. exists 0. split; [done|]. apply elem_of_seqZ. lia.
Qed.

(** *** The heap of the process as a stack of pages *)
Section stack.
Context {S : Type} `{!Usys S} `{!HasUmem S} (L : Z) (R : Z -> S -> Prop) `{!Growth L R} (b : Z).
Hypothesis (Hb : 0 < b).

(** Page [k] above the break [b] the test starts with. *)
Definition addr (k : nat) : Z := b + 4096 * Z.of_nat k.

Definition contents (c : list Z) (m : mem) : Prop := forall k v, c !! k = Some v -> page_ok m (addr k) v.
Definition stack (c : list Z) (s : S) : Prop := R (addr (length c)) s /\ contents c (view umem_lens s).
Definition grown (c : list Z) (s : S) : Prop := R (addr (Datatypes.S (length c))) s /\ contents c (view umem_lens s).

Lemma addr_neg k : (addr k =? -1) = false.
Proof using Hb. apply Z.eqb_neq. unfold addr. lia. Qed.

Lemma contents_ext c c' m m' : contents c m -> c' `prefix_of` c -> (forall x, x < addr (length c') -> m' x = m x) -> contents c' m'.
Proof.
  intros H Hp Hx k v Hk. eapply page_ok_ext; [by eapply H, prefix_lookup_Some|]. intros x Hr. apply Hx.
  apply lookup_lt_Some in Hk. unfold addr in *. lia.
Qed.

Lemma stack_quiet c fd bs s : stack c s -> wp (u_write fd bs) (fun _ => stack c) s.
Proof using Growth0.
  intros [HR Hc]. eapply wp_mono; [|by apply (gr_write (L := L))]. intros n s' [HR' E]. split; [done|]. by rewrite E.
Qed.
Lemma stack_line c t args s : args_ok (chars (t +:+ nl)) args false = true -> stack c s -> wp (line t args) (fun _ => stack c) s.
Proof using Growth0. intros Hok Hs. apply (printf_quiet (stack c)); [apply stack_quiet|done|done]. Qed.
Lemma stack_says c ts s : Forall (fun t => args_ok (chars (t +:+ nl)) [] false = true) ts -> stack c s -> wp (says ts) (fun _ => stack c) s.
Proof using Growth0.
  intros Hts Hs. apply (wp_for_each _ _ (fun l s' => Forall (fun t => args_ok (chars (t +:+ nl)) [] false = true) l /\ stack c s')); [|tauto|done].
  intros t l s' [Hl Hs']. apply Forall_cons in Hl as [Ht Hl]. eapply wp_mono; [|by apply stack_line]. done.
Qed.

(** A page more, and what is written to it; a page less. *)
Lemma stack_sbrk c s : stack c s -> addr (Datatypes.S (length c)) <= L ->
  wp (u_sbrk 4096) (fun r s' => r = addr (length c) /\ grown c s') s.
Proof using Growth0.
  intros [HR Hc] HL. assert (addr (Datatypes.S (length c)) = addr (length c) + 4096) as E by (unfold addr; lia). rewrite E in HL.
  eapply wp_mono; [|by apply (gr_grow (L := L))]. intros r s' (-> & HR' & Hx). split; [done|]. split; [by rewrite E|].
  by eapply contents_ext.
Qed.
Lemma stack_write c v s : grown c s -> wp (write_pattern (addr (length c)) v) (fun _ => stack (c ++ [v])) s.
Proof using Growth0.
  intros [HR Hc]. apply wp_modify. destruct (fill_spec (addr (length c)) v (view umem_lens s)) as [H1 H2]. split.
  - rewrite length_app, Nat.add_1_r. by apply (gr_store (L := L)).
  - rewrite view_put. intros k w Hk. apply lookup_snoc_Some in Hk as [[Hlt Hk]|[-> <-]]; [|done].
    eapply (contents_ext c c); [exact Hc|done| |exact Hk]. intros x Hx. by apply H2.
Qed.
Lemma stack_shrink c v s : stack (c ++ [v]) s -> wp shrink (fun _ => stack c) s.
Proof using Growth0.
  intros [HR Hc]. apply wp_bind. rewrite length_app, Nat.add_1_r in HR. eapply wp_mono; [|by apply (gr_shrink (L := L))].
  assert (addr (Datatypes.S (length c)) - 4096 = addr (length c)) as E by (unfold addr; lia). rewrite E.
  intros n s' [HR' Hx]. apply wp_ret. split; [done|]. eapply contents_ext; [exact Hc|by eexists|done].
Qed.
Lemma stack_verify c k v w s : stack c s -> c !! k = Some v -> - 2 ^ 31 <= v < 2 ^ 31 ->
  wp (verify_pattern (addr k) w) (fun r s' => r = (v =? w) /\ s' = s) s.
Proof. intros [_ Hc] Hk Hv. apply wp_bind, wp_gets, wp_ret. split; [|done]. apply filled_page; [by apply Hc|done]. Qed.

(** *** The phases of the second test *)
Lemma alt_alloc_run k j ops s : stack ((fun i => Z.of_nat i + 200) <$> seq 0 j) s -> addr (j + k) <= L ->
  wp (alt_alloc k (addr <$> seq 0 j) ops) (fun r s' => r = (addr <$> seq 0 (j + k), ops + Z.of_nat k) /\
    stack ((fun i => Z.of_nat i + 200) <$> seq 0 (j + k)) s') s.
Proof using Growth0 Hb.
  revert j ops s. induction k as [|k IH]; intros j ops s Hs HL.
  - apply wp_ret. by rewrite Nat.add_0_r, Z.add_0_r.
  - cbn [alt_alloc]. rewrite length_fmap, length_seq. apply wp_bind.
    pose proof (stack_sbrk _ s Hs) as Hg. rewrite length_fmap, length_seq in Hg. eapply wp_mono; [|apply Hg; unfold addr in *; lia].
    intros r s1 [-> Hs1]. rewrite addr_neg. apply wp_bind.
    pose proof (stack_write _ (Z.of_nat j + 200) s1 Hs1) as Hw. rewrite length_fmap, length_seq in Hw. eapply wp_mono; [|exact Hw].
    intros [] s2 Hs2. rewrite Nat.add_succ_r in HL |- *. replace (ops + Z.of_nat (Datatypes.S k)) with (ops + 1 + Z.of_nat k) by lia.
    rewrite <- Nat.add_succ_l. specialize (IH (Datatypes.S j) (ops + 1) s2). rewrite seq_S, !fmap_app in IH. by apply IH.
Qed.

Lemma alt_free_run ix c d pages n s : stack (c ++ d) s -> length d = length ix -> Forall (fun i => pages !!! i <> -1) ix ->
  wp (alt_free ix pages n) (fun r s' => r = (fold_left (fun ps i => <[i := 0]> ps) ix pages, n + Z.of_nat (length ix)) /\ stack c s') s.
Proof using Growth0.
  revert d pages n s. induction ix as [|i ix IH]; intros d pages n s Hs Hd Hp.
  - apply nil_length_inv in Hd as ->. rewrite app_nil_r in Hs. apply wp_ret. cbn [fold_left length]. by rewrite Z.add_0_r.
  - apply Forall_cons in Hp as [Hi Hp]. cbn [alt_free]. rewrite (proj2 (Z.eqb_neq _ _) Hi).
    destruct d as [|v d] using rev_ind; [done|]. clear IHd. rewrite length_app in Hd. cbn [length] in Hd.
    rewrite app_assoc in Hs. apply wp_bind. eapply wp_mono; [|by eapply stack_shrink]. intros [] s1 Hs1.
    eapply wp_mono; [|eapply (IH d); [exact Hs1|lia|]].
    + intros r s' [-> Hs']. split; [|done]. cbn [fold_left length]. f_equal. lia.
    + eapply Forall_impl; [exact Hp|]. intros j Hj. destruct (decide (j = i)) as [->|Hne].
      * destruct (decide (i < length pages)%nat); [by rewrite list_lookup_total_insert_eq|]. by rewrite list_insert_ge by lia.
      * by rewrite list_lookup_total_insert_ne.
Qed.

(** The pages that phase 3 gets, in order. *)
Fixpoint assign (n : nat) (ix : list nat) (pages : list Z) : list Z :=
  match ix with [] => pages | i :: ix => assign (Datatypes.S n) ix (<[i := addr n]> pages) end.

Lemma alt_realloc_run ix c pages n s : stack c s -> addr (length c + length ix) <= L ->
  wp (alt_realloc ix pages n) (fun r s' => r = (assign (length c) ix pages, n + Z.of_nat (length ix)) /\
    stack (c ++ ((fun i => Z.of_nat i + 300) <$> ix)) s') s.
Proof using Growth0 Hb.
  revert c pages n s. induction ix as [|i ix IH]; intros c pages n s Hs HL.
  - apply wp_ret. cbn. by rewrite app_nil_r, Z.add_0_r.
  - cbn [alt_realloc length] in *. apply wp_bind. eapply wp_mono; [|apply stack_sbrk; [exact Hs|unfold addr in *; lia]].
    intros r s1 [-> Hs1]. rewrite addr_neg. apply wp_bind. eapply wp_mono; [|by apply stack_write]. intros [] s2 Hs2.
    eapply wp_mono; [|apply (IH (c ++ [Z.of_nat i + 300])); [exact Hs2|rewrite length_app; cbn [length]; unfold addr in *; lia]].
    intros r s' [-> Hs']. rewrite length_app, Nat.add_1_r. split; [f_equal; lia|]. rewrite <- app_assoc in Hs'. exact Hs'.
Qed.

Lemma alt_verify_run ix c (P : list nat) n s : stack c s ->
  Forall (fun i => exists k v, P !! i = Some k /\ c !! k = Some v /\ - 2 ^ 31 <= v < 2 ^ 31) ix ->
  wp (alt_verify ix (addr <$> P) n) (fun r s' => r = n + Z.of_nat (length (filter (fun i => c !!! (P !!! i) = expected i) ix)) /\ s' = s) s.
Proof using Growth0 Hb.
  intros Hs. revert n. induction ix as [|i ix IH]; intros n Hix.
  - apply wp_ret. cbn. by rewrite Z.add_0_r.
  - apply Forall_cons in Hix as [(k & v & HP & Hk & Hv) Hix]. cbn [alt_verify].
    assert ((addr <$> P) !!! i = addr k) as ->. { apply list_lookup_total_correct. by rewrite list_lookup_fmap, HP. }
    rewrite addr_neg. apply wp_bind. eapply wp_mono; [|by apply (stack_verify c k v)]. intros r s1 [-> ->].
    eapply wp_mono; [|by apply IH]. intros r s2 [-> ->]. split; [|done]. rewrite filter_cons.
    rewrite (list_lookup_total_correct _ _ _ HP), (list_lookup_total_correct _ _ _ Hk).
    destruct (Z.eqb_spec v (expected i)); [rewrite decide_True by done; cbn [length]; lia|by rewrite decide_False].
Qed.
End stack.

(** The page each element of the array points to in the end, and what the 30 pages hold. *)
Definition final_pages : list nat :=
  (fun i => if Nat.even i then i else (MAX_CONCURRENT / 2 + i / 2)%nat) <$> seq 0 MAX_CONCURRENT.
Definition final_contents : list Z :=
  ((fun i => Z.of_nat i + 200) <$> seq 0 (MAX_CONCURRENT / 2)) ++ ((fun i => Z.of_nat i + 300) <$> odds).

Lemma final_pages_eq b :
  assign b 15 odds (fold_left (fun ps i => <[i := 0]> ps) odds (addr b <$> seq 0 MAX_CONCURRENT)) = addr b <$> final_pages.
Proof. reflexivity. Qed.
Lemma final_pages_ok : Forall (fun i => exists k v, final_pages !! i = Some k /\ final_contents !! k = Some v /\ - 2 ^ 31 <= v < 2 ^ 31) (seq 0 MAX_CONCURRENT).
Proof.
  apply Forall_forall. intros i Hi. apply elem_of_seq in Hi. unfold MAX_CONCURRENT in Hi.
  do 30 (destruct i as [|i]; [by do 2 eexists; repeat split|]). lia.
Qed.

(** ** Theorems *)

(** C21. memtest.c, the second test: on a kernel whose sbrk() moves the break as documented and has room for the 30 pages, the
    test itself breaks its pages.  "Freeing the odd blocks" with sbrk(-4096) gives back the 15 highest pages instead, the
    blocks allocated next are those pages again, and the even blocks among them are overwritten: the test counts 23 intact
    blocks out of 30 although the kernel preserved every byte. *)
Theorem alternating_overlaps {S} `{!Usys S} `{!HasUmem S} L (R : Z -> S -> Prop) `{!Growth L R} b s :
  0 < b -> b + 30 * 4096 <= L -> R b s ->
  wp alt_phases (fun r s' => snd r = (30, 15, 15, 23) /\ R (b + 30 * 4096) s') s.
Proof.
  intros Hb HL Hs. assert (stack R b [] s) as H0 by (split; [unfold addr; cbn; by rewrite Z.add_0_r|by intros k v Hk]).
  unfold alt_phases. apply wp_bind. eapply wp_mono; [|apply (alt_alloc_run L R b Hb MAX_CONCURRENT 0 0 s H0); unfold addr, MAX_CONCURRENT; lia].
  intros r1 s1 [-> H1]. cbn [fst snd]. apply wp_bind. eapply wp_mono; [|by eapply (stack_line L R b)]. intros [] s2 H2.
  apply wp_bind. eapply wp_mono; [|eapply (alt_free_run L R b odds ((fun i => Z.of_nat i + 200) <$> seq 0 15) ((fun i => Z.of_nat i + 200) <$> seq 15 15)); [exact H2|done|]].
  2:{ apply Forall_forall. intros i Hi. apply list_elem_of_fmap in Hi as (k & -> & Hk). apply elem_of_seq in Hk. change (MAX_CONCURRENT / 2)%nat with 15%nat in Hk.
      assert ((addr b <$> seq 0 (0 + MAX_CONCURRENT)) !!! (2 * k + 1)%nat = addr b (2 * k + 1)) as ->
        by (apply list_lookup_total_correct; rewrite list_lookup_fmap, lookup_seq_lt by (unfold MAX_CONCURRENT; lia); done).
      pose proof (addr_neg b Hb (2 * k + 1)) as Hn. by apply Z.eqb_neq in Hn. }
  intros r2 s3 [-> H3]. cbn [fst snd]. apply wp_bind. eapply wp_mono; [|by eapply (stack_line L R b)]. intros [] s4 H4.
  apply wp_bind. eapply wp_mono; [|eapply (alt_realloc_run L R b Hb odds _ _ 0); [exact H4|rewrite length_fmap, length_seq; change (length odds) with 15%nat; unfold addr; lia]].
  intros r3 s5 [-> H5]. cbn [fst snd]. apply wp_bind. eapply wp_mono; [|by eapply (stack_line L R b)]. intros [] s6 H6.
  apply wp_bind. eapply wp_mono; [|eapply (stack_says L R b); [by repeat constructor|exact H6]]. intros [] s7 H7.
  pose proof (final_pages_eq b) as Ep. cbn [length fmap] in Ep. rewrite length_fmap, length_seq. cbn [plus] in *. rewrite Ep.
  apply wp_bind. eapply wp_mono; [|apply (alt_verify_run L R b Hb _ _ final_pages 0 s7 H7), final_pages_ok]. intros r8 s8 [-> ->].
  apply wp_bind. eapply wp_mono; [|by eapply (stack_line L R b)]. intros [] s9 H9. apply wp_ret. cbn [fst snd]. split; [reflexivity|].
  destruct H9 as [HR _]. exact HR.
Qed.

(** *** Witness: a process with its break at 16384 and 1 MB to grow *)
Definition mprocess : Type := mem * Z.
#[local] Instance mprocess_umem : HasUmem mprocess := {| umem_lens := fst_lens |}.
#[local] Instance mprocess_sys : Usys mprocess := io_kernel (fun _ _ => ret None) (fun _ bs => ret (Z.of_nat (length bs)))
  (fun n s => if s.2 + n <=? 2 ^ 20 then Done s.2 (s.1, s.2 + n) else Done (-1) s).
#[local] Instance mprocess_growth : Growth (S := mprocess) (2 ^ 20) (fun brk s => s.2 = brk /\ brk <= 2 ^ 20).
Proof.
  split.
  - by intros brk fd bs s Hs.
  - intros brk [m b] [Hb Hle] HL. simpl in Hb. subst b. unfold wp. simpl. rewrite (proj2 (Z.leb_le _ _)) by lia. done.
  - intros brk [m b] [Hb Hle]. simpl in Hb. subst b. unfold wp, shrink. simpl.
    rewrite (proj2 (Z.leb_le _ _)) by lia. split; [split; [done|lia]|done].
  - by intros brk m' [m b] Hs.
Qed.

Lemma alternating_overlaps_witness :
  wp (S := mprocess) alt_phases (fun r _ => snd r = (30, 15, 15, 23)) (fun _ => 0, 16384).
Proof.
  eapply wp_mono; [|apply (alternating_overlaps (S := mprocess) (2 ^ 20) (fun brk s => s.2 = brk /\ brk <= 2 ^ 20) 16384 (fun _ => 0, 16384))].
  - intros r s' [Hr _]. exact Hr.
  - lia.
  - lia.
  - split; [reflexivity|]. simpl. lia.
Defined.
