(* ===== verification/Tests.v ===== *)
(** * The process tests (forktest.c, stressfs.c, schedtest.c)

    forktest fills the process table and collects every child; stressfs writes and reads files from
    five processes at once; schedtest starts processes that compute, sleep, or do both, and
    measures them in ticks. *)
From S2P Require Import Prelude Pages Sysfile Console User.

Section tests.
Context {S : Type} `{!Usys S}.

(** ** forktest.c *)
Definition N : nat := 1000.

(** Its own printf(): the string, without a format. *)
Definition print (fd : Z) (s : string) : M S unit :=
  let* _ := u_write fd (chars s) in ret tt.

(** How many times fork() worked, out of [k] more. *)
Fixpoint fork_loop (k : nat) (n : Z) : M S Z :=
  match k with
  | O => ret n
  | Datatypes.S k' =>
      let* pid := u_fork in
      if pid <? 0 then ret n else
      if pid =? 0 then u_exit else
      fork_loop k' (n + 1)
  end.
Fixpoint wait_loop (k : nat) : M S unit :=
  match k with
  | O => ret tt
  | Datatypes.S k' =>
      let* r := u_wait in
      if r <? 0 then print 1 ("wait stopped early" +:+ nl);;; u_exit else
      wait_loop k'
  end.
Definition forktest : M S unit :=
  print 1 ("fork test" +:+ nl);;;
  let* n := fork_loop N 0 in
  if n =? Z.of_nat N then print 1 ("fork claimed to work N times!" +:+ nl);;; u_exit else
  wait_loop (Z.to_nat n);;;
  let* r := u_wait in
  if negb (r =? -1) then print 1 ("wait got too many" +:+ nl);;; u_exit else
  print 1 ("fork test OK" +:+ nl).
Definition forktest_main : M S unit := forktest;;; u_exit.

(** ** stressfs.c *)

(** [for(i = 0; i < 4; i++) if(fork() > 0) break;]: the value of [i]. *)
Fixpoint stress_fork (k : nat) (i : Z) : M S Z :=
  match k with
  | O => ret i
  | Datatypes.S k' =>
      let* pid := u_fork in
      if 0 <? pid then ret i else stress_fork k' (i + 1)
  end.
Definition stress_path (i : Z) : list Z :=
  let path := chars "stressfs0" in <[8%nat := path !!! 8%nat + i]> path.
Definition stressfs_main : M S unit :=
  printf 1 ("stressfs starting" +:+ nl) [];;;
  let data := replicate 512 97 in
  let* i := stress_fork 4 0 in
  printf 1 ("write %d" +:+ nl) [KNum i];;;
  let* fd := u_open (stress_path i) (Z.lor O_CREATE O_RDWR) in
  for_each (seq 0 20) (fun _ => let* _ := u_write fd data in ret tt);;;
  let* _ := u_close fd in
  printf 1 ("read" +:+ nl) [];;;
  let* fd := u_open (stress_path i) O_RDONLY in
  for_each (seq 0 20) (fun _ => let* _ := u_read fd 512 in ret tt);;;
  let* _ := u_close fd in
  let* _ := u_wait in
  u_exit.

(** ** schedtest.c *)
Definition CPU_ITERATIONS : Z := 100000000.
Definition IO_ITERATIONS : Z := 50.
Definition MIXED_CPU_ITER : Z := 10000000.
Definition MIXED_IO_ITER : Z := 10.

Definition gettime : M S Z := u_uptime.

(** Computes on a local variable, for time only. *)
Definition cpu_round (result : Z) : Z := fold_left (fun r j => s32 (r * j)) (seqZ 1 9) result.
Definition cpu_work (iterations : Z) : M S unit :=
  let result := Z.iter iterations (fun r => let _ := cpu_round r in 1) 1 in
  ret tt.

(** The frame of the three kinds of process. *)
Definition timed (kind : string) (id : Z) (body : M S unit) : M S unit :=
  let* start := gettime in
  printf 1 ("[" +:+ kind +:+ "-%d] Iniciado en tick %d" +:+ nl) [KNum id; KNum start];;;
  body;;;
  let* stop := gettime in
  printf 1 ("[" +:+ kind +:+ "-%d] Finalizado en tick %d (duración: %d ticks)" +:+ nl)
    [KNum id; KNum stop; KNum (s32 (stop - start))].
Definition nap : M S unit := let* _ := u_sleep 1 in ret tt.
Definition cpu_bound_process (id : Z) : M S unit := timed "CPU" id (cpu_work CPU_ITERATIONS).
Definition io_bound_process (id : Z) : M S unit :=
  timed "I/O" id (for_each (seqZ 0 IO_ITERATIONS) (fun _ => nap;;; cpu_work 100000)).
Definition mixed_process (id : Z) : M S unit :=
  timed "MIX" id (for_each (seqZ 0 MIXED_IO_ITER) (fun _ => cpu_work MIXED_CPU_ITER;;; nap)).

(** [n] children that run [body]. *)
Definition spawn (n : Z) (body : Z -> M S unit) : M S unit :=
  for_each (seqZ 0 n) (fun i =>
    let* pid := u_fork in
    if pid <? 0 then printf 1 ("Error: fork fallo" +:+ nl) [];;; u_exit else
    when (pid =? 0) (body (i + 1);;; u_exit)).

Definition texts (l : list string) : M S unit := for_each l (fun s => printf 1 (s +:+ nl) []).
Definition frame : string := "========================================".
Definition schedtest_main : M S unit :=
  texts [""; frame; "PRUEBA DE SCHEDULER - xv6"; frame; "Esta prueba crea multiples procesos:";
    "- 2 procesos CPU-bound (intensivos)"; "- 3 procesos I/O-bound (interactivos)"; "- 2 procesos mixtos"; "";
    "EXPECTATIVAS:"; "Round-Robin: Todos completan ~mismo tiempo"; "MLFQ: I/O-bound completan MUCHO mas rapido"; frame; ""];;;
  let* start := gettime in
  printf 1 ("Iniciando prueba en tick %d" +:+ nl +:+ nl) [KNum start];;;
  spawn 2 cpu_bound_process;;;
  spawn 3 io_bound_process;;;
  spawn 2 mixed_process;;;
  texts [""; "Esperando a que todos los procesos terminen..."; ""];;;
  for_each (seqZ 0 7) (fun _ => let* _ := u_wait in ret tt);;;
  let* stop := gettime in
  texts [""; frame; "RESULTADOS DE LA PRUEBA"; frame];;;
  printf 1 ("Tiempo total de prueba: %d ticks" +:+ nl) [KNum (s32 (stop - start))];;;
  texts [""; "INTERPRETACION:"; "----------------------------------------"; "Round-Robin:";
    "  - Todos los procesos tardan similar"; "  - I/O-bound sufren latencia alta"; "  - Tiempo total: MAYOR"; "";
    "MLFQ (2 colas):"; "  - I/O-bound completan RAPIDO"; "  - CPU-bound completan despues"; "  - Tiempo total: MENOR";
    "  - Mejor respuesta interactiva"; frame; ""];;;
  u_exit.
End tests.

(** ** Specifications *)

(** A kernel with room for [max] children of this process: [R n out] says that [n] are there, and what
    has been written.  fork() fails when there is no room, wait() when there is no child. *)
Class Children {S} `{!Usys S} (max : Z) (R : Z -> list Z -> S -> Prop) : Prop := {
  ch_fork : forall n out s, R n out s ->
    wp u_fork (fun pid s' => if n <? max then 0 < pid /\ R (n + 1) out s' else pid = -1 /\ R n out s') s;
  ch_wait : forall n out s, R n out s ->
    wp u_wait (fun pid s' => if 0 <? n then 0 < pid /\ R (n - 1) out s' else pid = -1 /\ R n out s') s;
  ch_write : forall n out bs s, R n out s -> wp (u_write 1 bs) (fun _ s' => R n (out ++ bs) s') s
}.

(** ** Lemmas *)
Section children.
Context {S : Type} `{!Usys S} (max : Z) (R : Z -> list Z -> S -> Prop) `{!Children max R}.

Lemma print_run n out t s : R n out s -> wp (print 1 t) (fun _ => R n (out ++ chars t)) s.
Proof using Children0. intros Hs. apply wp_bind. eapply wp_mono; [|by apply (ch_write (max := max))]. intros r s' Hs'. by apply wp_ret. Qed.

Lemma fork_loop_run k n out s : R n out s -> 0 <= n <= max -> max < n + Z.of_nat k ->
  wp (fork_loop k n) (fun r s' => r = max /\ R max out s') s.
Proof using Children0.
  revert n s. induction k as [|k IH]; intros n s Hs Hn Hk; [lia|]. cbn [fork_loop]. apply wp_bind.
  eapply wp_mono; [|by apply (ch_fork (max := max))]. intros pid s' H. cbv beta in H. destruct (Z.ltb_spec n max).
  - destruct H as [Hp Hs']. rewrite (proj2 (Z.ltb_ge _ _)), (proj2 (Z.eqb_neq _ _)) by lia. apply IH; [done|lia|lia].
  - destruct H as [-> Hs']. apply wp_ret. by assert (n = max) as -> by lia.
Qed.

Lemma wait_loop_run k out s : R (Z.of_nat k) out s -> wp (wait_loop k) (fun _ => R 0 out) s.
Proof using Children0.
  revert s. induction k as [|k IH]; intros s Hs; [by apply wp_ret|]. cbn [wait_loop]. apply wp_bind.
  eapply wp_mono; [|by apply (ch_wait (max := max))]. intros pid s' H. cbv beta in H. rewrite (proj2 (Z.ltb_lt _ _)) in H by lia.
  destruct H as [Hp Hs']. rewrite (proj2 (Z.ltb_ge _ _)) by lia. apply IH. by replace (Z.of_nat (Datatypes.S k) - 1) with (Z.of_nat k) in Hs' by lia.
Qed.
End children.

(** ** Theorems *)

(** forktest.c: on a kernel that lets a process have fewer than 1000 children, refuses the next fork() and the
    wait() that has no child to wait for, forktest ends with all its children collected and reports success. *)
Theorem forktest_passes {S} `{!Usys S} max (R : Z -> list Z -> S -> Prop) `{!Children max R} out s :
  0 <= max < 1000 -> R 0 out s ->
  wp forktest (fun _ => R 0 (out ++ chars ("fork test" +:+ nl) ++ chars ("fork test OK" +:+ nl))) s.
Proof.
  intros Hmax Hs. unfold forktest. apply wp_bind. eapply wp_mono; [|by apply (print_run max)]. intros [] s1 H1.
  apply wp_bind. eapply wp_mono; [|apply (fork_loop_run max R N 0 _ s1 H1); unfold N; lia]. intros r s2 [-> H2].
  rewrite (proj2 (Z.eqb_neq _ _)) by (unfold N; lia). apply wp_bind. rewrite <- (Z2Nat.id max) in H2 by lia.
  eapply wp_mono; [|by apply (wait_loop_run max R)]. intros [] s3 H3. apply wp_bind. eapply wp_mono; [|by apply (ch_wait (max := max))].
  intros r s4 [-> H4]. cbn [Z.eqb negb]. eapply wp_mono; [|by apply (print_run max)]. intros [] s5 H5. by rewrite <- app_assoc in H5.
Qed.

(** *** Witness: a kernel with 61 free slots *)
Definition children_state : Type := Z * list Z.
#[local] Instance children_sys : Usys children_state := {|
  u_fork := fun s => if s.1 <? 61 then Done (s.1 + 3) (s.1 + 1, s.2) else Done (-1) s;
  u_exit _ := undef;
  u_wait := fun s => if 0 <? s.1 then Done (s.1 + 2) (s.1 - 1, s.2) else Done (-1) s;
  u_pipe := ret None;
  u_write _ bs := fun s => Done (Z.of_nat (length bs)) (s.1, s.2 ++ bs);
  u_read _ _ := ret None; u_close _ := ret 0; u_kill _ := ret (-1); u_exec _ _ := ret (-1); u_open _ _ := ret (-1);
  u_mknod _ _ _ := ret (-1); u_unlink _ := ret (-1); u_fstat _ := ret None; u_link _ _ := ret (-1);
  u_mkdir _ := ret (-1); u_chdir _ := ret (-1); u_dup _ := ret (-1); u_sbrk _ := ret (-1); u_sleep _ := ret 0; u_uptime := ret 0
|}.
#[local] Instance children_ok : Children (S := children_state) 61 (fun n out s => 0 <= n /\ s = (n, out)).
Proof.
  split.
  - intros n out s [Hn ->]. unfold wp. simpl. destruct (n <? 61); simpl; repeat split; lia.
  - intros n out s [Hn ->]. unfold wp. simpl. destruct (Z.ltb_spec 0 n); simpl; repeat split; lia.
  - intros n out bs s [Hn ->]. done.
Qed.
Lemma forktest_passes_witness :
  wp (S := children_state) forktest (fun _ s => s = (0, chars ("fork test" +:+ nl) ++ chars ("fork test OK" +:+ nl))) (0, []).
Proof.
  eapply wp_mono; [|apply (forktest_passes (S := children_state) 61 (fun n out s => 0 <= n /\ s = (n, out)) [] (0, []))].
  - intros [] s' [_ H]. exact H.
  - lia.
  - split; [lia|reflexivity].
Defined.
