(* ===== verification/Shell.v ===== *)
(** * The shell (sh.c)

    Pointers into the line are offsets in its array of bytes [buf], whose last byte is the NUL; [es]
    is the offset of that byte.  The parser runs on the offset [*ps] as its state; panic() in it is
    the outcome [Panic], which [parsecmd] turns into the message and exit().  malloc() of the
    nodes of the tree is assumed to succeed. *)
From S2P Require Import Prelude KString Pages Fs Sysfile Console User.

Definition MAXARGS : nat := 10.

(** The nodes of the tree; in the parser a string is a pair of pointers, to its first byte and after
    its last. *)
Inductive cmd_of (P : Type) :=
| EXEC (argv : list P)
| REDIR (sub : cmd_of P) (file : P) (mode fd : Z)
| PIPE (left right : cmd_of P)
| LIST (left right : cmd_of P)
| BACK (sub : cmd_of P).
Arguments EXEC {P} _.
Arguments REDIR {P} _ _ _ _.
Arguments PIPE {P} _ _.
Arguments LIST {P} _ _.
Arguments BACK {P} _.
Definition cmd : Type := cmd_of (nat * nat).

(** " \t\r\n\v" and "<|>&;()". *)
Definition whitespace : list Z := [32; 9; 13; 10; 11].
Definition symbols : list Z := [60; 124; 62; 38; 59; 40; 41].

Section parser.
Context (buf : list Z).

Definition es : nat := length buf - 1.
Definition ch (i : nat) : Z := nth i buf 0.

(** The [while] loops over white space and over a word, from [i]; at most [es - i] rounds. *)
Fixpoint skip_while (p : Z -> bool) (k i : nat) : nat :=
  match k with
  | O => i
  | S k' => if p (ch i) then skip_while p k' (i + 1) else i
  end.
Definition skip (i : nat) : nat := skip_while (in_str whitespace) (es - i) i.
Definition in_word (c : Z) : bool := negb (in_str whitespace c) && negb (in_str symbols c).
Definition skip_word (i : nat) : nat := skip_while in_word (es - i) i.

(** gettoken(): the token, [q] and [eq]. *)
Definition token_at (s : nat) : Z * nat :=
  let c := ch s in
  if c =? 0 then (0, s)
  else if in_str [124; 40; 41; 59; 38; 60] c then (c, (s + 1)%nat)
  else if c =? 62 then if ch (s + 1) =? 62 then (43, (s + 2)%nat) else (62, (s + 1)%nat)
  else (97, skip_word s).
Definition gettoken : M nat (Z * nat * nat) := fun s =>
  let q := skip s in
  let '(tok, eq) := token_at q in
  Done (tok, q, eq) (skip eq).

Definition peek (toks : list Z) : M nat bool := fun s =>
  let s := skip s in
  Done (negb (ch s =? 0) && in_str toks (ch s)) s.

Fixpoint parseredirs (k : nat) (c : cmd) : M nat cmd :=
  match k with
  | O => nofuel
  | S k' =>
      let* r := peek [60; 62] in
      if negb r then ret c else
      let* t := gettoken in
      let '(tok, _, _) := t in
      let* t := gettoken in
      let '(tok', q, eq) := t in
      if negb (tok' =? 97) then panic "missing file for redirection" else
      parseredirs k'
        (if tok =? 60 then REDIR c (q, eq) O_RDONLY 0
         else if tok =? 62 then REDIR c (q, eq) (Z.lor O_WRONLY O_CREATE) 1
         else if tok =? 43 then REDIR c (q, eq) (Z.lor O_WRONLY O_CREATE) 1
         else c)
  end.

(** [cmd->argv[argc] = q; cmd->eargv[argc] = eq]: [cmd] is the [EXEC] node inside the redirections. *)
Fixpoint add_arg (q eq : nat) (c : cmd) : cmd :=
  match c with
  | EXEC argv => EXEC (argv ++ [(q, eq)])
  | REDIR sub file mode fd => REDIR (add_arg q eq sub) file mode fd
  | c => c
  end.

(** The loop of parseexec(). *)
Fixpoint parseargs (k : nat) (argc : nat) (c : cmd) : M nat cmd :=
  match k with
  | O => nofuel
  | S k' =>
      let* r := peek [124; 41; 38; 59] in
      if r then ret c else
      let* t := gettoken in
      let '(tok, q, eq) := t in
      if tok =? 0 then ret c else
      if negb (tok =? 97) then panic "syntax" else
      let c := add_arg q eq c in
      let argc := S argc in
      if (MAXARGS <=? argc)%nat then panic "too many args" else
      let* c := parseredirs k' c in
      parseargs k' argc c
  end.

(** The loop of parseline() over '&'. *)
Fixpoint parseback (k : nat) (c : cmd) : M nat cmd :=
  match k with
  | O => nofuel
  | S k' =>
      let* r := peek [38] in
      if r then let* _ := gettoken in parseback k' (BACK c) else ret c
  end.

Fixpoint parseline (k : nat) : M nat cmd :=
  match k with
  | O => nofuel
  | S k' =>
      let* c := parsepipe k' in
      let* c := parseback k' c in
      let* r := peek [59] in
      if r then
        let* _ := gettoken in
        let* c' := parseline k' in
        ret (LIST c c')
      else ret c
  end
with parsepipe (k : nat) : M nat cmd :=
  match k with
  | O => nofuel
  | S k' =>
      let* c := parseexec k' in
      let* r := peek [124] in
      if r then
        let* _ := gettoken in
        let* c' := parsepipe k' in
        ret (PIPE c c')
      else ret c
  end
with parseexec (k : nat) : M nat cmd :=
  match k with
  | O => nofuel
  | S k' =>
      let* r := peek [40] in
      if r then parseblock k' else
      let* c := parseredirs k' (EXEC []) in
      parseargs k' 0 c
  end
with parseblock (k : nat) : M nat cmd :=
  match k with
  | O => nofuel
  | S k' =>
      let* r := peek [40] in
      if negb r then panic "parseblock" else
      let* _ := gettoken in
      let* c := parseline k' in
      let* r := peek [41] in
      if negb r then panic "syntax - missing )" else
      let* _ := gettoken in
      parseredirs k' c
  end.
End parser.

(** nulterminate(): the line with a NUL after each string of the tree. *)
Fixpoint nulterminate (c : cmd) (buf : list Z) : list Z :=
  match c with
  | EXEC argv => fold_left (fun buf a => <[snd a := 0]> buf) argv buf
  | REDIR sub file _ _ => <[snd file := 0]> (nulterminate sub buf)
  | PIPE l r | LIST l r => nulterminate r (nulterminate l buf)
  | BACK sub => nulterminate sub buf
  end.

(** The string at a pointer. *)
Definition str_at (buf : list Z) (p : nat * nat) : list Z := Console.cstr (drop (fst p) buf).

Section shell.
Context {S : Type} `{!Usys S}.

Definition sh_panic {A} (msg : string) : M S A := printf 2 ("%s" +:+ nl) [KStr (chars msg)];;; u_exit.
Definition fork1 : M S Z :=
  let* pid := u_fork in
  if pid =? -1 then sh_panic "fork" else ret pid.

(** parsecmd(): the tree, and the line it points into. *)
Definition parsecmd (k : nat) (buf : list Z) : M S (cmd * list Z) :=
  match parseline buf k 0%nat with
  | Done c s =>
      let s := skip buf s in
      if (s =? es buf)%nat then ret (c, nulterminate c buf)
      else printf 2 ("leftovers: %s" +:+ nl) [KStr (str_at buf (s, s))];;; sh_panic "syntax"
  | Panic msg => sh_panic msg
  | NoFuel => nofuel
  | _ => undef
  end.

(** One end of a pipe becomes descriptor [fd] of the child. *)
Definition pipe_end (fd from : Z) (p : Z * Z) : M S unit :=
  let* _ := u_close fd in
  let* _ := u_dup from in
  let* _ := u_close (fst p) in
  let* _ := u_close (snd p) in
  ret tt.

(** runcmd(); exit() ends every branch. *)
Fixpoint runcmd (buf : list Z) (c : cmd) : M S unit :=
  match c with
  | EXEC [] => u_exit
  | EXEC (a :: _ as argv) =>
      let* _ := u_exec (str_at buf a) (map (str_at buf) argv) in
      printf 2 ("exec %s failed" +:+ nl) [KStr (str_at buf a)];;;
      u_exit
  | REDIR sub file mode fd =>
      let* _ := u_close fd in
      let* r := u_open (str_at buf file) mode in
      if r <? 0 then printf 2 ("open %s failed" +:+ nl) [KStr (str_at buf file)];;; u_exit else
      runcmd buf sub;;;
      u_exit
  | LIST l r =>
      let* pid := fork1 in
      (if pid =? 0 then runcmd buf l else ret tt);;;
      let* _ := u_wait in
      runcmd buf r;;;
      u_exit
  | PIPE l r =>
      let* p := u_pipe in
      match p with
      | None => sh_panic "pipe"
      | Some p =>
          let* pid := fork1 in
          (if pid =? 0 then pipe_end 1 (snd p) p;;; runcmd buf l else ret tt);;;
          let* pid := fork1 in
          (if pid =? 0 then pipe_end 0 (fst p) p;;; runcmd buf r else ret tt);;;
          let* _ := u_close (fst p) in
          let* _ := u_close (snd p) in
          let* _ := u_wait in
          let* _ := u_wait in
          u_exit
      end
  | BACK sub =>
      let* pid := fork1 in
      (if pid =? 0 then runcmd buf sub else ret tt);;;
      u_exit
  end.

(** getcmd(): the line, or [None] at the end of the input. *)
Definition getcmd (nbuf : Z) : M S (option (list Z)) :=
  printf 2 "$ " [];;;
  let* line := gets nbuf in
  let line := Console.cstr line in
  ret (if bool_decide (line = []) then None else Some line).

Fixpoint open_console (k : nat) : M S unit :=
  match k with
  | O => nofuel
  | Datatypes.S k' =>
      let* fd := u_open console_name O_RDWR in
      if fd <? 0 then ret tt
      else if 3 <=? fd then let* _ := u_close fd in ret tt
      else open_console k'
  end.

(** One round of the loop of main(), on the line [line] (without its NUL). *)
Definition sh_line (line : list Z) : M S unit :=
  match line with
  | 99 :: 100 :: 32 :: rest =>
      let dir := Console.cstr (removelast rest) in
      let* r := u_chdir dir in
      when (r <? 0) (printf 2 ("cannot cd %s" +:+ nl) [KStr dir])
  | _ =>
      let* pid := fork1 in
      (if pid =? 0 then
         let* r := parsecmd (4 * length line + 8) (line ++ [0]) in
         runcmd (snd r) (fst r)
       else ret tt);;;
      let* _ := u_wait in
      ret tt
  end.
Fixpoint sh_loop (k : nat) : M S unit :=
  match k with
  | O => nofuel
  | Datatypes.S k' =>
      let* line := getcmd 100 in
      match line with
      | Some line => sh_line line;;; sh_loop k'
      | None => u_exit
      end
  end.
Definition sh_main (k : nat) : M S unit := open_console k;;; sh_loop k.
End shell.

(** ** Specifications *)

(** The strings of a tree, in the order of nulterminate(), and a tree with other strings. *)
Fixpoint strings {P} (c : cmd_of P) : list P :=
  match c with
  | EXEC argv => argv
  | REDIR sub file _ _ => strings sub ++ [file]
  | PIPE l r | LIST l r => strings l ++ strings r
  | BACK sub => strings sub
  end.
Fixpoint cmd_map {P Q} (f : P -> Q) (c : cmd_of P) : cmd_of Q :=
  match c with
  | EXEC argv => EXEC (map f argv)
  | REDIR sub file mode fd => REDIR (cmd_map f sub) (f file) mode fd
  | PIPE l r => PIPE (cmd_map f l) (cmd_map f r)
  | LIST l r => LIST (cmd_map f l) (cmd_map f r)
  | BACK sub => BACK (cmd_map f sub)
  end.

(** The words that print a tree: as a simple command with its redirections (level 0), a pipeline
    (1), a pipeline with '&'s (2), a whole line (3); in parentheses where the level is too low. *)
Definition redir_op (fd : Z) : list Z := if fd =? 0 then [60] else [62].
Definition parens (ts : list (list Z)) : list (list Z) := [40] :: ts ++ [[41]].
Fixpoint show (lv : nat) (t : cmd_of (list Z)) : list (list Z) :=
  match t with
  | EXEC argv => argv
  | REDIR sub file _ fd => show 0 sub ++ [redir_op fd; file]
  | PIPE l r => let ts := show 0 l ++ [124] :: show 1 r in if (1 <=? lv)%nat then ts else parens ts
  | BACK sub => let ts := show 2 sub ++ [[38]] in if (2 <=? lv)%nat then ts else parens ts
  | LIST l r => let ts := show 2 l ++ [59] :: show 3 r in if (3 <=? lv)%nat then ts else parens ts
  end.
Definition text (ts : list (list Z)) : list Z := concat (map (fun t => t ++ [32]) ts).

(** The trees that can be typed: words of word characters, at most nine arguments, and the modes
    of the redirections that the shell has. *)
Definition word (w : list Z) : Prop := w <> [] /\ Forall (fun c => c <> 0 /\ in_word c = true) w.
Fixpoint typable (t : cmd_of (list Z)) : Prop :=
  match t with
  | EXEC argv => Forall word argv /\ (length argv < MAXARGS)%nat
  | REDIR sub file mode fd => typable sub /\ word file /\
      (mode = O_RDONLY /\ fd = 0 \/ mode = Z.lor O_WRONLY O_CREATE /\ fd = 1)
  | PIPE l r | LIST l r => typable l /\ typable r
  | BACK sub => typable sub
  end.

(** ** Lemmas *)

(** *** Tokens *)
Definition symbol (t : list Z) : Prop := t ∈ [[60]; [124]; [62]; [38]; [59]; [40]; [41]].
Definition token (t : list Z) : Prop := word t \/ symbol t.
Definition code (t : list Z) : Z := match t with [c] => if in_str symbols c then c else 97 | _ => 97 end.
Definition first (ts : list (list Z)) : Z := match ts with (c :: _) :: _ => c | _ => 0 end.

Lemma token_first t ts : token t -> exists c t', t = c :: t' /\ first (t :: ts) = c /\ c <> 0 /\ in_str whitespace c = false.
Proof.
  intros [[Hne Hw]|Hs].
  - destruct t as [|c t]; [done|]. exists c, t. apply Forall_cons in Hw as [[H0 Hc] _]. split_and!; try done.
    unfold in_word in Hc. by destruct (in_str whitespace c).
  - unfold symbol in Hs. set_unfold in Hs. destruct_or! Hs; subst; eexists _, _; by split_and!.
Qed.

Lemma text_cons t ts : text (t :: ts) = t ++ 32 :: text ts.
Proof. unfold text. simpl. by rewrite <- app_assoc. Qed.

Lemma word_code t : word t -> code t = 97 /\ in_str symbols (first [t]) = false.
Proof.
  intros [Hne Hw]. destruct t as [|c t]; [done|]. apply Forall_cons in Hw as [[H0 Hc] _].
  unfold in_word in Hc. apply andb_true_iff in Hc as [_ Hc%negb_true_iff]. cbn [code first]. rewrite Hc. by destruct t.
Qed.

(** A word does not start with a symbol. *)
Lemma word_not_symbol toks w ts : word w -> toks ⊆ symbols -> in_str toks (first (w :: ts)) = false.
Proof.
  intros Hw Htoks. destruct (word_code w Hw) as [_ Hs]. change (first (w :: ts)) with (first [w]).
  apply not_true_iff_false. intros (d & Hd & E)%existsb_exists. apply Z.eqb_eq in E. rewrite E in Hs.
  apply not_true_iff_false in Hs. apply Hs, existsb_exists. exists d. rewrite Z.eqb_refl. split; [|done].
  apply list_elem_of_In, Htoks. by apply list_elem_of_In.
Qed.

Section reading.
Context (buf : list Z).

Lemma ch_hd i : ch buf i = hd 0 (drop i buf).
Proof. unfold ch. revert i. induction buf as [|b l IH]; intros [|i]; simpl; done. Qed.

(** The parser is at the tokens [ts], which go on to the end of the line. *)
Definition at_tokens (i : nat) (ts : list (list Z)) : Prop := Forall token ts /\ drop i buf = text ts ++ [0].

Lemma at_es i ts : at_tokens i ts -> (i + length (text ts))%nat = es buf.
Proof. intros [_ H]. apply (f_equal length) in H. rewrite length_drop, length_app in H. simpl in H. unfold es. lia. Qed.

Lemma at_ch i ts : at_tokens i ts -> ch buf i = first ts.
Proof.
  intros [Hts H]. rewrite ch_hd, H. destruct ts as [|t ts]; [done|].
  apply Forall_cons in Hts as [Ht _]. destruct (token_first t ts Ht) as (c & t' & -> & _). done.
Qed.

Lemma at_skip i ts : at_tokens i ts -> skip buf i = i.
Proof.
  intros Hat. unfold skip. destruct (es buf - i)%nat as [|k] eqn:E; [done|]. simpl. rewrite (at_ch i ts) by done.
  destruct ts as [|t ts]; [apply at_es in Hat; simpl in Hat; lia|]. destruct Hat as [[Ht _]%Forall_cons _].
  destruct (token_first t ts Ht) as (c & t' & -> & -> & _ & ->). done.
Qed.

Lemma at_peek i ts toks : at_tokens i ts -> peek buf toks i = Done (negb (first ts =? 0) && in_str toks (first ts)) i.
Proof. intros Hat. unfold peek. by rewrite (at_skip i ts), (at_ch i ts). Qed.

(** A run of characters that [p] accepts, up to one that it does not. *)
Lemma skip_while_run p k i w c rest : drop i buf = w ++ c :: rest -> Forall (fun c => p c = true) w -> p c = false ->
  (length w <= k)%nat -> skip_while buf p k i = (i + length w)%nat.
Proof.
  revert i k. induction w as [|d w IH]; intros i k Hd Hw Hc Hk.
  - simpl. rewrite Nat.add_0_r. destruct k as [|k]; [done|]. simpl. rewrite ch_hd, Hd. simpl. by rewrite Hc.
  - apply Forall_cons in Hw as [Hpd Hw]. destruct k as [|k]; simpl in Hk; [lia|]. simpl. rewrite ch_hd, Hd. simpl. rewrite Hpd. rewrite (IH (i + 1)%nat k); [simpl; lia|..]; try done; [|lia].
    rewrite <- drop_drop, Hd. done.
Qed.

(** The words in the line that pointers mark: word characters, then another character. *)
Definition slice (p : nat * nat) : list Z := take (snd p - fst p) (drop (fst p) buf).
Definition marks (p : nat * nat) : Prop := (fst p <= snd p < length buf)%nat /\
  Forall (fun c => c <> 0 /\ in_word c = true) (slice p) /\ (ch buf (snd p) = 0 \/ in_word (ch buf (snd p)) = false).

Lemma at_next i t ts : at_tokens i (t :: ts) -> skip buf (i + length t) = (i + length t + 1)%nat /\ at_tokens (i + length t + 1) ts.
Proof.
  intros Hat. pose proof (at_es _ _ Hat) as He. destruct Hat as [[Ht Hts]%Forall_cons Hd].
  assert (at_tokens (i + length t + 1) ts) as Hat'.
  { split; [done|]. rewrite <- !drop_drop, Hd, text_cons, <- app_assoc, drop_app_length. done. }
  split; [|done]. rewrite text_cons, length_app in He. simpl in He.
  assert (drop (i + length t) buf = 32 :: text ts ++ [0]) as Hd'
    by (by rewrite <- drop_drop, Hd, text_cons, <- app_assoc, drop_app_length).
  unfold skip. replace (es buf - (i + length t))%nat with (Datatypes.S (es buf - (i + length t + 1))) by lia. simpl.
  assert (ch buf (i + length t) = 32) as -> by (by rewrite ch_hd, Hd').
  simpl. by apply (at_skip _ ts).
Qed.

Lemma at_token i t ts : at_tokens i (t :: ts) ->
  gettoken buf i = Done (code t, i, (i + length t)%nat) (i + length t + 1)%nat /\ at_tokens (i + length t + 1) ts /\
  (word t -> slice (i, (i + length t)%nat) = t /\ marks (i, (i + length t)%nat)).
Proof.
  intros Hat. pose proof (at_next i t ts Hat) as [Hskip Hat']. split; [|split; [done|]].
  - unfold gettoken. rewrite (at_skip i (t :: ts)) by done. enough (token_at buf i = (code t, (i + length t)%nat)) as -> by (by rewrite Hskip).
    unfold token_at. rewrite (at_ch i (t :: ts)) by done. pose proof (at_es _ _ Hat) as He. destruct Hat as [[Ht _]%Forall_cons Hd].
    destruct (token_first t ts Ht) as (c & t' & E & -> & H0 & _). destruct (Z.eqb_spec c 0); [done|]. clear n.
    destruct Ht as [Hw|Hs].
    + destruct (word_code t Hw) as [-> Hc]. rewrite E in Hc. simpl in Hc.
      assert (in_str [124; 40; 41; 59; 38; 60] c = false /\ c <> 62) as [-> Hne].
      { unfold in_str, symbols in *. simpl in *. repeat (apply orb_false_iff in Hc as [?%Z.eqb_neq Hc]).
        split; [|done]. by repeat (apply orb_false_iff; split; [by apply Z.eqb_neq|]). }
      destruct (Z.eqb_spec c 62); [done|]. f_equal. unfold skip_word. rewrite text_cons in He, Hd. rewrite length_app in He. simpl in He.
      eapply skip_while_run; [|eapply Forall_impl; [apply Hw|]; by intros ? []| |lia].
      * rewrite Hd, <- app_assoc. done.
      * done.
    + unfold symbol in Hs. set_unfold in Hs.
      assert (c = 62 -> (ch buf (i + 1) =? 62) = false) as H62.
      { intros ->. assert (t = [62]) as -> by (destruct_or! Hs; subst; simplify_eq; done).
        rewrite ch_hd, <- drop_drop, Hd. done. }
      destruct_or! Hs; subst; simplify_eq; try done. simpl. by rewrite H62.
  - intros Hw. destruct Hat as [_ Hd]. rewrite text_cons, <- app_assoc in Hd. assert (slice (i, (i + length t)%nat) = t) as Es.
    { unfold slice. simpl. replace (i + length t - i)%nat with (length t) by lia. rewrite Hd. apply take_app_length. }
    split; [done|]. split; [|split].
    + simpl. apply (f_equal length) in Hd. rewrite length_drop, length_app in Hd. simpl in Hd. lia.
    + rewrite Es. apply Hw.
    + simpl. right. rewrite ch_hd, <- drop_drop, Hd, drop_app_length. done.
Qed.

(** *** The parser on printed trees *)

(** Redirections, as the parser meets them. *)
Definition redir : Type := list Z * Z * Z.
Definition wrap {P} (c : cmd_of P) (r : P * Z * Z) : cmd_of P := REDIR c (fst (fst r)) (snd (fst r)) (snd r).
Definition redir_ok (r : redir) : Prop :=
  let '(file, mode, fd) := r in word file /\ (mode = O_RDONLY /\ fd = 0 \/ mode = Z.lor O_WRONLY O_CREATE /\ fd = 1).
Definition redir_tokens (rs : list redir) : list (list Z) := concat (map (fun r => [redir_op (snd r); fst (fst r)]) rs).

(** [o] returns a tree for [t], at the tokens [rest]. *)
Definition reads (o : outcome nat cmd) (t : cmd_of (list Z)) (rest : list (list Z)) : Prop :=
  exists c i, o = Done c i /\ at_tokens i rest /\ cmd_map slice c = t /\ Forall marks (strings c).

Lemma bind_run {A B} (m : M nat A) (f : A -> M nat B) i a i' : m i = Done a i' -> bind m f i = f a i'.
Proof. unfold bind. by intros ->. Qed.

Lemma bind_run2 {A B C} (m : M nat A) (f : A -> M nat B) (g : B -> M nat C) i b i' :
  bind m f i = Done b i' -> bind m (fun a => bind (f a) g) i = g b i'.
Proof. unfold bind. destruct (m i) as [a s| | | | |]; simpl; try done. by intros ->. Qed.

Lemma bind_peek {A} i ts toks (f : bool -> M nat A) : at_tokens i ts ->
  bind (peek buf toks) f i = f (negb (first ts =? 0) && in_str toks (first ts)) i.
Proof. intros Hat. by rewrite (bind_run _ _ _ _ _ (at_peek i ts toks Hat)). Qed.

Lemma redirs_none k c i ts : at_tokens i ts -> in_str [60; 62] (first ts) = false -> (0 < k)%nat ->
  parseredirs buf k c i = Done c i.
Proof. intros Hat Hts Hk. destruct k as [|k]; [lia|]. simpl. by rewrite (bind_peek i ts), Hts, andb_false_r by done. Qed.

Lemma redirs_run rs k c t i rest : at_tokens i (redir_tokens rs ++ rest) -> Forall redir_ok rs -> in_str [60; 62] (first rest) = false ->
  (length rs < k)%nat -> cmd_map slice c = t -> Forall marks (strings c) ->
  reads (parseredirs buf k c i) (fold_left wrap rs t) rest.
Proof.
  revert k c t i. induction rs as [|[[file mode] fd] rs IH]; intros k c t i Hat Hrs Hrest Hk Ht Hm; destruct k as [|k]; try (simpl in Hk; lia).
  - rewrite (redirs_none _ _ _ rest) by (done || lia). by exists c, i.
  - apply Forall_cons in Hrs as [[Hw Hmode] Hrs]. simpl in Hk. simpl parseredirs.
    set (op := redir_op fd). change (at_tokens i (op :: file :: redir_tokens rs ++ rest)) in Hat. assert (first (op :: file :: redir_tokens rs ++ rest) = hd 0 op /\ code op = hd 0 op /\
      (op = [60] /\ mode = O_RDONLY /\ fd = 0 \/ op = [62] /\ mode = Z.lor O_WRONLY O_CREATE /\ fd = 1)) as (Ef & Ec & Hop)
      by (unfold op; destruct Hmode as [[-> ->]|[-> ->]]; (split; [done|]); (split; [done|]); [by left|by right]).
    rewrite (bind_peek i _ _ _ Hat), Ef. destruct (at_token i _ _ Hat) as (E1 & Hat1 & _).
    destruct (at_token _ _ _ Hat1) as (E2 & Hat2 & Hfile). destruct (Hfile Hw) as [Es Hmk]. destruct (word_code file Hw) as [Ew _].
    replace (negb (hd 0 op =? 0) && in_str [60; 62] (hd 0 op)) with true by (by destruct Hop as [[-> _]|[-> _]]). cbn [negb].
    rewrite (bind_run _ _ _ _ _ E1), (bind_run _ _ _ _ _ E2), Ew, Ec. cbn [negb].
    clear E1 E2 Hfile Hat Hat1 Ef Ec. set (q := (i + length op + 1)%nat) in *. clearbody q. apply IH; try done; [lia| |].
    + destruct Hop as [(-> & -> & ->)|(-> & -> & ->)]; simpl; unfold wrap; simpl; by rewrite Ht, Es.
    + destruct Hop as [(-> & -> & ->)|(-> & -> & ->)]; simpl; (apply Forall_app; split; [done|by apply Forall_singleton]).
Qed.

(** What may come after a simple command. *)
Definition ends_in (toks : list Z) (rest : list (list Z)) : Prop := first rest = 0 \/ in_str toks (first rest) = true.
Definition stop0 : list Z := [124; 41; 38; 59].

Lemma ends_in_not toks toks' rest : ends_in toks rest -> Forall (fun c => in_str toks' c = false) toks -> in_str toks' 0 = false ->
  in_str toks' (first rest) = false.
Proof.
  intros [->|H] Hsub H0; [done|]. apply existsb_exists in H as (c & Hc & E). apply Z.eqb_eq in E as ->.
  rewrite Forall_forall in Hsub. by apply Hsub, list_elem_of_In.
Qed.

Lemma args_stop k argc c i rest : at_tokens i rest -> ends_in stop0 rest -> (0 < k)%nat ->
  exists i', parseargs buf k argc c i = Done c i' /\ at_tokens i' rest.
Proof.
  intros Hat Hst Hk. destruct k as [|k]; [lia|]. simpl. rewrite (bind_peek i rest) by done. fold stop0.
  destruct Hst as [H0|Hst].
  - rewrite H0. simpl. destruct rest as [|t rest].
    + unfold bind, gettoken. rewrite (at_skip i []) by done. unfold token_at. rewrite (at_ch i []) by done. simpl.
      rewrite (at_skip i []) by done. by exists i.
    + destruct Hat as [[Ht _]%Forall_cons _]. destruct (token_first t rest Ht) as (c' & t' & _ & E & Hne & _). congruence.
  - rewrite Hst. destruct (Z.eqb_spec (first rest) 0) as [E|]; [by rewrite E in Hst|]. by exists i.
Qed.

Lemma args_run args k argc c0 i rs rest : at_tokens i (args ++ redir_tokens rs ++ rest) -> args <> [] -> Forall word args -> Forall redir_ok rs ->
  ends_in stop0 rest -> (length args + length rs + 1 < k)%nat -> (argc + length args < MAXARGS)%nat ->
  Forall marks c0 -> reads (parseargs buf k argc (EXEC c0) i) (fold_left wrap rs (EXEC (map slice c0 ++ args))) rest.
Proof.
  revert k argc c0 i. induction args as [|w args IH]; intros k argc c0 i Hat Hne Hw Hrs Hst Hk Hmax Hm; [done|].
  apply Forall_cons in Hw as [Hw Hargs]. destruct k as [|k]; simpl in Hk; [lia|]. simpl in Hat, Hmax. cbn [parseargs].
  destruct (word_code w Hw) as [Ew Esym]. destruct (at_token i w _ Hat) as (E1 & Hat1 & Hs). destruct (Hs Hw) as [Es Hmk].
  rewrite (bind_peek i _ _ _ Hat).
  assert (first (w :: args ++ redir_tokens rs ++ rest) = first [w]) as -> by done.
  rewrite word_not_symbol, andb_false_r by (done || by apply (bool_decide_unpack _)). rewrite (bind_run _ _ _ _ _ E1), Ew. change (97 =? 0) with false. change (97 =? 97) with true. cbn [negb].
  destruct (Nat.leb_spec MAXARGS (S argc)); [lia|].
  assert (Forall marks (c0 ++ [(i, (i + length w)%nat)])) as Hm' by (apply Forall_app; split; [done|by apply Forall_singleton]).
  assert (map slice (c0 ++ [(i, (i + length w)%nat)]) = map slice c0 ++ [w]) as Emap by (by rewrite map_app; simpl; rewrite Es).
  destruct args as [|w' args].
  - destruct (redirs_run rs k (EXEC (c0 ++ [(i, (i + length w)%nat)])) (EXEC (map slice c0 ++ [w])) _ rest Hat1) as (c & i2 & E & Hat2 & Hc & Hmc); try done; [|lia|by simpl; rewrite Emap|].
    { eapply ends_in_not; [exact Hst|by repeat constructor|done]. }
    simpl add_arg. rewrite (bind_run _ _ _ _ _ E). destruct (args_stop k (S argc) c i2 rest Hat2 Hst ltac:(lia)) as (i3 & -> & Hat3).
    exists c, i3. split; [done|]. split; [done|]. by split.
  - pose proof Hargs as [Hw' _]%Forall_cons. simpl in Hat1.
    simpl add_arg. erewrite (bind_run (parseredirs buf k _)) by (apply (redirs_none k _ _ _ Hat1); [|simpl in Hk; lia];
      by apply (word_not_symbol [60; 62] w'); [|apply (bool_decide_unpack _)]).
    rewrite (app_assoc (map slice c0) [w] (w' :: args) : map slice c0 ++ w :: w' :: args = _), <- Emap.
    apply IH; try done; simpl in *; lia.
Qed.

(** What may come after a pipeline, after the '&'s of a command, and after a line. *)
Definition stop1 : list Z := [41; 38; 59].
Definition stop2 : list Z := [41; 59].
Definition stop3 : list Z := [41].

Lemma ends_in_mono toks toks' rest : ends_in toks rest -> Forall (fun c => in_str toks' c = true) toks -> ends_in toks' rest.
Proof.
  intros [H|H] Hsub; [by left|right]. apply existsb_exists in H as (c & Hc & E). apply Z.eqb_eq in E as ->.
  rewrite Forall_forall in Hsub. apply Hsub. by apply list_elem_of_In.
Qed.

Lemma peek_stop {A} i rest toks toks' (f : bool -> M nat A) : at_tokens i rest -> ends_in toks rest ->
  Forall (fun c => in_str toks' c = false) toks -> bind (peek buf toks') f i = f false i.
Proof.
  intros Hat [H|H] Hsub; rewrite (bind_peek i rest) by done; [by rewrite H|].
  replace (in_str toks' (first rest)) with false; [by rewrite andb_false_r|]. symmetry.
  apply existsb_exists in H as (c & Hc & E). apply Z.eqb_eq in E as ->. rewrite Forall_forall in Hsub.
  by apply Hsub, list_elem_of_In.
Qed.

(** Seeing a symbol, and passing it. *)
Lemma peek_symbol {A} i c ts toks (f : bool -> M nat A) : at_tokens i ([c] :: ts) -> negb (c =? 0) && in_str toks c = true ->
  bind (peek buf toks) f i = f true i.
Proof. intros Hat Hc. rewrite (bind_peek i _ _ _ Hat). cbn [first]. by rewrite Hc. Qed.

Lemma pass_symbol i c ts : at_tokens i ([c] :: ts) -> exists t, gettoken buf i = Done t (i + 2)%nat /\ at_tokens (i + 2) ts.
Proof.
  intros Hat. destruct (at_token i [c] ts Hat) as (E & Hat' & _).
  replace (i + length [c] + 1)%nat with (i + 2)%nat in * by (simpl; lia). eauto.
Qed.

(** What the parsing functions do with the words of [t]; [n] words need [4 * n + 4] levels of fuel. *)
Definition reads_exec (t : cmd_of (list Z)) : Prop := forall rs rest i k,
  at_tokens i (show 0 t ++ redir_tokens rs ++ rest) -> Forall redir_ok rs -> ends_in stop0 rest ->
  (4 * (length (show 0 t) + length rs) + 2 <= k)%nat -> reads (parseexec buf k i) (fold_left wrap rs t) rest.
Definition reads_pipe (t : cmd_of (list Z)) : Prop := forall rest i k,
  at_tokens i (show 1 t ++ rest) -> ends_in stop1 rest -> (4 * length (show 1 t) + 3 <= k)%nat ->
  reads (parsepipe buf k i) t rest.
Definition reads_back (t : cmd_of (list Z)) : Prop := forall rest i k,
  at_tokens i (show 2 t ++ rest) -> ends_in stop1 rest -> (4 * length (show 2 t) + 3 <= k)%nat ->
  exists c0 i0 c i1 n, parsepipe buf k i = Done c0 i0 /\ (forall j, parseback buf (n + j) c0 i0 = parseback buf j c i1) /\
    (n <= length (show 2 t))%nat /\ reads (Done c i1) t rest.
Definition reads_line (t : cmd_of (list Z)) : Prop := forall rest i k,
  at_tokens i (show 3 t ++ rest) -> ends_in stop3 rest -> (4 * length (show 3 t) + 4 <= k)%nat ->
  reads (parseline buf k i) t rest.

Lemma exec_pipe t : show 1 t = show 0 t -> reads_exec t -> reads_pipe t.
Proof.
  intros E Hx rest i k Hat Hst Hk. rewrite E in *. destruct k as [|k]; [lia|]. simpl.
  destruct (Hx [] rest i k) as (c & i' & Er & Hat' & H); [done|done|by eapply ends_in_mono; [|repeat constructor]|simpl; lia|].
  rewrite (bind_run _ _ _ _ _ Er), (peek_stop _ _ _ _ _ Hat' Hst) by (by repeat constructor). by exists c, i'.
Qed.

Lemma pipe_back t : show 2 t = show 1 t -> reads_pipe t -> reads_back t.
Proof.
  intros E Hp rest i k Hat Hst Hk. rewrite E in *. destruct (Hp rest i k Hat Hst Hk) as (c & i' & Er & H).
  exists c, i', c, i', 0%nat. split; [done|]. split; [done|]. split; [lia|]. by exists c, i'.
Qed.

Lemma back_line_run t rest i k : reads_back t -> at_tokens i (show 2 t ++ rest) -> ends_in stop2 rest ->
  (4 * length (show 2 t) + 3 <= k)%nat -> reads (bind (parsepipe buf k) (parseback buf k) i) t rest.
Proof.
  intros Hb Hat Hst Hk. destruct (Hb rest i k Hat) as (c0 & i0 & c & i1 & n & E & Eb & Hn & Hr); [|done|].
  { eapply ends_in_mono; [done|by repeat constructor]. }
  rewrite (bind_run _ _ _ _ _ E). replace k with (n + (k - n))%nat at 1 by lia. rewrite Eb.
  destruct Hr as (c' & i' & [= <- <-] & Hat' & H). destruct (k - n)%nat as [|j] eqn:Ej; [lia|]. simpl.
  rewrite (peek_stop _ _ _ _ _ Hat' Hst) by (by repeat constructor). by exists c, i1.
Qed.

Lemma back_line t : show 3 t = show 2 t -> reads_back t -> reads_line t.
Proof.
  intros E Hb rest i k Hat Hst Hk. rewrite E in *. destruct k as [|k]; [lia|]. cbn [parseline].
  destruct (back_line_run t rest i k Hb Hat) as (c & i' & Er & Hat' & H); [by eapply ends_in_mono; [|repeat constructor]|lia|].
  rewrite (bind_run2 _ _ _ _ _ _ Er), (peek_stop _ _ _ _ _ Hat' Hst) by (by repeat constructor). by exists c, i'.
Qed.

Lemma parens_exec t : show 0 t = parens (show 3 t) -> reads_line t -> reads_exec t.
Proof.
  intros E Hl rs rest i k Hat Hrs Hst Hk. rewrite E in *. unfold parens in *.
  replace (length ([40] :: show 3 t ++ [[41]])) with (length (show 3 t) + 2)%nat in Hk by (simpl; rewrite length_app; simpl; lia).
  destruct k as [|[|k]]; [lia..|]. simpl app in Hat. rewrite <- app_assoc in Hat. simpl in Hat.
  cbn [parseexec]. rewrite (peek_symbol _ _ _ _ _ Hat) by done. cbn [parseblock]. rewrite (peek_symbol _ _ _ _ _ Hat) by done.
  cbn [negb]. destruct (pass_symbol _ _ _ Hat) as (t1 & E1 & Hat1). rewrite (bind_run _ _ _ _ _ E1).
  destruct (Hl _ _ k Hat1) as (c & i2 & Er & Hat2 & Hc & Hm); [by right|lia|]. rewrite (bind_run _ _ _ _ _ Er).
  rewrite (peek_symbol _ _ _ _ _ Hat2) by done. cbn [negb]. destruct (pass_symbol _ _ _ Hat2) as (t3 & E3 & Hat3).
  rewrite (bind_run _ _ _ _ _ E3). apply redirs_run; try done; [|lia].
  eapply ends_in_not; [exact Hst|by repeat constructor|done].
Qed.

Lemma exec_ok argv : typable (EXEC argv) -> reads_exec (EXEC argv).
Proof.
  intros [Hw Hmax] rs rest i k Hat Hrs Hst Hk. simpl in Hat, Hk. destruct k as [|k]; [lia|]. cbn [parseexec].
  rewrite (bind_peek i _ _ _ Hat). replace (in_str [40] _) with false.
  2: { symmetry. destruct argv as [|w argv]; [|apply Forall_cons in Hw as [Hw _]; apply word_not_symbol; [done|by apply (bool_decide_unpack _)]].
    destruct rs as [|[[f m] fd] rs]; [by eapply ends_in_not; [|repeat constructor|]|].
    apply Forall_cons in Hrs as [[_ [[_ ->]|[_ ->]]] _]; done. }
  rewrite andb_false_r. destruct argv as [|w argv].
  - destruct (redirs_run rs k (EXEC []) (EXEC []) i rest Hat) as (c & i' & E & Hat' & Hc & Hm); try done.
    { eapply ends_in_not; [exact Hst|by repeat constructor|done]. }
    { simpl in Hk. lia. }
    rewrite (bind_run _ _ _ _ _ E). destruct (args_stop k 0 c i' rest Hat' Hst ltac:(lia)) as (i2 & -> & Hat2). by exists c, i2.
  - pose proof Hw as [Hw1 _]%Forall_cons. erewrite (bind_run (parseredirs buf k _)).
    2: { apply (redirs_none k _ _ _ Hat); [|lia]. apply word_not_symbol; [done|by apply (bool_decide_unpack _)]. }
    apply (args_run (w :: argv) k 0 [] i rs rest); try done; simpl in *; lia.
Qed.

Lemma pipe_ok l r : reads_exec l -> reads_pipe r -> reads_pipe (PIPE l r).
Proof.
  intros Hl Hr rest i k Hat Hst Hk. simpl in Hat, Hk. rewrite <- app_assoc in Hat. rewrite length_app in Hk. simpl in Hk.
  destruct k as [|k]; [lia|]. cbn [parsepipe].
  destruct (Hl [] ([124] :: show 1 r ++ rest) i k Hat) as (c & i1 & E1 & Hat1 & Hc & Hm); [done|by right|simpl; lia|].
  rewrite (bind_run _ _ _ _ _ E1), (peek_symbol _ _ _ _ _ Hat1) by done.
  destruct (pass_symbol _ _ _ Hat1) as (t & E2 & Hat2). rewrite (bind_run _ _ _ _ _ E2).
  destruct (Hr rest _ k Hat2 Hst ltac:(lia)) as (c' & i3 & E3 & Hat3 & Hc' & Hm'). rewrite (bind_run _ _ _ _ _ E3).
  exists (PIPE c c'), i3. split; [done|]. split; [done|]. simpl. rewrite Hc, Hc'. split; [done|]. by apply Forall_app.
Qed.

Lemma back_ok sub : reads_back sub -> reads_back (BACK sub).
Proof.
  intros Hs rest i k Hat Hst Hk. simpl in Hat, Hk. rewrite <- app_assoc in Hat. rewrite length_app in Hk. simpl in Hk.
  destruct (Hs ([38] :: rest) i k Hat) as (c0 & i0 & c & i1 & n & E & Eb & Hn & Hr); [by right|lia|].
  destruct Hr as (c' & i' & [= <- <-] & Hat1 & Hc & Hm). destruct (pass_symbol _ _ _ Hat1) as (t & E2 & Hat2).
  exists c0, i0, (BACK c), (i1 + 2)%nat, (n + 1)%nat. split; [done|]. split.
  - intros j. rewrite <- Nat.add_assoc, Eb. simpl. rewrite (peek_symbol _ _ _ _ _ Hat1) by done. by rewrite (bind_run _ _ _ _ _ E2).
  - simpl. rewrite length_app. simpl. split; [lia|]. exists (BACK c), (i1 + 2)%nat. simpl. by rewrite Hc.
Qed.

Lemma list_ok l r : reads_back l -> reads_line r -> reads_line (LIST l r).
Proof.
  intros Hl Hr rest i k Hat Hst Hk. simpl in Hat, Hk. rewrite <- app_assoc in Hat. rewrite length_app in Hk. simpl in Hk.
  destruct k as [|k]; [lia|]. cbn [parseline].
  destruct (back_line_run l ([59] :: show 3 r ++ rest) i k Hl Hat) as (c & i1 & E1 & Hat1 & Hc & Hm); [by right|lia|].
  rewrite (bind_run2 _ _ _ _ _ _ E1), (peek_symbol _ _ _ _ _ Hat1) by done.
  destruct (pass_symbol _ _ _ Hat1) as (t & E2 & Hat2). rewrite (bind_run _ _ _ _ _ E2).
  destruct (Hr rest _ k Hat2 Hst ltac:(lia)) as (c' & i3 & E3 & Hat3 & Hc' & Hm'). rewrite (bind_run _ _ _ _ _ E3).
  exists (LIST c c'), i3. split; [done|]. split; [done|]. simpl. rewrite Hc, Hc'. split; [done|]. by apply Forall_app.
Qed.

Lemma redir_exec_ok sub file mode fd : reads_exec sub -> redir_ok (file, mode, fd) -> reads_exec (REDIR sub file mode fd).
Proof.
  intros Hs Hr rs rest i k Hat Hrs Hst Hk. simpl in Hat, Hk. rewrite length_app in Hk. simpl in Hk. rewrite <- app_assoc in Hat.
  apply (Hs ((file, mode, fd) :: rs) rest i k Hat); [by constructor|done|simpl; lia].
Qed.

Lemma reads_all t : typable t -> reads_exec t /\ reads_pipe t /\ reads_back t /\ reads_line t.
Proof.
  assert (forall t, show 1 t = show 0 t -> show 2 t = show 1 t -> show 3 t = show 2 t -> reads_exec t ->
    reads_exec t /\ reads_pipe t /\ reads_back t /\ reads_line t) as Hup.
  { intros t' E1 E2 E3 Hx. pose proof (exec_pipe t' E1 Hx) as Hp. pose proof (pipe_back t' E2 Hp) as Hb.
    auto using back_line. }
  induction t as [argv|sub IH file mode fd|l IHl r IHr|l IHl r IHr|sub IH].
  - intros Ht. apply Hup; try done. by apply exec_ok.
  - intros (Ht & Hw & Hmode). apply Hup; try done. by apply redir_exec_ok; [apply IH|].
  - intros [(Hl & _)%IHl (_ & Hr & _)%IHr]. pose proof (pipe_ok l r Hl Hr) as Hp.
    pose proof (pipe_back (PIPE l r) eq_refl Hp) as Hb. pose proof (back_line (PIPE l r) eq_refl Hb) as Hn.
    split; [by apply parens_exec|done].
  - intros [(_ & _ & Hl & _)%IHl (_ & _ & _ & Hr)%IHr]. pose proof (list_ok l r Hl Hr) as Hn.
    pose proof (parens_exec (LIST l r) eq_refl Hn) as Hx. pose proof (exec_pipe (LIST l r) eq_refl Hx) as Hp.
    pose proof (pipe_back (LIST l r) eq_refl Hp). done.
  - intros (_ & _ & Hb & _)%IH. apply back_ok in Hb. pose proof (back_line (BACK sub) eq_refl Hb) as Hn.
    pose proof (parens_exec (BACK sub) eq_refl Hn) as Hx. pose proof (exec_pipe (BACK sub) eq_refl Hx). done.
Qed.
End reading.

(** *** nulterminate() *)
Lemma nulterminate_strings c buf : nulterminate c buf = fold_left (fun buf p => <[snd p := 0]> buf) (strings c) buf.
Proof.
  revert buf. induction c as [argv|sub IH file mode fd|l IHl r IHr|l IHl r IHr|sub IH]; intros buf; simpl; try done.
  - by rewrite fold_left_app, IH.
  - by rewrite fold_left_app, IHl, IHr.
  - by rewrite fold_left_app, IHl, IHr.
Qed.

Lemma put_nuls_length (ps : list (nat * nat)) (buf : list Z) : length (fold_left (fun buf p => <[snd p := 0]> buf) ps buf) = length buf.
Proof. revert buf. induction ps as [|p ps IH]; intros buf; simpl; [done|]. by rewrite IH, length_insert. Qed.

Lemma put_nuls_lookup (ps : list (nat * nat)) (buf : list Z) j : Forall (fun p => snd p < length buf)%nat ps ->
  fold_left (fun buf p => <[snd p := 0]> buf) ps buf !! j =
  if bool_decide (j ∈ map snd ps) then Some 0 else buf !! j.
Proof.
  revert buf. induction ps as [|p ps IH]; intros buf; simpl; [done|]. intros [Hp Hps]%Forall_cons.
  rewrite IH by (by rewrite length_insert). destruct (decide (j ∈ map snd ps)) as [Hj|Hj].
  - by rewrite !bool_decide_true by set_solver.
  - rewrite (bool_decide_false (j ∈ map snd ps)) by done. destruct (decide (j = snd p)) as [->|Hne].
    + rewrite bool_decide_true by set_solver. by apply list_lookup_insert_eq.
    + rewrite bool_decide_false by set_solver. by apply list_lookup_insert_ne.
Qed.

Lemma cstr_app w rest : Forall (fun c => c <> 0) w -> Console.cstr (w ++ 0 :: rest) = w.
Proof. induction 1 as [|c w Hc Hw IH]; simpl; [done|]. destruct (Z.eqb_spec c 0); [done|]. by rewrite IH. Qed.

(** After nulterminate() every pointer of the tree is a C string with the characters it marked: the
    NULs fall outside the words. *)
Lemma str_at_slice c buf p : Forall (marks buf) (strings c) -> p ∈ strings c -> str_at (nulterminate c buf) p = slice buf p.
Proof.
  intros Hall Hp. rewrite nulterminate_strings. set (buf' := fold_left _ _ _).
  assert (Forall (fun p => snd p < length buf)%nat (strings c)) as Hlt by (eapply Forall_impl; [exact Hall|]; intros p' [? _]; lia).
  assert (forall j, buf' !! j = if bool_decide (j ∈ map snd (strings c)) then Some 0 else buf !! j) as Hbuf'
    by (intros j; by apply put_nuls_lookup).
  pose proof Hall as Hall'. rewrite Forall_forall in Hall'. destruct (Hall' p Hp) as (Hle & Hw & _). destruct p as [q e]. simpl in Hle.
  unfold str_at. simpl. assert (drop q buf' = slice buf (q, e) ++ 0 :: drop (S e) buf') as ->.
  - rewrite <- (take_drop (e - q) (drop q buf')), drop_drop. replace (q + (e - q))%nat with e by lia. f_equal.
    + unfold slice. simpl. apply list_eq. intros j. destruct (decide (j < e - q)%nat) as [Hj|Hj].
      * rewrite !lookup_take_lt, !lookup_drop, Hbuf' by done. rewrite bool_decide_false; [done|].
        intros (p' & E & Hp')%list_elem_of_fmap_1. destruct (Hall' p' Hp') as (_ & _ & Hc). rewrite <- E in Hc.
        assert (slice buf (q, e) !! j = buf !! (q + j)%nat) as Ej by (unfold slice; simpl; by rewrite lookup_take_lt, lookup_drop).
        destruct (lookup_lt_is_Some_2 buf (q + j)) as [d Hd]; [lia|]. rewrite Hd in Ej.
        rewrite Forall_lookup in Hw. destruct (Hw j d Ej) as [H0 Hdw]. unfold ch in Hc. rewrite (nth_lookup_Some _ _ _ _ Hd) in Hc.
        destruct Hc; congruence.
      * rewrite !lookup_take_ge by lia. done.
    + apply drop_S. rewrite Hbuf', bool_decide_true; [done|]. by apply (list_elem_of_fmap_2 snd (strings c) (q, e)).
  - apply cstr_app. eapply Forall_impl; [exact Hw|]. by intros c' [? _].
Qed.

Lemma cmd_map_ext {P Q} (f g : P -> Q) c : (forall p, p ∈ strings c -> f p = g p) -> cmd_map f c = cmd_map g c.
Proof.
  induction c as [argv|sub IH file mode fd|l IHl r IHr|l IHl r IHr|sub IH]; simpl; intros H.
  - f_equal. apply map_ext_in. intros p Hp. by apply H, list_elem_of_In.
  - f_equal; [apply IH; intros p Hp; apply H|apply H]; set_solver.
  - f_equal; [apply IHl|apply IHr]; intros p Hp; apply H; set_solver.
  - f_equal; [apply IHl|apply IHr]; intros p Hp; apply H; set_solver.
  - f_equal. by apply IH.
Qed.

Lemma show_tokens t lv : typable t -> Forall token (show lv t).
Proof.
  assert (forall ts, Forall token ts -> Forall token (parens ts)) as Hpar.
  { intros ts Hts. unfold parens. constructor; [right; unfold symbol; set_solver|]. apply Forall_app. split; [done|].
    constructor; [right; unfold symbol; set_solver|constructor]. }
  revert lv. induction t as [argv|sub IH file mode fd|l IHl r IHr|l IHl r IHr|sub IH]; intros lv; simpl.
  - intros [Hw _]. eapply Forall_impl; [exact Hw|]. by left.
  - intros (Ht & Hw & _). apply Forall_app. split; [by apply IH|]. constructor; [|by apply Forall_singleton; left].
    right. unfold redir_op, symbol. destruct (fd =? 0); set_solver.
  - intros [Hl Hr]. assert (Forall token (show 0 l ++ [124] :: show 1 r)) as Ht; [|by repeat case_match; auto].
    apply Forall_app. split; [by apply IHl|]. constructor; [right; unfold symbol; set_solver|by apply IHr].
  - intros [Hl Hr]. assert (Forall token (show 2 l ++ [59] :: show 3 r)) as Ht; [|by repeat case_match; auto].
    apply Forall_app. split; [by apply IHl|]. constructor; [right; unfold symbol; set_solver|by apply IHr].
  - intros Hs. assert (Forall token (show 2 sub ++ [[38]])) as Ht; [|by repeat case_match; auto].
    apply Forall_app. split; [by apply IH|]. constructor; [right; unfold symbol; set_solver|constructor].
Qed.

(** C18. The shell's parser inverts printing: for every tree of commands, pipelines, lists, background
    commands and redirections, nested in any way, parsing its printed line succeeds and the
    strings of the parsed tree, read as NUL-terminated strings from the line that
    nulterminate() has cut up in place, are those of the tree. *)
Theorem parsecmd_roundtrip {S} `{!Usys S} t k (s : S) : typable t -> (4 * length (show 3 t) + 4 <= k)%nat ->
  wp (parsecmd k (text (show 3 t) ++ [0])) (fun r s' => s' = s /\ cmd_map (str_at (snd r)) (fst r) = t) s.
Proof.
  intros Ht Hk. set (buf := text (show 3 t) ++ [0]). destruct (reads_all buf t Ht) as (_ & _ & _ & Hl).
  destruct (Hl [] 0%nat k) as (c & i & E & Hat & Hc & Hm); [|by left|done|].
  { rewrite app_nil_r. split; [by apply show_tokens|done]. }
  unfold parsecmd. rewrite E. rewrite (at_skip buf i []) by done. pose proof (at_es buf i [] Hat) as He. simpl in He.
  destruct (Nat.eqb_spec i (es buf)); [|lia]. apply wp_ret. split; [done|]. simpl. rewrite <- Hc.
  apply cmd_map_ext. intros p Hp. by apply str_at_slice.
Qed.

(** "ls -l < a | ( x ; y > z & ) & ; w" *)
Definition some_line : cmd_of (list Z) :=
  LIST (BACK (PIPE (REDIR (EXEC [chars "ls"; chars "-l"]) (chars "a") 0 0)
                   (LIST (EXEC [chars "x"]) (BACK (REDIR (EXEC [chars "y"]) (chars "z") 0x201 1)))))
       (EXEC [chars "w"]).
#[local] Existing Instance tty.
Lemma parsecmd_roundtrip_witness :
  typable some_line /\
  wp (S := list Z) (parsecmd 100 (text (show 3 some_line) ++ [0])) (fun r _ => cmd_map (str_at (snd r)) (fst r) = some_line) [].
Proof.
  assert (typable some_line) as Ht.
  { assert (forall w, bool_decide (w <> [] /\ Forall (fun c => c <> 0 /\ in_word c = true) w) = true -> word w) as Hw
      by (intros w; apply bool_decide_eq_true).
    repeat match goal with
    | |- typable _ => simpl
    | |- _ /\ _ => split
    | |- Forall word _ => constructor
    | |- word _ => apply Hw; vm_compute; reflexivity
    | |- (_ < _)%nat => unfold MAXARGS; lia
    end; [by left|by right]. }
  split; [exact Ht|].
  refine (wp_mono _ _ _ _ _ (parsecmd_roundtrip some_line 100 [] Ht _)); [|by vm_compute; lia].
  intros r s' [_ E]. exact E.
Defined.

(** ** Termination *)
Section termination.
Context (line : list Z).
Let buf : list Z := line ++ [0].

(** The messages of the parser. *)
Definition parse_errors : list string :=
  ["missing file for redirection"; "syntax"; "too many args"; "parseblock"; "syntax - missing )"].

(** From [i], [m] ends without running out of fuel, not before [i]. *)
Definition fin {A} (m : M nat A) (i : nat) : Prop :=
  match m i with
  | Done _ i' => (i <= i' <= es buf)%nat
  | Panic msg => msg ∈ parse_errors
  | _ => False
  end.

Lemma fin_panic {A} msg i : bool_decide (msg ∈ parse_errors) = true -> fin (panic (A := A) msg) i.
Proof. apply bool_decide_eq_true. Qed.

Lemma fin_bind {A B} (m : M nat A) (f : A -> M nat B) i :
  fin m i -> (forall a i', m i = Done a i' -> (i <= i' <= es buf)%nat -> fin (f a) i') -> fin (bind m f) i.
Proof.
  unfold fin, bind. destruct (m i) as [a i'| | | | |]; simpl; try done. intros Hi Hf. specialize (Hf a i' eq_refl Hi).
  destruct (f a i'); try done. lia.
Qed.

Lemma skip_while_bound p k i : (i <= skip_while buf p k i <= i + k)%nat.
Proof. revert i. induction k as [|k IH]; intros i; simpl; [lia|]. destruct (p (ch buf i)); [specialize (IH (i + 1)%nat)|]; lia. Qed.

Lemma skip_bound i : (i <= es buf)%nat -> (i <= skip buf i <= es buf)%nat.
Proof. intros Hi. unfold skip. pose proof (skip_while_bound (in_str whitespace) (es buf - i) i). lia. Qed.

Lemma ch_end : ch buf (es buf) = 0.
Proof.
  unfold ch, es, buf. rewrite length_app. simpl. replace (length line + 1 - 1)%nat with (length line) by lia.
  by rewrite app_nth2, Nat.sub_diag by lia.
Qed.

(** skip() stops at a character that is not white space. *)
Lemma skip_stops i : (i <= es buf)%nat -> in_str whitespace (ch buf (skip buf i)) = false.
Proof.
  intros Hi. unfold skip. remember (es buf - i)%nat as k eqn:Ek. revert i Hi Ek. induction k as [|k IH]; intros i Hi Ek; simpl.
  - replace i with (es buf) by lia. by rewrite ch_end.
  - destruct (in_str whitespace (ch buf i)) eqn:E; [apply IH; lia|done].
Qed.

Lemma gettoken_fin i : (i <= es buf)%nat -> exists tok q eq i', gettoken buf i = Done (tok, q, eq) i' /\
  (i <= i' <= es buf)%nat /\ (tok <> 0 -> (i < i')%nat) /\ (ch buf (skip buf i) <> 0 -> tok <> 0).
Proof.
  intros Hi. pose proof (skip_bound i Hi) as Hq. pose proof (skip_stops i Hi) as Hw. unfold gettoken.
  set (q := skip buf i) in *. enough (exists tok eq, token_at buf q = (tok, eq) /\ (q <= eq <= es buf)%nat /\
    (tok <> 0 -> (q < eq)%nat) /\ (ch buf q <> 0 -> tok <> 0)) as (tok & eq & -> & Heq & Hne & Hc).
  { exists tok, q, eq, (skip buf eq). pose proof (skip_bound eq ltac:(lia)). split; [done|]. split; [lia|]. split; [|done].
    intros Htok. specialize (Hne Htok). lia. }
  assert (ch buf q <> 0 -> (q < es buf)%nat) as Hlt by (intros Hc; destruct (decide (q = es buf)) as [E|]; [by rewrite E, ch_end in Hc|lia]).
  unfold token_at. destruct (Z.eqb_spec (ch buf q) 0) as [E|Hc]; [exists 0, q; split; [done|]; split; [lia|done]|].
  specialize (Hlt Hc). destruct (in_str [124; 40; 41; 59; 38; 60] (ch buf q)) eqn:Es.
  { exists (ch buf q), (q + 1)%nat. split; [done|]. split; [lia|]. split; [lia|done]. }
  destruct (Z.eqb_spec (ch buf q) 62) as [E62|H62].
  { destruct (Z.eqb_spec (ch buf (q + 1)) 62) as [E1|_].
    - assert (q + 1 <> es buf)%nat by (intros E; by rewrite E, ch_end in E1).
      exists 43, (q + 2)%nat. split; [done|]. split; [lia|]. split; [lia|done].
    - exists 62, (q + 1)%nat. split; [done|]. split; [lia|]. split; [lia|done]. }
  exists 97, (skip_word buf q). split; [done|]. enough (q < skip_word buf q <= es buf)%nat by (split; [lia|]; split; [lia|done]).
  unfold skip_word. replace (es buf - q)%nat with (S (es buf - q - 1)) by lia. simpl.
  assert (in_word (ch buf q) = true) as ->.
  { unfold in_word. rewrite Hw. simpl. apply negb_true_iff. unfold in_str, symbols in *. simpl in *.
    repeat (apply orb_false_iff in Es as [? Es]). repeat (apply orb_false_iff; split); first [done|by apply Z.eqb_neq]. }
  pose proof (skip_while_bound in_word (es buf - q - 1) (q + 1)). lia.
Qed.

(** peek() ends; when it says yes, the token there is not the end of the line. *)
Lemma peek_bind {A} toks (f : bool -> M nat A) i : (i <= es buf)%nat ->
  (forall i', (i <= i' <= es buf)%nat -> fin (f false) i') ->
  (forall i' tok q eq i2, (i <= i' < i2)%nat -> (i2 <= es buf)%nat -> gettoken buf i' = Done (tok, q, eq) i2 -> fin (f true) i') ->
  fin (bind (peek buf toks) f) i.
Proof.
  intros Hi Hf Ht. pose proof (skip_bound i Hi) as Hs. apply fin_bind; [by unfold fin; simpl|].
  intros r i' [= <- <-] Hi'. destruct (_ && _) eqn:E; [|by apply Hf]. apply andb_true_iff in E as [E%negb_true_iff%Z.eqb_neq _].
  destruct (gettoken_fin (skip buf i) ltac:(lia)) as (tok & q & eq & i2 & Eg & Hb & Hne & Hc).
  assert (skip buf (skip buf i) = skip buf i) as Es.
  { pose proof (skip_stops i Hi) as Hw. unfold skip at 1. destruct (es buf - skip buf i)%nat; [done|]. simpl. by rewrite Hw. }
  rewrite Es in Hc. eapply Ht; [|apply Hb|exact Eg]. specialize (Hne (Hc E)). lia.
Qed.

Lemma parseredirs_fin k c i : (i <= es buf)%nat -> (es buf - i < k)%nat -> fin (parseredirs buf k c) i.
Proof.
  revert c i. induction k as [|k IH]; intros c i Hi Hk; [lia|]. simpl. apply peek_bind; [done|intros i' Hi'; unfold fin; simpl; lia|].
  intros i' tok q eq i2 Hi' Hi2 E. apply fin_bind; [unfold fin; rewrite E; lia|]. intros t i3 Et _. rewrite E in Et. injection Et as <- <-.
  destruct (gettoken_fin i2 Hi2) as (tok' & q' & eq' & i4 & E4 & Hi4 & _).
  apply fin_bind; [unfold fin; rewrite E4; lia|]. intros t i5 Et _. rewrite E4 in Et. injection Et as <- <-.
  destruct (negb (tok' =? 97)); [by apply fin_panic|]. apply IH; lia.
Qed.

Lemma parseback_fin k c i : (i <= es buf)%nat -> (es buf - i < k)%nat -> fin (parseback buf k c) i.
Proof.
  revert c i. induction k as [|k IH]; intros c i Hi Hk; [lia|]. simpl. apply peek_bind; [done|intros i' Hi'; unfold fin; simpl; lia|].
  intros i' tok q eq i2 Hi' Hi2 E. apply fin_bind; [unfold fin; rewrite E; lia|]. intros t i3 Et _. rewrite E in Et. injection Et as <- <-.
  apply IH; lia.
Qed.

Lemma parseargs_fin k argc c i : (i <= es buf)%nat -> (es buf - i < k)%nat -> fin (parseargs buf k argc c) i.
Proof.
  revert argc c i. induction k as [|k IH]; intros argc c i Hi Hk; [lia|]. cbn [parseargs].
  apply peek_bind; [done| |by intros i' tok q eq i2 Hi' Hi2 _; unfold fin; simpl; lia].
  intros i' Hi'. destruct (gettoken_fin i' ltac:(lia)) as (tok & q & eq & i2 & E & Hi2 & Hne & _).
  apply fin_bind; [unfold fin; rewrite E; lia|]. intros t i3 Et _. rewrite E in Et. injection Et as <- <-.
  destruct (Z.eqb_spec tok 0) as [|H0]; [unfold fin; simpl; lia|]. specialize (Hne H0). destruct (negb (tok =? 97)); [by apply fin_panic|].
  cbn zeta. destruct (MAXARGS <=? S argc)%nat; [by apply fin_panic|].
  apply fin_bind; [apply parseredirs_fin; lia|]. intros c' i4 _ Hi4. apply IH; lia.
Qed.

Lemma parse_fin k i : (i <= es buf)%nat ->
  ((4 * (es buf - i) + 4 <= k)%nat -> fin (parseline buf k) i) /\
  ((4 * (es buf - i) + 3 <= k)%nat -> fin (parsepipe buf k) i) /\
  ((4 * (es buf - i) + 2 <= k)%nat -> fin (parseexec buf k) i) /\
  ((4 * (es buf - i) + 1 <= k)%nat -> fin (parseblock buf k) i).
Proof.
  revert i. induction k as [|k IH]; intros i Hi; [lia|].
  split; [|split; [|split]]; intros Hk; cbn [parseline parsepipe parseexec parseblock].
  - apply fin_bind; [apply IH; lia|]. intros c i1 _ Hi1. apply fin_bind; [apply parseback_fin; lia|]. intros c' i2 _ Hi2.
    apply peek_bind; [lia|intros i3 Hi3; unfold fin; simpl; lia|]. intros i3 tok q eq i4 Hi3 Hi4 E.
    apply fin_bind; [unfold fin; rewrite E; lia|]. intros t i5 Et _. rewrite E in Et. injection Et as <- <-.
    apply fin_bind; [apply IH; lia|]. intros c2 i6 _ Hi6. unfold fin. simpl. lia.
  - apply fin_bind; [apply IH; lia|]. intros c i1 _ Hi1.
    apply peek_bind; [lia|intros i3 Hi3; unfold fin; simpl; lia|]. intros i3 tok q eq i4 Hi3 Hi4 E.
    apply fin_bind; [unfold fin; rewrite E; lia|]. intros t i5 Et _. rewrite E in Et. injection Et as <- <-.
    apply fin_bind; [apply IH; lia|]. intros c2 i6 _ Hi6. unfold fin. simpl. lia.
  - apply peek_bind; [done| |intros i1 tok q eq i2 Hi1 Hi2 _; apply IH; lia]. intros i1 Hi1.
    apply fin_bind; [apply parseredirs_fin; lia|]. intros c i2 _ Hi2. apply parseargs_fin; lia.
  - apply peek_bind; [done|by intros i1 Hi1; apply fin_panic|]. intros i1 tok q eq i2 Hi1 Hi2 E. cbn [negb].
    apply fin_bind; [unfold fin; rewrite E; lia|]. intros t i3 Et _. rewrite E in Et. injection Et as <- <-.
    apply fin_bind; [apply IH; lia|]. intros c i4 _ Hi4.
    apply peek_bind; [lia|by intros i5 Hi5; apply fin_panic|]. intros i5 tok' q' eq' i6 Hi5 Hi6 E'. cbn [negb].
    apply fin_bind; [unfold fin; rewrite E'; lia|]. intros t i7 Et _. rewrite E' in Et. injection Et as <- <-.
    apply parseredirs_fin; lia.
Qed.
End termination.

(** C19. The parser ends on every line, with the fuel that main() gives it: it returns a tree and a
    place in the line, or it stops with one of its error messages. *)
Theorem parseline_terminates line : match parseline (line ++ [0]) (4 * length line + 8) 0%nat with
  | Done _ i => (i <= length line)%nat
  | Panic msg => msg ∈ parse_errors
  | _ => False
  end.
Proof.
  assert (es (line ++ [0]) = length line) as He by (unfold es; rewrite length_app; simpl; lia).
  destruct (parse_fin line (4 * length line + 8) 0 ltac:(lia)) as (H & _). specialize (H ltac:(lia)). unfold fin in H.
  destruct (parseline _ _ _) as [c i| | | | |]; try done. lia.
Qed.
