(* ===== verification/Lapic.v ===== *)
(** * The local APIC, the clock, and the interrupt controllers left unused (lapic.c, picirq.c)

    The APIC's registers are words of memory behind the pointer [lapic], the clock's are read
    through two ports.  Both are reached through the class [Ports]. *)
From S2P Require Import Prelude Mmu KString Pages Trap Device.

(** The static [lapic] of lapic.c: null until mpinit() has found the table. *)
Class HasLapic (S : Type) := { lapic_lens : lens S Z; lapic_lens_laws :: LensLaws lapic_lens }.

(** Register indices (words). *)
Definition ID : Z := 0x0020 / 4.
Definition VER : Z := 0x0030 / 4.
Definition TPR : Z := 0x0080 / 4.
Definition EOI : Z := 0x00B0 / 4.
Definition SVR : Z := 0x00F0 / 4.
Definition ENABLE : Z := 0x00000100.
Definition ESR : Z := 0x0280 / 4.
Definition ICRLO : Z := 0x0300 / 4.
Definition INIT : Z := 0x00000500.
Definition STARTUP : Z := 0x00000600.
Definition DELIVS : Z := 0x00001000.
Definition ASSERT : Z := 0x00004000.
Definition LEVEL : Z := 0x00008000.
Definition BCAST : Z := 0x00080000.
Definition ICRHI : Z := 0x0310 / 4.
Definition TIMER : Z := 0x0320 / 4.
Definition X1 : Z := 0x0000000B.
Definition PERIODIC : Z := 0x00020000.
Definition PCINT : Z := 0x0340 / 4.
Definition LINT0 : Z := 0x0350 / 4.
Definition LINT1 : Z := 0x0360 / 4.
Definition ERROR : Z := 0x0370 / 4.
Definition MASKED : Z := 0x00010000.
Definition TICR : Z := 0x0380 / 4.
Definition TDCR : Z := 0x03E0 / 4.

Definition CMOS_PORT : Z := 0x70.
Definition CMOS_RETURN : Z := 0x71.
Definition CMOS_STATA : Z := 0x0a.
Definition CMOS_STATB : Z := 0x0b.
Definition CMOS_UIP : Z := Z.shiftl 1 7.
Definition SECS : Z := 0x00.
Definition MINS : Z := 0x02.
Definition HOURS : Z := 0x04.
Definition DAY : Z := 0x07.
Definition MONTH : Z := 0x08.
Definition YEAR : Z := 0x09.

(** date.h *)
Record rtcdate := MkDate { second : Z; minute : Z; hour : Z; day : Z; month : Z; year : Z }.
#[export] Instance rtcdate_eq_dec : EqDecision rtcdate.
Proof. solve_decision. Defined.

(** CONV, on every field. *)
Definition bcd_value (x : Z) : Z := u32 (Z.shiftr x 4 * 10 + Z.land x 0xf).
Definition conv (t : rtcdate) : rtcdate :=
  MkDate (bcd_value (second t)) (bcd_value (minute t)) (bcd_value (hour t)) (bcd_value (day t))
    (bcd_value (month t)) (bcd_value (year t)).

(** What cmostime() makes of the bytes it has read: [bcd] is the coding of the clock. *)
Definition finish (bcd : bool) (t : rtcdate) : rtcdate :=
  let t := if bcd then conv t else t in
  MkDate (second t) (minute t) (hour t) (day t) (month t) (u32 (year t + 2000)).

Definition IO_PIC1 : Z := 0x20.
Definition IO_PIC2 : Z := 0xA0.

Section lapic.
Context {S : Type} `{!Ports S} `{!HasLapic S}.

Definition the_lapic : M S Z := gets (view lapic_lens).
Definition lapicr (index : Z) : M S Z := let* p := the_lapic in reg_read (p + 4 * index).
(** The write, then a read of ID to wait for it. *)
Definition lapicw (index value : Z) : M S unit :=
  let* p := the_lapic in
  reg_write (p + 4 * index) (u32 value);;;
  let* _ := lapicr ID in ret tt.

(** [while(lapic[ICRLO] & DELIVS)], at most [k] rounds. *)
Fixpoint delivs_wait (k : nat) : M S unit :=
  let* v := lapicr ICRLO in
  if Z.land v DELIVS =? 0 then ret tt else
  match k with O => nofuel | Datatypes.S k' => delivs_wait k' end.

Definition lapicinit (k : nat) : M S unit :=
  let* p := the_lapic in
  if p =? 0 then ret tt else
  lapicw SVR (Z.lor ENABLE (T_IRQ0 + IRQ_SPURIOUS));;;
  lapicw TDCR X1;;;
  lapicw TIMER (Z.lor PERIODIC (T_IRQ0 + IRQ_TIMER));;;
  lapicw TICR 10000000;;;
  lapicw LINT0 MASKED;;;
  lapicw LINT1 MASKED;;;
  let* v := lapicr VER in
  when (4 <=? Z.land (Z.shiftr v 16) 0xFF) (lapicw PCINT MASKED);;;
  lapicw ERROR (T_IRQ0 + IRQ_ERROR);;;
  lapicw ESR 0;;;
  lapicw ESR 0;;;
  lapicw EOI 0;;;
  lapicw ICRHI 0;;;
  lapicw ICRLO (Z.lor (Z.lor BCAST INIT) LEVEL);;;
  delivs_wait k;;;
  lapicw TPR 0.

(** lapicid(): what the machine of Spinlock.v calls [lapicid]. *)
Definition lapic_id : M S Z :=
  let* p := the_lapic in
  if p =? 0 then ret 0 else let* v := lapicr ID in ret (Z.shiftr v 24).

Definition lapic_eoi : M S unit :=
  let* p := the_lapic in when (negb (p =? 0)) (lapicw EOI 0).

(** [wrv[0] = 0; wrv[1] = addr >> 4] *)
Definition warm_reset (addr : Z) (m : mem) : mem :=
  let a := P2V (Z.lor (Z.shiftl 0x40 4) 0x67) in
  let v := Z.shiftr addr 4 in
  st8 (a + 3) (Z.shiftr v 8) (st8 (a + 2) v (st8 (a + 1) 0 (st8 a 0 m))).
Definition lapicstartap `{PageOps S} (apicid addr : Z) : M S unit :=
  outb CMOS_PORT 0xF;;;
  outb (CMOS_PORT + 1) 0x0A;;;
  modify (fun s => put kmem_lens (warm_reset addr (memory s)) s);;;
  lapicw ICRHI (Z.shiftl apicid 24);;;
  lapicw ICRLO (Z.lor (Z.lor INIT LEVEL) ASSERT);;;
  microdelay 200;;;
  lapicw ICRLO (Z.lor INIT LEVEL);;;
  microdelay 100;;;
  for_each (seqZ 0 2) (fun _ =>
    lapicw ICRHI (Z.shiftl apicid 24);;;
    lapicw ICRLO (Z.lor STARTUP (Z.shiftr addr 12));;;
    microdelay 200).

(** *** The clock *)
Definition cmos_read (reg : Z) : M S Z :=
  outb CMOS_PORT (u8 reg);;;
  microdelay 200;;;
  inb CMOS_RETURN.

Definition fill_rtcdate : M S rtcdate :=
  let* s := cmos_read SECS in
  let* m := cmos_read MINS in
  let* h := cmos_read HOURS in
  let* d := cmos_read DAY in
  let* mo := cmos_read MONTH in
  let* y := cmos_read YEAR in
  ret (MkDate s m h d mo y).

(** The [for(;;)], at most [k] rounds after the first. *)
Fixpoint cmos_loop (k : nat) : M S rtcdate :=
  let again := match k with O => nofuel | Datatypes.S k' => cmos_loop k' end in
  let* t1 := fill_rtcdate in
  let* a := cmos_read CMOS_STATA in
  if negb (Z.land a CMOS_UIP =? 0) then again else
  let* t2 := fill_rtcdate in
  if bool_decide (t1 = t2) then ret t1 else again.

Definition cmostime (k : nat) : M S rtcdate :=
  let* sb := cmos_read CMOS_STATB in
  let bcd := Z.land sb (Z.shiftl 1 2) =? 0 in
  let* t := cmos_loop k in
  ret (finish bcd t).

(** *** picirq.c *)
Definition picinit : M S unit :=
  outb (IO_PIC1 + 1) 0xFF;;;
  outb (IO_PIC2 + 1) 0xFF.
End lapic.

(** ** Specifications *)

(** The registers of a clock that shows [t], in binary or in BCD. *)
Definition to_bcd (x : Z) : Z := 16 * (x / 10) + x mod 10.
Definition code (bcd : bool) (x : Z) : Z := if bcd then to_bcd x else x.
Definition code_date (bcd : bool) (t : rtcdate) : rtcdate :=
  MkDate (code bcd (second t)) (code bcd (minute t)) (code bcd (hour t)) (code bcd (day t))
    (code bcd (month t)) (code bcd (year t)).
Definition date_ok (t : rtcdate) : Prop :=
  0 <= second t < 100 /\ 0 <= minute t < 100 /\ 0 <= hour t < 100 /\ 0 <= day t < 100 /\
  0 <= month t < 100 /\ 0 <= year t < 100.
Definition register (bcd : bool) (t : rtcdate) (uip : bool) (r : Z) : Z :=
  if r =? CMOS_STATB then if bcd then 0 else 4
  else if r =? CMOS_STATA then if uip then CMOS_UIP else 0
  else if r =? SECS then code bcd (second t) else if r =? MINS then code bcd (minute t)
  else if r =? HOURS then code bcd (hour t) else if r =? DAY then code bcd (day t)
  else if r =? MONTH then code bcd (month t) else code bcd (year t).

(** A clock that shows [h n] (and is updating itself if [uip n]) at the [n]-th read of a register:
    [R n r s] when [n] reads have been made and register [r] is selected. *)
Class Clock {S} `{!Ports S} (bcd : bool) (h : nat -> rtcdate) (uip : nat -> bool) (R : nat -> Z -> S -> Prop) : Prop := {
  clock_select : forall n r r' s, R n r s -> 0 <= r' < 2 ^ 8 -> wp (outb CMOS_PORT r') (fun _ s' => R n r' s') s;
  clock_read : forall n r s, R n r s ->
    wp (inb CMOS_RETURN) (fun v s' => v = register bcd (h n) (uip n) r /\ R (Datatypes.S n) r s') s
}.

(** The time changes at most once during the thirteen reads from the [i]-th on. *)
Definition ticks_once (h : nat -> rtcdate) (i : nat) : Prop :=
  exists k, forall x, (i <= x <= i + 12)%nat -> h x = if (x <? k)%nat then h i else h (i + 12)%nat.

(** ** Lemmas *)
Lemma bcd_value_to_bcd x : 0 <= x < 100 -> bcd_value (to_bcd x) = x.
Proof.
  intros Hx. unfold bcd_value, to_bcd. rewrite Z.shiftr_div_pow2, (Z.land_ones _ 4) by lia.
  rewrite u32_small; Z.to_euclidean_division_equations; lia.
Qed.

Lemma code_inj bcd x y : code bcd x = code bcd y -> x = y.
Proof. destruct bcd; [|done]. simpl. unfold to_bcd. Z.to_euclidean_division_equations. lia. Qed.

Lemma code_date_inj bcd t t' : code_date bcd t = code_date bcd t' -> t = t'.
Proof. destruct t, t'. injection 1 as ??????. f_equal; by eapply code_inj. Qed.

Lemma finish_code bcd t : date_ok t ->
  finish bcd (code_date bcd t) = MkDate (second t) (minute t) (hour t) (day t) (month t) (year t + 2000).
Proof.
  destruct t. unfold date_ok. simpl. intros (? & ? & ? & ? & ? & ?). unfold finish, conv, code_date.
  destruct bcd; simpl; rewrite ?bcd_value_to_bcd by done; rewrite u32_small by lia; done.
Qed.

(** Six registers, read one after the other. *)
Definition torn (h : nat -> rtcdate) (n : nat) : rtcdate :=
  MkDate (second (h n)) (minute (h (n + 1)%nat)) (hour (h (n + 2)%nat)) (day (h (n + 3)%nat))
    (month (h (n + 4)%nat)) (year (h (n + 5)%nat)).

Lemma torn_const h n t : (forall x, (n <= x <= n + 5)%nat -> h x = t) -> torn h n = t.
Proof. intros Ht. unfold torn. rewrite !Ht by lia. by destruct t. Qed.

(** Two equal readings are a time the clock showed. *)
Lemma torn_equal h i : ticks_once h i -> torn h i = torn h (i + 7) -> exists j, (i <= j <= i + 12)%nat /\ torn h i = h j.
Proof.
  intros [k Hk] E. destruct (Nat.le_gt_cases k (i + 7)) as [Hle|Hgt].
  - exists (i + 12)%nat. split; [lia|]. rewrite E. apply torn_const. intros x Hx. rewrite Hk by lia.
    by rewrite (proj2 (Nat.ltb_ge _ _)) by lia.
  - exists i. split; [lia|]. apply torn_const. intros x Hx. rewrite Hk by lia.
    by rewrite (proj2 (Nat.ltb_lt _ _)) by lia.
Qed.

Section clock.
Context {S : Type} `{!Ports S} (bcd : bool) (h : nat -> rtcdate) (uip : nat -> bool) (R : nat -> Z -> S -> Prop) `{!Clock bcd h uip R}.

(** [n] reads have been made. *)
Definition after (n : nat) (s : S) : Prop := exists r, R n r s.

Lemma cmos_read_run n r s (Q : Z -> S -> Prop) : after n s -> 0 <= r < 2 ^ 8 ->
  (forall s', after (Datatypes.S n) s' -> Q (register bcd (h n) (uip n) r) s') -> wp (cmos_read r) Q s.
Proof.
  intros [r0 Hs] Hr HQ. unfold cmos_read, u8. rewrite Z.mod_small by done. apply wp_bind.
  eapply wp_mono; [|by eapply clock_select]. intros [] s1 H1. apply wp_bind, wp_ret.
  eapply wp_mono; [|by eapply clock_read]. intros v s2 [-> H2]. apply HQ. by exists r.
Qed.

Lemma fill_run n s (Q : rtcdate -> S -> Prop) : after n s ->
  (forall s', after (n + 6) s' -> Q (code_date bcd (torn h n)) s') -> wp fill_rtcdate Q s.
Proof.
  intros Hs HQ. unfold fill_rtcdate.
  do 6 (apply wp_bind; eapply cmos_read_run; [exact Hs|vm_compute; split; congruence|]; clear s Hs; intros s Hs).
  apply wp_ret. revert HQ Hs. unfold code_date, torn. rewrite <- !plus_n_Sm, Nat.add_0_r. simpl. auto.
Qed.

Context (N : nat) (Htick : forall i, ticks_once h i) (Hcalm : forall n, (N <= n)%nat -> uip n = false /\ h n = h N).

Lemma calm_torn n : (N <= n)%nat -> torn h n = torn h (n + 7).
Proof. intros Hn. rewrite !(torn_const h _ (h N)); [done|..]; intros x Hx; apply Hcalm; lia. Qed.

Lemma cmos_loop_run k n s : after n s -> (N <= n + k)%nat ->
  wp (cmos_loop k) (fun t s' => exists j, (n <= j)%nat /\ t = code_date bcd (h j)) s.
Proof.
  revert n s. induction k as [|k IH]; intros n s Hs Hk; cbn [cmos_loop];
    (apply wp_bind; eapply fill_run; [exact Hs|]; clear s Hs; intros s Hs;
     apply wp_bind; eapply cmos_read_run; [exact Hs|vm_compute; split; congruence|]; clear s Hs; intros s Hs).
  - assert (uip (n + 6)%nat = false) as -> by (apply Hcalm; lia). cbn -[fill_rtcdate bool_decide].
    apply wp_bind. eapply fill_run; [exact Hs|]. intros s' _. replace (Datatypes.S (n + 6)) with (n + 7)%nat by lia.
    rewrite bool_decide_eq_true_2 by (f_equal; apply calm_torn; lia). apply wp_ret. exists n. split; [lia|].
    f_equal. apply torn_const. intros x Hx. destruct (Hcalm x) as [_ ->]; [lia|]. symmetry. apply Hcalm. lia.
  - destruct (negb _).
    { eapply wp_mono; [|apply (IH (Datatypes.S (n + 6)) s Hs); lia]. intros t s' (j & Hj & ->). exists j. split; [lia|done]. }
    apply wp_bind. eapply fill_run; [exact Hs|]. clear s Hs. intros s Hs.
    replace (Datatypes.S (n + 6)) with (n + 7)%nat in * by lia. case_bool_decide as E.
    + apply wp_ret. destruct (torn_equal h n (Htick n) (code_date_inj _ _ _ E)) as (j & Hj & ->). exists j. split; [lia|done].
    + eapply wp_mono; [|apply (IH _ _ Hs); lia]. intros t s' (j & Hj & ->). exists j. split; [lia|done].
Qed.
End clock.

(** ** Theorems *)


(** A clock in BCD at the last second of 2023, which ticks at the fourth read. *)
Definition old_date : rtcdate := MkDate 59 59 23 31 12 23.
Definition new_date : rtcdate := MkDate 0 0 0 1 1 24.
Definition clock_h (n : nat) : rtcdate := if (n <? 4)%nat then old_date else new_date.
Definition clock_state : Type := nat * Z.
#[local] Instance clock_ports : Ports clock_state := {|
  inb p := fun s => Done (register true (clock_h s.1) false s.2) (Datatypes.S s.1, s.2);
  outb p v := fun s => Done tt (if p =? CMOS_PORT then (s.1, v) else s);
  insl _ _ := ret []; outsl _ _ := ret tt; reg_read _ := ret 0; reg_write _ _ := ret tt
|}.
#[local] Instance clock_ok : Clock (S := clock_state) true clock_h (fun _ => false) (fun n r s => s = (n, r)).
Proof. split; [by intros n r r' s -> Hr|by intros n r s ->]. Qed.

