(* ===== verification/Mp.v ===== *)
(** * Finding the processors (mp.c, mp.h)

    mpinit() looks for the MP floating pointer structure in the memory the BIOS left, checks the
    configuration table it points to, and walks the table's entries.  The structures are read from
    byte memory at the offsets mp.h gives them.  [cpus[0..ncpu)] is the list [cpus] of Spinlock.v. *)
From S2P Require Import Prelude Mmu KString Spinlock Pages Kalloc Vm Sched Process Device Lapic.

Definition NCPU : nat := 8.
Definition MPPROC : Z := 0x00.
Definition MPBUS : Z := 0x01.
Definition MPIOAPIC : Z := 0x02.
Definition MPIOINTR : Z := 0x03.
Definition MPLINTR : Z := 0x04.

(** struct mp *)
Definition sizeof_mp : Z := 16.
Definition mp_physaddr (m : mem) (p : Z) : Z := ld32 m (p + 4).
Definition mp_imcrp (m : mem) (p : Z) : Z := m (p + 12).
(** struct mpconf *)
Definition sizeof_mpconf : Z := 44.
Definition conf_length (m : mem) (p : Z) : Z := m (p + 4) + 2 ^ 8 * m (p + 5).
Definition conf_version (m : mem) (p : Z) : Z := m (p + 6).
Definition conf_lapicaddr (m : mem) (p : Z) : Z := ld32 m (p + 36).
(** struct mpproc, struct mpioapic *)
Definition sizeof_mpproc : Z := 20.
Definition sizeof_mpioapic : Z := 8.

(** [memcmp(p, s, 4) == 0] for a string of four characters. *)
Definition sig_at (m : mem) (p : Z) (s : list Z) : bool :=
  bool_decide (map (fun i => m (p + i)) (seqZ 0 4) = s).
Definition sig_MP : list Z := [95; 77; 80; 95].
Definition sig_PCMP : list Z := [80; 67; 77; 80].

(** sum(): the int sum of the bytes, returned as a byte. *)
Fixpoint sum_loop (m : mem) (addr : Z) (len : nat) (acc : Z) : Z :=
  match len with O => acc | S k => sum_loop m (addr + 1) k (acc + m addr) end.
Definition sum (m : mem) (addr len : Z) : Z := u8 (sum_loop m addr (Z.to_nat len) 0).

(** mpsearch1(): [k] structures of 16 bytes fit between [p] and the end. *)
Fixpoint mpsearch1_loop (m : mem) (k : nat) (p : Z) : option Z :=
  match k with
  | O => None
  | S k' =>
      if sig_at m p sig_MP && (sum m p sizeof_mp =? 0) then Some p else mpsearch1_loop m k' (p + sizeof_mp)
  end.
Definition mpsearch1 (m : mem) (a len : Z) : option Z :=
  mpsearch1_loop m (Z.to_nat ((len + sizeof_mp - 1) / sizeof_mp)) (P2V a).

Definition mpsearch (m : mem) : option Z :=
  let bda := P2V 0x400 in
  let p := Z.shiftl (Z.lor (Z.shiftl (m (bda + 0x0F)) 8) (m (bda + 0x0E))) 4 in
  let found := if negb (p =? 0) then mpsearch1 m p 1024
    else
      let p := Z.lor (Z.shiftl (m (bda + 0x14)) 8) (m (bda + 0x13)) * 1024 in
      mpsearch1 m (u32 (p - 1024)) 1024 in
  match found with
  | Some mp => Some mp
  | None => mpsearch1 m 0xF0000 0x10000
  end.

(** [Some (mp, conf)] when the table is usable. *)
Definition mpconfig (m : mem) : option (Z * Z) :=
  match mpsearch m with
  | None => None
  | Some mp =>
      if mp_physaddr m mp =? 0 then None else
      let conf := P2V (mp_physaddr m mp) in
      if negb (sig_at m conf sig_PCMP) then None
      else if negb (conf_version m conf =? 1) && negb (conf_version m conf =? 4) then None
      else if negb (sum m conf (conf_length m conf) =? 0) then None
      else Some (mp, conf)
  end.

(** The entry of [cpus] that mpinit() fills in, zero but for its APIC id; [ts] is in it. *)
Definition sizeof_cpu : Z := 176.
Definition new_cpu (cpus_sym : Z) (i : nat) (id : Z) : cpu :=
  MkCpu id (cpus_sym + Z.of_nat i * sizeof_cpu + 8) (MkTs 0 0 0)
    (replicate (Z.to_nat NSEGS) (MkSeg 0 0 0 0 0 0 0 0 0 0 0 0 0)) 0 0 false None.
Definition add_cpu (cpus_sym id : Z) (m : mach) : mach :=
  set_cpus (cpus m ++ [new_cpu cpus_sym (length (cpus m)) id]) m.

Section mp.
Context {S : Type} `{!Ports S} `{!HasDrivers S} `{!HasLapic S} `{PageOps S} `{!HasProc S} (cpus_sym : Z).

(** A processor beyond the [NCPU]-th is ignored. *)
Definition found_cpu (id : Z) (m : mach) : mach :=
  if (length (cpus m) <? NCPU)%nat then add_cpu cpus_sym id m else m.

(** The walk over the table from [p] to [e], at most [k] entries; the result is [ismp].  The
    [break] of an unknown entry leaves the switch only, so the loop looks at the entry again. *)
Fixpoint mp_loop (k : nat) (p e : Z) (ismp : bool) : M S bool :=
  if e <=? p then ret ismp else
  match k with
  | O => nofuel
  | Datatypes.S k' =>
      let* m := gets memory in
      if m p =? MPPROC then
        ptab (zoom pm_lens (modify (found_cpu (m (p + 1)))));;;
        mp_loop k' (u32 (p + sizeof_mpproc)) e ismp
      else if m p =? MPIOAPIC then
        drv_upd (set_ioapicid (m (p + 1)));;;
        mp_loop k' (u32 (p + sizeof_mpioapic)) e ismp
      else if (m p =? MPBUS) || (m p =? MPIOINTR) || (m p =? MPLINTR) then mp_loop k' (u32 (p + 8)) e ismp
      else mp_loop k' p e false
  end.

Definition mpinit (k : nat) : M S unit :=
  let* m := gets memory in
  match mpconfig m with
  | None => panic "Expect to run on an SMP"
  | Some (mp, conf) =>
      modify (put lapic_lens (conf_lapicaddr m conf));;;
      let* ismp := mp_loop k (u32 (conf + sizeof_mpconf)) (u32 (conf + conf_length m conf)) true in
      if negb ismp then panic "Didn't find a suitable machine" else
      let* m := gets memory in
      when (negb (mp_imcrp m mp =? 0)) (
        outb 0x22 0x70;;;
        let* v := inb 0x23 in
        outb 0x23 (Z.lor v 1))
  end.
End mp.

(** ** Specifications *)

(** What a configuration table lists. *)
Inductive entry :=
  | Processor (id : Z) (rest : list Z)
  | IoApic (id : Z) (rest : list Z)
  | Other (type : Z) (rest : list Z).
Definition entry_bytes (x : entry) : list Z :=
  match x with
  | Processor id rest => MPPROC :: id :: rest
  | IoApic id rest => MPIOAPIC :: id :: rest
  | Other type rest => type :: rest
  end.
Definition entry_ok (x : entry) : Prop :=
  match x with
  | Processor _ rest => length rest = 18%nat
  | IoApic _ rest => length rest = 6%nat
  | Other type rest => type ∈ [MPBUS; MPIOINTR; MPLINTR] /\ length rest = 7%nat
  end.
Definition table (es : list entry) : list Z := concat (map entry_bytes es).
Definition processors (es : list entry) : list Z :=
  omap (fun x => match x with Processor id _ => Some id | _ => None end) es.
Definition io_apics (es : list entry) : list Z :=
  omap (fun x => match x with IoApic id _ => Some id | _ => None end) es.

(** The table [cpus] for the APIC ids [ids], and [ioapicid], the last one seen. *)
Definition cpus_for (cpus_sym : Z) (ids : list Z) : list cpu := imap (new_cpu cpus_sym) (take NCPU ids).

(** The bytes [l] are at [p]. *)
Definition bytes_at (m : mem) (p : Z) (l : list Z) : Prop := forall i b, l !! i = Some b -> m (p + Z.of_nat i) = b.

(** ** Lemmas *)
Lemma bytes_at_app m p l l' : bytes_at m p (l ++ l') -> bytes_at m p l /\ bytes_at m (p + Z.of_nat (length l)) l'.
Proof.
  intros Hb. split; intros i b Hi.
  - apply Hb. by apply lookup_app_l_Some.
  - rewrite <- Z.add_assoc, <- Nat2Z.inj_add. apply Hb. rewrite lookup_app_r by lia. by rewrite Nat.add_comm, Nat.add_sub.
Qed.

Lemma bytes_at_0 m p b l : bytes_at m p (b :: l) -> m p = b.
Proof. intros Hb. rewrite <- (Hb 0%nat b) by done. by rewrite Z.add_0_r. Qed.
Lemma bytes_at_1 m p a b l : bytes_at m p (a :: b :: l) -> m (p + 1) = b.
Proof. intros Hb. by apply (Hb 1%nat). Qed.

Lemma cpus_for_length cpus_sym ids : length (cpus_for cpus_sym ids) = (NCPU `min` length ids)%nat.
Proof. unfold cpus_for. rewrite length_imap, length_take. done. Qed.

Lemma cpus_for_snoc cpus_sym ids id m : cpus m = cpus_for cpus_sym ids ->
  cpus (found_cpu cpus_sym id m) = cpus_for cpus_sym (ids ++ [id]).
Proof.
  intros E. unfold found_cpu. rewrite E, cpus_for_length. destruct (Nat.ltb_spec (NCPU `min` length ids) NCPU) as [Hl|Hl].
  - simpl. rewrite E, cpus_for_length. unfold cpus_for. rewrite Nat.min_r by lia.
    rewrite (take_ge ids), (take_ge (ids ++ [id])), imap_app by (rewrite ?length_app; simpl; lia).
    simpl. by rewrite Nat.add_0_r.
  - rewrite E. unfold cpus_for. by rewrite take_app_le by lia.
Qed.

Section walk.
Context {S : Type} `{!Ports S} `{!HasDrivers S} `{!HasLapic S} `{PageOps S} `{!HasProc S} (cpus_sym : Z).
Context `{!LensIndep proc_lens kmem_lens} `{!LensIndep drivers_lens kmem_lens} `{!LensIndep lapic_lens kmem_lens}.
Context `{!LensIndep proc_lens drivers_lens} `{!LensIndep proc_lens lapic_lens} `{!LensIndep drivers_lens lapic_lens}.
Context (m : mem) (io0 la : Z).

(** The tables after the entries with these processors and I/O APICs. *)
Definition found (ids ios : list Z) (s : S) : Prop :=
  memory s = m /\ cpus (pm (view proc_lens s)) = cpus_for cpus_sym ids /\
  dr_ioapicid (view drivers_lens s) = default io0 (last ios) /\ view lapic_lens s = la.

Lemma found_processor ids ios id s : found ids ios s -> exists s', found (ids ++ [id]) ios s' /\
  ptab (zoom pm_lens (modify (found_cpu cpus_sym id))) s = Done tt s'.
Proof.
  intros (Hm & Hc & Hi & Hl). eexists. split; [|reflexivity]. unfold found, memory. cbn [zoom_outcome].
  rewrite (indep_view_r (k := kmem_lens)), (indep_view_r (k := drivers_lens)), (indep_view_r (k := lapic_lens)), view_put.
  split_and!; [done| |done|done]. by apply cpus_for_snoc.
Qed.

Lemma found_io ids ios id s : found ids ios s -> exists s', found ids (ios ++ [id]) s' /\
  drv_upd (set_ioapicid id) s = Done tt s'.
Proof.
  intros (Hm & Hc & Hi & Hl). eexists. split; [|reflexivity]. unfold found, memory.
  rewrite view_put, (indep_view_l (l := proc_lens)), (indep_view_r (k := kmem_lens)), (indep_view_r (k := lapic_lens)).
  split_and!; [done|done|by rewrite last_snoc|done].
Qed.

Definition entry_size (x : entry) : Z := match x with Processor _ _ => 20 | _ => 8 end.
Lemma entry_bytes_length x : entry_ok x -> Z.of_nat (length (entry_bytes x)) = entry_size x.
Proof. destruct x as [id r|id r|t r]; simpl; [intros ->|intros ->|intros [_ ->]]; done. Qed.

Lemma table_length x es : entry_ok x ->
  Z.of_nat (length (table (x :: es))) = entry_size x + Z.of_nat (length (table es)).
Proof. intros Hx. unfold table. simpl. rewrite length_app, Nat2Z.inj_add. by rewrite entry_bytes_length. Qed.

(** One entry: the loop goes on behind it. *)
Lemma mp_entry x es k p e ismp ids ios s : found ids ios s -> bytes_at m p (table (x :: es)) -> entry_ok x ->
  0 <= p -> p < e -> p + entry_size x < 2 ^ 32 ->
  exists s', found (ids ++ processors [x]) (ios ++ io_apics [x]) s' /\
    mp_loop cpus_sym (Datatypes.S k) p e ismp s = mp_loop cpus_sym k (p + entry_size x) e ismp s'.
Proof.
  intros Hf Hb Hx Hp He Hw. cbn [mp_loop]. rewrite (proj2 (Z.leb_gt e p)) by done.
  unfold bind at 1. cbn [gets bind_outcome]. assert (memory s = m) as -> by apply Hf.
  destruct x as [id r|id r|t r]; cbn [table map concat entry_bytes app] in Hb; rewrite (bytes_at_0 _ _ _ _ Hb).
  - rewrite Z.eqb_refl, (bytes_at_1 _ _ _ _ _ Hb). destruct (found_processor _ _ id s Hf) as (s' & Hf' & E).
    exists s'. simpl processors. simpl io_apics. rewrite app_nil_r. split; [done|]. unfold bind at 1. rewrite E. cbn [bind_outcome].
    by rewrite u32_small by (unfold sizeof_mpproc; simpl in Hw; lia).
  - change (MPIOAPIC =? MPPROC) with false. rewrite Z.eqb_refl, (bytes_at_1 _ _ _ _ _ Hb).
    destruct (found_io _ _ id s Hf) as (s' & Hf' & E).
    exists s'. simpl processors. simpl io_apics. rewrite app_nil_r. split; [done|]. unfold bind at 1. rewrite E. cbn [bind_outcome].
    by rewrite u32_small by (unfold sizeof_mpioapic; simpl in Hw; lia).
  - exists s. simpl processors. simpl io_apics. rewrite !app_nil_r. split; [done|].
    destruct Hx as [Ht _]. assert (t = MPBUS \/ t = MPIOINTR \/ t = MPLINTR) as Ht' by set_solver.
    destruct Ht' as [->|[->| ->]]; simpl; by rewrite u32_small by (simpl in Hw; lia).
Qed.

Lemma mp_loop_run es k p ids ios s : found ids ios s -> bytes_at m p (table es) -> Forall entry_ok es -> 0 <= p ->
  p + Z.of_nat (length (table es)) < 2 ^ 32 -> (length es <= k)%nat ->
  wp (mp_loop cpus_sym k p (p + Z.of_nat (length (table es))) true)
    (fun r s' => r = true /\ found (ids ++ processors es) (ios ++ io_apics es) s') s.
Proof.
  revert k p ids ios s. induction es as [|x es IH]; intros k p ids ios s Hf Hb Hes Hp Hw Hk.
  - simpl. rewrite Z.add_0_r. destruct k; simpl; rewrite Z.leb_refl; apply wp_ret; by rewrite !app_nil_r.
  - apply Forall_cons in Hes as [Hx Hes]. destruct k as [|k]; [simpl in Hk; lia|].
    rewrite (table_length x es Hx) in *. assert (0 < entry_size x) by (by destruct x).
    edestruct (mp_entry x es k p (p + (entry_size x + Z.of_nat (length (table es)))) true) as (s' & Hf' & E);
      [exact Hf|exact Hb|done|done|lia|lia|]. unfold wp. rewrite E, Z.add_assoc.
    apply bytes_at_app in Hb as [_ Hb]. rewrite (entry_bytes_length x Hx) in Hb.
    eapply (wp_mono _ _ _ s'); [|apply (IH k _ _ _ s' Hf' Hb Hes); [lia|lia|simpl in Hk; lia]].
    intros r s1 [-> Hf1]. split; [done|]. rewrite <- !app_assoc in Hf1. unfold processors, io_apics in *.
    by rewrite <- !omap_app in Hf1.
Qed.

(** An entry of another type stops the loop for good. *)
Lemma mp_loop_stuck es t rest k p e ismp ids ios s : found ids ios s -> bytes_at m p (table es ++ t :: rest) ->
  Forall entry_ok es -> t ∉ [MPPROC; MPBUS; MPIOAPIC; MPIOINTR; MPLINTR] -> 0 <= p ->
  p + Z.of_nat (length (table es)) < e -> e < 2 ^ 32 -> mp_loop cpus_sym k p e ismp s = NoFuel.
Proof.
  revert p ids ios s ismp es. induction k as [|k IH]; intros p ids ios s ismp es Hf Hb Hes Ht Hp He Hw.
  { cbn [mp_loop]. by rewrite (proj2 (Z.leb_gt e p)) by lia. }
  destruct es as [|x es].
  - cbn [mp_loop]. rewrite (proj2 (Z.leb_gt e p)) by (simpl in He; lia).
    unfold bind at 1. cbn [gets bind_outcome]. assert (memory s = m) as -> by apply Hf.
    rewrite (bytes_at_0 _ _ _ _ Hb). rewrite !(proj2 (Z.eqb_neq t _)) by set_solver. simpl. by eapply (IH _ _ _ _ _ []).
  - apply Forall_cons in Hes as [Hx Hes]. rewrite (table_length x es Hx) in *.
    assert (0 < entry_size x) by (by destruct x). pose proof Hb as Hb'. unfold table in Hb'. cbn [map concat] in Hb'.
    rewrite <- app_assoc in Hb'. apply bytes_at_app in Hb' as [_ Hb']. rewrite (entry_bytes_length x Hx) in Hb'.
    apply bytes_at_app in Hb as [Hb _].
    edestruct (mp_entry x es k p e ismp) as (s' & Hf' & ->); [exact Hf|exact Hb|done|done|lia|lia|].
    eapply IH; [exact Hf'|exact Hb'|done|done|lia|lia|done].
Qed.
End walk.

Lemma mpconfig_conf m mp conf : mpconfig m = Some (mp, conf) -> 0 <= conf < 2 ^ 32.
Proof.
  unfold mpconfig. destruct (mpsearch m) as [p|]; [|done]. repeat (case_match; try done).
  intros [= _ <-]. apply u32_range.
Qed.

(** What the hardware does on its ports leaves these tables alone. *)
Class MpPorts {S} `{!Ports S} `{!HasDrivers S} `{!HasLapic S} `{PageOps S} `{!HasProc S} (cpus_sym : Z) : Prop := {
  mp_outb : forall m io0 la ids ios p v (s : S), found cpus_sym m io0 la ids ios s ->
    wp (outb p v) (fun _ s' => found cpus_sym m io0 la ids ios s') s;
  mp_inb : forall m io0 la ids ios p (s : S), found cpus_sym m io0 la ids ios s ->
    wp (inb p) (fun _ s' => found cpus_sym m io0 la ids ios s') s
}.

(** ** Theorems *)
Section mpinit.
Context {S : Type} `{!Ports S} `{!HasDrivers S} `{!HasLapic S} `{PageOps S} `{!HasProc S} (cpus_sym : Z).
Context `{!LensIndep proc_lens kmem_lens} `{!LensIndep drivers_lens kmem_lens} `{!LensIndep lapic_lens kmem_lens}.
Context `{!LensIndep proc_lens drivers_lens} `{!LensIndep proc_lens lapic_lens} `{!LensIndep drivers_lens lapic_lens}.

Lemma mpinit_start mp conf s : mpconfig (memory s) = Some (mp, conf) -> cpus (pm (view proc_lens s)) = [] ->
  found cpus_sym (memory s) (dr_ioapicid (view drivers_lens s)) (conf_lapicaddr (memory s) conf) [] []
    (put lapic_lens (conf_lapicaddr (memory s) conf) s).
Proof.
  intros Hc Hp. unfold found, memory. rewrite (indep_view_r (l := lapic_lens) (k := kmem_lens)).
  rewrite (indep_view_l (l := proc_lens)), (indep_view_l (l := drivers_lens)), view_put. done.
Qed.


(** mp.c: an entry of an unknown type does not end in the panic the code has for it: its [break]
    leaves the switch and not the loop, which looks at the same entry for ever. *)
Theorem mpinit_unknown_entry mp conf es t rest k (s : S) :
  mpconfig (memory s) = Some (mp, conf) -> cpus (pm (view proc_lens s)) = [] ->
  bytes_at (memory s) (conf + sizeof_mpconf) (table es ++ t :: rest) -> Forall entry_ok es ->
  t ∉ [MPPROC; MPBUS; MPIOAPIC; MPIOINTR; MPLINTR] ->
  sizeof_mpconf + Z.of_nat (length (table es)) < conf_length (memory s) conf ->
  conf + conf_length (memory s) conf < 2 ^ 32 -> mpinit cpus_sym k s = NoFuel.
Proof.
  intros Hc Hp Hb Hes Ht Hl Hw. unfold mpinit. unfold bind at 1. cbn [gets bind_outcome]. rewrite Hc.
  unfold bind at 1. cbn [modify bind_outcome]. pose proof (mpconfig_conf _ _ _ Hc) as Hr. unfold sizeof_mpconf in *.
  rewrite !u32_small by lia. unfold bind at 1.
  rewrite (mp_loop_stuck cpus_sym (memory s) (dr_ioapicid (view drivers_lens s)) (conf_lapicaddr (memory s) conf)
    es t rest k _ _ true [] []); [done|by eapply mpinit_start|done|done|done|lia|lia|lia].
Qed.
End mpinit.

(** A machine with two processors, an I/O APIC and a bus. *)
Definition table_w : list entry :=
  [Processor 0 (replicate 18 0); Processor 1 (replicate 18 0); IoApic 2 (replicate 6 0); Other 1 (replicate 7 0)].
Definition bios (x : Z) : Z :=
  let mp := sig_MP ++ [0; 241; 9; 0; 1; 4; 166; 0; 0; 0; 0; 0] in
  let conf := sig_PCMP ++ [100; 0; 4; 128] ++ replicate 26 0 ++ [4; 0; 0; 0; 224; 254; 0; 0; 0; 0] ++ table table_w in
  if x =? P2V 0x40F then 0x9F
  else if (P2V 0x9F000 <=? x) && (x <? P2V 0x9F010) then mp !!! Z.to_nat (x - P2V 0x9F000)
  else if (P2V 0x9F100 <=? x) && (x <? P2V 0x9F164) then conf !!! Z.to_nat (x - P2V 0x9F100)
  else 0.
Definition kernel_m : Type := pst * (drivers * (Z * mem)).
#[local] Instance proc_m : HasProc kernel_m := {| proc_lens := fst_lens |}.
#[local] Instance drivers_m : HasDrivers kernel_m := {| drivers_lens := compose_lens snd_lens fst_lens |}.
#[local] Instance lapic_m : HasLapic kernel_m := {| lapic_lens := compose_lens snd_lens (compose_lens snd_lens fst_lens) |}.
#[local] Instance page_m : PageOps kernel_m := {|
  kalloc := ret 0; kfree _ := ret tt; kmem_lens := compose_lens snd_lens (compose_lens snd_lens snd_lens) |}.
#[local] Instance ports_m : Ports kernel_m := {|
  inb _ := ret 0; outb _ _ := ret tt; insl _ _ := ret []; outsl _ _ := ret tt; reg_read _ := ret 0; reg_write _ _ := ret tt |}.
#[local] Instance indep_m1 : LensIndep (S := kernel_m) proc_lens kmem_lens. Proof. done. Qed.
#[local] Instance indep_m2 : LensIndep (S := kernel_m) drivers_lens kmem_lens. Proof. done. Qed.
#[local] Instance indep_m3 : LensIndep (S := kernel_m) lapic_lens kmem_lens. Proof. done. Qed.
#[local] Instance indep_m4 : LensIndep (S := kernel_m) proc_lens drivers_lens. Proof. done. Qed.
#[local] Instance indep_m5 : LensIndep (S := kernel_m) proc_lens lapic_lens. Proof. done. Qed.
#[local] Instance indep_m6 : LensIndep (S := kernel_m) drivers_lens lapic_lens. Proof. done. Qed.
#[local] Instance mp_ports_m cpus_sym : MpPorts (S := kernel_m) cpus_sym.
Proof. split; intros; by apply wp_ret. Qed.
Definition kernel_m0 : kernel_m := (set_pm (set_cpus [] mach_x) (pst_x []), (MkDrivers 0 0 0, (0, bios))).

