(* ===== verification/Kernel.v ===== *)
(** * The kernel assembled (main.c)

    The state of the whole kernel: every component's state side by side, over a machine [H] whose
    devices are the class [Hardware].  The instances below close every interface of the library with
    the functions the kernel links: the best-fit allocator, the buffer cache over the IDE driver, the
    log, the file system, the console as a device, the system calls, the interrupt handlers.  Then
    main(), mpenter(), startothers() and mpmain(), and what holds of the whole kernel. *)
From S2P Require Import Prelude Mmu KString Spinlock Pages Kalloc Vm Sched Process Syscall Trap.
From S2P Require Import Sleeplock Block Bio Log Fs Pipe File Exec Sysfile Device Ide Console Lapic Mp.

(** The machine's devices, and the fault address register. *)
Class Hardware (H : Type) := { hw_ports :: Ports H; hw_rcr2 : M H Z }.

(** Addresses the linker gives, and the interrupt entry points. *)
Record symbols := Symbols {
  sy_proc :> proc_symbols;
  sy_end : Z;                  (* end *)
  sy_cpus : Z;                 (* cpus *)
  sy_idt : Z;                  (* idt *)
  sy_entrypgdir : Z;           (* entrypgdir *)
  sy_mpenter : Z;              (* mpenter *)
  sy_other_start : Z;          (* _binary_entryother_start *)
  sy_other_size : Z;           (* _binary_entryother_size *)
  sy_vectors : Z -> Z          (* vectors[] of vectors.S *)
}.

Section state.
Context {H : Type}.

(** proc.c | kalloc.c's variables and memory | bio.c, ide.c, log.c | fs.c, file.c, pipe.c |
    trap.c, console.c | uart.c, kbd.c, lapic.c | the devices. *)
Definition kernel : Type :=
  pst * ((Z * Z * mem) * ((bcache * (ide_st * log_st)) * ((fs_st * (list file * gmap Z pipe)) *
    ((Z * cons_st) * ((drivers * Z) * H))))).

Definition k1 : lens kernel _ := snd_lens.
Definition k2 : lens kernel _ := compose_lens k1 snd_lens.
Definition k3 : lens kernel _ := compose_lens k2 snd_lens.
Definition k4 : lens kernel _ := compose_lens k3 snd_lens.
Definition k5 : lens kernel _ := compose_lens k4 snd_lens.

#[export] Instance k_proc : HasProc kernel := {| proc_lens := fst_lens |}.
#[export] Instance k_bio : HasBio kernel := {| bio_lens := compose_lens k2 (compose_lens fst_lens fst_lens) |}.
#[export] Instance k_ide : HasIde kernel := {| ide_lens := compose_lens k2 (compose_lens fst_lens (compose_lens snd_lens fst_lens)) |}.
#[export] Instance k_log : HasLog kernel := {| log_lens := compose_lens k2 (compose_lens fst_lens (compose_lens snd_lens snd_lens)) |}.
#[export] Instance k_fs : HasFs kernel := {| fs_lens := compose_lens k3 (compose_lens fst_lens fst_lens) |}.
#[export] Instance k_ftable : HasFtable kernel :=
  {| ftable_lens := compose_lens k3 (compose_lens fst_lens (compose_lens snd_lens fst_lens)) |}.
#[export] Instance k_pipes : HasPipes kernel :=
  {| pipes_lens := compose_lens k3 (compose_lens fst_lens (compose_lens snd_lens snd_lens)) |}.
#[export] Instance k_ticks : HasTicks kernel := {| ticks_lens := compose_lens k4 (compose_lens fst_lens fst_lens) |}.
#[export] Instance k_cons : HasCons kernel := {| cons_lens := compose_lens k4 (compose_lens fst_lens snd_lens) |}.
#[export] Instance k_drivers : HasDrivers kernel := {| drivers_lens := compose_lens k5 (compose_lens fst_lens fst_lens) |}.
#[export] Instance k_lapic : HasLapic kernel := {| lapic_lens := compose_lens k5 (compose_lens fst_lens snd_lens) |}.
Definition hw_lens : lens kernel H := compose_lens k5 snd_lens.

(** kalloc.c uses the locks of the machine the process table sees. *)
Definition kst_lens : lens kernel kst := Lens
  (fun s => let '(u, f, m) := fst (snd s) in MkKst (pm (fst s)) u f m)
  (fun t s => (set_pm (km t) (fst s), ((use_lock t, freelist t, kbytes t), snd (snd s)))).
#[export] Instance k_kst_laws : LensLaws kst_lens.
Proof. split; [by intros [? ? ? ?] s|by intros [[] [[[] ?] ?]]|by intros [] [] [? [[[] ?] ?]]]. Qed.
End state.
Arguments kernel : clear implicits.

Section kernel.
Context {H : Type} `{!Hardware H} (syms : symbols) (fuel : nat).

#[export] Instance k_ports : Ports (kernel H) := {|
  inb p := zoom hw_lens (inb p); outb p v := zoom hw_lens (outb p v); insl p n := zoom hw_lens (insl p n);
  outsl p bs := zoom hw_lens (outsl p bs); reg_read a := zoom hw_lens (reg_read a);
  reg_write a v := zoom hw_lens (reg_write a v) |}.
Definition k_pages : PageOps (kernel H) := zoom_pages (H := bestfit_ops (sy_end syms)) kst_lens.
Definition k_console : ConsoleOps (kernel H) := console_ops.
Definition k_disk : DiskOps (kernel H) := ide_ops fuel.
#[local] Existing Instances k_pages k_console k_disk.
Definition k_blocks : BlockOps (kernel H) := bio_ops fuel.
#[local] Existing Instance k_blocks.
Definition k_devsw : DevOps (kernel H) := console_dev fuel.
#[local] Existing Instance k_devsw.
Definition k_procfs : ProcFs (kernel H) := file_sys fuel.
#[local] Existing Instance k_procfs.
Definition k_sysfile : SysFile (kernel H) := file_calls fuel syms.
Definition k_devices : Devices (kernel H) := {|
  lapiceoi := lapic_eoi; Trap.ideintr := ide_intr fuel; kbdintr := console_kbdintr fuel;
  uartintr := console_uartintr fuel; rcr2 := zoom hw_lens hw_rcr2 |}.
#[local] Existing Instances k_sysfile k_devices.

Definition kernel_trap (t : trapframe) : M (kernel H) unit := trap syms fuel t.

(** ** main.c *)
Definition entry_code : Z := P2V 0x7000.

(** The boot page table: the first 4 MB at 0 and at KERNBASE, in two big pages. *)
Definition entrypgdir : list Z :=
  let e := Z.lor (Z.lor (Z.lor 0 PTE_P) PTE_W) PTE_PS in
  <[Z.to_nat (Z.shiftr KERNBASE PDXSHIFT) := e]> (<[0%nat := e]> (replicate (Z.to_nat NPDENTRIES) 0)).

(** [while(c->started == 0)]: the other CPUs run while this one waits. *)
Fixpoint started_wait (k : nat) (c : nat) : M (kernel H) unit :=
  let* x := ptab (zoom pm_lens (getopt (fun m => cpus m !! c))) in
  if negb (started x =? 0) then ret tt else
  switch;;;
  match k with O => nofuel | Datatypes.S k' => started_wait k' c end.

Definition start_other (c : nat) : M (kernel H) unit :=
  let* me := ptab (zoom pm_lens mycpu) in
  when (negb (c =? me)%nat) (
    let* stack := kalloc in
    wr32 (entry_code - 4) (u32 (stack + KSTACKSIZE));;;
    wr32 (entry_code - 8) (sy_mpenter syms);;;
    wr32 (entry_code - 12) (V2P (sy_entrypgdir syms));;;
    let* x := ptab (zoom pm_lens (getopt (fun m => cpus m !! c))) in
    lapicstartap (apicid x) (V2P entry_code);;;
    started_wait fuel c).

Definition startothers : M (kernel H) unit :=
  pokes entry_code (memmove entry_code (sy_other_start syms) (Z.to_nat (sy_other_size syms)));;;
  let* n := ptab (zoom pm_lens (gets (fun m => length (cpus m)))) in
  for_each (seq 0 n) start_other.

Definition mpmain : M (kernel H) unit :=
  let* a := ptab (zoom pm_lens cpuid) in
  let* b := ptab (zoom pm_lens cpuid) in
  cprintf ("cpu%d: starting %d" +:+ nl) [KNum a; KNum b];;;
  ptab (zoom pm_lens (idtinit (sy_idt syms)));;;
  ptab (zoom pm_lens (mycpu_write (set_started 1)));;;
  ptab (scheduler fuel).

Definition mpenter : M (kernel H) unit :=
  ptab switchkvm;;;
  ptab (zoom pm_lens seginit);;;
  lapicinit fuel;;;
  mpmain.

Definition main : M (kernel H) unit :=
  zoom kst_lens (BestFit.kinit1 (sy_end syms) (sy_end syms) (P2V (4 * 1024 * 1024)));;;
  kvmalloc syms;;;
  mpinit (sy_cpus syms) fuel;;;
  lapicinit fuel;;;
  ptab (zoom pm_lens seginit);;;
  picinit;;;
  ioapicinit;;;
  consoleinit;;;
  uartinit;;;
  ptab pinit;;;
  let* _ := tvinit (sy_vectors syms) in
  binit;;;
  fileinit;;;
  let* n := ptab (zoom pm_lens (gets (fun m => length (cpus m)))) in
  ide_init fuel (Z.of_nat n);;;
  startothers;;;
  zoom kst_lens (kinit2 (BestFit.kfree (sy_end syms)) (P2V (4 * 1024 * 1024)) (P2V PHYSTOP));;;
  userinit syms;;;
  mpmain.
End kernel.
