(* ===== verification/KernelInv.v ===== *)
(** * What every thread of the kernel keeps

    The two-queue invariant of the scheduler, through the whole of the assembled kernel: each
    function of each component keeps it wherever it hands the CPU over, and so do a trap, whatever
    it is, and the boot of every processor. *)
From S2P Require Import Prelude Mmu KString Spinlock Pages Kalloc Vm Sched Process Syscall Trap.
From S2P Require Import Sleeplock Block Bio Log Fs Pipe File Exec Sysfile Device Ide Console Lapic Mp Kernel.

#[local] Hint Constants Opaque : kern.
#[local] Hint Extern 1 (preserves mlfq_inv (zoom _ _)) => apply mlfq_zoom : kern.

Section keeps.
Context {H : Type} `{!Hardware H} (syms : symbols) (fuel : nat).
#[local] Instance pages : PageOps (kernel H) := k_pages syms.
#[local] Instance console : ConsoleOps (kernel H) := k_console.
#[local] Instance disk : DiskOps (kernel H) := k_disk fuel.
#[local] Instance blocks : BlockOps (kernel H) := k_blocks fuel.
#[local] Instance devsw : DevOps (kernel H) := k_devsw fuel.
#[local] Instance procfs : ProcFs (kernel H) := k_procfs syms fuel.
#[local] Instance sysfile : SysFile (kernel H) := k_sysfile syms fuel.
#[local] Instance devices : Devices (kernel H) := k_devices fuel.

Definition queues_ok (s : kernel H) : Prop := mlfq_inv (view proc_lens s).

(** A component that is not the process table may change in any way. *)
Lemma keep_modify f : (forall s, ptable (fst (f s)) = ptable (fst s)) -> preserves queues_ok (modify f).
Proof. intros Hf. apply preserves_modify. intros s Hs. unfold queues_ok, mlfq_inv. simpl. by rewrite Hf. Qed.
Lemma keep_hw {A} (m : M H A) : preserves queues_ok (zoom hw_lens m).
Proof. by apply preserves_zoom. Qed.
Lemma keep_kst {A} (m : M kst A) : preserves queues_ok (zoom kst_lens m).
Proof. by apply preserves_zoom. Qed.
Lemma keep_ptab {A} (m : M pst A) : preserves mlfq_inv m -> preserves queues_ok (ptab m).
Proof. apply preserves_zoom_view. apply _. Qed.
#[local] Hint Extern 1 (preserves queues_ok (modify _)) => apply keep_modify; done : kern.
#[local] Hint Resolve keep_hw keep_kst : kern.

Ltac keep := preserve; try (apply keep_ptab; unfold curproc, myproc, kacquire, krelease, kinitlock, proc_at; mlfq).

(** *** The process table and memory *)
Lemma keep_wakeup ch : preserves mlfq_inv (wakeup ch).
Proof. unfold wakeup. mlfq. Qed.
Lemma keep_kill p : preserves mlfq_inv (kill p).
Proof. unfold kill. mlfq. Qed.
Hint Resolve keep_wakeup keep_kill : kern.
Lemma keep_curp : preserves queues_ok curp.
Proof. unfold curp. keep. Qed.
Hint Resolve keep_curp : kern.

(** *** Devices and the console *)
Lemma keep_inb p : preserves queues_ok (inb p). Proof. apply keep_hw. Qed.
Lemma keep_outb p v : preserves queues_ok (outb p v). Proof. apply keep_hw. Qed.
Lemma keep_insl p n : preserves queues_ok (insl p n). Proof. apply keep_hw. Qed.
Lemma keep_outsl p l : preserves queues_ok (outsl p l). Proof. apply keep_hw. Qed.
Lemma keep_reg_read a : preserves queues_ok (reg_read a). Proof. apply keep_hw. Qed.
Lemma keep_reg_write a v : preserves queues_ok (reg_write a v). Proof. apply keep_hw. Qed.
Hint Resolve keep_inb keep_outb keep_insl keep_outsl keep_reg_read keep_reg_write : kern.

Lemma keep_uartputc c : preserves queues_ok (uartputc c).
Proof.
  assert (forall k, preserves queues_ok (uart_wait k)) by (induction k; simpl; unfold microdelay; keep).
  unfold uartputc, drv. keep.
Qed.
Hint Resolve keep_uartputc : kern.
Lemma keep_cgaputc c : preserves queues_ok (cgaputc c).
Proof. unfold cgaputc, crt_set, crt_scroll, cons_upd. keep. Qed.
Hint Resolve keep_cgaputc : kern.
Lemma keep_consputc c : preserves queues_ok (consputc c).
Proof. unfold consputc, cons. keep. Qed.
Hint Resolve keep_consputc : kern.
Lemma keep_printint x b g : preserves queues_ok (printint x b g).
Proof. unfold printint. keep. Qed.
Hint Resolve keep_printint : kern.
Lemma keep_cprintf_loop fmt args : preserves queues_ok (cprintf_loop fmt args).
Proof.
  assert (forall n fmt args, (length fmt <= n)%nat -> preserves queues_ok (cprintf_loop fmt args)) as Hn.
  { clear. intros n. induction n as [|n IH]; intros [|c [|d fmt]] args Hl; simpl in Hl; try lia; cbn [cprintf_loop];
      keep; apply IH; simpl in *; lia. }
  by apply (Hn (length fmt)).
Qed.
Hint Resolve keep_cprintf_loop : kern.
Lemma keep_cprintf fmt args : preserves queues_ok (cprintf fmt args).
Proof. change (preserves queues_ok (console_printf fmt args)). unfold console_printf, cons. keep. Qed.
Lemma keep_console_printf fmt args : preserves queues_ok (console_printf fmt args).
Proof. apply keep_cprintf. Qed.
Hint Resolve keep_cprintf keep_console_printf : kern.

#[local] Instance keep_mem : MemFrame queues_ok.
Proof. split; [done| | |]; intros; [apply keep_kst|apply keep_kst|apply keep_cprintf]. Qed.

Lemma keep_procdump : preserves queues_ok procdump.
Proof.
  assert (forall l, preserves queues_ok (dump_pcs l)) by (intros l; induction l; simpl; keep).
  unfold procdump. generalize (seq 0 NPROC). intros l. keep.
Qed.
Hint Resolve keep_procdump : kern.
Lemma keep_kill_line k : preserves queues_ok (kill_line k).
Proof. induction k; simpl; unfold cons, input_upd, cons_upd; keep. Qed.
Hint Resolve keep_kill_line : kern.
Lemma keep_console_char c : preserves queues_ok (console_char c).
Proof. unfold console_char, cons, input_upd, cons_upd. keep. Qed.
Hint Resolve keep_console_char : kern.
Lemma keep_consoleintr k getc : preserves queues_ok getc -> preserves queues_ok (consoleintr k getc).
Proof.
  intros Hg. assert (forall b, preserves queues_ok (consoleintr_loop k getc b)) by (induction k; simpl; keep).
  unfold consoleintr. keep.
Qed.
Lemma keep_uartgetc : preserves queues_ok uartgetc.
Proof. unfold uartgetc, drv. keep. Qed.
Lemma keep_kbdgetc : preserves queues_ok kbdgetc.
Proof. unfold kbdgetc, drv, drv_upd. keep. Qed.
Lemma keep_lapic_eoi : preserves queues_ok lapic_eoi.
Proof. unfold lapic_eoi, lapicw, lapicr, the_lapic. keep. Qed.
Hint Resolve keep_lapic_eoi : kern.

(** *** Sleep locks, the disk and the buffer cache *)
Section sleeplocks.
Context {T : Type} (L : lens (kernel H) T) (r : slref T) (HL : forall t s, ptable (fst (put L t s)) = ptable (fst s)).
Lemma keep_sl_upd f : preserves queues_ok (sl_upd L r f).
Proof. unfold sl_upd, sl_get. apply preserves_bind; [apply preserves_getopt|]. intros _. by apply keep_modify. Qed.
Lemma keep_acquiresleep k : preserves queues_ok (acquiresleep L r k).
Proof.
  pose proof keep_sl_upd. assert (preserves queues_ok (acquiresleep_loop L r k)) by (induction k; simpl; unfold sl_get; keep).
  unfold acquiresleep. keep.
Qed.
Lemma keep_releasesleep : preserves queues_ok (releasesleep L r).
Proof. pose proof keep_sl_upd. unfold releasesleep, sl_get. keep. Qed.
Lemma keep_holdingsleep : preserves queues_ok (holdingsleep L r).
Proof. unfold holdingsleep, sl_get. keep. Qed.
Lemma keep_initsleeplock name : preserves queues_ok (initsleeplock L r name).
Proof. pose proof keep_sl_upd. unfold initsleeplock, sl_get. keep. Qed.
End sleeplocks.
#[local] Hint Extern 1 (preserves queues_ok (acquiresleep _ _ _)) => apply keep_acquiresleep; done : kern.
#[local] Hint Extern 1 (preserves queues_ok (releasesleep _ _)) => apply keep_releasesleep; done : kern.
#[local] Hint Extern 1 (preserves queues_ok (initsleeplock _ _ _)) => apply keep_initsleeplock; done : kern.
#[local] Hint Extern 1 (preserves queues_ok (holdingsleep _ _)) => apply keep_holdingsleep; done : kern.

Lemma keep_buf_upd i f : preserves queues_ok (buf_upd i f).
Proof. unfold buf_upd, buf_at. keep. Qed.
Hint Resolve keep_buf_upd : kern.
Lemma keep_idewait b : preserves queues_ok (idewait fuel b).
Proof. unfold idewait. generalize fuel. intros k. induction k; simpl; keep. Qed.
Hint Resolve keep_idewait : kern.
Lemma keep_idestart b : preserves queues_ok (idestart fuel b).
Proof. unfold idestart, buf_at. keep. Qed.
Hint Resolve keep_idestart : kern.
Lemma keep_ide_intr : preserves queues_ok (ide_intr fuel).
Proof. unfold ide_intr, ide, ide_upd, buf_at. keep. Qed.
Lemma keep_iderw i : preserves queues_ok (iderw i).
Proof.
  assert (forall k pp next, preserves queues_ok (queue_end k pp next)) by (intros k; induction k; simpl; unfold buf_at; keep).
  assert (forall k i, preserves queues_ok (ide_sleep k i)) by (intros k; induction k; simpl; unfold buf_at; keep).
  change (preserves queues_ok (ide_rw fuel i)). unfold ide_rw, ide, store_pp, ide_upd, buf_at. keep.
Qed.
Hint Resolve keep_ide_intr keep_iderw : kern.
Lemma keep_bread dev b : preserves queues_ok (bread dev b).
Proof.
  assert (forall k d n b, preserves queues_ok (find_cached k d n b)) by (intros k; induction k; simpl; unfold buf_at; keep).
  assert (forall k b, preserves queues_ok (find_unused k b)) by (intros k; induction k; simpl; unfold buf_at; keep).
  change (preserves queues_ok (bio_read fuel dev b)). unfold bio_read, bget, buf_at.
  generalize NBUF (Datatypes.S NBUF). intros n n'. keep.
Qed.
Lemma keep_bwrite h : preserves queues_ok (bwrite h).
Proof. change (preserves queues_ok (bio_write h)). unfold bio_write. keep. Qed.
Lemma keep_brelse h : preserves queues_ok (brelse h).
Proof. change (preserves queues_ok (bio_relse h)). unfold bio_relse, relink_front, buf_at. keep. Qed.
Lemma keep_bdata h : preserves queues_ok (bdata h).
Proof. unfold bdata, blocks, k_blocks, bio_ops, buf_at. keep. Qed.
Lemma keep_bset h f : preserves queues_ok (bset h f).
Proof. apply keep_buf_upd. Qed.
Lemma keep_bblockno h : preserves queues_ok (bblockno h).
Proof. unfold bblockno, blocks, k_blocks, bio_ops, buf_at. keep. Qed.
Lemma keep_bdirty h : preserves queues_ok (bdirty h).
Proof. apply keep_buf_upd. Qed.
Hint Resolve keep_bread keep_bwrite keep_brelse keep_bdata keep_bset keep_bblockno keep_bdirty : kern.

(** *** The log *)
Lemma keep_log_upd f : preserves queues_ok (log_upd f).
Proof. unfold log_upd. keep. Qed.
Hint Resolve keep_log_upd : kern.
Lemma keep_lh_put i b : preserves queues_ok (lh_put i b).
Proof. unfold lh_put, lh_at. keep. Qed.
Hint Resolve keep_lh_put : kern.
Lemma keep_readsb dev : preserves queues_ok (readsb dev).
Proof. unfold readsb. keep. Qed.
Lemma keep_install_trans : preserves queues_ok install_trans.
Proof.
  unfold install_trans. generalize LOGSIZE 0%nat. intros k. induction k; intros t; cbn [install_loop]; unfold the_log, lh_at; keep.
Qed.
Hint Resolve keep_readsb keep_install_trans : kern.
Lemma keep_read_head : preserves queues_ok read_head.
Proof.
  assert (forall k b i, preserves queues_ok (read_head_loop k b i))
    by (intros k; induction k; intros b i; cbn [read_head_loop]; unfold the_log, buf_word, lh_at; keep).
  unfold read_head, the_log, buf_word. keep.
Qed.
Lemma keep_write_head : preserves queues_ok write_head.
Proof.
  assert (forall k b i, preserves queues_ok (write_head_loop k b i))
    by (intros k; induction k; intros b i; cbn [write_head_loop]; unfold the_log, buf_set_word, lh_at; keep).
  unfold write_head, the_log, buf_set_word. keep.
Qed.
Hint Resolve keep_read_head keep_write_head : kern.
Lemma keep_initlog dev : preserves queues_ok (Log.initlog dev).
Proof. unfold Log.initlog, recover_from_log, the_log. keep. Qed.
Lemma keep_begin_op k : preserves queues_ok (Log.begin_op k).
Proof.
  assert (preserves queues_ok (begin_op_loop k)) by (induction k; simpl; unfold the_log; keep).
  unfold Log.begin_op. keep.
Qed.
Lemma keep_write_log : preserves queues_ok write_log.
Proof.
  unfold write_log. generalize LOGSIZE 0%nat. intros k. induction k; intros t; cbn [write_log_loop]; unfold the_log, lh_at; keep.
Qed.
Hint Resolve keep_write_log : kern.
Lemma keep_commit : preserves queues_ok commit.
Proof. unfold commit, the_log. keep. Qed.
Hint Resolve keep_commit : kern.
Lemma keep_end_op : preserves queues_ok Log.end_op.
Proof. unfold Log.end_op, the_log. keep. Qed.
Lemma keep_log_write b : preserves queues_ok (log_write b).
Proof.
  assert (forall k n i, preserves queues_ok (absorb_loop k n i)) by (intros k; induction k; simpl; unfold the_log, lh_at; keep).
  unfold log_write, the_log, lh_at. keep.
Qed.
Hint Resolve keep_initlog keep_begin_op keep_end_op keep_log_write : kern.

(** *** The file system *)
Lemma keep_ino_upd i f : preserves queues_ok (ino_upd i f).
Proof. unfold ino_upd, ino. keep. Qed.
Hint Resolve keep_ino_upd : kern.
Lemma keep_bzero dev b : preserves queues_ok (bzero dev b).
Proof. unfold bzero. keep. Qed.
Hint Resolve keep_bzero : kern.
Lemma keep_balloc dev : preserves queues_ok (balloc dev).
Proof.
  assert (forall k b, preserves queues_ok (balloc_loop k dev b)).
  { intros k. induction k as [|k IH]; intros b; cbn [balloc_loop]; generalize (Z.to_nat BPB); unfold the_sb; keep. }
  unfold balloc, the_sb. keep.
Qed.
Lemma keep_bfree dev b : preserves queues_ok (bfree dev b).
Proof. unfold bfree, the_sb. keep. Qed.
Hint Resolve keep_balloc keep_bfree : kern.
Lemma keep_iget dev inum : preserves queues_ok (iget dev inum).
Proof. unfold iget. keep. Qed.
Lemma keep_iupdate ip : preserves queues_ok (iupdate ip).
Proof. unfold iupdate, ino, the_sb. keep. Qed.
Hint Resolve keep_iget keep_iupdate : kern.
Lemma keep_ialloc dev type : preserves queues_ok (ialloc dev type).
Proof.
  assert (forall k i, preserves queues_ok (ialloc_loop k dev type i))
    by (intros k; induction k; intros i; cbn [ialloc_loop]; unfold the_sb; keep).
  unfold ialloc, the_sb. keep.
Qed.
Lemma keep_idup i : preserves queues_ok (Fs.idup i).
Proof. unfold Fs.idup. keep. Qed.
Lemma keep_ilock ip : preserves queues_ok (ilock fuel ip).
Proof. unfold ilock, ino, the_sb. keep. Qed.
Lemma keep_iunlock ip : preserves queues_ok (iunlock ip).
Proof. unfold iunlock, ino. keep. Qed.
Lemma keep_bmap ip bn : preserves queues_ok (bmap ip bn).
Proof. unfold bmap, ino. keep. Qed.
Lemma keep_itrunc ip : preserves queues_ok (itrunc ip).
Proof. unfold itrunc, ino. keep. Qed.
Hint Resolve keep_ialloc keep_idup keep_ilock keep_iunlock keep_bmap keep_itrunc : kern.
Lemma keep_iput ip : preserves queues_ok (Fs.iput fuel ip).
Proof. unfold Fs.iput, ino. keep. Qed.
Hint Resolve keep_iput : kern.
Lemma keep_iunlockput ip : preserves queues_ok (iunlockput fuel ip).
Proof. unfold iunlockput. keep. Qed.
Hint Resolve keep_iunlockput : kern.
Lemma keep_iinit dev : preserves queues_ok (Fs.iinit dev).
Proof. unfold Fs.iinit, the_sb. generalize (seq 0 NINODE). intros l. keep. Qed.
Hint Resolve keep_iinit : kern.

(** Where reads and writes put and find their bytes. *)
Definition sink_keeps {A} (dst : sink (kernel H) A) : Prop := forall a off bs, preserves queues_ok (dst a off bs).
Definition source_keeps (src : source (kernel H)) : Prop := forall off m, preserves queues_ok (src off m).

Lemma keep_consoleread {A} (dst : sink (kernel H) A) a ip n : sink_keeps dst -> preserves queues_ok (consoleread fuel dst a ip n).
Proof.
  intros Hd. assert (forall k, preserves queues_ok (consoleread_wait k))
    by (intros k; induction k; cbn [consoleread_wait]; unfold cons; keep).
  assert (forall n a t, preserves queues_ok (consoleread_loop fuel n dst a t)).
  { clear n a. intros n. induction n; intros a t; cbn [consoleread_loop]; unfold cons, input_upd, cons_upd; keep; apply Hd. }
  unfold consoleread. keep.
Qed.
Lemma keep_consolewrite src ip n : source_keeps src -> preserves queues_ok (consolewrite fuel src ip n).
Proof. intros Hs. unfold consolewrite. generalize (seqZ 0 n). intros l. keep; apply Hs. Qed.

Lemma keep_readi {A} (dst : sink (kernel H) A) a ip off n : sink_keeps dst -> preserves queues_ok (readi dst a ip off n).
Proof.
  intros Hd. assert (forall k a tot off n, preserves queues_ok (readi_loop k dst a ip tot off n))
    by (intros k; induction k; intros; cbn [readi_loop]; unfold ino; keep; apply Hd).
  unfold readi, ino. apply preserves_bind; [keep|]. intros x. destruct (dev_read (i_major x)) as [f|] eqn:E; [|keep].
  assert (forall n, preserves queues_ok (f A dst a ip n)) as Hf; [|keep].
  unfold dev_read, devsw, k_devsw, console_dev in E. destruct (_ =? CONSOLE); [|done]. injection E as <-.
  intros m. by apply keep_consoleread.
Qed.
Lemma keep_writei src ip off n : source_keeps src -> preserves queues_ok (writei src ip off n).
Proof.
  intros Hs. assert (forall k tot off n, preserves queues_ok (writei_loop k src ip tot off n))
    by (intros k; induction k; intros; cbn [writei_loop]; unfold ino; keep; apply Hs).
  unfold writei, ino. apply preserves_bind; [keep|]. intros x. destruct (dev_write (i_major x)) as [f|] eqn:E; [|keep].
  assert (forall n, preserves queues_ok (f src ip n)) as Hf; [|keep].
  unfold dev_write, devsw, k_devsw, console_dev in E. destruct (_ =? CONSOLE); [|done]. injection E as <-.
  intros m. by apply keep_consolewrite.
Qed.

Lemma keep_read_var v ip off n : preserves queues_ok (readi to_var v ip off n).
Proof. apply keep_readi. intros ???. apply preserves_ret. Qed.
Lemma keep_write_var v ip off n : preserves queues_ok (writei (from_var v) ip off n).
Proof. apply keep_writei. intros ??. apply preserves_ret. Qed.
Hint Resolve keep_read_var keep_write_var : kern.
Lemma keep_read_dirent msg dp de off : preserves queues_ok (read_dirent msg dp de off).
Proof. unfold read_dirent. keep. Qed.
Hint Resolve keep_read_dirent : kern.
Lemma keep_dirlookup dp name : preserves queues_ok (dirlookup dp name).
Proof.
  assert (forall k de off, preserves queues_ok (dirlookup_loop k dp name de off))
    by (intros k; induction k; intros; cbn [dirlookup_loop]; unfold ino; keep).
  unfold dirlookup, ino. keep.
Qed.
Hint Resolve keep_dirlookup : kern.
Lemma keep_dirlink dp name inum : preserves queues_ok (dirlink fuel dp name inum).
Proof.
  assert (forall k de off, preserves queues_ok (dirlink_loop k dp de off))
    by (intros k; induction k; intros; cbn [dirlink_loop]; unfold ino; keep).
  unfold dirlink, ino. keep.
Qed.
Lemma keep_namex path parent name : preserves queues_ok (namex fuel path parent name).
Proof.
  assert (forall k ip path name, preserves queues_ok (namex_loop fuel k ip path parent name)).
  { clear path name. intros k. induction k; intros ip path name; cbn [namex_loop]; destruct (skipelem path name) as [[p n]|];
      unfold ino; keep. }
  unfold namex. keep.
Qed.
Hint Resolve keep_dirlink keep_namex : kern.
Lemma keep_namei path : preserves queues_ok (Fs.namei fuel path).
Proof. unfold Fs.namei. keep. Qed.
Lemma keep_nameiparent path name : preserves queues_ok (nameiparent fuel path name).
Proof. unfold nameiparent. keep. Qed.
Lemma keep_stati ip : preserves queues_ok (stati ip).
Proof. unfold stati, ino. keep. Qed.
Hint Resolve keep_namei keep_nameiparent keep_stati : kern.

(** *** User memory, pipes and files *)
Lemma keep_uload8 d va : preserves queues_ok (uload8 d va).
Proof. apply preserves_getopt. Qed.
Lemma keep_ustore8 d va c : preserves queues_ok (ustore8 d va c).
Proof. unfold ustore8. keep. Qed.
Hint Resolve keep_uload8 keep_ustore8 : kern.
Lemma keep_user_load va : preserves queues_ok (user_load va).
Proof. unfold user_load, cur_pgdir. keep. Qed.
Lemma keep_user_store va c : preserves queues_ok (user_store va c).
Proof. unfold user_store, cur_pgdir. keep. Qed.
Hint Resolve keep_user_load keep_user_store : kern.
Lemma keep_user_stores va bs : preserves queues_ok (user_stores va bs).
Proof. revert va. induction bs; intros va; cbn [user_stores]; keep. Qed.
Lemma keep_user_loads va k : preserves queues_ok (user_loads va k).
Proof. revert va. induction k; intros va; cbn [user_loads]; keep. Qed.
Hint Resolve keep_user_stores keep_user_loads : kern.
Lemma keep_read_user addr ip off n : preserves queues_ok (readi (user_sink addr) tt ip off n).
Proof. apply keep_readi. intros ???. apply keep_user_stores. Qed.
Lemma keep_write_user addr ip off n : preserves queues_ok (writei (user_source addr) ip off n).
Proof. apply keep_writei. intros ??. apply keep_user_loads. Qed.
Hint Resolve keep_read_user keep_write_user : kern.
Lemma keep_pipe_upd p f : preserves queues_ok (pipe_upd p f).
Proof. unfold pipe_upd, pipe_at. keep. Qed.
Hint Resolve keep_pipe_upd : kern.
Lemma keep_pipeclose p w : preserves queues_ok (pipeclose p w).
Proof. unfold pipeclose, pipe_at. keep. Qed.
Lemma keep_pipewrite p addr n : preserves queues_ok (pipewrite fuel p addr n).
Proof.
  assert (forall k, preserves queues_ok (pipewrite_wait k p))
    by (intros k; induction k; cbn [pipewrite_wait]; unfold pipe_at, Pipe.cur_killed; keep).
  assert (forall m i, preserves queues_ok (pipewrite_loop fuel m p addr i))
    by (intros m; induction m; intros; cbn [pipewrite_loop]; unfold pipe_at, pipe_put; keep).
  unfold pipewrite. keep.
Qed.
Lemma keep_piperead p addr n : preserves queues_ok (piperead fuel p addr n).
Proof.
  assert (forall k, preserves queues_ok (piperead_wait k p))
    by (intros k; induction k; cbn [piperead_wait]; unfold pipe_at, Pipe.cur_killed; keep).
  assert (forall m i, preserves queues_ok (piperead_loop m p addr i))
    by (intros m; induction m; intros; cbn [piperead_loop]; unfold pipe_at; keep).
  unfold piperead. keep.
Qed.
Hint Resolve keep_pipeclose keep_pipewrite keep_piperead : kern.

Lemma keep_file_upd f g : preserves queues_ok (file_upd f g).
Proof. unfold file_upd, file_at. keep. Qed.
Hint Resolve keep_file_upd : kern.
Lemma keep_filealloc : preserves queues_ok filealloc.
Proof. unfold filealloc. keep. Qed.
Lemma keep_filedup f : preserves queues_ok (File.filedup f).
Proof. unfold File.filedup, file_at. keep. Qed.
Lemma keep_fileclose f : preserves queues_ok (File.fileclose fuel f).
Proof. unfold File.fileclose, file_at, deref. keep. Qed.
Lemma keep_stat_out st x : preserves queues_ok (stat_out st x).
Proof. unfold stat_out. keep. Qed.
Hint Resolve keep_stat_out : kern.
Lemma keep_filestat f st : preserves queues_ok (filestat fuel f st).
Proof. unfold filestat, file_at, deref. keep. Qed.
Lemma keep_fileread f addr n : preserves queues_ok (fileread fuel f addr n).
Proof. unfold fileread, file_at, deref. keep. Qed.
Lemma keep_filewrite f addr n : preserves queues_ok (filewrite fuel f addr n).
Proof.
  assert (forall k i, preserves queues_ok (filewrite_loop fuel k f addr n i)).
  { intros k. induction k; intros i; cbn [filewrite_loop]; unfold file_at, deref; keep. }
  unfold filewrite, file_at. keep.
Qed.
Hint Resolve keep_filealloc keep_filedup keep_fileclose keep_filestat keep_fileread keep_filewrite : kern.
Lemma keep_pipealloc : preserves queues_ok (pipealloc fuel).
Proof. unfold pipealloc, pipealloc_bad. keep. Qed.
Hint Resolve keep_pipealloc : kern.

(** *** Processes: the interface [ProcFs] is discharged *)
#[local] Instance keep_procfs : ProcFrame mlfq_inv.
Proof.
  split; [apply keep_mem|..]; intros.
  - apply keep_filedup.
  - apply keep_fileclose.
  - apply keep_idup.
  - apply keep_iput.
  - apply keep_begin_op.
  - apply keep_end_op.
  - apply keep_namei.
Qed.
Lemma keep_exit : preserves queues_ok exit.
Proof. apply mlfq_exit. Qed.
Lemma keep_fork : preserves queues_ok (fork syms).
Proof. apply mlfq_fork. Qed.
Lemma keep_wait k : preserves queues_ok (wait k).
Proof. apply mlfq_wait. Qed.
Lemma keep_growproc n : preserves queues_ok (growproc n).
Proof. apply mlfq_growproc. Qed.
Hint Resolve keep_exit keep_fork keep_wait keep_growproc : kern.

(** *** System calls *)
Lemma keep_uload32 d va : preserves queues_ok (uload32 d va).
Proof. unfold uload32. keep. Qed.
Hint Resolve keep_uload32 : kern.
Lemma keep_fetchint a : preserves queues_ok (fetchint a).
Proof. unfold fetchint. keep. Qed.
Hint Resolve keep_fetchint : kern.
Lemma keep_argint n : preserves queues_ok (argint n).
Proof. unfold argint. keep. Qed.
Hint Resolve keep_argint : kern.
Lemma keep_argptr n size : preserves queues_ok (argptr n size).
Proof. unfold argptr. keep. Qed.
Lemma keep_fetchstr a : preserves queues_ok (fetchstr a).
Proof.
  assert (forall k d s t, preserves queues_ok (fetchstr_loop k d s t)) by (intros k; induction k; intros; cbn [fetchstr_loop]; keep).
  unfold fetchstr. keep.
Qed.
Hint Resolve keep_argptr keep_fetchstr : kern.
Lemma keep_argstr n : preserves queues_ok (argstr n).
Proof. unfold argstr. keep. Qed.
Lemma keep_user_str va : preserves queues_ok (user_str va).
Proof.
  assert (forall k va, preserves queues_ok (user_str_loop k va)) by (intros k; induction k; intros; cbn [user_str_loop]; keep).
  unfold user_str. keep.
Qed.
Hint Resolve keep_argstr keep_user_str : kern.

(** *** exec *)
Hint Resolve frame_rd32 frame_wr32 frame_pokes frame_walkpgdir frame_allocuvm frame_freevm frame_setupkvm : kern.
Lemma keep_uva2ka d va : preserves queues_ok (uva2ka d va).
Proof. unfold uva2ka. keep. Qed.
Lemma keep_clearpteu d va : preserves queues_ok (clearpteu d va).
Proof. unfold clearpteu. keep. Qed.
Lemma keep_loaduvm rd d va off sz : (forall a o n, preserves queues_ok (rd a o n)) -> preserves queues_ok (loaduvm rd d va off sz).
Proof.
  intros Hr. assert (forall k a o n i, preserves queues_ok (loaduvm_loop k rd d a o n i)) as Hl
    by (intros k; induction k; intros; cbn [loaduvm_loop]; keep).
  unfold loaduvm. keep.
Qed.
Hint Resolve keep_uva2ka keep_clearpteu : kern.
Lemma keep_copyout_src d va src len : source_keeps src -> preserves queues_ok (copyout_src d va src len).
Proof.
  intros Hs. assert (forall k va off len, preserves queues_ok (copyout_src_loop k d va src off len))
    by (intros k; induction k; intros; cbn [copyout_src_loop]; keep; apply Hs).
  unfold copyout_src. keep.
Qed.
Lemma keep_readi_kmem ip a off n : preserves queues_ok (readi_kmem ip a off n).
Proof.
  unfold readi_kmem. apply preserves_bind; [|keep]. apply keep_readi. intros ???. apply frame_pokes, _.
Qed.
Lemma keep_exec_load k d ip ph off sz : preserves queues_ok (exec_load k d ip ph off sz).
Proof.
  revert ph off sz. pose proof (fun d a o n => keep_loaduvm (readi_kmem ip) d a o n (keep_readi_kmem ip)).
  induction k; intros ph off sz; cbn [exec_load]; keep.
Qed.
Lemma keep_exec_args argv d sp ptrs : preserves queues_ok (exec_args argv d sp ptrs).
Proof.
  revert sp ptrs. induction argv; intros sp ptrs; cbn [exec_args]; [keep|].
  keep. apply keep_copyout_src. intros ??. apply preserves_ret.
Qed.
Hint Resolve keep_exec_load keep_exec_args : kern.
Lemma keep_exec_bad d ip : preserves queues_ok (exec_bad fuel d ip).
Proof. unfold exec_bad. keep. Qed.
Hint Resolve keep_exec_bad : kern.
Lemma keep_exec_image cur path argv d e sz : preserves queues_ok (exec_image fuel cur path argv d e sz).
Proof.
  unfold exec_image. pose proof (fun d va v len => keep_copyout_src d va (from_var v) len ltac:(intros ??; apply preserves_ret)).
  keep.
Qed.
Hint Resolve keep_exec_image : kern.
Lemma keep_exec path argv : preserves queues_ok (exec fuel syms path argv).
Proof. unfold exec. keep. Qed.
Hint Resolve keep_exec : kern.

(** *** sysfile.c *)
Lemma keep_argfd n : preserves queues_ok (argfd n).
Proof. unfold argfd. keep. Qed.
Lemma keep_fdalloc f : preserves queues_ok (fdalloc f).
Proof. unfold fdalloc. keep. Qed.
Lemma keep_fdclear fd : preserves queues_ok (fdclear fd).
Proof. unfold fdclear. keep. Qed.
Hint Resolve keep_argfd keep_fdalloc keep_fdclear : kern.
Lemma keep_sys_dup : preserves queues_ok Sysfile.sys_dup.
Proof. unfold Sysfile.sys_dup. keep. Qed.
Lemma keep_rw_args : preserves queues_ok rw_args.
Proof. unfold rw_args. keep. Qed.
Hint Resolve keep_rw_args : kern.
Lemma keep_sys_read : preserves queues_ok (Sysfile.sys_read fuel).
Proof. unfold Sysfile.sys_read. keep. Qed.
Lemma keep_sys_write : preserves queues_ok (Sysfile.sys_write fuel).
Proof. unfold Sysfile.sys_write. keep. Qed.
Lemma keep_sys_close : preserves queues_ok (Sysfile.sys_close fuel).
Proof. unfold Sysfile.sys_close. keep. Qed.
Lemma keep_sys_fstat : preserves queues_ok (Sysfile.sys_fstat fuel).
Proof. unfold Sysfile.sys_fstat. keep. Qed.
Lemma keep_sys_link : preserves queues_ok (Sysfile.sys_link fuel).
Proof. unfold Sysfile.sys_link, link_bad, ino. keep. Qed.
Lemma keep_isdirempty dp : preserves queues_ok (isdirempty dp).
Proof.
  assert (forall k de off, preserves queues_ok (isdirempty_loop k dp de off))
    by (intros k; induction k; intros; cbn [isdirempty_loop]; unfold ino; keep).
  unfold isdirempty, ino. keep.
Qed.
Hint Resolve keep_isdirempty : kern.
Lemma keep_sys_unlink : preserves queues_ok (Sysfile.sys_unlink fuel).
Proof. unfold Sysfile.sys_unlink, unlink_bad, ino. keep. Qed.
Lemma keep_create path type major minor : preserves queues_ok (create fuel path type major minor).
Proof. unfold create, ino. keep. Qed.
Hint Resolve keep_create : kern.
Lemma keep_sys_open : preserves queues_ok (Sysfile.sys_open fuel).
Proof. unfold Sysfile.sys_open, open_inode, ino. keep. Qed.
Lemma keep_created ip : preserves queues_ok (created fuel ip).
Proof. unfold created. keep. Qed.
Hint Resolve keep_created : kern.
Lemma keep_sys_mkdir : preserves queues_ok (Sysfile.sys_mkdir fuel).
Proof. unfold Sysfile.sys_mkdir. keep. Qed.
Lemma keep_sys_mknod : preserves queues_ok (Sysfile.sys_mknod fuel).
Proof. unfold Sysfile.sys_mknod. keep. Qed.
Lemma keep_sys_chdir : preserves queues_ok (Sysfile.sys_chdir fuel).
Proof. unfold Sysfile.sys_chdir, ino, deref. keep. Qed.
Lemma keep_sys_exec : preserves queues_ok (Sysfile.sys_exec fuel syms).
Proof.
  assert (forall k u argv, preserves queues_ok (exec_argv k u argv)) by (intros k; induction k; intros; cbn [exec_argv]; keep).
  unfold Sysfile.sys_exec. keep.
Qed.
Lemma keep_sys_pipe : preserves queues_ok (Sysfile.sys_pipe fuel).
Proof. unfold Sysfile.sys_pipe. keep. Qed.

(** *** sysproc.c and the dispatch *)
Lemma keep_sys_sleep k : preserves queues_ok (sys_sleep k).
Proof.
  assert (forall k t n, preserves queues_ok (sys_sleep_loop k t n)) by (intros j; induction j; intros; cbn [sys_sleep_loop]; keep).
  unfold sys_sleep. keep.
Qed.
Lemma keep_sys_sbrk : preserves queues_ok sys_sbrk.
Proof. unfold sys_sbrk. keep. Qed.
Lemma keep_sys_kill : preserves queues_ok sys_kill.
Proof. unfold sys_kill. keep. Qed.
Lemma keep_sys_uptime : preserves queues_ok sys_uptime.
Proof. unfold sys_uptime. keep. Qed.
Lemma keep_sys_getpid : preserves queues_ok sys_getpid.
Proof. unfold sys_getpid. keep. Qed.
Lemma keep_sys_exit : preserves queues_ok sys_exit.
Proof. unfold sys_exit. keep. Qed.

Lemma keep_syscalls : Forall (from_option (preserves queues_ok) True) (syscalls syms fuel).
Proof.
  unfold syscalls. repeat (apply Forall_cons_2 || apply Forall_nil_2); [done|apply keep_fork|apply keep_sys_exit|apply keep_wait|
    apply keep_sys_pipe|apply keep_sys_read|apply keep_sys_kill|apply keep_sys_exec|apply keep_sys_fstat|
    apply keep_sys_chdir|apply keep_sys_dup|apply keep_sys_getpid|apply keep_sys_sbrk|apply keep_sys_sleep|
    apply keep_sys_uptime|apply keep_sys_open|apply keep_sys_write|apply keep_sys_mknod|apply keep_sys_unlink|
    apply keep_sys_link|apply keep_sys_mkdir|apply keep_sys_close].
Qed.
Lemma keep_set_cur_eax i v : preserves queues_ok (set_cur_eax i v).
Proof. unfold set_cur_eax. keep. Qed.
Hint Resolve keep_set_cur_eax : kern.
Lemma keep_syscall : preserves queues_ok (syscall syms fuel).
Proof.
  unfold syscall. apply preserves_bind; [keep|]. intros i. apply preserves_bind; [keep|]. intros p.
  match goal with |- preserves _ (match ?x with _ => _ end) => destruct x as [[f|]|] eqn:E end; [|keep|keep].
  assert (preserves queues_ok f); [|keep]. destruct (_ && _); [|done].
  pose proof keep_syscalls as Hf. rewrite Forall_lookup in Hf. apply (Hf _ _ E).
Qed.

(** *** trap.c *)
Lemma keep_trap_dispatch t : preserves queues_ok (trap_dispatch t).
Proof.
  assert (preserves queues_ok Trap.ideintr) by apply keep_ide_intr.
  assert (preserves queues_ok kbdintr) by apply (keep_consoleintr _ _ keep_kbdgetc).
  assert (preserves queues_ok uartintr) by apply (keep_consoleintr _ _ keep_uartgetc).
  assert (preserves queues_ok lapiceoi) by apply keep_lapic_eoi.
  assert (preserves queues_ok rcr2) by apply keep_hw.
  unfold trap_dispatch. keep.
Qed.
Hint Resolve keep_trap_dispatch keep_syscall : kern.
Lemma keep_timer_tick n : preserves queues_ok (ptab (timer_tick n)).
Proof. apply keep_ptab, mlfq_timer_tick. Qed.
Hint Resolve keep_timer_tick : kern.
Lemma keep_trap t : preserves queues_ok (trap syms fuel t).
Proof. unfold trap, Trap.cur_killed. keep. Qed.

(** *** main.c *)
Lemma keep_mpmain : preserves queues_ok (mpmain syms fuel).
Proof.
  assert (preserves mlfq_inv (scheduler fuel)).
  { assert (forall k c, preserves mlfq_inv (scheduler_loop k c)).
    { intros k. induction k as [|k IH]; intros c; cbn [scheduler_loop]; unfold scheduler_pass, scan_low; mlfq. }
    unfold scheduler. mlfq. }
  unfold mpmain. keep.
Qed.
Hint Resolve keep_mpmain : kern.
Lemma keep_lapicw i v : preserves queues_ok (lapicw i v).
Proof. unfold lapicw, lapicr, the_lapic. keep. Qed.
Lemma keep_lapicr i : preserves queues_ok (lapicr i).
Proof. unfold lapicr, the_lapic. keep. Qed.
Hint Resolve keep_lapicw keep_lapicr : kern.
Lemma keep_lapicinit k : preserves queues_ok (lapicinit k).
Proof.
  assert (preserves queues_ok (delivs_wait k)) by (induction k; cbn [delivs_wait]; keep).
  unfold lapicinit, the_lapic. keep.
Qed.
Lemma keep_lapicstartap a b : preserves queues_ok (lapicstartap a b).
Proof. unfold lapicstartap, microdelay. generalize (seqZ 0 2). intros l. keep. Qed.
Lemma keep_ioapicenable i c : preserves queues_ok (ioapicenable i c).
Proof. unfold ioapicenable, ioapicwrite. keep. Qed.
Hint Resolve keep_lapicinit keep_lapicstartap keep_ioapicenable : kern.
Lemma keep_ioapicinit : preserves queues_ok ioapicinit.
Proof. unfold ioapicinit, ioapicread, ioapicwrite, drv. keep. Qed.
Lemma keep_mpinit k : preserves queues_ok (mpinit (sy_cpus syms) k).
Proof.
  assert (forall k p e b, preserves queues_ok (mp_loop (sy_cpus syms) k p e b))
    by (intros j; induction j; intros; cbn [mp_loop]; unfold drv_upd; keep).
  unfold mpinit. keep.
Qed.
Lemma keep_consoleinit : preserves queues_ok consoleinit.
Proof. unfold consoleinit, cons_upd. keep. Qed.
Lemma keep_uartinit : preserves queues_ok uartinit.
Proof. unfold uartinit, drv_upd. keep. Qed.
Lemma keep_binit : preserves queues_ok binit.
Proof. unfold binit, buf_at. generalize (seq 0 NBUF). intros l. keep. Qed.
Lemma keep_ide_init n : preserves queues_ok (ide_init fuel n).
Proof.
  assert (forall k, preserves queues_ok (find_disk1 k)) by (intros k; induction k; cbn [find_disk1]; unfold ide_upd; keep).
  unfold ide_init. keep.
Qed.
Lemma keep_startothers : preserves queues_ok (startothers syms fuel).
Proof.
  assert (forall k c, preserves queues_ok (started_wait k c)) by (intros k; induction k; intros; cbn [started_wait]; keep).
  unfold startothers, start_other. fold pages. keep.
Qed.
Hint Resolve keep_ioapicinit keep_mpinit keep_consoleinit keep_uartinit keep_binit keep_ide_init keep_startothers : kern.
Lemma keep_main : preserves queues_ok (main syms fuel).
Proof.
  assert (preserves queues_ok (userinit syms)) by apply mlfq_userinit.
  unfold main, kvmalloc, tvinit, pinit, picinit, fileinit, switchkvm. fold pages console procfs. keep.
Qed.
Lemma keep_mpenter : preserves queues_ok (mpenter syms fuel).
Proof. unfold mpenter, switchkvm. keep. Qed.
Lemma keep_forkret : preserves queues_ok forkret.
Proof.
  assert (forall d, preserves queues_ok (iinit d)) by apply keep_iinit.
  assert (forall d, preserves queues_ok (initlog d)) by apply keep_initlog.
  unfold forkret. keep.
Qed.
End keeps.

(** ** The kernel as a machine of threads

    A configuration is the state and the threads that wait to be resumed.  A thread starts with a
    trap, on a processor that boots, or in a new process; it runs until it hands the CPU over or
    ends.  The part of the state that is one CPU's view of the machine may change at any time. *)
Section machine.
Context {H : Type} `{!Hardware H} (syms : symbols) (fuel : nat).

Definition thread : Type := kernel H -> outcome (kernel H) unit.
Definition config : Type := kernel H * list thread.

Definition entry_points (m : M (kernel H) unit) : Prop :=
  (exists t, m = kernel_trap syms fuel t) \/ m = main syms fuel \/ m = mpenter syms fuel \/
  m = forkret (ProcFs0 := k_procfs syms fuel).

(** What is left of a thread when it stops running, the other threads being [ts]. *)
Inductive stops (ts : list thread) : outcome (kernel H) unit -> config -> Prop :=
  | stops_done s : stops ts (Done tt s) (s, ts)
  | stops_switch s k : stops ts (Switch s k) (s, k :: ts).
Inductive step : config -> config -> Prop :=
  | step_enter m s ts c : entry_points m -> stops ts (m s) c -> step (s, ts) c
  | step_resume s ts1 k ts2 c : stops (ts1 ++ ts2) (k s) c -> step (s, ts1 ++ k :: ts2) c
  | step_cpu m s ts : step (s, ts) (put proc_lens (set_pm m (view proc_lens s)) s, ts).

(** The table as the kernel finds it: zeroed. *)
Definition fresh (s : kernel H) : Prop := Forall (fun p => priority p = 0 /\ ticks_used p = 0) (ptable (view proc_lens s)).

Definition config_ok (c : config) : Prop :=
  queues_ok (fst c) /\ Forall (fun k : thread => forall s, queues_ok s -> always queues_ok (k s)) (snd c).

Lemma entry_points_keep m : entry_points m -> preserves queues_ok m.
Proof.
  intros [[t ->]|[->|[->| ->]]]; [apply keep_trap|apply keep_main|apply keep_mpenter|apply (keep_forkret syms fuel)].
Qed.

Lemma stops_ok ts o c : stops ts o c -> always queues_ok o ->
  Forall (fun k : thread => forall s, queues_ok s -> always queues_ok (k s)) ts -> config_ok c.
Proof. intros [s|s k] Ho Hts; [by split|]. destruct Ho as [Hs Hk]. split; [done|]. by constructor. Qed.

Lemma step_ok c c' : step c c' -> config_ok c -> config_ok c'.
Proof.
  intros [m s ts c1 Hm Hc|s ts1 k ts2 c1 Hc|m s ts] [Hs Hts]; simpl in *.
  - eapply stops_ok; [exact Hc|by apply (entry_points_keep m)|done].
  - apply Forall_app in Hts as [H1 H2]. apply Forall_cons in H2 as [Hk H2].
    eapply stops_ok; [exact Hc|by apply Hk|by apply Forall_app].
  - by split.
Qed.
End machine.
Arguments config : clear implicits.

(** ** Theorems *)


(** A timer interrupt finds process 1 running. *)
#[local] Instance quiet_hardware : Hardware unit := {|
  hw_ports := {| inb _ := ret 0; outb _ _ := ret tt; insl _ _ := ret []; outsl _ _ := ret tt;
                 reg_read _ := ret 0; reg_write _ _ := ret tt |};
  hw_rcr2 := ret 0 |}.
Definition syms_k : symbols :=
  Symbols syms_w 0x80115500 0x80112780 0x80114ca0 0x80109000 0x801031a0 0x8010b48c 138 (fun _ => 0).
Definition kernel_k : kernel unit :=
  (set_pm (set_IF false (set_cpus [set_cproc (Some 0%nat) cpu_x] mach_x)) (pst_x [proc_x 0 RUNNING 1; proc_x 0 RUNNABLE 2]),
   (((0, 0), fun _ => 0), ((bcache0, (MkIde None 0, log0)), ((MkFs (MkSb 0 0 0 0 0 0 0) [], ([], ∅)),
    ((0, MkCons 0 0 (fun _ => 0) (MkInput [] 0 0 0)), ((MkDrivers 0 0 0, 0), tt)))))).
Definition tf_timer : trapframe := tf_at (fun x => if x =? 48 then 32 else 0) 0.

