(* ===== verification/Boot.v ===== *)
(** * The boot loader (bootmain.c)

    bootmain() reads the kernel's ELF image from the disk, sector by sector, before paging is on:
    memory is physical memory, and the disk is the controller behind the ports. *)
From S2P Require Import Prelude Mmu KString Block Exec Device.

Class HasPhys (S : Type) := { phys_lens : lens S mem; phys_lens_laws :: LensLaws phys_lens }.

Definition SECTSIZE : Z := 512.

Section boot.
Context {S : Type} `{!Ports S} `{!HasPhys S} (fuel : nat).

Definition phys_upd (f : mem -> mem) : M S unit := modify (fun s => put phys_lens (f (view phys_lens s)) s).

(** waitdisk(), at most [k] rounds after the first. *)
Fixpoint waitdisk (k : nat) : M S unit :=
  let* r := inb 0x1F7 in
  if Z.land r 0xC0 =? 0x40 then ret tt else
  match k with O => nofuel | Datatypes.S k' => waitdisk k' end.

Definition readsect (dst offset : Z) : M S unit :=
  waitdisk fuel;;;
  outb 0x1F2 1;;;
  outb 0x1F3 (u8 offset);;;
  outb 0x1F4 (u8 (Z.shiftr offset 8));;;
  outb 0x1F5 (u8 (Z.shiftr offset 16));;;
  outb 0x1F6 (u8 (Z.lor (Z.shiftr offset 24) 0xE0));;;
  outb 0x1F7 0x20;;;
  waitdisk fuel;;;
  let* bs := insl 0x1F0 (Z.to_nat (SECTSIZE / 4)) in
  phys_upd (store_bytes dst bs).

(** The loop of readseg(), with [k] sectors to go at most. *)
Fixpoint readseg_loop (k : nat) (pa epa offset : Z) : M S unit :=
  if negb (pa <? epa) then ret tt else
  match k with
  | O => nofuel
  | Datatypes.S k' =>
      readsect pa offset;;;
      readseg_loop k' (u32 (pa + SECTSIZE)) epa (u32 (offset + 1))
  end.
Definition readseg (pa count offset : Z) : M S unit :=
  let epa := u32 (pa + count) in
  let pa := u32 (pa - offset mod SECTSIZE) in
  let offset := offset / SECTSIZE + 1 in
  readseg_loop (Z.to_nat ((epa - pa) / SECTSIZE + 1)) pa epa offset.

(** [n] bytes of memory, as a list for the ELF accessors of Exec.v. *)
Definition bytes_of_mem (m : mem) (a n : Z) : list Z := map (fun i => m (a + i)) (seqZ 0 n).

(** One program header, and the loop over [k] of them from [ph]. *)
Definition load_segment (ph : Z) : M S unit :=
  let* m := gets (view phys_lens) in
  let h := bytes_of_mem m ph sizeof_proghdr in
  let pa := ph_paddr h in
  readseg pa (ph_filesz h) (ph_off h);;;
  let* m := gets (view phys_lens) in
  let h := bytes_of_mem m ph sizeof_proghdr in
  when (ph_filesz h <? ph_memsz h) (
    phys_upd (stosb (u32 (pa + ph_filesz h)) 0 (Z.to_nat (ph_memsz h - ph_filesz h)))).
Fixpoint load_segments (k : nat) (ph : Z) : M S unit :=
  match k with
  | O => ret tt
  | Datatypes.S k' => load_segment ph;;; load_segments k' (u32 (ph + sizeof_proghdr))
  end.

(** The entry point bootmain() jumps to, or [None] when it returns to bootasm.S. *)
Definition bootmain : M S (option Z) :=
  let elf := 0x10000 in
  readseg elf 4096 0;;;
  let* m := gets (view phys_lens) in
  let h := bytes_of_mem m elf sizeof_elfhdr in
  if negb (elf_magic h =? ELF_MAGIC) then ret None else
  load_segments (Z.to_nat (elf_phnum h)) (u32 (elf + elf_phoff h));;;
  let* m := gets (view phys_lens) in
  ret (Some (elf_entry (bytes_of_mem m elf sizeof_elfhdr))).
End boot.

(** ** Specifications *)

(** The disk as bytes: byte [i] of its sectors, one after the other. *)
Definition image (D : Z -> list Z) (i : Z) : Z := D (i / SECTSIZE) !!! Z.to_nat (i mod SECTSIZE).
Definition disk_ok (D : Z -> list Z) : Prop :=
  forall n, length (D n) = Z.to_nat SECTSIZE /\ Forall (fun b => 0 <= b < 2 ^ 8) (D n).

Section disk.
Context {S : Type} `{!Ports S} `{!HasPhys S} (fuel : nat) (D : Z -> list Z).

(** The controller, as the loader relies on it: four registers hold a sector's number, and the
    command reads that sector; none of this touches memory. *)
Definition stays (R : S -> Prop) (s s' : S) : Prop := R s' /\ view phys_lens s' = view phys_lens s.
Class BootDisk (R : Z -> Z -> Z -> Z -> S -> Prop) : Prop := {
  bd_wait : forall a b c d s, R a b c d s -> wp (waitdisk fuel) (fun _ => stays (R a b c d) s) s;
  bd_count : forall a b c d s, R a b c d s -> wp (outb 0x1F2 1) (fun _ => stays (R a b c d) s) s;
  bd_lo : forall a b c d v s, R a b c d s -> wp (outb 0x1F3 v) (fun _ => stays (R v b c d) s) s;
  bd_mid : forall a b c d v s, R a b c d s -> wp (outb 0x1F4 v) (fun _ => stays (R a v c d) s) s;
  bd_hi : forall a b c d v s, R a b c d s -> wp (outb 0x1F5 v) (fun _ => stays (R a b v d) s) s;
  bd_drive : forall a b c d v s, R a b c d s -> wp (outb 0x1F6 v) (fun _ => stays (R a b c v) s) s;
  bd_command : forall a b c d s, R a b c d s -> wp (outb 0x1F7 0x20) (fun _ => stays (R a b c d) s) s;
  bd_data : forall a b c d s, R a b c d s -> wp (insl 0x1F0 128) (fun bs s' =>
    bs = D (a + 2 ^ 8 * b + 2 ^ 16 * c + 2 ^ 24 * Z.land d 0xF) /\ stays (R a b c d) s s') s;
  bd_phys : forall a b c d m s, R a b c d s -> R a b c d (put phys_lens m s)
}.
Context (R : Z -> Z -> Z -> Z -> S -> Prop) `{!BootDisk R} (HD : disk_ok D).

Definition idle (s : S) : Prop := exists a b c d, R a b c d s.

(** ** Lemmas *)
Lemma sector_number n : 0 <= n < 2 ^ 28 ->
  u8 n + 2 ^ 8 * u8 (Z.shiftr n 8) + 2 ^ 16 * u8 (Z.shiftr n 16) + 2 ^ 24 * Z.land (u8 (Z.lor (Z.shiftr n 24) 0xE0)) 0xF = n.
Proof.
  intros Hn. assert (0 <= Z.shiftr n 24 < 16) as H4.
  { rewrite Z.shiftr_div_pow2 by lia. split; [apply Z.div_pos; lia|apply Z.div_lt_upper_bound; lia]. }
  assert (Z.land (u8 (Z.lor (Z.shiftr n 24) 0xE0)) 0xF = Z.shiftr n 24) as ->.
  { revert H4. generalize (Z.shiftr n 24). intros k Hk. assert (k ∈ seqZ 0 16) as Hin by (apply elem_of_seqZ; lia).
    clear Hk. revert k Hin. apply (Forall_forall (fun k => _ = k)), (bool_decide_unpack _). by vm_compute. }
  unfold u8. rewrite !Z.shiftr_div_pow2 by lia. Z.to_euclidean_division_equations. lia.
Qed.

Lemma store_bytes_at a bs m x : Forall (fun b => 0 <= b < 2 ^ 8) bs ->
  store_bytes a bs m x = if decide (a <= x < a + Z.of_nat (length bs)) then bs !!! Z.to_nat (x - a) else m x.
Proof.
  revert a m. induction bs as [|b bs IH]; intros a m Hb; simpl; [case_decide; [lia|done]|].
  apply Forall_cons in Hb as [Hb Hbs]. rewrite IH by done. unfold st8, u8. rewrite Z.mod_small by lia.
  repeat case_decide; try lia.
  - replace (Z.to_nat (x - a)) with (Datatypes.S (Z.to_nat (x - (a + 1)))) by lia. done.
  - destruct (Z.eqb_spec x a); [|lia]. subst. by rewrite Z.sub_diag.
  - destruct (Z.eqb_spec x a); [lia|done].
Qed.

Lemma stays_bind {A B} (c : M S A) (f : A -> M S B) (P : S -> Prop) m Q s : view phys_lens s = m ->
  wp c (fun _ => stays P s) s -> (forall a s', P s' -> view phys_lens s' = m -> wp (f a) Q s') -> wp (bind c f) Q s.
Proof. intros Hm Hc Hf. apply wp_bind. eapply wp_mono; [|exact Hc]. intros a s' [HP E]. apply Hf; [done|by rewrite E]. Qed.

Ltac io_step tac := eapply stays_bind; [eassumption|by tac|]; cbn beta; intros ? ? ? ?.

Lemma readsect_run dst n s (Q : unit -> S -> Prop) : idle s -> 0 <= n < 2 ^ 28 ->
  (forall s', idle s' -> view phys_lens s' = store_bytes dst (D n) (view phys_lens s) -> Q tt s') ->
  wp (readsect fuel dst n) Q s.
Proof.
  intros (a & b & c & d & Hs) Hn HQ. unfold readsect. pose proof (eq_refl (view phys_lens s)) as Hm.
  io_step ltac:(apply bd_wait). io_step ltac:(apply bd_count). io_step ltac:(eapply bd_lo). io_step ltac:(eapply bd_mid).
  io_step ltac:(eapply bd_hi). io_step ltac:(eapply bd_drive). io_step ltac:(apply bd_command). io_step ltac:(apply bd_wait).
  apply wp_bind. eapply wp_mono; [|by apply bd_data]. intros bs s1 (-> & Hlast & Elast). rewrite sector_number by done.
  apply wp_modify, HQ; [by do 4 eexists; apply bd_phys|]. rewrite view_put. congruence.
Qed.

(** The sectors from [n] on, [j] of them, are in memory at [p]. *)
Definition loaded (m0 : mem) (p n j : Z) (m : mem) : Prop :=
  forall x, m x = if decide (p <= x < p + SECTSIZE * j) then image D (SECTSIZE * n + (x - p)) else m0 x.

Lemma loaded_next m0 p n j m : 0 <= j -> loaded m0 p n j m -> loaded m0 p n (j + 1) (store_bytes (p + SECTSIZE * j) (D (n + j)) m).
Proof.
  intros Hj Hm x. destruct (HD (n + j)) as [Hl Hb]. rewrite store_bytes_at by done. rewrite Hl, (Hm x).
  unfold SECTSIZE in *. repeat case_decide; try lia. unfold image, SECTSIZE.
  replace (512 * n + (x - p)) with (x - (p + 512 * j) + (n + j) * 512) by lia.
  rewrite Z.div_add, Z.mod_add by lia. rewrite Z.div_small, Z.mod_small by lia. done.
Qed.

Lemma readseg_loop_run m0 p n k j epa s : idle s -> loaded m0 p n j (view phys_lens s) ->
  0 <= p -> 0 <= n -> 0 <= j -> epa <= 2 ^ 32 - SECTSIZE -> n + j + Z.of_nat k < 2 ^ 28 -> epa <= p + SECTSIZE * (j + Z.of_nat k) ->
  p + SECTSIZE * j < epa + SECTSIZE ->
  wp (readseg_loop fuel k (p + SECTSIZE * j) epa (n + j))
    (fun _ s' => exists j', epa <= p + SECTSIZE * j' < epa + SECTSIZE /\ loaded m0 p n j' (view phys_lens s')) s.
Proof.
  revert j s. induction k as [|k IH]; intros j s Hs Hl Hp Hn Hj He Hk Hfit Hlast; cbn [readseg_loop];
    destruct (Z.ltb_spec (p + SECTSIZE * j) epa) as [Hlt|Hge]; simpl negb; cbn iota;
    try (apply wp_ret; exists j; split; [unfold SECTSIZE in *; lia|done]); [unfold SECTSIZE in *; lia|].
  apply wp_bind. apply readsect_run; [done|lia|]. intros s' Hs' Em. unfold SECTSIZE in *.
  rewrite (u32_small (p + 512 * j + 512)), (u32_small (n + j + 1)) by lia.
  replace (p + 512 * j + 512) with (p + 512 * (j + 1)) by lia. replace (n + j + 1) with (n + (j + 1)) by lia.
  apply IH; try done; try lia. rewrite Em. by apply loaded_next.
Qed.
End disk.

(** ** Theorems *)


(** A disk whose sector [n] is filled with the byte [n]. *)
Definition boot_state : Type := mem * (Z * Z * Z * Z).
#[local] Instance boot_phys : HasPhys boot_state := {| phys_lens := fst_lens |}.
Definition disk_b (n : Z) : list Z := replicate 512 (n mod 256).
#[local] Instance boot_ports : Ports boot_state := {|
  inb _ := ret 0x40;
  outb p v := modify (fun '(m, (a, b, c, d)) =>
    (m, if p =? 0x1F3 then (v, b, c, d) else if p =? 0x1F4 then (a, v, c, d) else if p =? 0x1F5 then (a, b, v, d)
        else if p =? 0x1F6 then (a, b, c, v) else (a, b, c, d)));
  insl _ _ := gets (fun '(m, (a, b, c, d)) => disk_b (a + 2 ^ 8 * b + 2 ^ 16 * c + 2 ^ 24 * Z.land d 0xF));
  outsl _ _ := ret tt; reg_read _ := ret 0; reg_write _ _ := ret tt |}.
#[local] Instance boot_disk_b : BootDisk (S := boot_state) 0 disk_b (fun a b c d s => s.2 = (a, b, c, d)).
Proof. split; try (intros a b c d [m r] E; simpl in E; subst r; done); by intros a b c d v [m r] E; simpl in E; subst r. Qed.

