(* ===== verification/Mkfs.v ===== *)
(** * Building the file system (mkfs.c)

    mkfs runs on the host and writes the disk image that the kernel mounts.  The image file is its
    sectors and how many there are; a file of the host is the results of the read() calls on it.
    perror() with exit(1), and a failed assert(), are [panic].  The structures are bytes in the
    order of the disk, which is what xshort() and xint() are for. *)
From S2P Require Import Prelude Mmu Pages Spinlock Sched Process Sleeplock Block Bio Log Fs.

Definition NINODES : Z := 200.
Definition nbitmap : Z := FSSIZE / (Z.of_nat BSIZE * 8) + 1.
Definition ninodeblocks : Z := NINODES / IPB + 1.
Definition nlog : Z := Z.of_nat LOGSIZE.
Definition nmeta : Z := 2 + nlog + ninodeblocks + nbitmap.
Definition nblocks : Z := FSSIZE - nmeta.
Definition mk_sb : superblock := MkSb FSSIZE nblocks NINODES nlog 2 (2 + nlog) (2 + nlog + ninodeblocks).

Record mkfs_st := MkMkfs { mk_img : Z -> list Z; mk_size : Z; mk_freeinode : Z; mk_freeblock : Z }.
Definition set_freeinode (x : Z) (s : mkfs_st) : mkfs_st := MkMkfs (mk_img s) (mk_size s) x (mk_freeblock s).
Definition set_freeblock (x : Z) (s : mkfs_st) : mkfs_st := MkMkfs (mk_img s) (mk_size s) (mk_freeinode s) x.
Definition mkfs0 : mkfs_st := MkMkfs (fun _ => replicate BSIZE 0) 0 1 0.

(** [xshort] and [xint]: the bytes of the number on the disk. *)
Definition xshort (x : Z) : list Z := half_bytes x.
Definition xint (x : Z) : list Z := word_bytes x.

Definition wsect (sec : Z) (buf : list Z) : M mkfs_st unit := modify (fun s =>
  MkMkfs (upd_block sec buf (mk_img s)) (Z.max (mk_size s) (sec + 1)) (mk_freeinode s) (mk_freeblock s)).
(** A sector behind the end of the file cannot be read. *)
Definition rsect (sec : Z) : M mkfs_st (list Z) :=
  let* n := gets mk_size in
  if sec <? n then gets (fun s => mk_img s sec) else panic "read".

Definition winode (inum : Z) (din : list Z) : M mkfs_st unit :=
  let bn := IBLOCK inum mk_sb in
  let* buf := rsect bn in
  wsect bn (set_bytes (dinode_off inum) din buf).
Definition rinode (inum : Z) : M mkfs_st (list Z) :=
  let bn := IBLOCK inum mk_sb in
  let* buf := rsect bn in
  ret (bytes_from (dinode_off inum) (Z.to_nat sizeof_dinode) buf).

Definition mk_ialloc (type : Z) : M mkfs_st Z :=
  let* inum := gets mk_freeinode in
  modify (set_freeinode (u32 (inum + 1)));;;
  let din := replicate (Z.to_nat sizeof_dinode) 0 in
  let din := set_bytes 0 (xshort type) din in
  let din := set_bytes 6 (xshort 1) din in
  let din := set_bytes 8 (xint 0) din in
  winode inum din;;;
  ret inum.

(** balloc(): the bitmap with the first [used] bits set. *)
Definition bitmap (used : Z) : list Z :=
  fold_left (fun buf i => set_bytes (Z.to_nat (i / 8)) [u8 (Z.lor (byte_at buf (Z.to_nat (i / 8))) (Z.shiftl 1 (i mod 8)))] buf)
    (seqZ 0 used) (replicate BSIZE 0).
Definition mk_balloc (used : Z) : M mkfs_st unit :=
  if negb (used <? Z.of_nat BSIZE * 8) then panic "assert" else
  wsect (sb_bmapstart mk_sb) (bitmap used).

(** [freeblock++] *)
Definition next_block : M mkfs_st Z :=
  let* b := gets mk_freeblock in
  modify (set_freeblock (u32 (b + 1)));;;
  ret b.

(** The block of the file that holds byte [fbn * BSIZE], allocated if there is none yet: the inode
    and the block's number. *)
Definition addr_off (k : nat) : nat := 12 + 4 * k.
Definition append_block (din : list Z) (fbn : Z) : M mkfs_st (list Z * Z) :=
  if fbn <? Z.of_nat NDIRECT then
    let o := addr_off (Z.to_nat fbn) in
    let* din := (if word_at din o =? 0 then let* b := next_block in ret (set_bytes o (xint b) din) else ret din) in
    ret (din, word_at din o)
  else
    let o := addr_off NDIRECT in
    let* din := (if word_at din o =? 0 then let* b := next_block in ret (set_bytes o (xint b) din) else ret din) in
    let* indirect := rsect (word_at din o) in
    let j := (4 * Z.to_nat (fbn - Z.of_nat NDIRECT))%nat in
    let* indirect := (if word_at indirect j =? 0 then
        let* b := next_block in
        let indirect := set_bytes j (xint b) indirect in
        wsect (word_at din o) indirect;;;
        ret indirect
      else ret indirect) in
    ret (din, word_at indirect j).

(** The loop of iappend(): the bytes [xs] at offset [off]. *)
Fixpoint iappend_loop (k : nat) (din : list Z) (off : Z) (xs : list Z) : M mkfs_st (list Z * Z) :=
  if (length xs =? 0)%nat then ret (din, off) else
  match k with
  | O => nofuel
  | S k' =>
      let fbn := off / Z.of_nat BSIZE in
      if negb (fbn <? MAXFILE) then panic "assert" else
      let* r := append_block din fbn in
      let n1 := Z.to_nat (Z.min (Z.of_nat (length xs)) ((fbn + 1) * Z.of_nat BSIZE - off)) in
      let* buf := rsect (snd r) in
      wsect (snd r) (set_bytes (Z.to_nat (off - fbn * Z.of_nat BSIZE)) (take n1 xs) buf);;;
      iappend_loop k' (fst r) (off + Z.of_nat n1) (drop n1 xs)
  end.
Definition iappend (inum : Z) (xs : list Z) : M mkfs_st unit :=
  let* din := rinode inum in
  let* r := iappend_loop (length xs) din (word_at din 8) xs in
  winode inum (set_bytes 8 (xint (snd r)) (fst r)).

(** A directory entry. *)
Definition mk_dirent (inum : Z) (name : list Z) : list Z := xshort inum ++ strncpy_bytes DIRSIZ name.

(** One argument: the name, and what read() returns until it returns 0. *)
Definition add_file (f : list Z * list (list Z)) : M mkfs_st unit :=
  let '(name, chunks) := f in
  if existsb (Z.eqb 47) name then panic "assert" else
  let name := if hd 0 name =? 95 then tl name else name in
  let* inum := mk_ialloc T_FILE in
  iappend ROOTINO (mk_dirent inum name);;;
  for_each chunks (iappend inum).

Definition main (files : list (list Z * list (list Z))) : M mkfs_st unit :=
  modify (set_freeblock nmeta);;;
  for_each (seqZ 0 FSSIZE) (fun i => wsect i (replicate BSIZE 0));;;
  wsect 1 (set_bytes 0 (mbind xint [sb_size mk_sb; sb_nblocks mk_sb; sb_ninodes mk_sb; sb_nlog mk_sb;
    sb_logstart mk_sb; sb_inodestart mk_sb; sb_bmapstart mk_sb]) (replicate BSIZE 0));;;
  let* rootino := mk_ialloc T_DIR in
  if negb (rootino =? ROOTINO) then panic "assert" else
  iappend rootino (mk_dirent rootino [46]);;;
  iappend rootino (mk_dirent rootino [46; 46]);;;
  for_each files add_file;;;
  let* din := rinode rootino in
  let off := word_at din 8 in
  let off := u32 ((off / Z.of_nat BSIZE + 1) * Z.of_nat BSIZE) in
  winode rootino (set_bytes 8 (xint off) din);;;
  let* used := gets mk_freeblock in
  mk_balloc used.

Example mkfs_small :
  match main [([95; 97], [[1; 2]; [3]])] mkfs0 with
  | Done _ s => (mk_freeblock s, word_at (mk_img s (IBLOCK 2 mk_sb)) (dinode_off 2 + 8), take 4 (mk_img s 60), sb_of (mk_img s 1))
      = (61, 3, [1; 2; 3; 0], mk_sb)
  | _ => False
  end.
Proof. vm_compute. reflexivity. Qed.

(** ** Specifications *)

(** A file of the image: its data, its data blocks in order, and its indirect block if it has one. *)
Record mfile := MFile { mf_type : Z; mf_data : list Z; mf_blocks : list Z; mf_ind : Z }.
Definition indirect (f : mfile) : bool := (NDIRECT <? length (mf_blocks f))%nat.
Definition used (f : mfile) : list Z := mf_blocks f ++ (if indirect f then [mf_ind f] else []).

(** The blocks a file of [n] bytes needs. *)
Definition blocks_for (n : nat) : nat := (n + (BSIZE - 1)) / BSIZE.
Definition bcost (n : nat) : nat := if (NDIRECT <? n)%nat then (n + 1)%nat else n.
Definition cost (n : nat) : nat := bcost (blocks_for n).

(** The on-disk inode at [off] of a sector, and the blocks of a file. *)
Record dinode_at (d : list Z) (off : nat) (f : mfile) (sz : Z) : Prop := {
  da_type : half_at d off = mf_type f;
  da_nlink : half_at d (off + 6) = 1;
  da_size : word_at d (off + 8) = sz;
  da_addrs : forall j, (j < NDIRECT)%nat -> word_at d (off + addr_off j) = nth j (mf_blocks f) 0;
  da_ind : word_at d (off + addr_off NDIRECT) = if indirect f then mf_ind f else 0
}.
Record data_at (I : Z -> list Z) (f : mfile) : Prop := {
  dt_fits : (length (mf_data f) <= BSIZE * length (mf_blocks f))%nat;
  dt_max : (length (mf_blocks f) <= Z.to_nat MAXFILE)%nat;
  dt_bytes : forall k b j, mf_blocks f !! k = Some b -> (j < BSIZE)%nat -> byte_at (I b) j = nth (BSIZE * k + j) (mf_data f) 0;
  dt_ind : indirect f = true -> forall j, (j < Z.to_nat NINDIRECT)%nat ->
    word_at (I (mf_ind f)) (4 * j) = nth (NDIRECT + j) (mf_blocks f) 0
}.

(** The image holds the files [fs]; the blocks between [nmeta] and [freeblock] are exactly theirs. *)
Record world (s : mkfs_st) (fs : list mfile) : Prop := {
  w_len : forall b, length (mk_img s b) = BSIZE;
  w_size : mk_size s = FSSIZE;
  w_free : nmeta <= mk_freeblock s <= FSSIZE;
  w_used : concat (map used fs) ≡ₚ seqZ nmeta (mk_freeblock s - nmeta);
  w_zero : forall b, mk_freeblock s <= b < FSSIZE -> mk_img s b = replicate BSIZE 0;
  w_data : Forall (data_at (mk_img s)) fs
}.

(** ** Lemmas *)
Lemma nmeta_value : nmeta = 59. Proof. reflexivity. Qed.

Lemma data_at_ext I I' f : (forall b, b ∈ used f -> I' b = I b) -> data_at I f -> data_at I' f.
Proof.
  unfold used. intros HI [H1 H2 H3 H4]. split; [done|done| |].
  - intros k b j Hk Hj. rewrite HI; [by apply H3|]. apply elem_of_app. left. by eapply list_elem_of_lookup_2.
  - intros Hi j Hj. rewrite HI; [by apply H4|]. rewrite Hi. apply elem_of_app. right. by left.
Qed.

Lemma used_range s fs f b : world s fs -> f ∈ fs -> b ∈ used f -> nmeta <= b < mk_freeblock s.
Proof.
  intros Hw Hf Hb. assert (b ∈ concat (map used fs)) as Hin.
  { apply list_elem_of_In, in_concat. exists (used f). split; [|by apply list_elem_of_In]. apply in_map. by apply list_elem_of_In. }
  rewrite (w_used s fs Hw) in Hin. apply elem_of_seqZ in Hin. lia.
Qed.

(** Changes below [nmeta] do not matter. *)
Lemma world_meta s s' fs : world s fs -> mk_size s' = FSSIZE -> mk_freeblock s' = mk_freeblock s ->
  (forall b, nmeta <= b -> mk_img s' b = mk_img s b) -> (forall b, length (mk_img s' b) = BSIZE) -> world s' fs.
Proof.
  intros Hw Hs Hf HI Hl. pose proof (w_free s fs Hw) as Hr. split; [done|done|by rewrite Hf|rewrite Hf; apply Hw| |].
  - intros b Hb. rewrite Hf in Hb. rewrite HI by lia. by apply Hw.
  - pose proof (w_data s fs Hw) as Hd. rewrite Forall_forall in Hd |- *. intros f Hin.
    apply (data_at_ext (mk_img s)); [|by apply Hd]. intros b Hb. apply HI. by destruct (used_range s fs f b Hw Hin Hb).
Qed.

(** One file takes the next blocks, if any, and only its blocks change. *)
Lemma world_grow s s' l1 f l2 f' : world s (l1 ++ f :: l2) -> mk_size s' = FSSIZE -> mk_freeblock s <= mk_freeblock s' <= FSSIZE ->
  used f' ≡ₚ seqZ (mk_freeblock s) (mk_freeblock s' - mk_freeblock s) ++ used f ->
  (forall b, b ∉ used f' -> mk_img s' b = mk_img s b) -> (forall b, length (mk_img s' b) = BSIZE) -> data_at (mk_img s') f' ->
  world s' (l1 ++ f' :: l2).
Proof.
  intros Hw Hs Hr Hu HI Hl Hd. pose proof (w_free _ _ Hw) as Hfree.
  assert (concat (map used (l1 ++ f' :: l2)) ≡ₚ seqZ nmeta (mk_freeblock s' - nmeta)) as Hall.
  { pose proof (w_used _ _ Hw) as Hold. rewrite !map_app, !concat_app in *. simpl in *. rewrite Hu.
    replace (mk_freeblock s' - nmeta) with ((mk_freeblock s - nmeta) + (mk_freeblock s' - mk_freeblock s)) by lia.
    rewrite seqZ_app by lia. replace (nmeta + (mk_freeblock s - nmeta)) with (mk_freeblock s) by lia.
    rewrite <- Hold. solve_Permutation. }
  assert (NoDup (concat (map used (l1 ++ f' :: l2)))) as Hnd by (rewrite Hall; apply NoDup_seqZ).
  split; [done|done|lia|done| |].
  - intros b Hb. rewrite HI; [apply Hw; lia|]. rewrite Hu. intros [Hin|Hin]%elem_of_app.
    + apply elem_of_seqZ in Hin. lia.
    + apply (used_range s _ f b Hw) in Hin; [lia|]. apply elem_of_app. right. by left.
  - pose proof (w_data _ _ Hw) as Hds. apply Forall_app in Hds as [Hd1 Hd2]. apply Forall_cons in Hd2 as [_ Hd2].
    rewrite map_app, concat_app in Hnd. simpl in Hnd. apply NoDup_app in Hnd as (_ & Hn1 & Hnd).
    apply NoDup_app in Hnd as (_ & Hn2 & _).
    assert (forall l g b, g ∈ l -> b ∈ used g -> b ∈ concat (map used l)) as Hc.
    { intros l g b Hg Hb. apply list_elem_of_In, in_concat. exists (used g).
      split; [apply in_map|]; by apply list_elem_of_In. }
    apply Forall_app. split; [|apply Forall_cons; split; [done|]]; apply Forall_forall; intros g Hg.
    + rewrite Forall_forall in Hd1. apply (data_at_ext (mk_img s)); [|by apply Hd1]. intros b Hb. apply HI. intros Hb'.
      apply (Hn1 b); [by eapply Hc|]. apply elem_of_app. by left.
    + rewrite Forall_forall in Hd2. apply (data_at_ext (mk_img s)); [|by apply Hd2]. intros b Hb. apply HI. intros Hb'.
      apply (Hn2 b Hb'). by eapply Hc.
Qed.

Definition add_block (b ind : Z) (f : mfile) : mfile := MFile (mf_type f) (mf_data f) (mf_blocks f ++ [b]) ind.

Lemma byte_at_zero j n : (j < n)%nat -> byte_at (replicate n 0) j = 0.
Proof. intros Hj. unfold byte_at. by apply lookup_total_replicate_2. Qed.
Lemma word_at_zero j n : (j + 4 <= n)%nat -> word_at (replicate n 0) j = 0.
Proof. intros Hj. unfold word_at. by rewrite !byte_at_zero by lia. Qed.
Lemma nth_snoc {A} (l : list A) x d j : nth j (l ++ [x]) d = if (j =? length l)%nat then x else nth j l d.
Proof.
  destruct (Nat.eqb_spec j (length l)) as [->|Hj]; [by rewrite nth_middle|].
  destruct (Nat.lt_ge_cases j (length l)); [by apply app_nth1|]. rewrite !nth_overflow; [done|lia|rewrite length_app; simpl; lia].
Qed.
Lemma word_at_xint o b d : 0 <= b < 2 ^ 32 -> (o + 4 <= length d)%nat -> word_at (set_bytes o (xint b) d) o = b.
Proof. apply word_at_set_word. Qed.
Lemma word_at_xint_ne o o' b d : (o' + 4 <= o \/ o + 4 <= o')%nat -> word_at (set_bytes o (xint b) d) o' = word_at d o'.
Proof. apply word_at_set_word_ne. Qed.

Lemma indirect_add b ind f : indirect (add_block b ind f) = (NDIRECT <=? length (mf_blocks f))%nat.
Proof. unfold indirect. cbn [add_block mf_blocks]. rewrite length_app. cbn [length]. apply eq_true_iff_eq. rewrite Nat.ltb_lt, Nat.leb_le. lia. Qed.

(** A new block at the end of a file holds zeros. *)
Lemma data_at_add I I' f b ind : data_at I f -> (forall b0, b0 ∈ mf_blocks f -> I' b0 = I b0) -> I' b = replicate BSIZE 0 ->
  (length (mf_blocks f) < Z.to_nat MAXFILE)%nat ->
  ((NDIRECT <= length (mf_blocks f))%nat -> forall j, (j < Z.to_nat NINDIRECT)%nat ->
    word_at (I' ind) (4 * j) = nth (NDIRECT + j) (mf_blocks f ++ [b]) 0) -> data_at I' (add_block b ind f).
Proof.
  intros [H1 H2 H3 H4] HI Hb Hm Hind. split; cbn [add_block mf_data mf_blocks mf_ind];
    [rewrite length_app; cbn [length]; lia|rewrite length_app; cbn [length]; lia| |].
  - intros k b0 j Hk Hj. apply lookup_snoc_Some in Hk as [[Hk Hb0]|[-> <-]].
    + rewrite HI; [by apply H3|]. by eapply list_elem_of_lookup_2.
    + rewrite Hb, byte_at_zero, nth_overflow; [done| |done]. lia.
  - rewrite indirect_add. intros Hn%Nat.leb_le. by apply Hind.
Qed.

(** Storing an address of the inode. *)
Lemma dinode_add_direct din f sz b ind : dinode_at din 0 f sz -> length din = 64%nat -> (length (mf_blocks f) < NDIRECT)%nat ->
  0 <= b < 2 ^ 32 -> dinode_at (set_bytes (addr_off (length (mf_blocks f))) (xint b) din) 0 (add_block b ind f) sz.
Proof.
  intros [H1 H2 H3 H4 H5] Hl Hn Hb. split; cbn [add_block mf_type mf_data mf_blocks mf_ind]; unfold addr_off, NDIRECT in *.
  - rewrite half_at_set_bytes_ne by lia. done.
  - rewrite half_at_set_bytes_ne by lia. done.
  - rewrite word_at_xint_ne by lia. done.
  - intros j Hj. rewrite nth_snoc. destruct (Nat.eqb_spec j (length (mf_blocks f))) as [->|Hne].
    + apply word_at_xint; [done|lia].
    + rewrite word_at_xint_ne by lia. by apply H4.
  - rewrite word_at_xint_ne by lia. rewrite indirect_add. unfold indirect in H5. unfold NDIRECT in *.
    rewrite (proj2 (Nat.leb_gt _ _)) by lia. by rewrite (proj2 (Nat.ltb_ge _ _)) in H5 by lia.
Qed.

Lemma dinode_add_indirect din f sz b ind : dinode_at din 0 f sz -> (NDIRECT <= length (mf_blocks f))%nat ->
  word_at din (addr_off NDIRECT) = ind -> dinode_at din 0 (add_block b ind f) sz.
Proof.
  intros [H1 H2 H3 H4 H5] Hl Hi. split; simpl; [done..| |].
  - intros j Hj. rewrite app_nth1 by lia. by apply H4.
  - rewrite indirect_add, (proj2 (Nat.leb_le _ _)) by done. done.
Qed.
Lemma dinode_set_indirect din f sz ind : dinode_at din 0 f sz -> length din = 64%nat -> length (mf_blocks f) = NDIRECT -> 0 <= ind < 2 ^ 32 ->
  forall b, dinode_at (set_bytes (addr_off NDIRECT) (xint ind) din) 0 (add_block b ind f) sz.
Proof.
  intros [H1 H2 H3 H4 H5] Hl Hn Hi b. split; cbn [add_block mf_type mf_data mf_blocks mf_ind]; unfold addr_off, NDIRECT in *.
  - rewrite half_at_set_bytes_ne by lia. done.
  - rewrite half_at_set_bytes_ne by lia. done.
  - rewrite word_at_xint_ne by lia. done.
  - intros j Hj. rewrite app_nth1 by lia. rewrite word_at_xint_ne by lia. by apply H4.
  - rewrite indirect_add, (proj2 (Nat.leb_le _ _)) by (unfold NDIRECT; lia). apply word_at_xint; [done|lia].
Qed.

(** Storing an address of the indirect block. *)
Lemma indirect_set e l b : length e = BSIZE -> (NDIRECT <= length l < Z.to_nat MAXFILE)%nat -> 0 <= b < 2 ^ 32 ->
  (forall j, (j < Z.to_nat NINDIRECT)%nat -> word_at e (4 * j) = nth (NDIRECT + j) l 0) ->
  forall j, (j < Z.to_nat NINDIRECT)%nat ->
  word_at (set_bytes (4 * (length l - NDIRECT)) (xint b) e) (4 * j) = nth (NDIRECT + j) (l ++ [b]) 0.
Proof.
  intros He Hl Hb Hw j Hj. rewrite nth_snoc. change (Z.to_nat MAXFILE) with 140%nat in Hl. change (Z.to_nat NINDIRECT) with 128%nat in *.
  unfold NDIRECT, BSIZE in *. destruct (Nat.eqb_spec (12 + j) (length l)) as [E|Hne].
  - replace (length l - 12)%nat with j by lia. apply word_at_xint; [done|lia].
  - rewrite word_at_xint_ne by lia. by apply Hw.
Qed.

Lemma length_used f : length (used f) = bcost (length (mf_blocks f)).
Proof. unfold used, bcost, indirect. rewrite length_app. destruct (NDIRECT <? _)%nat; simpl; lia. Qed.

Lemma world_NoDup s l1 f l2 : world s (l1 ++ f :: l2) -> NoDup (used f).
Proof.
  intros Hw. pose proof (w_used _ _ Hw) as Hu. assert (NoDup (concat (map used (l1 ++ f :: l2)))) as Hn by (rewrite Hu; apply NoDup_seqZ).
  rewrite map_app, concat_app in Hn. simpl in Hn. apply NoDup_app in Hn as (_ & _ & Hn). by apply NoDup_app in Hn as (Hn & _).
Qed.

Lemma world_data s l1 f l2 : world s (l1 ++ f :: l2) -> data_at (mk_img s) f.
Proof. intros Hw. pose proof (w_data _ _ Hw) as H. apply Forall_app in H as [_ H]. by apply Forall_cons in H as [H _]. Qed.
Lemma world_block s l1 f l2 b : world s (l1 ++ f :: l2) -> b ∈ used f -> nmeta <= b < mk_freeblock s.
Proof. intros Hw. apply (used_range _ _ _ _ Hw). apply elem_of_app. right. by left. Qed.
Lemma block_used f k b : mf_blocks f !! k = Some b -> b ∈ used f.
Proof. intros Hk. apply elem_of_app. left. by eapply list_elem_of_lookup_2. Qed.
Lemma ind_used f : indirect f = true -> mf_ind f ∈ used f.
Proof. intros Hi. unfold used. rewrite Hi. apply elem_of_app. right. by left. Qed.

(** What iappend() does not touch before it writes the inode. *)
Definition keeps (s s' : mkfs_st) : Prop :=
  (forall b, b < nmeta -> mk_img s' b = mk_img s b) /\ mk_freeinode s' = mk_freeinode s.
Lemma keeps_refl s : keeps s s. Proof. done. Qed.
Lemma keeps_trans s1 s2 s3 : keeps s1 s2 -> keeps s2 s3 -> keeps s1 s3.
Proof. intros [H1 H2] [H3 H4]. split; [intros b Hb; rewrite H3 by done; by apply H1|congruence]. Qed.

Lemma wp_rsect b (Q : list Z -> mkfs_st -> Prop) s : b < mk_size s -> Q (mk_img s b) s -> wp (rsect b) Q s.
Proof. intros Hb HQ. unfold rsect. wp_steps. by rewrite (proj2 (Z.ltb_lt _ _)) by done. Qed.
Lemma wp_next_block (Q : Z -> mkfs_st -> Prop) s : 0 <= mk_freeblock s <= FSSIZE ->
  Q (mk_freeblock s) (set_freeblock (mk_freeblock s + 1) s) -> wp next_block Q s.
Proof. intros Hb HQ. unfold next_block. wp_steps. rewrite u32_small by (unfold FSSIZE in Hb; lia). done. Qed.


(** The block of index [fbn] of the file, if it has one already. *)
Lemma append_block_old s l1 f l2 din sz fbn b Q : world s (l1 ++ f :: l2) -> dinode_at din 0 f sz ->
  mf_blocks f !! fbn = Some b -> Q (din, b) s -> wp (append_block din (Z.of_nat fbn)) Q s.
Proof.
  intros Hw Hd Hb HQ. pose proof (world_block _ _ _ _ _ Hw (block_used _ _ _ Hb)) as Hrb. pose proof (w_free _ _ Hw) as Hr.
  pose proof (lookup_lt_Some _ _ _ Hb) as Hlt. pose proof (nth_lookup_Some _ _ 0 _ Hb) as Hnth.
  unfold append_block. destruct (Z.ltb_spec (Z.of_nat fbn) (Z.of_nat NDIRECT)).
  - rewrite Nat2Z.id. pose proof (da_addrs _ _ _ _ Hd fbn ltac:(lia)) as Ha. rewrite Nat.add_0_l, Hnth in Ha. rewrite Ha.
    rewrite (proj2 (Z.eqb_neq _ _)) by (rewrite nmeta_value in Hrb; lia). wp_steps. by rewrite Ha.
  - assert (indirect f = true) as Hi by (apply Nat.ltb_lt; lia).
    pose proof (world_block _ _ _ _ _ Hw (ind_used _ Hi)) as Hri. pose proof (da_ind _ _ _ _ Hd) as Ha. rewrite Nat.add_0_l, Hi in Ha.
    pose proof (world_data _ _ _ _ Hw) as Hda. pose proof (dt_max _ _ Hda) as Hm. change (Z.to_nat MAXFILE) with 140%nat in Hm.
    pose proof (dt_ind _ _ Hda Hi (fbn - NDIRECT)) as Hj. change (Z.to_nat NINDIRECT) with 128%nat in Hj.
    replace (NDIRECT + (fbn - NDIRECT))%nat with fbn in Hj by lia. rewrite Hnth in Hj. specialize (Hj ltac:(unfold NDIRECT; lia)).
    rewrite Ha, (proj2 (Z.eqb_neq _ _)) by (rewrite nmeta_value in Hri; lia). apply wp_bind, wp_ret. rewrite Ha.
    apply wp_bind, wp_rsect; [rewrite (w_size _ _ Hw); lia|]. replace (Z.to_nat (Z.of_nat fbn - Z.of_nat NDIRECT)) with (fbn - NDIRECT)%nat by lia.
    rewrite Hj, (proj2 (Z.eqb_neq _ _)) by (rewrite nmeta_value in Hrb; lia). wp_steps. by rewrite Hj.
Qed.

(** A new one: the specification shared by the three ways of adding it. *)
Definition added (s : mkfs_st) (l1 : list mfile) (f : mfile) (l2 : list mfile) (sz : Z) (r : list Z * Z) (s' : mkfs_st) : Prop :=
  exists ind, world s' (l1 ++ add_block (snd r) ind f :: l2) /\ dinode_at (fst r) 0 (add_block (snd r) ind f) sz /\
    length (fst r) = 64%nat /\ keeps s s'.

Lemma append_block_direct s l1 f l2 din sz : world s (l1 ++ f :: l2) -> dinode_at din 0 f sz -> length din = 64%nat ->
  (length (mf_blocks f) < NDIRECT)%nat -> mk_freeblock s + 1 <= FSSIZE ->
  wp (append_block din (Z.of_nat (length (mf_blocks f)))) (added s l1 f l2 sz) s.
Proof.
  intros Hw Hd Hl Hlt Hroom. pose proof (w_free _ _ Hw) as Hr. rewrite nmeta_value in Hr. unfold FSSIZE in *.
  unfold append_block. rewrite (proj2 (Z.ltb_lt _ _)), Nat2Z.id by lia.
  pose proof (da_addrs _ _ _ _ Hd _ Hlt) as Ha. rewrite Nat.add_0_l, nth_overflow in Ha by done. rewrite Ha. simpl Z.eqb. cbv iota.
  apply wp_bind, wp_bind, wp_next_block; [unfold FSSIZE; lia|]. wp_steps.
  rewrite word_at_xint by (unfold addr_off, NDIRECT in *; lia). exists 0. simpl fst. simpl snd.
  split; [|split; [by apply dinode_add_direct; [..|lia]|split; [by rewrite length_set_bytes|done]]].
  eapply world_grow; [exact Hw|apply Hw|simpl; unfold FSSIZE; lia| |done|apply Hw|].
  - simpl. replace (mk_freeblock s + 1 - mk_freeblock s) with 1 by lia. unfold used. rewrite indirect_add.
    unfold indirect. rewrite (proj2 (Nat.leb_gt _ _)), (proj2 (Nat.ltb_ge _ _)) by lia. simpl. rewrite !app_nil_r. solve_Permutation.
  - apply (data_at_add (mk_img s)); [by eapply world_data|done| | |].
    + simpl. apply Hw. unfold FSSIZE. lia.
    + change (Z.to_nat MAXFILE) with 140%nat. unfold NDIRECT in Hlt. lia.
    + lia.
Qed.

Lemma world_add_indirect s s' l1 f l2 b ind e : world s (l1 ++ f :: l2) -> (NDIRECT <= length (mf_blocks f) < Z.to_nat MAXFILE)%nat ->
  length e = BSIZE -> (forall j, (j < Z.to_nat NINDIRECT)%nat -> word_at e (4 * j) = nth (NDIRECT + j) (mf_blocks f) 0) ->
  mk_freeblock s <= b < FSSIZE -> b <> ind -> ind ∉ mf_blocks f ->
  mk_img s' = upd_block ind (set_bytes (4 * (length (mf_blocks f) - NDIRECT)) (xint b) e) (mk_img s) ->
  mk_size s' = FSSIZE -> mk_freeblock s <= mk_freeblock s' <= FSSIZE ->
  used (add_block b ind f) ≡ₚ seqZ (mk_freeblock s) (mk_freeblock s' - mk_freeblock s) ++ used f ->
  world s' (l1 ++ add_block b ind f :: l2).
Proof.
  intros Hw Hlen He Hwords Hb Hne Hin HI Hs Hr Hu. pose proof (w_free _ _ Hw) as Hf. rewrite nmeta_value in Hf.
  eapply world_grow; try done.
  - intros b0 Hb0. rewrite HI. apply upd_block_ne. intros ->. apply Hb0. apply (ind_used (add_block b ind f)).
    rewrite indirect_add. apply Nat.leb_le, Hlen.
  - intros b0. rewrite HI. unfold upd_block. destruct (b0 =? ind); [by rewrite length_set_bytes|apply Hw].
  - apply (data_at_add (mk_img s)); [by eapply world_data| | |lia|].
    + intros b0 Hb0. rewrite HI. apply upd_block_ne. by intros ->.
    + rewrite HI, upd_block_ne by done. by apply Hw.
    + intros _ j Hj. rewrite HI, upd_block_eq. apply indirect_set; [done|done| |done|done]. unfold FSSIZE in *. lia.
Qed.

Lemma append_block_indirect s l1 f l2 din sz : world s (l1 ++ f :: l2) -> dinode_at din 0 f sz -> length din = 64%nat ->
  (NDIRECT < length (mf_blocks f) < Z.to_nat MAXFILE)%nat -> mk_freeblock s + 1 <= FSSIZE ->
  wp (append_block din (Z.of_nat (length (mf_blocks f)))) (added s l1 f l2 sz) s.
Proof.
  intros Hw Hd Hl Hlt Hroom. pose proof (w_free _ _ Hw) as Hr. rewrite nmeta_value in Hr.
  assert (indirect f = true) as Hi by (apply Nat.ltb_lt; lia). pose proof (world_block _ _ _ _ _ Hw (ind_used _ Hi)) as Hri.
  rewrite nmeta_value in Hri. pose proof (da_ind _ _ _ _ Hd) as Ha. rewrite Nat.add_0_l, Hi in Ha.
  pose proof (dt_ind _ _ (world_data _ _ _ _ Hw) Hi) as Hwords.
  unfold append_block. rewrite (proj2 (Z.ltb_ge _ _)), Ha, (proj2 (Z.eqb_neq _ _)) by lia. apply wp_bind, wp_ret. rewrite Ha.
  apply wp_bind, wp_rsect; [rewrite (w_size _ _ Hw); lia|].
  replace (Z.to_nat (Z.of_nat (length (mf_blocks f)) - Z.of_nat NDIRECT)) with (length (mf_blocks f) - NDIRECT)%nat by lia.
  rewrite Hwords, nth_overflow by (change (Z.to_nat NINDIRECT) with 128%nat; change (Z.to_nat MAXFILE) with 140%nat in Hlt; unfold NDIRECT in *; lia).
  simpl Z.eqb. cbv iota. apply wp_bind, wp_bind, wp_next_block; [lia|]. apply wp_bind, wp_modify, wp_ret, wp_ret.
  rewrite word_at_xint by (rewrite ?(w_len _ _ Hw); change (Z.to_nat MAXFILE) with 140%nat in Hlt; unfold BSIZE, NDIRECT, FSSIZE in *; lia).
  exists (mf_ind f). simpl fst. simpl snd.
  assert (used (add_block (mk_freeblock s) (mf_ind f) f) ≡ₚ seqZ (mk_freeblock s) (mk_freeblock s + 1 - mk_freeblock s) ++ used f) as Hu.
  { replace (mk_freeblock s + 1 - mk_freeblock s) with 1 by lia. unfold used. rewrite indirect_add, Hi, (proj2 (Nat.leb_le _ _)) by lia.
    simpl. solve_Permutation. }
  pose proof (world_NoDup _ _ _ _ Hw) as Hnd. unfold used in Hnd. rewrite Hi in Hnd. apply NoDup_app in Hnd as (_ & Hnd & _).
  split; [|split; [apply dinode_add_indirect; [done|lia|done]|split; [done|]]].
  - eapply world_add_indirect; [exact Hw|lia|apply (w_len _ _ Hw)|exact Hwords|lia|lia| |reflexivity|simpl; rewrite (w_size _ _ Hw); lia|simpl; lia|exact Hu].
    intros Hin. apply (Hnd _ Hin). by left.
  - split; [|done]. intros b Hb. rewrite nmeta_value in Hb. simpl. apply upd_block_ne. lia.
Qed.

(** The first block behind the direct ones takes the indirect block with it. *)
Lemma append_block_first s l1 f l2 din sz : world s (l1 ++ f :: l2) -> dinode_at din 0 f sz -> length din = 64%nat ->
  length (mf_blocks f) = NDIRECT -> mk_freeblock s + 2 <= FSSIZE ->
  wp (append_block din (Z.of_nat (length (mf_blocks f)))) (added s l1 f l2 sz) s.
Proof.
  intros Hw Hd Hl Hlen Hroom. pose proof (w_free _ _ Hw) as Hr. rewrite nmeta_value in Hr. unfold FSSIZE in *.
  assert (indirect f = false) as Hi by (apply Nat.ltb_ge; lia).
  pose proof (da_ind _ _ _ _ Hd) as Ha. rewrite Nat.add_0_l, Hi in Ha.
  unfold append_block. rewrite (proj2 (Z.ltb_ge _ _)), Ha by lia. simpl Z.eqb. cbv iota.
  apply wp_bind, wp_bind, wp_next_block; [unfold FSSIZE; lia|]. apply wp_ret.
  assert (word_at (set_bytes (addr_off NDIRECT) (xint (mk_freeblock s)) din) (addr_off NDIRECT) = mk_freeblock s) as Ho
    by (apply word_at_xint; [lia|rewrite Hl; unfold addr_off, NDIRECT; lia]).
  rewrite Ho. apply wp_bind, wp_rsect; [simpl; rewrite (w_size _ _ Hw); unfold FSSIZE; lia|]. simpl mk_img.
  rewrite (w_zero _ _ Hw) by (unfold FSSIZE; lia). replace (4 * Z.to_nat _)%nat with 0%nat by lia.
  rewrite word_at_zero by (unfold BSIZE; lia). simpl Z.eqb. cbv iota.
  apply wp_bind, wp_bind, wp_next_block; [simpl; unfold FSSIZE; lia|]. apply wp_bind, wp_modify, wp_ret, wp_ret.
  rewrite word_at_xint by (rewrite ?length_replicate; simpl; unfold BSIZE; lia).
  exists (mk_freeblock s). simpl fst. simpl snd.
  split; [|split; [apply dinode_set_indirect; [done|done|done|lia]|split; [by rewrite length_set_bytes|]]].
  - eapply world_add_indirect; [exact Hw|change (Z.to_nat MAXFILE) with 140%nat; unfold NDIRECT in *; lia|apply (length_replicate BSIZE)| | | | | | | |].
    + intros j Hj. change (Z.to_nat NINDIRECT) with 128%nat in Hj. rewrite word_at_zero by (unfold BSIZE; lia). by rewrite nth_overflow by lia.
    + simpl. unfold FSSIZE. lia.
    + simpl. lia.
    + intros Hin. apply list_elem_of_lookup in Hin as [k Hk]. pose proof (world_block _ _ _ _ _ Hw (block_used _ _ _ Hk)). lia.
    + rewrite Hlen, Nat.sub_diag. reflexivity.
    + simpl. rewrite (w_size _ _ Hw). unfold FSSIZE. lia.
    + simpl. unfold FSSIZE. lia.
    + simpl mk_freeblock. replace (mk_freeblock s + 1 + 1 - mk_freeblock s) with 2 by lia. unfold used.
      rewrite indirect_add, Hi, Hlen. simpl. replace (Z.of_nat 1 + mk_freeblock s) with (mk_freeblock s + 1) by lia.
      rewrite app_nil_r. solve_Permutation.
  - split; [|done]. intros b Hb. rewrite nmeta_value in Hb. simpl. apply upd_block_ne. lia.
Qed.

(** append_block() gives the file's block of index [fbn], a new one if it is the next. *)
Lemma append_block_run s l1 f l2 din sz fbn : world s (l1 ++ f :: l2) -> dinode_at din 0 f sz -> length din = 64%nat ->
  (fbn <= length (mf_blocks f))%nat -> (fbn < Z.to_nat MAXFILE)%nat ->
  mk_freeblock s + Z.of_nat (bcost (Nat.max (length (mf_blocks f)) (fbn + 1))) - Z.of_nat (bcost (length (mf_blocks f))) <= FSSIZE ->
  wp (append_block din (Z.of_nat fbn)) (fun r s' => exists f', world s' (l1 ++ f' :: l2) /\ mf_type f' = mf_type f /\ mf_data f' = mf_data f /\
    dinode_at (fst r) 0 f' sz /\ length (fst r) = 64%nat /\ mf_blocks f' !! fbn = Some (snd r) /\
    length (mf_blocks f') = Nat.max (length (mf_blocks f)) (fbn + 1) /\ keeps s s') s.
Proof.
  intros Hw Hd Hl Hle Hmax Hroom. destruct (decide (fbn < length (mf_blocks f))%nat) as [Hlt|Hge].
  - apply lookup_lt_is_Some in Hlt as [b Hb]. eapply append_block_old; [done..|]. exists f. pose proof (lookup_lt_Some _ _ _ Hb).
    split_and!; try done. lia.
  - assert (fbn = length (mf_blocks f)) as -> by lia. rewrite Nat.max_r in Hroom |- * by lia. unfold bcost in Hroom.
    eapply wp_mono; [|destruct (decide (length (mf_blocks f) < NDIRECT)%nat); [|destruct (decide (length (mf_blocks f) = NDIRECT))];
      [apply append_block_direct|apply append_block_first|apply append_block_indirect]; try done; try lia].
    + intros r s' (ind & H1 & H2 & H3 & H4). eexists. split; [done|]. split_and!; try done.
      * simpl. by rewrite lookup_app_r, Nat.sub_diag by lia.
      * simpl. by rewrite length_app.
    + rewrite !(proj2 (Nat.ltb_ge _ _)) in Hroom by lia. lia.
    + rewrite (proj2 (Nat.ltb_lt _ _)), (proj2 (Nat.ltb_ge _ _)) in Hroom by lia. lia.
    + rewrite !(proj2 (Nat.ltb_lt _ _)) in Hroom by lia. lia.
Qed.

(** *** Writing the bytes *)
Definition grow (xs : list Z) (f : mfile) : mfile := MFile (mf_type f) (mf_data f ++ xs) (mf_blocks f) (mf_ind f).

Lemma data_at_grow I f k b xs : data_at I f -> NoDup (used f) -> mf_blocks f !! k = Some b -> length (I b) = BSIZE ->
  (BSIZE * k <= length (mf_data f))%nat -> (length (mf_data f) + length xs <= BSIZE * (k + 1))%nat ->
  data_at (upd_block b (set_bytes (length (mf_data f) - BSIZE * k) xs (I b)) I) (grow xs f).
Proof.
  intros [H1 H2 H3 H4] Hnd Hb Hl Ho Hx. pose proof (lookup_lt_Some _ _ _ Hb) as Hk. unfold used in Hnd.
  apply NoDup_app in Hnd as (Hnd & Hni & _).
  split; cbn [grow mf_data mf_blocks mf_ind]; [rewrite length_app; unfold BSIZE in *; lia|done| |].
  - intros k' b' j Hk' Hj. destruct (decide (k' = k)) as [->|Hne].
    + rewrite Hb in Hk'. injection Hk' as <-. rewrite upd_block_eq.
      destruct (decide (length (mf_data f) <= BSIZE * k + j < length (mf_data f) + length xs)%nat) as [Hin|Hout].
      * rewrite byte_at_set_in by lia. rewrite app_nth2 by lia.
        replace (BSIZE * k + j - length (mf_data f))%nat with (j - (length (mf_data f) - BSIZE * k))%nat by lia.
        symmetry. apply nth_lookup_Some, list_lookup_lookup_total_lt. lia.
      * rewrite byte_at_set_out by lia. rewrite (H3 _ _ _ Hb) by done.
        destruct (decide (BSIZE * k + j < length (mf_data f))%nat); [by rewrite app_nth1|].
        rewrite !nth_overflow; [done|rewrite length_app; lia|lia].
    + rewrite upd_block_ne by (intros ->; apply Hne; by eapply NoDup_lookup). rewrite (H3 _ _ _ Hk') by done.
      unfold BSIZE in *. destruct (decide (k' < k)%nat); [by rewrite app_nth1 by lia|].
      rewrite !nth_overflow; [done|rewrite length_app; lia|lia].
  - intros Hi j Hj. rewrite upd_block_ne; [by apply H4|]. intros E. unfold indirect in Hi, Hni. cbn [grow mf_blocks] in Hi.
    rewrite Hi, E in Hni. apply (Hni b); [by eapply list_elem_of_lookup_2|by left].
Qed.

Lemma world_write s l1 f l2 k b xs : world s (l1 ++ f :: l2) -> mf_blocks f !! k = Some b ->
  (BSIZE * k <= length (mf_data f))%nat -> (length (mf_data f) + length xs <= BSIZE * (k + 1))%nat ->
  wp (wsect b (set_bytes (length (mf_data f) - BSIZE * k) xs (mk_img s b))) (fun _ s' => world s' (l1 ++ grow xs f :: l2) /\ keeps s s') s.
Proof.
  intros Hw Hb Ho Hx. pose proof (world_block _ _ _ _ _ Hw (block_used _ _ _ Hb)) as Hr. pose proof (w_free _ _ Hw) as Hf.
  apply wp_modify. split; [|split; [|done]].
  - eapply world_grow; [exact Hw|simpl; rewrite (w_size _ _ Hw); lia|simpl; lia| | | |].
    + simpl. by rewrite Z.sub_diag.
    + intros b0 Hb0. simpl. apply upd_block_ne. intros ->. apply Hb0. by apply (block_used (grow xs f) k).
    + intros b0. simpl. unfold upd_block. destruct (b0 =? b); [rewrite length_set_bytes|]; apply Hw.
    + apply data_at_grow; try done; [by eapply world_data|by eapply world_NoDup|apply Hw].
  - intros b0 Hb0. simpl. apply upd_block_ne. lia.
Qed.

(** *** The loop *)
Lemma bcost_mono n m : (n <= m)%nat -> (bcost n <= bcost m)%nat.
Proof. unfold bcost. intros H. destruct (Nat.ltb_spec NDIRECT n), (Nat.ltb_spec NDIRECT m); lia. Qed.
Lemma blocks_for_mono n m : (n <= m)%nat -> (blocks_for n <= blocks_for m)%nat.
Proof. intros H. apply Nat.Div0.div_le_mono. lia. Qed.
Lemma cost_mono n m : (n <= m)%nat -> (cost n <= cost m)%nat.
Proof. intros H. by apply bcost_mono, blocks_for_mono. Qed.
Lemma blocks_for_exact n k : (BSIZE * k < n <= BSIZE * (k + 1))%nat -> blocks_for n = (k + 1)%nat.
Proof. unfold blocks_for, BSIZE. intros H. symmetry. apply (Nat.div_unique _ _ _ (n + 511 - 512 * (k + 1))); lia. Qed.

Lemma world_free s fs : world s fs -> mk_freeblock s = nmeta + Z.of_nat (length (concat (map used fs))).
Proof. intros Hw. pose proof (w_free _ _ Hw). rewrite (w_used _ _ Hw), length_seqZ. lia. Qed.
Lemma world_free_change s s' l1 f f' l2 : world s (l1 ++ f :: l2) -> world s' (l1 ++ f' :: l2) ->
  mk_freeblock s' - Z.of_nat (bcost (length (mf_blocks f'))) = mk_freeblock s - Z.of_nat (bcost (length (mf_blocks f))).
Proof.
  intros Hw Hw'. rewrite (world_free _ _ Hw), (world_free _ _ Hw'). rewrite !map_app, !concat_app. simpl.
  rewrite !length_app, !length_used. lia.
Qed.

(** What a file looks like to iappend() between two rounds. *)
Definition open_file (s : mkfs_st) (l1 : list mfile) (f : mfile) (l2 : list mfile) (din : list Z) (sz : Z) : Prop :=
  world s (l1 ++ f :: l2) /\ dinode_at din 0 f sz /\ length din = 64%nat /\ length (mf_blocks f) = blocks_for (length (mf_data f)).

Lemma dinode_grow din off f sz xs : dinode_at din off f sz -> dinode_at din off (grow xs f) sz.
Proof. intros [H1 H2 H3 H4 H5]. by split. Qed.

Lemma iappend_loop_run k xs s l1 f l2 din sz : open_file s l1 f l2 din sz -> (length xs <= k)%nat ->
  (length (mf_data f) + length xs <= Z.to_nat MAXFILE * BSIZE)%nat ->
  mk_freeblock s + Z.of_nat (cost (length (mf_data f) + length xs)) - Z.of_nat (cost (length (mf_data f))) <= FSSIZE ->
  wp (iappend_loop k din (Z.of_nat (length (mf_data f))) xs) (fun r s' => exists f', open_file s' l1 f' l2 (fst r) sz /\
    mf_type f' = mf_type f /\ mf_data f' = mf_data f ++ xs /\ snd r = Z.of_nat (length (mf_data f')) /\ keeps s s') s.
Proof.
  revert xs s f din. induction k as [|k IH]; intros xs s f din Ho Hk Hmax Hroom;
    (destruct xs as [|x xs]; [apply wp_ret; exists f; rewrite app_nil_r; split_and!; (done || apply Ho)|]); [simpl in Hk; lia|].
  cbn [iappend_loop]. set (ys := x :: xs) in *. assert (1 <= length ys)%nat as Hys by (simpl; lia).
  rewrite (proj2 (Nat.eqb_neq _ _)) by lia. destruct Ho as (Hw & Hd & Hl & Ht).
  set (n := length (mf_data f)) in *. set (q := (n / BSIZE)%nat).
  assert (BSIZE * q <= n < BSIZE * (q + 1))%nat as Hq by (unfold q; pose proof (Nat.div_mod n BSIZE ltac:(done)); pose proof (Nat.mod_upper_bound n BSIZE ltac:(done)); lia).
  assert (Z.of_nat n / Z.of_nat BSIZE = Z.of_nat q) as -> by (unfold q; by rewrite Nat2Z.inj_div).
  set (m := Nat.min (length ys) (BSIZE * (q + 1) - n)).
  assert (Z.to_nat (Z.min (Z.of_nat (length ys)) ((Z.of_nat q + 1) * Z.of_nat BSIZE - Z.of_nat n)) = m) as -> by (unfold m, BSIZE in *; lia).
  assert (Z.to_nat (Z.of_nat n - Z.of_nat q * Z.of_nat BSIZE) = n - BSIZE * q)%nat as -> by (unfold BSIZE in *; lia).
  assert (1 <= m <= length ys)%nat as Hm by (unfold m, BSIZE in *; lia). assert (n + m <= BSIZE * (q + 1))%nat as Hm' by lia.
  assert (blocks_for (n + m) = (q + 1)%nat) as Hb by (apply blocks_for_exact; lia).
  assert (q <= blocks_for n <= q + 1)%nat as Hbn.
  { split; [|rewrite <- Hb; apply blocks_for_mono; lia]. apply Nat.div_le_lower_bound; [done|]. unfold BSIZE in *. lia. }
  assert (q < Z.to_nat MAXFILE)%nat as Hqm by (unfold BSIZE in *; lia).
  rewrite (proj2 (Z.ltb_lt _ _)) by (rewrite MAXFILE_value in *; lia). cbn [negb].
  pose proof (cost_mono (n + m) (n + length ys) ltac:(lia)) as Hc. unfold cost in Hroom, Hc. rewrite Hb in Hc.
  apply wp_bind. eapply wp_mono; [|eapply append_block_run; [done..| | |]]; [|lia|lia|rewrite Ht, Nat.max_r by lia; lia].
  intros r s1 (f1 & Hw1 & Ht1 & Hd1 & Hdin1 & Hl1 & Hb1 & Hlen1 & K1). rewrite Ht, Nat.max_r in Hlen1 by lia.
  pose proof (world_block _ _ _ _ _ Hw1 (block_used _ _ _ Hb1)). pose proof (w_free _ _ Hw1).
  apply wp_bind, wp_rsect; [rewrite (w_size _ _ Hw1); lia|].
  apply wp_bind. unfold n. rewrite <- Hd1. eapply wp_mono; [|eapply (world_write s1 l1 f1 l2 q)]; [|done..|rewrite Hd1; fold n; lia|rewrite Hd1, length_take; fold n; lia].
  intros [] s2 [Hw2 K2]. cbv beta. pose proof (world_free_change _ _ _ _ _ _ Hw Hw2) as Hfree. cbn [grow mf_blocks] in Hfree.
  assert (length (mf_data (grow (take m ys) f1)) = n + m)%nat as Hn2 by (cbn [grow mf_data]; rewrite length_app, length_take, Hd1; fold n; lia).
  replace (Z.of_nat (length (mf_data f1)) + Z.of_nat m) with (Z.of_nat (length (mf_data (grow (take m ys) f1)))) by (rewrite Hn2, Hd1; fold n; lia).
  eapply wp_mono; [|apply (IH (drop m ys) s2 (grow (take m ys) f1) (fst r))].
  - intros r3 s3 (f3 & Ho3 & Ht3 & Hd3 & Hn3 & K3). exists f3. split; [done|]. cbn [grow mf_data mf_type] in *.
    split_and!; [congruence| |done|by eapply keeps_trans, keeps_trans]. by rewrite Hd3, Hd1, <- app_assoc, take_drop.
  - split_and!; [done|by apply dinode_grow|done|]. rewrite Hn2, Hb. done.
  - rewrite length_drop. lia.
  - rewrite Hn2, length_drop. lia.
  - unfold cost. rewrite Hn2, length_drop, Hb. replace (n + m + (length ys - m))%nat with (n + length ys)%nat by lia. rewrite Hlen1, Ht in Hfree. lia.
Qed.

(** *** Inodes *)
Lemma dinode_at_ext d off d' off' f sz : (forall j, (j < 64)%nat -> byte_at d' (off' + j) = byte_at d (off + j)) ->
  dinode_at d off f sz -> dinode_at d' off' f sz.
Proof.
  intros Hb [H1 H2 H3 H4 H5].
  assert (forall j, (j + 4 <= 64)%nat -> word_at d' (off' + j) = word_at d (off + j)) as Hw
    by (intros j Hj; unfold word_at; rewrite <- !Nat.add_assoc; by rewrite !Hb by lia).
  assert (forall j, (j + 2 <= 64)%nat -> half_at d' (off' + j) = half_at d (off + j)) as Hh
    by (intros j Hj; unfold half_at; rewrite <- !Nat.add_assoc; by rewrite !Hb by lia).
  split.
  - rewrite <- (Nat.add_0_r off'), Hh, Nat.add_0_r by lia. done.
  - rewrite Hh by lia. done.
  - rewrite Hw by lia. done.
  - intros j Hj. rewrite Hw by (unfold addr_off, NDIRECT in *; lia). by apply H4.
  - rewrite Hw by (unfold addr_off, NDIRECT in *; lia). done.
Qed.

Lemma inode_place i : 0 <= i < NINODES -> IBLOCK i mk_sb = i / 8 + 32 /\ dinode_off i = (64 * Z.to_nat (i mod 8))%nat.
Proof.
  intros Hi. pose proof (Z.div_le_upper_bound i 8 200). pose proof (Z.div_pos i 8). unfold NINODES in Hi.
  pose proof (Z.mod_pos_bound i 8 ltac:(done)). split.
  - unfold IBLOCK. change IPB with 8. change (sb_inodestart mk_sb) with 32. apply u32_small. lia.
  - unfold dinode_off. change IPB with 8. change sizeof_dinode with 64. lia.
Qed.
Lemma inode_sector i : 0 <= i < NINODES -> 1 < IBLOCK i mk_sb < 58.
Proof.
  intros Hi. rewrite (proj1 (inode_place i Hi)). unfold NINODES in Hi.
  pose proof (Z.div_pos i 8 ltac:(lia) ltac:(lia)). pose proof (Z.div_lt_upper_bound i 8 25 ltac:(lia) ltac:(lia)). lia.
Qed.

Definition store_inode (i : Z) (din : list Z) (I : Z -> list Z) : Z -> list Z :=
  upd_block (IBLOCK i mk_sb) (set_bytes (dinode_off i) din (I (IBLOCK i mk_sb))) I.

Lemma store_inode_eq i din I f sz : length (I (IBLOCK i mk_sb)) = BSIZE -> length din = 64%nat -> dinode_at din 0 f sz ->
  dinode_at (store_inode i din I (IBLOCK i mk_sb)) (dinode_off i) f sz.
Proof.
  intros Hl Hd. unfold store_inode. rewrite upd_block_eq. apply dinode_at_ext. intros j Hj. pose proof (dinode_off_lt i).
  rewrite byte_at_set_in by lia. unfold byte_at. f_equal. lia.
Qed.
Lemma store_inode_ne i i' din I f sz : 0 <= i < NINODES -> 0 <= i' < NINODES -> i' <> i -> length din = 64%nat ->
  dinode_at (I (IBLOCK i' mk_sb)) (dinode_off i') f sz -> dinode_at (store_inode i din I (IBLOCK i' mk_sb)) (dinode_off i') f sz.
Proof.
  intros Hi Hi' Hne Hd. apply dinode_at_ext. intros j Hj. unfold store_inode.
  destruct (inode_place i Hi) as [E1 E2]. destruct (inode_place i' Hi') as [E1' E2'].
  destruct (decide (IBLOCK i' mk_sb = IBLOCK i mk_sb)) as [E|E]; [|by rewrite upd_block_ne].
  rewrite E, upd_block_eq. apply byte_at_set_out. rewrite Hd, E2, E2'.
  pose proof (Z.div_mod i 8 ltac:(done)). pose proof (Z.div_mod i' 8 ltac:(done)).
  pose proof (Z.mod_pos_bound i 8 ltac:(done)). pose proof (Z.mod_pos_bound i' 8 ltac:(done)). lia.
Qed.

(** The image with its first inodes: inode [k + 1] is the file [k] of the list. *)
Record image (s : mkfs_st) (fs : list mfile) : Prop := {
  im_world : world s fs;
  im_inode : forall k f, fs !! k = Some f ->
    dinode_at (mk_img s (IBLOCK (Z.of_nat k + 1) mk_sb)) (dinode_off (Z.of_nat k + 1)) f (Z.of_nat (length (mf_data f)));
  im_tight : forall k f, fs !! k = Some f -> length (mf_blocks f) = blocks_for (length (mf_data f));
  im_next : mk_freeinode s = Z.of_nat (length fs) + 1;
  im_few : Z.of_nat (length fs) < NINODES;
  im_sb : sb_of (mk_img s 1) = mk_sb
}.

Lemma winode_run i din Q s : mk_size s = FSSIZE -> 0 <= i < NINODES ->
  Q tt (MkMkfs (store_inode i din (mk_img s)) FSSIZE (mk_freeinode s) (mk_freeblock s)) -> wp (winode i din) Q s.
Proof.
  intros Hs Hi HQ. pose proof (inode_sector i Hi). unfold winode. apply wp_bind, wp_rsect; [rewrite Hs; unfold FSSIZE; lia|].
  apply wp_modify. rewrite Hs, Z.max_l by (unfold FSSIZE; lia). exact HQ.
Qed.

Lemma store_inode_block i din I b : 0 <= i < NINODES -> nmeta <= b \/ b = 1 \/ b = 58 -> store_inode i din I b = I b.
Proof. intros Hi Hb. pose proof (inode_sector i Hi). apply upd_block_ne. rewrite nmeta_value in Hb. lia. Qed.
Lemma length_store_inode i din I b : (forall b, length (I b) = BSIZE) -> length (store_inode i din I b) = BSIZE.
Proof. intros HI. unfold store_inode, upd_block. destruct (b =? _); [by rewrite length_set_bytes|done]. Qed.
Lemma world_store_inode s i din fs nf : world s fs -> 0 <= i < NINODES ->
  world (MkMkfs (store_inode i din (mk_img s)) FSSIZE nf (mk_freeblock s)) fs.
Proof.
  intros Hw Hi. apply (world_meta s); [done..| |].
  - intros b Hb. apply store_inode_block; auto.
  - intros b. apply length_store_inode, Hw.
Qed.

Lemma dinode_at_load d off f sz : (off + 64 <= length d)%nat -> dinode_at d off f sz ->
  dinode_at (bytes_from off 64 d) 0 f sz /\ length (bytes_from off 64 d) = 64%nat.
Proof.
  intros Hd H. unfold bytes_from. split; [|rewrite length_take, length_drop; lia].
  eapply dinode_at_ext; [|exact H]. intros j Hj. unfold byte_at.
  rewrite !list_lookup_total_alt, lookup_take_lt, lookup_drop by lia. done.
Qed.
Lemma dinode_set_size din f sz n : dinode_at din 0 f sz -> length din = 64%nat -> 0 <= n < 2 ^ 32 ->
  dinode_at (set_bytes 8 (xint n) din) 0 f n.
Proof.
  intros [H1 H2 H3 H4 H5] Hl Hn. split.
  - rewrite half_at_set_bytes_ne by lia. done.
  - rewrite half_at_set_bytes_ne by lia. done.
  - rewrite Nat.add_0_l. apply word_at_xint; [done|lia].
  - intros j Hj. rewrite word_at_xint_ne by (unfold addr_off; lia). by apply H4.
  - rewrite word_at_xint_ne by (unfold addr_off, NDIRECT; lia). done.
Qed.

Lemma iappend_run s fs k f xs : image s fs -> fs !! k = Some f ->
  (length (mf_data f) + length xs <= Z.to_nat MAXFILE * BSIZE)%nat ->
  mk_freeblock s + Z.of_nat (cost (length (mf_data f) + length xs)) - Z.of_nat (cost (length (mf_data f))) <= FSSIZE ->
  wp (iappend (Z.of_nat k + 1) xs) (fun _ s' => exists f', image s' (<[k := f']> fs) /\ mf_type f' = mf_type f /\
    mf_data f' = mf_data f ++ xs) s.
Proof.
  intros [Hw Hi Ht Hn Hf Hsb] Hk Hmax Hroom. pose proof (lookup_lt_Some _ _ _ Hk) as Hlt.
  assert (0 <= Z.of_nat k + 1 < NINODES) as Hin by lia.
  pose proof (inode_sector _ Hin) as Hsec. pose proof (w_size _ _ Hw) as Hsz.
  unfold iappend, rinode. apply wp_bind, wp_bind, wp_rsect; [rewrite Hsz; unfold FSSIZE; lia|]. apply wp_ret.
  change (Z.to_nat sizeof_dinode) with 64%nat.
  destruct (dinode_at_load _ (dinode_off (Z.of_nat k + 1)) _ _ ltac:(rewrite (w_len _ _ Hw); apply dinode_off_lt) (Hi k f Hk)) as [Hd Hl].
  pose proof (da_size _ _ _ _ Hd) as Esz. rewrite Nat.add_0_l in Esz. rewrite Esz. rewrite <- (take_drop_middle fs k f Hk) in Hw.
  apply wp_bind. eapply wp_mono; [|eapply (iappend_loop_run (length xs)); [split_and!; [exact Hw|exact Hd|exact Hl|by eapply Ht]|lia|done|done]].
  intros r s1 (f' & (Hw1 & Hd1 & Hl1 & Ht1) & Hty & Hdata & Hr & K1 & K2).
  assert (Z.of_nat (length (mf_data f')) < 2 ^ 32) as Hlen
    by (rewrite Hdata, length_app; change (Z.to_nat MAXFILE) with 140%nat in Hmax; unfold BSIZE in Hmax; lia).
  apply winode_run; [apply Hw1|done|]. exists f'. split; [|done]. rewrite Hr.
  assert (<[k := f']> fs = take k fs ++ f' :: drop (S k) fs) as Efs by (by rewrite insert_take_drop).
  split; cbn [mk_img mk_freeinode].
  - rewrite Efs. by apply world_store_inode.
  - intros k' g Hg. apply list_lookup_insert_Some in Hg as [(-> & <- & _)|[Hne Hg]].
    + apply store_inode_eq; [apply Hw1|by rewrite length_set_bytes|]. eapply dinode_set_size; [exact Hd1|done|lia].
    + pose proof (lookup_lt_Some _ _ _ Hg). apply store_inode_ne; [done|lia|lia|by rewrite length_set_bytes|].
      rewrite K1; [by apply Hi|]. pose proof (inode_sector (Z.of_nat k' + 1) ltac:(lia)). rewrite nmeta_value. lia.
  - intros k' g Hg. apply list_lookup_insert_Some in Hg as [(-> & <- & _)|[Hne Hg]]; [done|by eapply Ht].
  - rewrite length_insert. congruence.
  - by rewrite length_insert.
  - rewrite store_inode_block by auto. by rewrite K1.
Qed.

Lemma empty_file_dinode type : type = T_DIR \/ type = T_FILE ->
  dinode_at (set_bytes 8 (xint 0) (set_bytes 6 (xshort 1) (set_bytes 0 (xshort type) (replicate 64 0)))) 0 (MFile type [] [] 0) 0.
Proof.
  intros [-> | ->]; (split; [reflexivity..| |reflexivity]);
    intros j Hj; do 12 (destruct j as [|j]; [reflexivity|]); unfold NDIRECT in Hj; lia.
Qed.

Lemma world_empty s fs type : world s fs -> world s (fs ++ [MFile type [] [] 0]).
Proof.
  intros [H1 H2 H3 H4 H5 H6]. split; try done.
  - rewrite map_app, concat_app. simpl. by rewrite app_nil_r.
  - apply Forall_app. split; [done|]. apply Forall_singleton. split; simpl; [lia|lia|done|done].
Qed.

Lemma ialloc_run s fs type : image s fs -> Z.of_nat (length fs) + 1 < NINODES -> type = T_DIR \/ type = T_FILE ->
  wp (mk_ialloc type) (fun i s' => i = Z.of_nat (length fs) + 1 /\ image s' (fs ++ [MFile type [] [] 0])) s.
Proof.
  intros [Hw Hi Ht Hn Hf Hsb] Hfew Hty. unfold NINODES in *. unfold mk_ialloc. apply wp_bind, wp_gets, wp_bind, wp_modify.
  rewrite Hn, u32_small by lia. set (s1 := set_freeinode _ s).
  apply wp_bind, winode_run; [apply Hw|unfold NINODES; lia|]. apply wp_ret. split; [done|].
  assert (0 <= Z.of_nat (length fs) + 1 < NINODES) as Hin by (unfold NINODES; lia).
  split; cbn [mk_img mk_freeinode s1 set_freeinode mk_freeblock].
  - apply world_store_inode; [by apply world_empty|done].
  - intros k f Hk. apply lookup_snoc_Some in Hk as [[Hk Hf']|[-> <-]].
    + apply store_inode_ne; [done|unfold NINODES; lia|lia|by rewrite !length_set_bytes|by apply Hi].
    + apply store_inode_eq; [apply Hw|by rewrite !length_set_bytes|by apply empty_file_dinode].
  - intros k f Hk. apply lookup_snoc_Some in Hk as [[Hk Hf']|[-> <-]]; [by eapply Ht|done].
  - rewrite length_app. simpl. lia.
  - rewrite length_app. simpl. unfold NINODES. lia.
  - rewrite store_inode_block by auto. done.
Qed.

(** *** The files of the image *)
Definition file_name (name : list Z) : list Z := if hd 0 name =? 95 then tl name else name.
Definition root_data (files : list (list Z * list (list Z))) : list Z :=
  mk_dirent 1 [46] ++ mk_dirent 1 [46; 46] ++ concat (imap (fun i f => mk_dirent (Z.of_nat i + 2) (file_name f.1)) files).
(** The types and data of the inodes 1, 2, ... that mkfs makes of its arguments. *)
Definition contents (files : list (list Z * list (list Z))) : list (Z * list Z) :=
  (T_DIR, root_data files) :: ((fun f => (T_FILE, concat f.2)) <$> files).

Definition total (c : list (Z * list Z)) : nat := sum_list_with (fun x => cost (length x.2)) c.
Record fits (c : list (Z * list Z)) : Prop := {
  ft_total : Z.of_nat (total c) <= nblocks;
  ft_each : forall k x, c !! k = Some x -> (length x.2 <= Z.to_nat MAXFILE * BSIZE)%nat;
  ft_few : Z.of_nat (length c) < NINODES
}.
Definition below (c c' : list (Z * list Z)) : Prop :=
  forall k x, c !! k = Some x -> exists y, c' !! k = Some y /\ (length x.2 <= length y.2)%nat.
Definition holds (s : mkfs_st) (c : list (Z * list Z)) : Prop :=
  exists fs, image s fs /\ (fun f => (mf_type f, mf_data f)) <$> fs = c.

Lemma total_below c c' : below c c' -> (total c <= total c')%nat.
Proof.
  revert c'. induction c as [|x c IH]; intros c' Hb; [apply Nat.le_0_l|].
  destruct (Hb 0%nat x eq_refl) as (y & Hy & Hl). destruct c' as [|y' c']; [done|]. injection Hy as ->. unfold total. simpl.
  pose proof (cost_mono _ _ Hl). specialize (IH c' (fun k z Hz => Hb (S k) z Hz)). unfold total in IH. lia.
Qed.
Lemma length_below c c' : below c c' -> (length c <= length c')%nat.
Proof.
  intros Hb. destruct (decide (length c <= length c')%nat) as [|Hn]; [done|]. exfalso.
  destruct (lookup_lt_is_Some_2 c (length c')) as [x Hx]; [lia|]. destruct (Hb _ _ Hx) as (y & Hy & _).
  apply lookup_lt_Some in Hy. lia.
Qed.
Lemma fits_below c c' : below c c' -> fits c' -> fits c.
Proof.
  intros Hb [H1 H2 H3]. pose proof (total_below _ _ Hb). pose proof (length_below _ _ Hb). split; [lia| |lia].
  intros k x Hx. destruct (Hb _ _ Hx) as (y & Hy & Hl). specialize (H2 _ _ Hy). lia.
Qed.
Lemma total_insert c k x y : c !! k = Some x -> (total (<[k := y]> c) + cost (length x.2) = total c + cost (length y.2))%nat.
Proof.
  unfold total. revert k. induction c as [|z c IH]; intros k Hk; [done|]. destruct k as [|k]; simpl in *.
  - injection Hk as ->. lia.
  - specialize (IH k Hk). lia.
Qed.

Lemma image_free s fs : image s fs -> mk_freeblock s = nmeta + Z.of_nat (total ((fun f => (mf_type f, mf_data f)) <$> fs)).
Proof.
  intros [Hw _ Ht _ _ _]. rewrite (world_free _ _ Hw). do 2 f_equal. clear Hw. induction fs as [|f fs IH]; [done|].
  unfold total in *. simpl. rewrite length_app, length_used, (Ht 0%nat f eq_refl). f_equal. apply IH. intros k g. apply (Ht (S k)).
Qed.

Lemma holds_iappend s c k ty d xs : holds s c -> c !! k = Some (ty, d) -> fits (<[k := (ty, d ++ xs)]> c) ->
  wp (iappend (Z.of_nat k + 1) xs) (fun _ s' => holds s' (<[k := (ty, d ++ xs)]> c)) s.
Proof.
  intros (fs & Him & <-) Hk [H1 H2 H3]. rewrite list_lookup_fmap in Hk. destruct (fs !! k) as [f|] eqn:Ef; [|done]. injection Hk as <- <-.
  assert (((fun f => (mf_type f, mf_data f)) <$> fs) !! k = Some (mf_type f, mf_data f)) as Hk by (by rewrite list_lookup_fmap, Ef).
  specialize (H2 k (mf_type f, mf_data f ++ xs)). cbn [snd] in H2. rewrite length_app in H2.
  rewrite list_lookup_insert_eq in H2 by (by eapply lookup_lt_Some). specialize (H2 eq_refl).
  pose proof (total_insert _ _ _ (mf_type f, mf_data f ++ xs) Hk) as Htot. simpl in Htot. rewrite length_app in Htot.
  pose proof (image_free _ _ Him) as Hfree. unfold nblocks in H1.
  eapply wp_mono; [|eapply iappend_run; [exact Him|exact Ef|exact H2|lia]]. intros _ s' (f' & Him' & Ht & Hd). exists (<[k := f']> fs).
  split; [done|]. by rewrite list_fmap_insert, Ht, Hd.
Qed.
Lemma holds_ialloc s c type : holds s c -> Z.of_nat (length c) + 1 < NINODES -> type = T_DIR \/ type = T_FILE ->
  wp (mk_ialloc type) (fun i s' => i = Z.of_nat (length c) + 1 /\ holds s' (c ++ [(type, [])])) s.
Proof.
  intros (fs & Him & <-) Hc Ht. rewrite length_fmap in *. eapply wp_mono; [|by eapply ialloc_run]. intros i s' [Hi Him'].
  split; [done|]. eexists. split; [done|]. by rewrite fmap_app.
Qed.

(** One file: its inode, its entry in the root, its data. *)
Lemma root_data_snoc files f : root_data (files ++ [f]) = root_data files ++ mk_dirent (Z.of_nat (length files) + 2) (file_name f.1).
Proof. unfold root_data. rewrite imap_app, concat_app. cbn [imap concat compose]. by rewrite app_nil_r, Nat.add_0_r, <- !app_assoc. Qed.
Lemma root_data_app files files' : exists more, root_data (files ++ files') = root_data files ++ more.
Proof. unfold root_data. rewrite imap_app, concat_app. eexists. by rewrite <- !app_assoc. Qed.

Lemma contents_below pre f f' post : f'.1 = f.1 -> (length (concat f.2) <= length (concat f'.2))%nat ->
  below (contents (pre ++ [f])) (contents (pre ++ f' :: post)).
Proof.
  intros Hn Hl k x Hk. unfold contents in *. rewrite lookup_cons in Hk |- *. destruct k as [|k]; cbv iota in Hk |- *.
  - injection Hk as <-. eexists. split; [done|]. cbn [snd]. rewrite (cons_middle f'), app_assoc.
    destruct (root_data_app (pre ++ [f']) post) as [more ->]. rewrite !root_data_snoc, Hn, !length_app. lia.
  - rewrite list_lookup_fmap in Hk |- *. destruct ((pre ++ [f]) !! k) as [g|] eqn:Eg; [|done]. injection Hk as <-.
    apply lookup_snoc_Some in Eg as [[Hlt Eg]|[-> <-]].
    + rewrite lookup_app_l, Eg by done. eexists. split; [done|]. done.
    + rewrite lookup_app_r, Nat.sub_diag by done. eexists. split; [done|]. done.
Qed.

Lemma contents_enter pre name : 
  <[0%nat := (T_DIR, root_data pre ++ mk_dirent (Z.of_nat (length pre) + 2) (file_name name))]> (contents pre ++ [(T_FILE, [])]) =
  contents (pre ++ [(name, [])]).
Proof. unfold contents. by rewrite root_data_snoc, fmap_app. Qed.
Lemma contents_more pre name chunks xs :
  <[length (contents pre) := (T_FILE, concat chunks ++ xs)]> (contents (pre ++ [(name, chunks)])) = contents (pre ++ [(name, chunks ++ [xs])]).
Proof.
  unfold contents. rewrite !fmap_app, !root_data_snoc. cbn [length]. change (<[S ?k := ?x]> (?y :: ?l)) with (y :: <[k := x]> l).
  f_equal. rewrite insert_app_r_alt by done. rewrite Nat.sub_diag. f_equal.
  change ([(T_FILE, concat chunks ++ xs)] = [(T_FILE, concat (chunks ++ [xs]))]). rewrite concat_app. cbn [concat]. by rewrite app_nil_r.
Qed.
Lemma contents_last pre name chunks : contents (pre ++ [(name, chunks)]) !! length (contents pre) = Some (T_FILE, concat chunks).
Proof.
  unfold contents. rewrite fmap_app. cbn [length]. change ((?y :: ?l) !! S ?k) with (l !! k).
  by rewrite lookup_app_r, Nat.sub_diag by done.
Qed.

Lemma add_file_run pre f rest s : holds s (contents pre) -> 47 ∉ f.1 -> fits (contents (pre ++ f :: rest)) ->
  wp (add_file f) (fun _ s' => holds s' (contents (pre ++ [f]))) s.
Proof.
  intros Hh Hname Hfits. destruct f as [name chunks]. cbn [fst] in Hname. unfold add_file.
  assert (existsb (Z.eqb 47) name = false) as ->.
  { apply not_true_iff_false. rewrite existsb_exists. intros (x & Hx & <-%Z.eqb_eq). by apply Hname, list_elem_of_In. }
  pose proof (ft_few _ Hfits) as Hfew. unfold contents in Hfew. cbn [length] in Hfew. rewrite length_fmap, length_app in Hfew. cbn [length] in Hfew.
  apply wp_bind. eapply wp_mono; [|eapply holds_ialloc; [exact Hh| |by right]]; [|unfold contents; cbn [length]; rewrite length_fmap; lia].
  intros i s1 [-> Hh1]. cbv beta. set (c := contents pre) in *.
  assert (Z.of_nat (length c) + 1 = Z.of_nat (length pre) + 2) as Hc by (unfold c, contents; cbn [length]; rewrite length_fmap; lia).
  apply wp_bind. change ROOTINO with (Z.of_nat 0 + 1). change (if hd 0 name =? 95 then tl name else name) with (file_name name).
  rewrite Hc. eapply wp_mono; [|eapply (holds_iappend s1 _ 0 T_DIR (root_data pre)); [exact Hh1|reflexivity|]]; subst c; rewrite contents_enter.
  - intros [] s2 Hh2. rewrite <- Hc.
    apply (wp_for_each _ _ (fun l s' => exists l0, chunks = l0 ++ l /\ holds s' (contents (pre ++ [(name, l0)])))); [| |by exists []].
    + intros xs l s' (l0 & Hl0 & Hh'). eapply wp_mono; [|eapply holds_iappend; [exact Hh'|apply contents_last|]]; rewrite contents_more.
      * intros _ s3 Hh3. exists (l0 ++ [xs]). by rewrite Hl0, <- app_assoc.
      * eapply fits_below; [|exact Hfits]. apply contents_below; [done|]. cbn [snd]. rewrite Hl0, (cons_middle xs l0 l), app_assoc, (concat_app (l0 ++ [xs]) l), length_app. lia.
    + intros s' (l0 & Hl0 & Hh'). by rewrite app_nil_r in Hl0; subst.
  - eapply fits_below; [|exact Hfits]. apply contents_below; [done|]. apply Nat.le_0_l.
Qed.

(** *** The free bit map *)
Lemma bit_clear_testbit d b : 0 <= b -> bit_clear d b = negb (Z.testbit (byte_at d (Z.to_nat (b / 8))) (b mod 8)).
Proof.
  intros Hb. unfold bit_clear, bit_of. pose proof (Z.mod_pos_bound b 8 ltac:(done)). set (x := byte_at _ _). rewrite Z.shiftl_1_l.
  destruct (Z.testbit x (b mod 8)) eqn:E; simpl.
  - apply Z.eqb_neq. intros E0. apply (f_equal (fun z => Z.testbit z (b mod 8))) in E0.
    rewrite Z.land_spec, E, Z.pow2_bits_true, Z.bits_0 in E0 by lia. done.
  - apply Z.eqb_eq, Z.bits_inj'. intros k Hk. rewrite Z.land_spec, Z.bits_0, Z.pow2_bits_eqb by lia.
    destruct (Z.eqb_spec (b mod 8) k) as [<-|]; [by rewrite E|apply andb_false_r].
Qed.
Lemma bit_clear_set i b d : 0 <= i < 8 * Z.of_nat (length d) -> 0 <= b -> bit_clear (set_bit i d) b = negb (b =? i) && bit_clear d b.
Proof.
  intros Hi Hb. rewrite !bit_clear_testbit by done. unfold set_bit. pose proof (Z.mod_pos_bound b 8 ltac:(done)). pose proof (Z.mod_pos_bound i 8 ltac:(done)).
  pose proof (Z.div_mod b 8 ltac:(done)). pose proof (Z.div_mod i 8 ltac:(done)).
  pose proof (Z.div_pos i 8). pose proof (Z.div_pos b 8). pose proof (Z.div_lt_upper_bound i 8 (Z.of_nat (length d))).
  destruct (Z.eqb_spec (b / 8) (i / 8)) as [E|E].
  - rewrite E, byte_at_set_in, Nat.sub_diag by (simpl; lia). cbn. unfold u8.
    rewrite Z.mod_pow2_bits_low, Z.lor_spec, negb_orb by lia. unfold bit_of. rewrite Z.shiftl_1_l, Z.pow2_bits_eqb by lia.
    rewrite andb_comm. f_equal. f_equal. apply eq_true_iff_eq. rewrite !Z.eqb_eq. lia.
  - rewrite byte_at_set_out by (simpl; lia). destruct (Z.eqb_spec b i) as [->|]; [done|]. done.
Qed.

Lemma bitmap_bits n b : (n <= 8 * BSIZE)%nat -> 0 <= b < 8 * Z.of_nat BSIZE ->
  length (bitmap (Z.of_nat n)) = BSIZE /\ bit_clear (bitmap (Z.of_nat n)) b = negb (b <? Z.of_nat n).
Proof.
  intros Hn Hb. induction n as [|n IH].
  - split; [done|]. rewrite bit_clear_testbit by lia. rewrite (proj2 (Z.ltb_ge _ _)) by lia. change (bitmap (Z.of_nat 0)) with (replicate BSIZE 0).
    rewrite byte_at_zero, Z.bits_0; [done|]. pose proof (Z.div_lt_upper_bound b 8 (Z.of_nat BSIZE)). pose proof (Z.div_pos b 8). lia.
  - destruct IH as [IH1 IH2]; [lia|]. assert (bitmap (Z.of_nat (S n)) = set_bit (Z.of_nat n) (bitmap (Z.of_nat n))) as ->.
    { unfold bitmap. rewrite seqZ_S, fold_left_app. by rewrite Z.add_0_l. }
    split; [unfold set_bit; by rewrite length_set_bytes|]. rewrite bit_clear_set, IH2 by (rewrite ?IH1; lia).
    apply eq_true_iff_eq. rewrite andb_true_iff, !negb_true_iff, Z.eqb_neq, !Z.ltb_ge. lia.
Qed.

(** *** A file as the kernel reads it *)
Lemma addrs_at_lookup d off k : (k <= NDIRECT)%nat -> addrs_at d off !!! k = word_at d (off + 4 * k).
Proof.
  intros Hk. apply list_lookup_total_correct. unfold addrs_at. rewrite list_lookup_fmap, lookup_seq_lt by lia. done.
Qed.

Lemma load_file_block d off f sz y v k b : dinode_at d off f sz -> data_at (v_cache v) f -> mf_blocks f !! k = Some b ->
  file_block (load_dinode d off y) v (Z.of_nat k) = b.
Proof.
  intros Hd Hf Hb. pose proof (lookup_lt_Some _ _ _ Hb) as Hlt. pose proof (nth_lookup_Some _ _ 0 _ Hb) as Hnth.
  unfold file_block. cbn [load_dinode i_addrs]. destruct (Z.ltb_spec (Z.of_nat k) (Z.of_nat NDIRECT)).
  - rewrite Nat2Z.id, addrs_at_lookup by lia. rewrite <- Nat.add_assoc. pose proof (da_addrs _ _ _ _ Hd k) as Ha.
    unfold addr_off in Ha. rewrite Ha by lia. done.
  - assert (indirect f = true) as Hi by (apply Nat.ltb_lt; lia). rewrite addrs_at_lookup, <- Nat.add_assoc by lia.
    pose proof (da_ind _ _ _ _ Hd) as Ha. rewrite Hi in Ha. unfold addr_off in Ha. rewrite Ha.
    pose proof (dt_max _ _ Hf) as Hm. change (Z.to_nat MAXFILE) with 140%nat in Hm.
    replace (Z.to_nat (Z.of_nat k - Z.of_nat NDIRECT)) with (k - NDIRECT)%nat by lia.
    rewrite (dt_ind _ _ Hf Hi) by (change (Z.to_nat NINDIRECT) with 128%nat; unfold NDIRECT in *; lia).
    by replace (NDIRECT + (k - NDIRECT))%nat with k by lia.
Qed.

Lemma load_file_bytes d off f sz y v : dinode_at d off f sz -> data_at (v_cache v) f ->
  file_bytes (load_dinode d off y) v 0 (Z.of_nat (length (mf_data f))) = mf_data f.
Proof.
  intros Hd Hf. apply list_eq. intros j. unfold file_bytes. rewrite list_lookup_fmap, Nat2Z.id.
  destruct (decide (j < length (mf_data f))%nat) as [Hj|Hj]; [|by rewrite lookup_seq_ge, lookup_ge_None_2 by lia].
  rewrite lookup_seq_lt by done. cbn [fmap option_fmap option_map]. rewrite Nat.add_0_l, Z.add_0_l. symmetry. rewrite (list_lookup_lookup_total_lt _ _ Hj).
  f_equal. symmetry. pose proof (dt_fits _ _ Hf) as Hfit. pose proof (Nat.div_mod j BSIZE ltac:(done)) as Hdm.
  pose proof (Nat.mod_upper_bound j BSIZE ltac:(done)) as Hmod.
  assert (j / BSIZE < length (mf_blocks f))%nat as Hq by (apply Nat.Div0.div_lt_upper_bound; lia).
  apply lookup_lt_is_Some in Hq as [b Hb]. unfold file_byte. rewrite <- Nat2Z.inj_div, <- Nat2Z.inj_mod, Nat2Z.id.
  rewrite (load_file_block _ _ _ _ _ _ _ _ Hd Hf Hb), (dt_bytes _ _ Hf _ _ _ Hb Hmod), <- Hdm.
  by apply nth_lookup_Some, list_lookup_lookup_total_lt.
Qed.

(** *** The program *)
Definition root_size (n : Z) : Z := (n / Z.of_nat BSIZE + 1) * Z.of_nat BSIZE.

Lemma format_run n i s : mk_size s = i -> (forall b, mk_img s b = replicate BSIZE 0) ->
  wp (for_each (seqZ i (Z.of_nat n)) (fun i => wsect i (replicate BSIZE 0))) (fun _ s' => mk_size s' = i + Z.of_nat n /\
    (forall b, mk_img s' b = replicate BSIZE 0) /\ mk_freeinode s' = mk_freeinode s /\ mk_freeblock s' = mk_freeblock s) s.
Proof.
  revert i s. induction n as [|n IH]; intros i s Hs Hz.
  - apply wp_ret. rewrite Z.add_0_r. done.
  - rewrite seqZ_cons, Nat2Z.inj_succ, Z.pred_succ by lia. apply wp_bind, wp_modify. eapply wp_mono; [|apply IH].
    + intros _ s' (H1 & H2 & H3 & H4). split; [lia|done].
    + simpl. lia.
    + intros b. simpl. unfold upd_block. by destruct (b =? i).
Qed.

Lemma holds_empty s : mk_size s = FSSIZE -> mk_freeinode s = 1 -> mk_freeblock s = nmeta ->
  (forall b, b <> 1 -> mk_img s b = replicate BSIZE 0) -> length (mk_img s 1) = BSIZE -> sb_of (mk_img s 1) = mk_sb -> holds s [].
Proof.
  intros Hs Hi Hb Hz Hl Hsb. exists []. split; [|done]. split; try done. split; try done.
  - intros b. destruct (decide (b = 1)) as [->|Hne]; [done|]. by rewrite Hz.
  - rewrite Hb. done.
  - rewrite Hb, Z.sub_diag. done.
  - intros b Hr. apply Hz. rewrite Hb, nmeta_value in Hr. lia.
Qed.

(** What the image must be at the end: everything the kernel will look at. *)
Record readable_image (s : mkfs_st) (c : list (Z * list Z)) : Prop := {
  ri_len : forall b, length (mk_img s b) = BSIZE;
  ri_sb : sb_of (mk_img s 1) = mk_sb;
  ri_free : mk_freeblock s = nmeta + Z.of_nat (total c);
  ri_bits : forall b, 0 <= b < BPB -> bit_clear (mk_img s (BBLOCK b mk_sb)) b = negb (b <? mk_freeblock s);
  ri_file : forall k ty d, c !! k = Some (ty, d) ->
    let x := load_dinode (mk_img s (IBLOCK (Z.of_nat k + 1) mk_sb)) (dinode_off (Z.of_nat k + 1)) inode0 in
    i_type x = ty /\ i_nlink x = 1 /\
    i_size x = (if (k =? 0)%nat then root_size (Z.of_nat (length d)) else Z.of_nat (length d)) /\
    (forall v, v_cache v = mk_img s -> file_bytes x v 0 (Z.of_nat (length d)) = d /\
       (forall q, (q < length d)%nat -> nmeta <= file_block x v (Z.of_nat q / Z.of_nat BSIZE) < mk_freeblock s) /\
       (v_held v = ∅ -> forall q, 0 <= q -> q * Z.of_nat BSIZE < Z.of_nat (length d) -> mapped FSSIZE x v q))
}.

Lemma load_file_in d off s fs k f sz v : image s fs -> fs !! k = Some f -> dinode_at d off f sz -> data_at (v_cache v) f ->
  forall q, (q < length (mf_data f))%nat ->
  nmeta <= file_block (load_dinode d off inode0) v (Z.of_nat q / Z.of_nat BSIZE) < mk_freeblock s.
Proof.
  intros Him Hk Hd Hf q Hq. pose proof (dt_fits _ _ Hf) as Hfit.
  assert (q / BSIZE < length (mf_blocks f))%nat as Hb by (apply Nat.Div0.div_lt_upper_bound; lia).
  apply lookup_lt_is_Some in Hb as [b Hb]. rewrite <- Nat2Z.inj_div, (load_file_block _ _ _ _ _ _ _ _ Hd Hf Hb).
  apply (used_range s fs f); [apply Him|by eapply list_elem_of_lookup_2|by eapply block_used].
Qed.

Lemma root_size_range n : (n <= Z.to_nat MAXFILE * BSIZE)%nat ->
  u32 (root_size (Z.of_nat n)) = root_size (Z.of_nat n) /\ 0 <= root_size (Z.of_nat n) < 2 ^ 32.
Proof.
  intros Hn. apply inj_le in Hn. rewrite Nat2Z.inj_mul, Z2Nat.id in Hn by done. rewrite MAXFILE_value in Hn.
  assert (0 <= root_size (Z.of_nat n) < 2 ^ 32) as Hr; [|split; [by apply u32_small|done]].
  unfold root_size, BSIZE in *. pose proof (Z.div_mod (Z.of_nat n) (Z.of_nat 512) ltac:(done)).
  pose proof (Z.mod_pos_bound (Z.of_nat n) (Z.of_nat 512) ltac:(done)). lia.
Qed.

Lemma load_file_mapped d off s fs k f sz v : image s fs -> fs !! k = Some f -> dinode_at d off f sz -> data_at (v_cache v) f ->
  v_held v = ∅ -> forall q, 0 <= q -> q * Z.of_nat BSIZE < Z.of_nat (length (mf_data f)) -> mapped FSSIZE (load_dinode d off inode0) v q.
Proof.
  intros Him Hk Hd Hf Hv q Hq Hlt. pose proof (dt_fits _ _ Hf) as Hfit. pose proof (dt_max _ _ Hf) as Hmax.
  assert (Z.to_nat q < length (mf_blocks f))%nat as Hqb by (unfold BSIZE in *; lia).
  assert (forall b, b ∈ used f -> readable FSSIZE v b) as Hread.
  { intros b Hb. pose proof (used_range s fs f b (im_world _ _ Him) (list_elem_of_lookup_2 _ _ _ Hk) Hb) as Hr.
    pose proof (w_free _ _ (im_world _ _ Him)). rewrite nmeta_value in Hr. split; [lia|]. split; [lia|]. rewrite Hv. apply not_elem_of_empty. }
  destruct (lookup_lt_is_Some_2 _ _ Hqb) as [b Hb]. split; [lia|]. split.
  - rewrite <- (Z2Nat.id q), (load_file_block _ _ _ _ _ _ _ _ Hd Hf Hb) by done. apply Hread. by eapply block_used.
  - intros Hn. assert (indirect f = true) as Hi by (apply Nat.ltb_lt; lia). cbn [load_dinode i_addrs].
    rewrite addrs_at_lookup, <- Nat.add_assoc by done. pose proof (da_ind _ _ _ _ Hd) as Ha. rewrite Hi in Ha. unfold addr_off in Ha.
    rewrite Ha. by apply Hread, ind_used.
Qed.

(** The last steps: the size of the root, and the bitmap. *)
Lemma finish_run s fs : image s fs -> fits ((fun f => (mf_type f, mf_data f)) <$> fs) ->
  (forall k f, fs !! k = Some f -> mf_type f = T_DIR \/ mf_type f = T_FILE) -> (0 < length fs)%nat ->
  wp (let* din := rinode ROOTINO in
      winode ROOTINO (set_bytes 8 (xint (u32 ((word_at din 8 / Z.of_nat BSIZE + 1) * Z.of_nat BSIZE))) din);;;
      let* used := gets mk_freeblock in
      mk_balloc used)
    (fun _ s' => readable_image s' ((fun f => (mf_type f, mf_data f)) <$> fs)) s.
Proof.
  intros Him Hfits Hty Hroot. destruct fs as [|f0 fs']; [simpl in Hroot; lia|clear Hroot]. set (fs := f0 :: fs') in *.
  pose proof Him as [Hw Hi Ht Hn Hf Hsb]. pose proof (w_free _ _ Hw) as Hfree. rewrite nmeta_value in Hfree. unfold FSSIZE in Hfree.
  assert (0 <= ROOTINO < NINODES) as Hin by done. pose proof (inode_sector _ Hin) as Hsec.
  unfold rinode. apply wp_bind, wp_bind, wp_rsect; [rewrite (w_size _ _ Hw); unfold FSSIZE; lia|]. apply wp_ret.
  change (Z.to_nat sizeof_dinode) with 64%nat. pose proof (Hi 0%nat f0 eq_refl) as Hd0. change (Z.of_nat 0 + 1) with ROOTINO in Hd0.
  destruct (dinode_at_load _ (dinode_off ROOTINO) _ _ ltac:(rewrite (w_len _ _ Hw); apply dinode_off_lt) Hd0) as [Hd Hl].
  set (din := bytes_from _ _ _) in *. pose proof (da_size _ _ _ _ Hd) as Esz. rewrite Nat.add_0_l in Esz. rewrite Esz.
  pose proof (ft_each _ Hfits 0%nat (mf_type f0, mf_data f0) eq_refl) as Hlen. cbn [snd] in Hlen.
  destruct (root_size_range _ Hlen) as [Hu Hur]. unfold root_size in Hu at 1. rewrite Hu. clear Hu Hlen.
  apply wp_bind, winode_run; [apply Hw|done|]. apply wp_bind, wp_gets. unfold mk_balloc. cbn [mk_freeblock].
  rewrite (proj2 (Z.ltb_lt _ _)) by (unfold BSIZE; lia). cbn [negb]. apply wp_modify. change (sb_bmapstart mk_sb) with 58.
  set (root' := set_bytes 8 _ din). cbn [mk_img mk_size mk_freeinode mk_freeblock]. rewrite (Z.max_l FSSIZE) by done.
  set (s' := MkMkfs _ _ _ _).
  assert (forall b, b <> 58 -> mk_img s' b = store_inode ROOTINO root' (mk_img s) b) as HI by (intros b Hb; by apply upd_block_ne).
  assert (world s' fs) as Hw'.
  { apply (world_meta s); [done..| |].
    - intros b Hb. rewrite nmeta_value in Hb. rewrite HI by lia. apply store_inode_block; [done|]. rewrite nmeta_value. lia.
    - intros b. destruct (decide (b = 58)) as [->|Hne]; [|rewrite HI by done; apply length_store_inode, Hw].
      unfold s'. cbn [mk_img]. rewrite upd_block_eq. rewrite <- (Z2Nat.id (mk_freeblock s)) by lia. apply (bitmap_bits _ 0); unfold BSIZE; lia. }
  split.
  - apply Hw'.
  - rewrite HI by done. by rewrite store_inode_block by auto.
  - apply (image_free s fs Him).
  - intros b Hb. change BPB with 4096 in Hb.
    assert (BBLOCK b mk_sb = 58) as ->.
    { unfold BBLOCK. change BPB with 4096. rewrite Z.div_small by lia. reflexivity. }
    unfold s'. cbn [mk_img mk_freeblock]. rewrite upd_block_eq. rewrite <- (Z2Nat.id (mk_freeblock s)) by lia. apply bitmap_bits; unfold BSIZE; lia.
  - intros k ty d Hk. rewrite list_lookup_fmap in Hk. destruct (fs !! k) as [f|] eqn:Ef; [|done]. injection Hk as <- <-.
    pose proof (lookup_lt_Some _ _ _ Ef). assert (0 <= Z.of_nat k + 1 < NINODES) as Hkin by lia. pose proof (inode_sector _ Hkin).
    rewrite HI by lia. pose proof (w_data _ _ Hw') as Hdata. rewrite Forall_lookup in Hdata. specialize (Hdata _ _ Ef).
    set (sz := if (k =? 0)%nat then root_size (Z.of_nat (length (mf_data f))) else Z.of_nat (length (mf_data f))).
    assert (dinode_at (store_inode ROOTINO root' (mk_img s) (IBLOCK (Z.of_nat k + 1) mk_sb)) (dinode_off (Z.of_nat k + 1)) f sz) as Hdk.
    { unfold sz. destruct k as [|k]; cbn [Nat.eqb].
      - injection Ef as <-. apply store_inode_eq; [apply Hw|unfold root'; by rewrite length_set_bytes|]. by eapply dinode_set_size.
      - apply store_inode_ne; [done|done|unfold ROOTINO; lia|unfold root'; by rewrite length_set_bytes|by apply Hi]. }
    intros x. split; [|split; [|split]].
    + unfold x. cbn [load_dinode i_type]. rewrite (da_type _ _ _ _ Hdk). by destruct (Hty k f Ef) as [-> | ->].
    + unfold x. cbn [load_dinode i_nlink]. by rewrite (da_nlink _ _ _ _ Hdk).
    + unfold x. cbn [load_dinode i_size]. apply (da_size _ _ _ _ Hdk).
    + intros v Hv. assert (data_at (v_cache v) f) as Hvd by (rewrite Hv; exact Hdata). unfold x.
      split; [exact (load_file_bytes _ _ _ _ _ _ Hdk Hvd)|].
      split; [exact (load_file_in _ _ _ _ _ _ _ _ Him Ef Hdk Hvd)|exact (load_file_mapped _ _ _ _ _ _ _ _ Him Ef Hdk Hvd)].
Qed.

Lemma holds_types s c k f fs : image s fs -> (fun f => (mf_type f, mf_data f)) <$> fs = contents c -> fs !! k = Some f ->
  mf_type f = T_DIR \/ mf_type f = T_FILE.
Proof.
  intros _ Hc Hk. assert (contents c !! k = Some (mf_type f, mf_data f)) as E by (by rewrite <- Hc, list_lookup_fmap, Hk).
  unfold contents in E. rewrite lookup_cons in E. destruct k as [|k]; [injection E as <- _; by left|].
  rewrite list_lookup_fmap in E. destruct (c !! k) as [g|]; [|done]. injection E as <- _. by right.
Qed.

(** The root directory before any file. *)
Lemma root_run files s (rest : Z -> M mkfs_st unit) Q : holds s [] -> fits (contents files) -> (forall s', holds s' (contents []) -> wp (rest ROOTINO) Q s') ->
  wp (let* rootino := mk_ialloc T_DIR in
      if negb (rootino =? ROOTINO) then panic "assert" else
      iappend rootino (mk_dirent rootino [46]);;;
      iappend rootino (mk_dirent rootino [46; 46]);;;
      rest rootino) Q s.
Proof.
  intros Hh Hfits HQ. apply wp_bind. eapply wp_mono; [|eapply holds_ialloc; [exact Hh|done|by left]].
  intros i s1 [-> Hh1]. cbv beta. change (Z.of_nat (length (@nil (Z * list Z))) + 1) with (Z.of_nat 0 + 1).
  change (negb (Z.of_nat 0 + 1 =? ROOTINO)) with false. cbv iota.
  assert (forall d, (length d <= length (root_data []))%nat -> fits [(T_DIR, d)]) as Hsmall.
  { intros d Hd. eapply fits_below; [|exact Hfits]. intros [|k] x Hk; [|done]. injection Hk as <-. eexists. split; [done|].
    cbn [snd]. destruct (root_data_app [] files) as [more E]. cbn [app] in E. rewrite E, length_app. lia. }
  apply wp_bind. eapply wp_mono; [|eapply (holds_iappend s1 _ 0 T_DIR []); [exact Hh1|done|]]; [|apply Hsmall; by apply Nat.leb_le].
  intros [] s2 Hh2. apply wp_bind. eapply wp_mono; [|eapply (holds_iappend s2 _ 0 T_DIR); [exact Hh2|done|]];
    [|apply Hsmall; by apply Nat.leb_le].
  intros [] s3 Hh3. by apply HQ.
Qed.

Lemma files_run files s : holds s (contents []) -> Forall (fun f => 47 ∉ f.1) files -> fits (contents files) ->
  wp (for_each files add_file) (fun _ s' => holds s' (contents files)) s.
Proof.
  intros Hh Hnames Hfits.
  apply (wp_for_each _ _ (fun l s' => exists pre, files = pre ++ l /\ holds s' (contents pre))); [| |by exists []].
  - intros f l s' (pre & E & Hh'). eapply wp_mono; [|eapply (add_file_run pre f l); [exact Hh'| |by rewrite <- E]].
    + intros [] s1 Hh1. exists (pre ++ [f]). by rewrite E, <- app_assoc.
    + rewrite E in Hnames. apply Forall_app in Hnames as [_ Hnames]. by apply Forall_cons in Hnames as [H _].
  - intros s' (pre & E & Hh'). rewrite app_nil_r in E. by subst.
Qed.

Lemma main_run files : Forall (fun f => 47 ∉ f.1) files -> fits (contents files) ->
  exists s, main files mkfs0 = Done tt s /\ readable_image s (contents files).
Proof.
  intros Hnames Hfits. cut (wp (main files) (fun _ s => readable_image s (contents files)) mkfs0).
  { intros H. destruct (proj1 (wp_done _ _ _) H) as ([] & s & E & Hs). exists s. split; [exact E|exact Hs]. }
  unfold main. apply wp_bind, wp_modify, wp_bind. pose proof (format_run (Z.to_nat FSSIZE) 0 (set_freeblock nmeta mkfs0) eq_refl (fun _ => eq_refl)) as Hf.
  rewrite (Z2Nat.id FSSIZE) in Hf by done. eapply wp_mono; [|exact Hf].
  intros [] s (Hs & Hz & Hi & Hb). apply wp_bind, wp_modify. apply (root_run files); [|done|].
  - apply holds_empty; cbn [mk_img mk_size mk_freeinode mk_freeblock]; [by rewrite Hs|done|done| | |].
    + intros b Hne. by rewrite upd_block_ne.
    + by rewrite upd_block_eq, length_set_bytes.
    + rewrite upd_block_eq. vm_compute. reflexivity.
  - intros s1 Hh1. apply wp_bind. eapply wp_mono; [|by apply files_run]. intros [] s2 (fs & Him & Hc). rewrite <- Hc.
    apply finish_run; [done|by rewrite Hc|intros k f; by eapply holds_types|].
    apply (f_equal length) in Hc. rewrite length_fmap in Hc. rewrite Hc. unfold contents. cbn [length]. lia.
Qed.

(** The contents of an inode depend on its addresses only. *)
Lemma file_block_addrs x y v k : i_addrs x = i_addrs y -> file_block x v k = file_block y v k.
Proof. unfold file_block. by intros ->. Qed.
Lemma file_bytes_addrs x y v off n : i_addrs x = i_addrs y -> file_bytes x v off n = file_bytes y v off n.
Proof. intros E. unfold file_bytes, file_byte. apply list_fmap_ext. intros j b _. by rewrite (file_block_addrs x y). Qed.
Lemma mapped_addrs n x y v k : i_addrs x = i_addrs y -> mapped n x v k -> mapped n y v k.
Proof. unfold mapped. intros E. rewrite (file_block_addrs x y v k E), E. done. Qed.
Lemma file_bytes_part x v n off m : 0 <= off -> 0 <= m -> off + m <= n ->
  file_bytes x v off m = take (Z.to_nat m) (drop (Z.to_nat off) (file_bytes x v 0 n)).
Proof.
  intros Ho Hm Hn. replace n with (off + (m + (n - off - m))) by lia.
  rewrite (file_bytes_app x v 0 off) by lia. rewrite Z.add_0_l, (file_bytes_app x v off m) by lia.
  rewrite drop_app_length' by (rewrite length_file_bytes; done). rewrite take_app_length' by (rewrite length_file_bytes; done). done.
Qed.

(** The file systems whose files are named and fit. *)
Lemma contents_file files k f : files !! k = Some f -> contents files !! Datatypes.S k = Some (T_FILE, concat f.2).
Proof. intros Hk. unfold contents. change ((?x :: ?l) !! Datatypes.S ?k) with (l !! k). by rewrite list_lookup_fmap, Hk. Qed.

(** ** Properties *)

(** C12. mkfs writes a file system the kernel can read: whenever the files and the root directory fit in the blocks and
    the inodes, mkfs does not fail, the superblock describes the layout, the bitmap has exactly the bits of the blocks
    handed out, and inode [k + 1], loaded and mapped the way fs.c does it, has the type, the size and the bytes of
    the root directory or of the [k]-th argument, in data blocks that the bitmap marks as used. *)
Theorem mkfs_files files : Forall (fun f => 47 ∉ f.1) files -> fits (contents files) ->
  exists s, main files mkfs0 = Done tt s /\ readable_image s (contents files).
Proof. apply main_run. Qed.
Lemma mkfs_files_witness : exists s, main [([95; 97], [[1; 2]; [3]]); ([98], [])] mkfs0 = Done tt s /\
  readable_image s (contents [([95; 97], [[1; 2]; [3]]); ([98], [])]).
Proof.
  apply (mkfs_files [([95; 97], [[1; 2]; [3]]); ([98], [])]).
  - apply (bool_decide_unpack _). by vm_compute.
  - split; [by vm_compute| |by vm_compute]. intros k x Hk.
    assert (length x.2 <= 64)%nat as Hx; [|eapply Nat.le_trans; [exact Hx|]; apply Nat2Z.inj_le; rewrite Nat2Z.inj_mul; vm_compute; discriminate].
    do 3 (destruct k as [|k]; [injection Hk as <-; apply Nat.leb_le; reflexivity|]). discriminate Hk.
Defined.

(** C11. From mkfs to the kernel: on the image mkfs writes, readi() of the kernel (fs.c, over bio.c and memide.c) returns the
    bytes of the mkfs arguments.  The inode of argument [k], loaded as ilock() does, read at any [off] for any [n], gives the
    part of the file that lies there, and no buffer stays held. *)
Theorem mkfs_readi {S} `{!HasProc S} `{!HasBio S} `{!HasMemdisk S} `{!HasLog S} `{!HasFs S} `{!DevOps S}
    `{!LensIndep proc_lens bio_lens} `{!LensIndep proc_lens memdisk_lens} `{!LensIndep bio_lens memdisk_lens}
    `{!LensIndep log_lens proc_lens} `{!LensIndep log_lens bio_lens} `{!LensIndep log_lens memdisk_lens}
    `{!LensIndep fs_lens proc_lens} `{!LensIndep fs_lens bio_lens} `{!LensIndep fs_lens memdisk_lens}
    `{!LensIndep fs_lens log_lens} `{!LensIndep proc_lens fs_lens} `{!LensIndep log_lens fs_lens} files :
  Forall (fun f => 47 ∉ f.1) files -> fits (contents files) ->
  exists s0, main files mkfs0 = Done tt s0 /\ (forall b, length (mk_img s0 b) = BSIZE) /\
  forall c i pid F fuel st gsize v home t ip x k f buf off n (s : S),
  env F FSSIZE -> tx c i pid F FSSIZE st gsize s v home t -> v_cache v = mk_img s0 -> v_held v = ∅ -> spare v ->
  files !! k = Some f -> fs_icache t !! ip = Some x -> i_dev x = 1 ->
  x = load_dinode (mk_img s0 (IBLOCK (Z.of_nat k + 2) mk_sb)) (dinode_off (Z.of_nat k + 2)) x ->
  0 <= off < 2 ^ 32 -> 0 <= n < 2 ^ 32 ->
  let ops := bio_ops (DiskOps0 := memide_ops) fuel in
  let d := concat f.2 in
  wp (readi to_var buf ip off n) (fun r s' => tx c i pid F FSSIZE st gsize s' v home t /\
    r = if (Z.of_nat (length d) <? off) || (2 ^ 32 <=? off + n) then (-1, buf)
        else let m := Z.min n (Z.of_nat (length d) - off) in (m, set_bytes 0 (take (Z.to_nat m) (drop (Z.to_nat off) d)) buf)) s.
Proof.
  intros Hnames Hfits. destruct (main_run files Hnames Hfits) as (s0 & Hrun & Him). exists s0. split; [exact Hrun|].
  split; [apply (ri_len _ _ Him)|]. intros c i pid F fuel st gsize v home t ip x k f buf off n s He Hs Hv Hheld Hsp Hk Hx Hdev Eld Hoff Hn ops d.
  pose proof (ri_file _ _ Him _ _ _ (contents_file files k f Hk)) as Hf. cbn zeta in Hf.
  replace (Z.of_nat (Datatypes.S k) + 1) with (Z.of_nat k + 2) in Hf by lia. set (y := load_dinode _ _ inode0) in Hf.
  destruct Hf as (Hty & _ & Hsz & Hdata). destruct (Hdata v Hv) as (Hbytes & _ & Hmap). specialize (Hmap Hheld). cbn [Nat.eqb] in Hsz.
  assert (i_addrs y = i_addrs x) as Ea by (by rewrite Eld).
  assert (i_size x = Z.of_nat (length d)) as Ex by (rewrite Eld; exact Hsz).
  assert (i_type x = T_FILE) as Et by (rewrite Eld; exact Hty).
  pose proof (ft_each _ Hfits _ _ (contents_file files k f Hk)) as Hlen. cbn [snd] in Hlen. apply inj_le in Hlen.
  rewrite Nat2Z.inj_mul, Z2Nat.id in Hlen by done.
  eapply (readi_run c i pid F FSSIZE fuel He st gsize v home t ip x buf off n); [exact Hs|exact Hx|exact Hdev| |exact Hsp|exact Hoff|exact Hn| | |].
  - rewrite Et. discriminate.
  - rewrite Ex. split; [lia|exact Hlen].
  - intros q Hq Hlt. apply (mapped_addrs _ y x); [done|]. apply Hmap; [done|]. rewrite Ex in Hlt. exact Hlt.
  - intros s' Hs'. split; [exact Hs'|]. rewrite Ex. destruct (Z.ltb_spec (Z.of_nat (length d)) off); [done|]. cbn [orb].
    destruct (2 ^ 32 <=? off + n); [done|]. cbn zeta. do 2 f_equal. rewrite (file_bytes_addrs x y) by done.
    rewrite (file_bytes_part y v (Z.of_nat (length d))) by lia. unfold d. by rewrite Hbytes.
Qed.

(** *** Witness: a kernel that boots on the image of one file, and reads it *)
#[local] Existing Instances proc_f bio_f memdisk_f log_f fs_f dev_f indep_f1 indep_f2 indep_f3 indep_f4 indep_f5 indep_f6
  indep_f7 indep_f8 indep_f9 indep_f10 indep_f11 indep_f12.
Definition hello : list (list Z * list (list Z)) := [([97], [[104; 101]; [108; 108; 111]])].
Definition hello_x (I : Z -> list Z) : inode :=
  load_dinode (I (IBLOCK 2 mk_sb)) (dinode_off 2) (MkInode 1 2 1 sleeplock0 1 0 0 0 0 0 []).
Lemma hello_fits : fits (contents hello).
Proof.
  split; [by vm_compute| |by vm_compute]. intros k x Hk.
  assert (length x.2 <= 64)%nat as Hx; [|eapply Nat.le_trans; [exact Hx|]; apply Nat2Z.inj_le; rewrite Nat2Z.inj_mul; vm_compute; discriminate].
  do 2 (destruct k as [|k]; [injection Hk as <-; apply Nat.leb_le; reflexivity|]). discriminate Hk.
Qed.
Lemma mkfs_readi_witness : exists s0, main hello mkfs0 = Done tt s0 /\
  wp (S := kern_f) (binit;;; readi (BlockOps0 := bio_ops (DiskOps0 := memide_ops) 0) to_var (replicate 6 0) 0 1 10)
    (fun r _ => r = (4, [101; 108; 108; 111; 0; 0]))
    (kern_fD (mk_img s0) (MkFs mk_sb (hello_x (mk_img s0) :: replicate 49 inode0))).
Proof.
  destruct (mkfs_readi (S := kern_f) hello) as (s0 & Hrun & Hlen & Hread); [apply (bool_decide_unpack _); by vm_compute|exact hello_fits|].
  exists s0. split; [exact Hrun|]. apply wp_bind. eapply wp_mono; [|apply binit_fD; intros b _; apply Hlen]. intros [] s Hs.
  eapply wp_mono; [|exact (Hread 0%nat 0%nat 1 locks_f 0%nat 2 30 _ [] _ 0%nat (hello_x (mk_img s0)) 0%nat ([97], [[104; 101]; [108; 108; 111]]) (replicate 6 0) 1 10 s
    env_f Hs eq_refl eq_refl ltac:(vm_compute; lia) eq_refl eq_refl eq_refl eq_refl ltac:(lia) ltac:(lia))].
  intros r s' [_ ->]. vm_compute. reflexivity.
Defined.
